(** * wd-wsdlint: pruning a WSDL document to a set of operations

    A shallow embedding of [wd-wsdlint.py].  The lxml tree is a rose tree
    of elements; every element carries the identity of the Python object
    that stands for it, so that [b is target_binding] and in-place
    mutation through a handle can be written down.  Exceptions are values
    of [exn]; the pipeline returns the tree as it is when it stops. *)

From Stdlib Require Import List String Ascii Bool Arith Lia.
Import ListNotations.
Open Scope string_scope.
Open Scope list_scope.
Set Warnings "-register-all".

(** ** Namespaces and tags *)

Definition WSDL_NS := "http://schemas.xmlsoap.org/wsdl/".
Definition XSD_NS := "http://www.w3.org/2001/XMLSchema".
Definition WSP_NS := "http://schemas.xmlsoap.org/ws/2004/09/policy".
Definition SOAPBIND_NS := "http://schemas.xmlsoap.org/wsdl/soap/".
Definition SOAP12_NS := "http://schemas.xmlsoap.org/wsdl/soap12/".

(** lxml spells the tag of an element [{namespace}local]. *)
Definition clark (ns local : string) : string :=
  ("{" ++ ns ++ "}" ++ local)%string.

Definition wsdl_service := clark WSDL_NS "service".
Definition wsdl_port := clark WSDL_NS "port".
Definition wsdl_binding := clark WSDL_NS "binding".
Definition wsdl_portType := clark WSDL_NS "portType".
Definition wsdl_operation := clark WSDL_NS "operation".
Definition wsdl_input := clark WSDL_NS "input".
Definition wsdl_output := clark WSDL_NS "output".
Definition wsdl_fault := clark WSDL_NS "fault".
Definition wsdl_message := clark WSDL_NS "message".
Definition wsdl_part := clark WSDL_NS "part".
Definition wsdl_types := clark WSDL_NS "types".
Definition xsd_schema := clark XSD_NS "schema".
Definition xsd_element := clark XSD_NS "element".
Definition xsd_complexType := clark XSD_NS "complexType".
Definition xsd_simpleType := clark XSD_NS "simpleType".
Definition xsd_import := clark XSD_NS "import".
Definition xsd_include := clark XSD_NS "include".
Definition wsp_Policy := clark WSP_NS "Policy".
Definition wsp_UsingPolicy := clark WSP_NS "UsingPolicy".
Definition soapbind_binding := clark SOAPBIND_NS "binding".
Definition soap12_binding := clark SOAP12_NS "binding".

(** ** The element tree *)

(** [eid] is the identity of the node object: two handles are the same
    object ([is]) when their [eid]s are equal. *)
Inductive Element : Type :=
| Elem (eid : nat) (tag : string) (attrib : list (string * string))
       (children : list Element).

Definition eid (e : Element) : nat := match e with Elem i _ _ _ => i end.
Definition tag (e : Element) : string := match e with Elem _ t _ _ => t end.
Definition attrib (e : Element) : list (string * string) :=
  match e with Elem _ _ a _ => a end.
Definition children (e : Element) : list Element :=
  match e with Elem _ _ _ cs => cs end.

Definition set_children (e : Element) (cs : list Element) : Element :=
  Elem (eid e) (tag e) (attrib e) cs.

(** [e.get(name)]: [None] when the attribute is absent. *)
Fixpoint lookup (name : string) (a : list (string * string)) : option string :=
  match a with
  | [] => None
  | (k, v) :: r => if String.eqb k name then Some v else lookup name r
  end.

Definition get (e : Element) (name : string) : option string :=
  lookup name (attrib e).

(** Python truthiness of [e.get(name)]: present and not empty. *)
Definition truthy (o : option string) : option string :=
  match o with
  | Some "" => None
  | Some s => Some s
  | None => None
  end.

Definition opt_eqb (a b : option string) : bool :=
  match a, b with
  | Some x, Some y => String.eqb x y
  | None, None => true
  | _, _ => false
  end.

Arguments opt_eqb a b : simpl nomatch.

(** [x in s] for a set of strings; the value looked up may be [None]. *)
Definition mem_opt (o : option string) (s : list (option string)) : bool :=
  existsb (opt_eqb o) s.

Definition mem_str (o : option string) (s : list string) : bool :=
  mem_opt o (map Some s).

Definition is_tag (t : string) (e : Element) : bool := String.eqb (tag e) t.

(** [e.findall(t)] and [e.find(t)] for a one-step path: the children
    with that tag, in document order. *)
Definition findall (e : Element) (t : string) : list Element :=
  filter (is_tag t) (children e).

Definition find (e : Element) (t : string) : option Element :=
  hd_error (findall e t).

(** [for x in list(e.findall(..)): if p(x): x.getparent().remove(x)],
    where [p] already tests the tag. *)
Definition remove_children (p : Element -> bool) (e : Element) : Element :=
  set_children e (filter (fun c => negb (p c)) (children e)).

(** In-place mutation of the child of [root] that is the object [h]. *)
Definition modify (h : Element) (f : Element -> Element) (root : Element)
  : Element :=
  set_children root
    (map (fun c => if Nat.eqb (eid c) (eid h) then f c else c) (children root)).

(** [h.getparent().remove(h)] for a child [h] of [root]. *)
Definition remove_node (h : Element) (root : Element) : Element :=
  set_children root
    (filter (fun c => negb (Nat.eqb (eid c) (eid h))) (children root)).

(** Document order: the element, then its descendants ([e.iter()]). *)
Fixpoint iter (e : Element) : list Element :=
  match e with
  | Elem _ _ _ cs => e :: flat_map iter cs
  end.

Definition descendants (e : Element) : list Element := flat_map iter (children e).

Definition ids (e : Element) : list nat := map eid (iter e).

(** The XPath [.//@a]: the values of attribute [a] on the element and on
    every descendant, in document order. *)
Definition attr_values (a : string) (e : Element) : list string :=
  flat_map (fun n => match get n a with Some v => [v] | None => [] end) (iter e).

(** ** Exceptions *)

Inductive exn : Type := ValueError | IndexError | AttributeError.

Inductive result (A : Type) : Type :=
| Ok (a : A)
| Raise (e : exn).
Arguments Ok {A} a.
Arguments Raise {A} e.

Definition bind {A B} (r : result A) (k : A -> result B) : result B :=
  match r with
  | Ok a => k a
  | Raise e => Raise e
  end.

Notation "x <- r ;; k" := (bind r (fun x => k))
  (at level 61, r at next level, right associativity).

(** Left-to-right evaluation that stops at the first exception. *)
Fixpoint mapM {A B} (f : A -> result B) (l : list A) : result (list B) :=
  match l with
  | [] => Ok []
  | x :: r => y <- f x ;; ys <- mapM f r ;; Ok (y :: ys)
  end.

(** The tree together with how the run stopped. *)
Inductive outcome : Type :=
| Completed (t : Element)
| Aborted (e : exn) (t : Element).

Notation "'try' x <- r 'leaving' t ;; k" :=
  (match r with
   | Ok x => k
   | Raise e => Some (Aborted e t)
   end)
  (at level 61, x pattern, r at next level, right associativity).

(** ** Qualified names *)

(** [s.split(':', 1)] when it yields two parts. *)
Fixpoint split_colon (s : string) : option (string * string) :=
  match s with
  | EmptyString => None
  | String c r =>
      if Ascii.eqb c ":" then Some (EmptyString, r)
      else match split_colon r with
           | Some (p, l) => Some (String c p, l)
           | None => None
           end
  end.

(** [':' in s] *)
Definition has_colon (s : string) : bool :=
  match split_colon s with Some _ => true | None => false end.

(** [(qn.namespace, qn.localname)] *)
Definition key : Type := option string * string.

Definition key_eqb (a b : key) : bool :=
  opt_eqb (fst a) (fst b) && String.eqb (snd a) (snd b).

Definition mem_key (k : key) (s : list key) : bool := existsb (key_eqb k) s.

Definition mem_nat (n : nat) (s : list nat) : bool := existsb (Nat.eqb n) s.

(** [l.insert(n, x)]: a position past the end appends. *)
Definition insert_at {A} (n : nat) (x : A) (l : list A) : list A :=
  firstn n l ++ x :: skipn n l.

Definition insert (n : nat) (x : Element) (e : Element) : Element :=
  set_children e (insert_at n x (children e)).

(** The object behind handle [h] as it is now among the children of
    [root]; a node no longer there is the handle itself. *)
Definition deref (root h : Element) : Element :=
  match List.find (fun c => Nat.eqb (eid c) (eid h)) (children root) with
  | Some c => c
  | None => h
  end.

(** Writing the value [n] of an object back at its place under [root]. *)
Definition store (n : Element) (root : Element) : Element :=
  modify n (fun _ => n) root.

(** Mutation of the nodes whose identity is in [handles], wherever they
    are below [e]; [f] looks at tags and attributes of the children only,
    so the children are rebuilt first. *)
Fixpoint update_nodes (handles : list nat) (f : Element -> Element)
  (e : Element) : Element :=
  match e with
  | Elem i t a cs =>
      let e' := Elem i t a (map (update_nodes handles f) cs) in
      if mem_nat i handles then f e' else e'
  end.

Section Pruner.

(** [etree.QName(ns, local)] of lxml: [None] when the constructor raises
    [ValueError] (a local part that is no tag name), else the
    [(namespace, localname)] of the object it builds. *)
Variable QName : option string -> string -> option key.

(** [root.nsmap]: the prefix bindings in scope at the document element. *)
Variable nsmap : list (string * string).

(** [resolve_qname(root, qname_str)] with no [tag]. *)
Definition resolve_qname (qname_str : string) : result key :=
  match split_colon qname_str with
  | None => Raise ValueError
  | Some (prefix, local) =>
      match QName (lookup prefix nsmap) local with
      | Some qn => Ok qn
      | None => Raise ValueError
      end
  end.

(** [resolve_qname(root, qname_str, tag=t)]: the first child of [root]
    with tag [t] and that name; the argument is [None] when the caller
    read an absent attribute. *)
Definition resolve_qname_in (root : Element) (qname_str : option string)
  (t : string) : result (option Element) :=
  match qname_str with
  | None => Raise AttributeError
  | Some s =>
      match split_colon s with
      | None => Raise ValueError
      | Some (_, local) =>
          Ok (List.find (fun el => opt_eqb (get el "name") (Some local))
                (findall root t))
      end
  end.

Definition find_service (root : Element) (service_name : string)
  : result Element :=
  match List.find (fun svc => opt_eqb (get svc "name") (Some service_name))
          (findall root wsdl_service) with
  | Some svc => Ok svc
  | None => Raise ValueError
  end.

Definition binding_for_port (root port : Element) : result (option Element) :=
  resolve_qname_in root (get port "binding") wsdl_binding.

Definition porttype_for_binding (root binding : Element)
  : result (option Element) :=
  resolve_qname_in root (get binding "type") wsdl_portType.

Definition prune_porttype_operations (keep_ops : list string)
  (porttype : Element) : Element :=
  remove_children
    (fun op => is_tag wsdl_operation op
               && negb (mem_str (get op "name") keep_ops)) porttype.

Definition message_of (child : Element) : list string :=
  match truthy (get child "message") with
  | Some m => [m]
  | None => []
  end.

(** The set [msgs], listed in the order the loop meets its members. *)
Definition collect_messages_from_porttype (porttype : Element) : list string :=
  flat_map
    (fun op =>
       flat_map
         (fun child_tag =>
            match find op child_tag with
            | Some child => message_of child
            | None => []
            end) [wsdl_input; wsdl_output]
       ++ flat_map message_of (findall op wsdl_fault))
    (findall porttype wsdl_operation).

Definition local_of (q : string) : result string :=
  match split_colon q with
  | Some (_, local) => Ok local
  | None => Raise IndexError
  end.

Definition find_messages (root : Element) (message_qnames : list string)
  : result (list Element) :=
  names <- mapM local_of message_qnames ;;
  Ok (filter (fun msg => mem_str (get msg "name") names)
        (findall root wsdl_message)).

Definition prune_messages (keep_messages : list Element) (root : Element)
  : Element :=
  let keep_names := map (fun m => get m "name") keep_messages in
  remove_children
    (fun msg => is_tag wsdl_message msg
                && negb (mem_opt (get msg "name") keep_names)) root.

Definition part_refs (part : Element) : list string :=
  flat_map
    (fun attr => match truthy (get part attr) with
                 | Some v => [v]
                 | None => []
                 end) ["element"; "type"].

Definition message_refs (msg : Element) : list string :=
  flat_map part_refs (findall msg wsdl_part).

Definition collect_schema_qnames_from_messages (messages : list Element)
  : result (list key) :=
  mapM resolve_qname (flat_map message_refs messages).

(** ** The declaration index and the reachability resolver *)

(** [root.findall('.//wsdl:types/xsd:schema')]: the [xsd:schema] children
    of every [wsdl:types] below [root], at any depth. *)
Definition find_schemas (root : Element) : list Element :=
  flat_map (fun t => findall t xsd_schema)
    (filter (is_tag wsdl_types) (descendants root)).

(** A key of [by_name]: [(tns, name)], either of which may be [None]. *)
Definition index_key : Type := option string * option string.

Definition index_key_eqb (a b : index_key) : bool :=
  opt_eqb (fst a) (fst b) && opt_eqb (snd a) (snd b).

Definition index_schema (sch : Element) : list (index_key * Element) :=
  let tns := get sch "targetNamespace" in
  flat_map (fun t => map (fun el => ((tns, get el "name"), el)) (findall sch t))
    [xsd_element; xsd_complexType; xsd_simpleType].

(** [by_name], as the list of its [(key, node)] entries in the order
    they are appended. *)
Definition build_index (schemas : list Element) : list (index_key * Element) :=
  flat_map index_schema schemas.

(** [by_name.get(key, [])] *)
Definition by_name_get (by_name : list (index_key * Element)) (k : key)
  : list Element :=
  map snd
    (filter (fun kn => index_key_eqb (fst kn) (fst k, Some (snd k))) by_name).

(** The attribute values [add_refs] follows: those of [type], [ref] and
    [base] that contain a colon. *)
Definition refs_of (node : Element) : list string :=
  flat_map (fun attr => filter has_colon (attr_values attr node))
    ["type"; "ref"; "base"].

(** What the loop does, for the properties that speak of its order. *)
Inductive event : Type :=
| Marked (k : key)
| Pushed (src k : key).

(** The worklist: the head of [queue] is the last element of the Python
    list, which [queue.pop()] takes; [trace] has the latest event first. *)
Record worklist : Type := Worklist {
  queue : list key;
  keep : list key;
  trace : list event
}.

(** [for node in by_name.get(key, []): add_refs(node)] *)
Fixpoint expand (k : key) (nodes : list Element) (w : worklist)
  : result worklist :=
  match nodes with
  | [] => Ok w
  | node :: rest =>
      qns <- mapM resolve_qname (refs_of node) ;;
      expand k rest
        (Worklist (rev qns ++ queue w) (keep w)
           (rev (map (Pushed k) qns) ++ trace w))
  end.

(** [while queue: ...], at most [fuel] iterations; [None] when the loop
    has not ended by then. *)
Fixpoint bfs (fuel : nat) (by_name : list (index_key * Element))
  (w : worklist) : option (result worklist) :=
  match fuel with
  | 0 => None
  | S fuel' =>
      match queue w with
      | [] => Some (Ok w)
      | qn :: rest =>
          if mem_key qn (keep w)
          then bfs fuel' by_name (Worklist rest (keep w) (trace w))
          else
            match expand qn (by_name_get by_name qn)
                    (Worklist rest (qn :: keep w) (Marked qn :: trace w)) with
            | Ok w' => bfs fuel' by_name w'
            | Raise e => Some (Raise e)
            end
      end
  end.

(** Every iteration takes one key off the worklist, and a key is put on
    it once per seed and once per followed attribute of an indexed node. *)
Definition worklist_bound (seeds : list key)
  (by_name : list (index_key * Element)) : nat :=
  S (List.length seeds
     + list_sum (map (fun kn => List.length (refs_of (snd kn))) by_name)).

Definition run_worklist (seed_qnames : list key)
  (by_name : list (index_key * Element)) : option (result worklist) :=
  bfs (worklist_bound seed_qnames by_name) by_name
    (Worklist (rev seed_qnames) [] []).

Definition reachable_schema_items (root : Element) (seed_qnames : list key)
  : option (result (list key * list Element * list (index_key * Element))) :=
  let schemas := find_schemas root in
  let by_name := build_index schemas in
  match run_worklist seed_qnames by_name with
  | Some (Ok w) => Some (Ok (keep w, schemas, by_name))
  | Some (Raise e) => Some (Raise e)
  | None => None
  end.

(** ** Structural pruning *)

(** The body of the loop of [prune_schemas] for one schema. *)
Definition prune_schema_node (keep_keys : list key) (sch : Element) : Element :=
  let tns := get sch "targetNamespace" in
  let unkept (t : string) (node : Element) : bool :=
    is_tag t node
    && match get node "name" with
       | None => false
       | Some name => negb (mem_key (tns, name) keep_keys)
       end in
  let sch' :=
    fold_left (fun s t => remove_children (unkept t) s)
      [xsd_element; xsd_complexType; xsd_simpleType] sch in
  remove_children (fun imp => is_tag xsd_import imp || is_tag xsd_include imp)
    sch'.

Definition prune_schemas (keep_keys : list key) (schemas : list Element)
  (root : Element) : Element :=
  update_nodes (map eid schemas) (prune_schema_node keep_keys) root.

Definition prune_binding_operations (keep_ops : list string)
  (binding : Element) : Element :=
  remove_children
    (fun bop => is_tag wsdl_operation bop
                && negb (mem_str (get bop "name") keep_ops)) binding.

Definition is_soap12_binding (binding : Element) : bool :=
  match find binding soapbind_binding with
  | Some _ => true
  | None => false
  end.

(** [binding.remove(binding.find(t))] when there is such a child. *)
Definition remove_first (t : string) (binding : Element) : Element :=
  match find binding t with
  | Some n => remove_node n binding
  | None => binding
  end.

(** The binding as it is when the function returns or raises.  The
    nodes taken from the fragment move into the binding. *)
Definition attach_policy_to_binding (binding policy_root : Element) : outcome :=
  let b1 := remove_first wsp_UsingPolicy binding in
  match findall policy_root wsp_UsingPolicy with
  | [] => Aborted IndexError b1
  | using_node :: _ =>
      let b2 := insert 1 using_node b1 in
      let b3 := remove_first wsp_Policy b2 in
      match findall policy_root wsp_Policy with
      | [] => Aborted IndexError b3
      | pol :: _ => Completed (insert 2 pol b3)
      end
  end.

Definition prune_existing_policy (root : Element) : Element :=
  remove_children (is_tag wsp_UsingPolicy)
    (remove_children (is_tag wsp_Policy) root).

(** The loop of [prune_bindings] over the snapshot [bs] of the bindings. *)
Fixpoint prune_bindings_loop (bs : list Element) (target_binding : Element)
  (keep_ops : list string) (policy_tree : option Element) (root : Element)
  : outcome :=
  match bs with
  | [] => Completed root
  | b :: rest =>
      if Nat.eqb (eid b) (eid target_binding) then
        let b1 := prune_binding_operations keep_ops b in
        let root1 := store b1 root in
        match policy_tree with
        | Some policy_root =>
            if is_soap12_binding b1 then
              let root2 := prune_existing_policy root1 in
              match attach_policy_to_binding b1 policy_root with
              | Completed b2 =>
                  prune_bindings_loop rest target_binding keep_ops policy_tree
                    (store b2 root2)
              | Aborted e b2 => Aborted e (store b2 root2)
              end
            else
              prune_bindings_loop rest target_binding keep_ops policy_tree root1
        | None =>
            prune_bindings_loop rest target_binding keep_ops policy_tree root1
        end
      else
        prune_bindings_loop rest target_binding keep_ops policy_tree
          (remove_node b root)
  end.

Definition prune_bindings (root target_binding : Element)
  (keep_ops : list string) (policy_tree : option Element) : outcome :=
  prune_bindings_loop (findall root wsdl_binding) target_binding keep_ops
    policy_tree root.

(** The loop of [prune_service_ports] over the snapshot [ports]; the
    service as it is when the loop ends or raises. *)
Fixpoint prune_ports_loop (ports : list Element) (target_name : option string)
  (service : Element) : outcome :=
  match ports with
  | [] => Completed service
  | port :: rest =>
      match truthy (get port "binding") with
      | None => prune_ports_loop rest target_name (remove_node port service)
      | Some bq =>
          match split_colon bq with
          | None => Aborted IndexError service
          | Some (_, local) =>
              if opt_eqb (Some local) target_name
              then prune_ports_loop rest target_name service
              else prune_ports_loop rest target_name (remove_node port service)
          end
      end
  end.

Definition prune_service_ports (service target_binding : Element) : outcome :=
  prune_ports_loop (findall service wsdl_port) (get target_binding "name")
    service.

Definition prune_unused_porttypes (target_porttype : Element) (root : Element)
  : Element :=
  remove_children
    (fun pt => is_tag wsdl_portType pt
               && negb (Nat.eqb (eid pt) (eid target_porttype))) root.

Definition prune_unreferenced_messages (keep_messages : list Element)
  (root : Element) : Element :=
  prune_messages keep_messages root.

Definition clean_unused_namespaces (root : Element) : Element := root.

(** ** The orchestrator *)

(** [prune_wsdl] between parsing and writing: [root] is the parsed
    document, [keep_ops] is [cfg['keep_operations']] and [policy_tree]
    the root of the parsed policy file, if one is configured.  [None]
    stands for a worklist loop that has not ended within its bound. *)
Definition prune_wsdl (root : Element) (service_name : string)
  (keep_ops : list string) (policy_tree : option Element) : option outcome :=
  try service <- find_service root service_name leaving root ;;
  match findall service wsdl_port with
  | [] => Some (Aborted ValueError root)
  | port0 :: _ =>
  try found_binding <- binding_for_port root port0 leaving root ;;
  match found_binding with
  | None => Some (Aborted ValueError root)
  | Some target_binding =>
  try found_porttype <- porttype_for_binding root target_binding leaving root ;;
  match found_porttype with
  | None => Some (Aborted ValueError root)
  | Some target_porttype =>
  (* 1) Prune portType operations *)
  let root1 := modify target_porttype (prune_porttype_operations keep_ops) root in
  let porttype1 := prune_porttype_operations keep_ops target_porttype in
  (* 2) Collect and prune messages *)
  let message_qnames := collect_messages_from_porttype porttype1 in
  try keep_messages <- find_messages root1 message_qnames leaving root1 ;;
  let root2 := prune_unreferenced_messages keep_messages root1 in
  (* 3) Collect schema dependencies and prune schemas *)
  try seed_qnames <- collect_schema_qnames_from_messages keep_messages
    leaving root2 ;;
  match reachable_schema_items root2 seed_qnames with
  | None => None
  | Some reached =>
  try (keep_keys, schemas, by_name) <- reached leaving root2 ;;
  let root3 := prune_schemas keep_keys schemas root2 in
  (* 4) Prune bindings and attach policy *)
  match prune_bindings root3 target_binding keep_ops policy_tree with
  | Aborted e root4 => Some (Aborted e root4)
  | Completed root4 =>
  (* 5) Prune service ports and other portTypes *)
  match prune_service_ports (deref root4 service) target_binding with
  | Aborted e service5 => Some (Aborted e (store service5 root4))
  | Completed service5 =>
  let root5 := store service5 root4 in
  let root6 := prune_unused_porttypes target_porttype root5 in
  (* 6) Optionally clean namespaces (noop to preserve prefixes) *)
  Some (Completed (clean_unused_namespaces root6))
  end end end end end end.

End Pruner.


(** ** The configuration *)

(** [load_config] and the reading of the service entry in [prune_wsdl],
    on the value [json.load] has built from the configuration file. *)
Module Config.

Inductive exn : Type := ValueError | KeyError | TypeError.

Inductive result (A : Type) : Type :=
| Ok (a : A)
| Raise (e : exn).
Arguments Ok {A} a.
Arguments Raise {A} e.

Definition bind {A B} (r : result A) (k : A -> result B) : result B :=
  match r with
  | Ok a => k a
  | Raise e => Raise e
  end.

Section Values.

(** The numbers of Python, [int] and [float]; the code only asks a
    number whether it is zero. *)
Variable number : Type.
Variable nonzero : number -> bool.

(** A Python value made by [json.load]: [None], a [bool], a number, a
    [str], a [list] or a [dict] with [str] keys, listed by key. *)
Inductive json : Type :=
| JNull
| JBool (b : bool)
| JNumber (n : number)
| JString (s : string)
| JArray (items : list json)
| JObject (members : list (string * json)).

(** [d.get(k)] on the members of a [dict]. *)
Fixpoint assoc (k : string) (members : list (string * json)) : option json :=
  match members with
  | [] => None
  | (k', v) :: r => if String.eqb k' k then Some v else assoc k r
  end.

(** [v[k]] for a [str] [k]: only a [dict] takes one. *)
Definition getitem (v : json) (k : string) : result json :=
  match v with
  | JObject members =>
      match assoc k members with
      | Some x => Ok x
      | None => Raise KeyError
      end
  | _ => Raise TypeError
  end.

Definition is_string (k : string) (v : json) : bool :=
  match v with
  | JString s => String.eqb s k
  | _ => false
  end.

(** [k in v] for a [str] [k]: a key of a [dict], an item of a [list],
    a substring of a [str]; the other values are not iterable. *)
Definition contains (k : string) (v : json) : result bool :=
  match v with
  | JObject members =>
      Ok (match assoc k members with Some _ => true | None => false end)
  | JArray items => Ok (existsb (is_string k) items)
  | JString s =>
      Ok (match String.index 0 k s with Some _ => true | None => false end)
  | _ => Raise TypeError
  end.

Definition load_config (cfg : json) (service_name : string) : result json :=
  bind (getitem cfg "wss") (fun wss =>
  bind (contains service_name wss) (fun present =>
  if negb present then Raise ValueError
  else bind (getitem cfg "wss") (fun wss' => getitem wss' service_name))).

(** The truth value of a Python value. *)
Definition truth (v : json) : bool :=
  match v with
  | JNull => false
  | JBool b => b
  | JNumber n => nonzero n
  | JString s => negb (String.eqb s "")
  | JArray items => match items with [] => false | _ => true end
  | JObject members => match members with [] => false | _ => true end
  end.

(** The test of line 230 on its own, ['policy_file' in cfg and
    cfg['policy_file']], with the value of [cfg['policy_file']] when it
    holds. *)
Definition policy_file (cfg : json) : result (option json) :=
  bind (contains "policy_file" cfg) (fun present =>
  if present then
    bind (getitem cfg "policy_file") (fun v =>
    if truth v then Ok (Some v) else Ok None)
  else Ok None).

(** Whether [hash(v)] is defined: not for a [list] or a [dict]. *)
Definition hashable (v : json) : bool :=
  match v with
  | JArray _ | JObject _ => false
  | _ => true
  end.

(** [set(v)], its members listed in the order of iteration: the items
    of a [list], which must be hashable, the keys of a [dict], the
    characters of a [str]. *)
Definition set_of (v : json) : result (list json) :=
  match v with
  | JArray items =>
      if forallb hashable items then Ok items else Raise TypeError
  | JObject members => Ok (map (fun kv => JString (fst kv)) members)
  | JString s =>
      Ok (map (fun c => JString (String c EmptyString))
            (list_ascii_of_string s))
  | _ => Raise TypeError
  end.

(** What [prune_wsdl] reads from the service entry before it touches
    the document: [keep_ops = set(cfg['keep_operations'])], then the
    argument it gives [build_policy_tree], if it calls it. *)
Definition settings (cfg : json) : result (list json * option json) :=
  bind (getitem cfg "keep_operations") (fun ko =>
  bind (set_of ko) (fun keep_ops =>
  bind (policy_file cfg) (fun file => Ok (keep_ops, file)))).

End Values.

End Config.
(** ** Vocabulary of the statements *)

(** Whether the entries of [by_name] under an index key are already
    taken: the key has a name and is in [keep]. *)
Definition marked (kp : list key) (ik : index_key) : bool :=
  match snd ik with
  | Some n => mem_key (fst ik, n) kp
  | None => false
  end.

(** The pushes still to come: the followed attributes of the entries
    whose key is not in [keep] yet. *)
Definition pending (by_name : list (index_key * Element)) (kp : list key)
  : nat :=
  list_sum
    (map (fun kn => if marked kp (fst kn) then 0
                    else List.length (refs_of (snd kn))) by_name).

Definition potential (by_name : list (index_key * Element)) (w : worklist)
  : nat :=
  List.length (queue w) + pending by_name (keep w).

(** The keys marked in a trace, latest first. *)
Definition marks (tr : list event) : list key :=
  flat_map (fun e => match e with Marked k => [k] | Pushed _ _ => [] end) tr.

(** A trace made of blocks: a key not marked before is marked, then the
    references found under it are pushed, and nothing else is. *)
Inductive well_logged : list event -> Prop :=
| wl_nil : well_logged []
| wl_block (k : key) (pushes : list key) (tr : list event) :
    well_logged tr -> ~ In k (marks tr) ->
    well_logged (map (Pushed k) pushes ++ Marked k :: tr).

(** C2 as the specification words it: once [k] is marked, no later event
    pushes [k]. *)
Definition never_pushed_once_marked (tr : list event) : Prop :=
  forall later earlier src k,
    tr = later ++ Pushed src k :: earlier -> ~ In (Marked k) earlier.

Section Loop_invariants.

Variable QName : option string -> string -> option key.
Variable nsmap : list (string * string).
Variable by_name : list (index_key * Element).

Definition logged (w : worklist) : Prop :=
  well_logged (trace w) /\ marks (trace w) = keep w.

Definition pushes_have_nodes (w : worklist) : Prop :=
  forall src x, In (Pushed src x) (trace w) -> by_name_get by_name src <> [].

Definition pushes_prefixed (w : worklist) : Prop :=
  forall src k, In (Pushed src k) (trace w) ->
    exists node a v,
      In node (by_name_get by_name src) /\ In a ["type"; "ref"; "base"] /\
      In v (attr_values a node) /\ has_colon v = true /\
      resolve_qname QName nsmap v = Ok k.

Definition nothing_lost (seeds : list key) (w : worklist) : Prop :=
  forall k, In k seeds \/ (exists src, In (Pushed src k) (trace w)) ->
            In k (queue w) \/ In k (keep w).

(** A key is on the worklist or retained only if it is a seed or the
    resolution of an attribute followed under a retained key. *)
Definition justified (seeds kp : list key) (k : key) : Prop :=
  In k seeds \/
  exists src node v,
    In src kp /\ In node (by_name_get by_name src) /\
    In v (refs_of node) /\ resolve_qname QName nsmap v = Ok k.

Definition all_justified (seeds : list key) (w : worklist) : Prop :=
  forall k, In k (queue w) \/ In k (keep w) -> justified seeds (keep w) k.

End Loop_invariants.

(** The children [prune_schema_node] removes from a schema whose
    [targetNamespace] reads [tns]. *)
Definition child_unkept (keep_keys : list key) (tns : option string)
  (t : string) (node : Element) : bool :=
  is_tag t node
  && match get node "name" with
     | None => false
     | Some name => negb (mem_key (tns, name) keep_keys)
     end.

Definition schema_drops (keep_keys : list key) (tns : option string)
  (c : Element) : bool :=
  child_unkept keep_keys tns xsd_element c
  || child_unkept keep_keys tns xsd_complexType c
  || child_unkept keep_keys tns xsd_simpleType c
  || is_tag xsd_import c || is_tag xsd_include c.

(** The four ways the lookups at the head of [prune_wsdl] fail. *)
Inductive lookup_fails (root : Element) (service_name : string) : Prop :=
| service_not_found :
    (forall svc, In svc (findall root wsdl_service) ->
                 get svc "name" <> Some service_name) ->
    lookup_fails root service_name
| port_missing (service : Element) :
    find_service root service_name = Ok service ->
    findall service wsdl_port = [] ->
    lookup_fails root service_name
| binding_unresolved (service port0 : Element) (ports : list Element) :
    find_service root service_name = Ok service ->
    findall service wsdl_port = port0 :: ports ->
    (forall b, binding_for_port root port0 <> Ok (Some b)) ->
    lookup_fails root service_name
| porttype_unresolved (service port0 binding : Element)
    (ports : list Element) :
    find_service root service_name = Ok service ->
    findall service wsdl_port = port0 :: ports ->
    binding_for_port root port0 = Ok (Some binding) ->
    (forall pt, porttype_for_binding root binding <> Ok (Some pt)) ->
    lookup_fails root service_name.

(** A stage that rewrites the children of the root one by one. *)
Definition per_child (g : Element -> list Element) (root : Element) : Element :=
  set_children root (flat_map g (children root)).

(** [l'] is [l] with some elements left out. *)
Inductive subseq {A : Type} : list A -> list A -> Prop :=
| subseq_nil : subseq [] []
| subseq_skip (x : A) (l' l : list A) : subseq l' l -> subseq l' (x :: l)
| subseq_keep (x : A) (l' l : list A) : subseq l' l -> subseq (x :: l') (x :: l).

(** The identities of the children of an element. *)
Definition top_ids (e : Element) : list nat := map eid (children e).

(** A tag the schema loop never removes. *)
Definition kept_tag (t : string) : Prop :=
  t <> xsd_element /\ t <> xsd_complexType /\ t <> xsd_simpleType
  /\ t <> xsd_import /\ t <> xsd_include.

(** Whether the loop of [prune_service_ports] keeps a port. *)
Definition port_kept (target_name : option string) (port : Element) : bool :=
  match truthy (get port "binding") with
  | None => false
  | Some bq =>
      match split_colon bq with
      | Some (_, local) => opt_eqb (Some local) target_name
      | None => false
      end
  end.

(** [h.getparent().remove(h)] for each handle of a list in turn. *)
Definition remove_nodes (hs : list Element) (root : Element) : Element :=
  fold_left (fun r h => remove_node h r) hs root.

(** What [prune_bindings] makes of a child of the root: the bindings
    other than the one with identity [target] go, the target becomes
    [binding'], and [strip] tells whether [prune_existing_policy] ran. *)
Definition bindings_stage (target : nat) (binding' : Element) (strip : bool)
  (c : Element) : list Element :=
  if strip && (is_tag wsp_Policy c || is_tag wsp_UsingPolicy c) then []
  else if is_tag wsdl_binding c
       then (if Nat.eqb (eid c) target then [binding'] else [])
       else [c].

(** What [prune_bindings] does with the target binding [b]: the binding
    it leaves and whether the root-level policy was stripped, or the
    exception of the policy step. *)
Definition target_binding_result (keep_ops : list string)
  (policy_tree : option Element) (b : Element) : (Element * bool) + exn :=
  let b1 := prune_binding_operations keep_ops b in
  match policy_tree with
  | Some policy_root =>
      if is_soap12_binding b1 then
        match attach_policy_to_binding b1 policy_root with
        | Completed b2 => inl (b2, true)
        | Aborted e _ => inr e
        end
      else inl (b1, false)
  | None => inl (b1, false)
  end.

(** The values a run that completes goes through, stage by stage. *)
Inductive completed_run (QName : option string -> string -> option key)
  (nsmap : list (string * string)) (root : Element) (service_name : string)
  (keep_ops : list string) (policy_tree : option Element) (out : Element)
  : Prop :=
| Run (service port0 target_binding target_porttype : Element)
    (ports keep_messages : list Element) (seed_qnames keep_keys : list key)
    (root4 service5 : Element) :
    find_service root service_name = Ok service ->
    findall service wsdl_port = port0 :: ports ->
    binding_for_port root port0 = Ok (Some target_binding) ->
    porttype_for_binding root target_binding = Ok (Some target_porttype) ->
    let root1 :=
      modify target_porttype (prune_porttype_operations keep_ops) root in
    find_messages root1
      (collect_messages_from_porttype
         (prune_porttype_operations keep_ops target_porttype))
    = Ok keep_messages ->
    let root2 := prune_messages keep_messages root1 in
    collect_schema_qnames_from_messages QName nsmap keep_messages
    = Ok seed_qnames ->
    reachable_schema_items QName nsmap root2 seed_qnames
    = Some (Ok (keep_keys, find_schemas root2,
                build_index (find_schemas root2))) ->
    prune_bindings (prune_schemas keep_keys (find_schemas root2) root2)
      target_binding keep_ops policy_tree = Completed root4 ->
    prune_service_ports (deref root4 service) target_binding
    = Completed service5 ->
    out = prune_unused_porttypes target_porttype (store service5 root4) ->
    completed_run QName nsmap root service_name keep_ops policy_tree out.

(** What a completed run makes of a child [c] of the root: [handles] and
    [keep_keys] drive the schema pruning, [keep_names] are the names of
    the kept messages, [binding'] and [service'] are what the target
    binding and the service have become, and [strip] tells whether the
    root-level policy was removed. *)
Definition final_child (handles : list nat) (keep_keys : list key)
  (keep_ops : list string) (keep_names : list (option string))
  (target_porttype target_binding service binding' service' : Element)
  (strip : bool) (c : Element) : list Element :=
  let pruned := update_nodes handles (prune_schema_node keep_keys) in
  if is_tag wsdl_message c then
    (if mem_opt (get c "name") keep_names then [pruned c] else [])
  else if is_tag wsdl_binding c then
    (if Nat.eqb (eid c) (eid target_binding) then [binding'] else [])
  else if is_tag wsdl_portType c then
    (if Nat.eqb (eid c) (eid target_porttype)
     then [pruned (prune_porttype_operations keep_ops c)] else [])
  else if strip && (is_tag wsp_Policy c || is_tag wsp_UsingPolicy c) then []
  else if Nat.eqb (eid c) (eid service) then [service'] else [pruned c].

(** What the first three stages make of a child of the root. *)
Definition upto_schemas (handles : list nat) (keep_keys : list key)
  (keep_ops : list string) (keep_names : list (option string))
  (target_porttype : Element) (c : Element) : list Element :=
  if is_tag wsdl_message c && negb (mem_opt (get c "name") keep_names)
  then []
  else [update_nodes handles (prune_schema_node keep_keys)
          (if Nat.eqb (eid c) (eid target_porttype)
           then prune_porttype_operations keep_ops c else c)].

(** The names of the operations of an interface or of a binding. *)
Definition op_names (e : Element) : list (option string) :=
  map (fun o => get o "name") (findall e wsdl_operation).

Ltac tag_facts :=
  repeat split;
  try (let H := fresh "Htag" in intro H; vm_compute in H; discriminate H).

(** A boolean test for a list of identities without repetition. *)
Fixpoint distinctb (l : list nat) : bool :=
  match l with
  | [] => true
  | x :: r => negb (mem_nat x r) && distinctb r
  end.

(** The ports of all the services of a document. *)
Definition all_ports (root : Element) : list Element :=
  flat_map (fun svc => findall svc wsdl_port) (findall root wsdl_service).

(** A fragment with exactly one child of a tag. *)
Definition exactly_one (t : string) (e : Element) : Prop :=
  exists n, findall e t = [n].

(** The key under which a child of a schema is indexed, when it is a
    named element, complex type or simple type. *)
Definition declared_key (sch item : Element) : option key :=
  if is_tag xsd_element item || is_tag xsd_complexType item
     || is_tag xsd_simpleType item
  then match get item "name" with
       | Some name => Some (get sch "targetNamespace", name)
       | None => None
       end
  else None.

(** [keep_keys] is the set the resolver returns in the run on [root]. *)
Definition retained_by_run (QName : option string -> string -> option key)
  (nsmap : list (string * string)) (root : Element) (service_name : string)
  (keep_ops : list string) (keep_keys : list key) : Prop :=
  exists service port0 ports target_binding target_porttype keep_messages
         seed_qnames,
    find_service root service_name = Ok service
    /\ findall service wsdl_port = port0 :: ports
    /\ binding_for_port root port0 = Ok (Some target_binding)
    /\ porttype_for_binding root target_binding = Ok (Some target_porttype)
    /\ let root1 :=
         modify target_porttype (prune_porttype_operations keep_ops) root in
       find_messages root1
         (collect_messages_from_porttype
            (prune_porttype_operations keep_ops target_porttype))
       = Ok keep_messages
       /\ collect_schema_qnames_from_messages QName nsmap keep_messages
          = Ok seed_qnames
       /\ let root2 := prune_messages keep_messages root1 in
          reachable_schema_items QName nsmap root2 seed_qnames
          = Some (Ok (keep_keys, find_schemas root2,
                      build_index (find_schemas root2))).

(** C1 on ports, as the specification words it: a port left in the
    output does not name a binding of the input that is gone. *)
Definition ports_name_surviving_bindings (root out : Element) : Prop :=
  forall p bq pre local b,
    In p (all_ports out) ->
    get p "binding" = Some bq -> split_colon bq = Some (pre, local) ->
    In b (findall root wsdl_binding) -> get b "name" = Some local ->
    exists b', In b' (findall out wsdl_binding) /\ get b' "name" = Some local.

(** Every [wsdl:types] element of the document is a child of the root. *)
Definition types_at_top (root : Element) : Prop :=
  forall c d, In c (children root) -> In d (descendants c) ->
              tag d <> wsdl_types.


(** ** Vocabulary of the further properties *)

Section Reachability.

Variable QName : option string -> string -> option key.
Variable nsmap : list (string * string).
Variable by_name : list (index_key * Element).
Variable seeds : list key.

(** The keys that can be reached from the seeds: a seed, or the
    resolution of a followed attribute value of a node the index holds
    under a key that can be reached. *)
Inductive reachable_key : key -> Prop :=
| reach_seed (k : key) : In k seeds -> reachable_key k
| reach_ref (src : key) (node : Element) (v : string) (k : key) :
    reachable_key src -> In node (by_name_get by_name src) ->
    In v (refs_of node) -> resolve_qname QName nsmap v = Ok k ->
    reachable_key k.

(** A followed attribute value, under a key that can be reached, that
    does not resolve. *)
Definition unresolvable_reference : Prop :=
  exists src node v,
    reachable_key src /\ In node (by_name_get by_name src)
    /\ In v (refs_of node) /\ resolve_qname QName nsmap v = Raise ValueError.

(** Everything on the worklist or retained can be reached. *)
Definition worklist_reachable (w : worklist) : Prop :=
  forall k, In k (queue w) \/ In k (keep w) -> reachable_key k.

(** Every followed attribute under a retained key has resolved, and its
    key is on the worklist or retained. *)
Definition worklist_expanded (w : worklist) : Prop :=
  forall src node v,
    In src (keep w) -> In node (by_name_get by_name src) ->
    In v (refs_of node) ->
    exists k, resolve_qname QName nsmap v = Ok k
              /\ (In k (queue w) \/ In k (keep w)).

End Reachability.

(** [l'] is [l] with some elements left out and the others replaced by
    elements related to them. *)
Inductive sublist_by {A : Type} (R : A -> A -> Prop)
  : list A -> list A -> Prop :=
| sb_nil : sublist_by R [] []
| sb_skip (x : A) (l' l : list A) :
    sublist_by R l' l -> sublist_by R l' (x :: l)
| sb_keep (x' x : A) (l' l : list A) :
    R x' x -> sublist_by R l' l -> sublist_by R (x' :: l') (x :: l).

(** [e'] is [e] with some subtrees deleted: the same node, and its
    children are children of [e], in their order, with subtrees deleted
    in turn.  No node is added, moved, renamed or given other
    attributes. *)
Inductive pruned_from : Element -> Element -> Prop :=
| pruned_node (i : nat) (t : string) (a : list (string * string))
    (cs' cs : list Element) :
    sublist_by pruned_from cs' cs ->
    pruned_from (Elem i t a cs') (Elem i t a cs).

(** The ways a run raises: the stage that raises, with the values the
    run has gone through before, the exception and the tree left. *)
Inductive raised_run (QName : option string -> string -> option key)
  (nsmap : list (string * string)) (root : Element) (service_name : string)
  (keep_ops : list string) (policy_tree : option Element)
  (e : exn) (t : Element) : Prop :=
| raised_no_service :
    find_service root service_name = Raise ValueError ->
    e = ValueError -> t = root ->
    raised_run QName nsmap root service_name keep_ops policy_tree e t
| raised_no_port (service : Element) :
    find_service root service_name = Ok service ->
    findall service wsdl_port = [] ->
    e = ValueError -> t = root ->
    raised_run QName nsmap root service_name keep_ops policy_tree e t
| raised_binding_lookup (service port0 : Element) (ports : list Element) :
    find_service root service_name = Ok service ->
    findall service wsdl_port = port0 :: ports ->
    binding_for_port root port0 = Raise e ->
    e = ValueError \/ e = AttributeError -> t = root ->
    raised_run QName nsmap root service_name keep_ops policy_tree e t
| raised_no_binding (service port0 : Element) (ports : list Element) :
    find_service root service_name = Ok service ->
    findall service wsdl_port = port0 :: ports ->
    binding_for_port root port0 = Ok None ->
    e = ValueError -> t = root ->
    raised_run QName nsmap root service_name keep_ops policy_tree e t
| raised_porttype_lookup (service port0 target_binding : Element)
    (ports : list Element) :
    find_service root service_name = Ok service ->
    findall service wsdl_port = port0 :: ports ->
    binding_for_port root port0 = Ok (Some target_binding) ->
    porttype_for_binding root target_binding = Raise e ->
    e = ValueError \/ e = AttributeError -> t = root ->
    raised_run QName nsmap root service_name keep_ops policy_tree e t
| raised_no_porttype (service port0 target_binding : Element)
    (ports : list Element) :
    find_service root service_name = Ok service ->
    findall service wsdl_port = port0 :: ports ->
    binding_for_port root port0 = Ok (Some target_binding) ->
    porttype_for_binding root target_binding = Ok None ->
    e = ValueError -> t = root ->
    raised_run QName nsmap root service_name keep_ops policy_tree e t
| raised_in_find_messages
    (service port0 target_binding target_porttype : Element)
    (ports : list Element) :
    find_service root service_name = Ok service ->
    findall service wsdl_port = port0 :: ports ->
    binding_for_port root port0 = Ok (Some target_binding) ->
    porttype_for_binding root target_binding = Ok (Some target_porttype) ->
    let root1 :=
      modify target_porttype (prune_porttype_operations keep_ops) root in
    find_messages root1
      (collect_messages_from_porttype
         (prune_porttype_operations keep_ops target_porttype))
    = Raise IndexError ->
    e = IndexError -> t = root1 ->
    raised_run QName nsmap root service_name keep_ops policy_tree e t
| raised_in_part_references
    (service port0 target_binding target_porttype : Element)
    (ports keep_messages : list Element) :
    find_service root service_name = Ok service ->
    findall service wsdl_port = port0 :: ports ->
    binding_for_port root port0 = Ok (Some target_binding) ->
    porttype_for_binding root target_binding = Ok (Some target_porttype) ->
    let root1 :=
      modify target_porttype (prune_porttype_operations keep_ops) root in
    find_messages root1
      (collect_messages_from_porttype
         (prune_porttype_operations keep_ops target_porttype))
    = Ok keep_messages ->
    collect_schema_qnames_from_messages QName nsmap keep_messages
    = Raise ValueError ->
    e = ValueError -> t = prune_messages keep_messages root1 ->
    raised_run QName nsmap root service_name keep_ops policy_tree e t
| raised_in_schema_references
    (service port0 target_binding target_porttype : Element)
    (ports keep_messages : list Element) (seed_qnames : list key) :
    find_service root service_name = Ok service ->
    findall service wsdl_port = port0 :: ports ->
    binding_for_port root port0 = Ok (Some target_binding) ->
    porttype_for_binding root target_binding = Ok (Some target_porttype) ->
    let root1 :=
      modify target_porttype (prune_porttype_operations keep_ops) root in
    find_messages root1
      (collect_messages_from_porttype
         (prune_porttype_operations keep_ops target_porttype))
    = Ok keep_messages ->
    let root2 := prune_messages keep_messages root1 in
    collect_schema_qnames_from_messages QName nsmap keep_messages
    = Ok seed_qnames ->
    reachable_schema_items QName nsmap root2 seed_qnames
    = Some (Raise ValueError) ->
    e = ValueError -> t = root2 ->
    raised_run QName nsmap root service_name keep_ops policy_tree e t
| raised_in_policy
    (service port0 target_binding target_porttype : Element)
    (ports keep_messages : list Element) (seed_qnames keep_keys : list key) :
    find_service root service_name = Ok service ->
    findall service wsdl_port = port0 :: ports ->
    binding_for_port root port0 = Ok (Some target_binding) ->
    porttype_for_binding root target_binding = Ok (Some target_porttype) ->
    let root1 :=
      modify target_porttype (prune_porttype_operations keep_ops) root in
    find_messages root1
      (collect_messages_from_porttype
         (prune_porttype_operations keep_ops target_porttype))
    = Ok keep_messages ->
    let root2 := prune_messages keep_messages root1 in
    collect_schema_qnames_from_messages QName nsmap keep_messages
    = Ok seed_qnames ->
    reachable_schema_items QName nsmap root2 seed_qnames
    = Some (Ok (keep_keys, find_schemas root2,
                build_index (find_schemas root2))) ->
    policy_tree <> None ->
    prune_bindings (prune_schemas keep_keys (find_schemas root2) root2)
      target_binding keep_ops policy_tree = Aborted IndexError t ->
    e = IndexError ->
    raised_run QName nsmap root service_name keep_ops policy_tree e t
| raised_in_ports
    (service port0 target_binding target_porttype : Element)
    (ports keep_messages : list Element) (seed_qnames keep_keys : list key)
    (root4 service5 : Element) :
    find_service root service_name = Ok service ->
    findall service wsdl_port = port0 :: ports ->
    binding_for_port root port0 = Ok (Some target_binding) ->
    porttype_for_binding root target_binding = Ok (Some target_porttype) ->
    let root1 :=
      modify target_porttype (prune_porttype_operations keep_ops) root in
    find_messages root1
      (collect_messages_from_porttype
         (prune_porttype_operations keep_ops target_porttype))
    = Ok keep_messages ->
    let root2 := prune_messages keep_messages root1 in
    collect_schema_qnames_from_messages QName nsmap keep_messages
    = Ok seed_qnames ->
    reachable_schema_items QName nsmap root2 seed_qnames
    = Some (Ok (keep_keys, find_schemas root2,
                build_index (find_schemas root2))) ->
    prune_bindings (prune_schemas keep_keys (find_schemas root2) root2)
      target_binding keep_ops policy_tree = Completed root4 ->
    prune_service_ports (deref root4 service) target_binding
    = Aborted IndexError service5 ->
    e = IndexError -> t = store service5 root4 ->
    raised_run QName nsmap root service_name keep_ops policy_tree e t.

(** A run that gets as far as [prune_bindings]: the lookups and the
    first three stages succeed, and [root3] is the tree that
    [prune_bindings] is called on. *)
Inductive reaches_bindings (QName : option string -> string -> option key)
  (nsmap : list (string * string)) (root : Element) (service_name : string)
  (keep_ops : list string)
  (service target_binding target_porttype root3 : Element) : Prop :=
| Reaches (port0 : Element) (ports keep_messages : list Element)
    (seed_qnames keep_keys : list key) :
    find_service root service_name = Ok service ->
    findall service wsdl_port = port0 :: ports ->
    binding_for_port root port0 = Ok (Some target_binding) ->
    porttype_for_binding root target_binding = Ok (Some target_porttype) ->
    let root1 :=
      modify target_porttype (prune_porttype_operations keep_ops) root in
    find_messages root1
      (collect_messages_from_porttype
         (prune_porttype_operations keep_ops target_porttype))
    = Ok keep_messages ->
    let root2 := prune_messages keep_messages root1 in
    collect_schema_qnames_from_messages QName nsmap keep_messages
    = Ok seed_qnames ->
    reachable_schema_items QName nsmap root2 seed_qnames
    = Some (Ok (keep_keys, find_schemas root2,
                build_index (find_schemas root2))) ->
    root3 = prune_schemas keep_keys (find_schemas root2) root2 ->
    reaches_bindings QName nsmap root service_name keep_ops
      service target_binding target_porttype root3.

(** *** References and the declarations they name *)

(** The messages an operation of an interface names that
    [collect_messages_from_porttype] reads: those of its first input,
    of its first output and of its faults. *)
Definition collected_message_refs (op : Element) : list string :=
  flat_map
    (fun child_tag =>
       match find op child_tag with
       | Some child => message_of child
       | None => []
       end) [wsdl_input; wsdl_output]
  ++ flat_map message_of (findall op wsdl_fault).

(** The messages an operation of an interface names: those of all its
    inputs, outputs and faults. *)
Definition operation_message_refs (op : Element) : list string :=
  flat_map message_of
    (filter (fun c => is_tag wsdl_input c || is_tag wsdl_output c
                      || is_tag wsdl_fault c) (children op)).

(** No operation left in an interface of [out] names, among [refs], a
    message of [root] that is gone. *)
Definition operations_name_surviving_messages (refs : Element -> list string)
  (root out : Element) : Prop :=
  forall pt op q pre local m,
    In pt (findall out wsdl_portType) -> In op (findall pt wsdl_operation) ->
    In q (refs op) -> split_colon q = Some (pre, local) ->
    In m (findall root wsdl_message) -> get m "name" = Some local ->
    exists m', In m' (findall out wsdl_message) /\ eid m' = eid m.

Definition soapbind_header := clark SOAPBIND_NS "header".

(** The messages an operation of a binding names in the [soap:header]
    elements below it. *)
Definition header_message_refs (bop : Element) : list string :=
  flat_map message_of (filter (is_tag soapbind_header) (descendants bop)).

(** No operation left in a binding of [out] names in a header a message
    of [root] that is gone. *)
Definition binding_operations_name_surviving_messages (root out : Element)
  : Prop :=
  forall b bop q pre local m,
    In b (findall out wsdl_binding) -> In bop (findall b wsdl_operation) ->
    In q (header_message_refs bop) -> split_colon q = Some (pre, local) ->
    In m (findall root wsdl_message) -> get m "name" = Some local ->
    exists m', In m' (findall out wsdl_message) /\ eid m' = eid m.

(** The schemas of the [wsdl:types] children of the root. *)
Definition top_schemas (root : Element) : list Element :=
  flat_map (fun t => findall t xsd_schema) (findall root wsdl_types).

(** No part of a message left in [out] names a declaration, in one of
    the [schemas] of [root], that is gone: the declaration is still a
    child of its schema in [out]. *)
Definition parts_name_surviving_declarations
  (QName : option string -> string -> option key)
  (nsmap : list (string * string)) (schemas : Element -> list Element)
  (root out : Element) : Prop :=
  forall msg v k sch item,
    In msg (findall out wsdl_message) -> In v (message_refs msg) ->
    resolve_qname QName nsmap v = Ok k ->
    In sch (schemas root) -> In item (children sch) ->
    declared_key sch item = Some k ->
    exists sch' item',
      In sch' (find_schemas out) /\ eid sch' = eid sch
      /\ In item' (children sch') /\ eid item' = eid item.

(** The layout on which the splice of [attach_policy_to_binding] lands
    where a second splice finds it: when a fragment is spliced into the
    target binding, the first child the binding keeps, the
    [UsingPolicy] child that the splice removes apart, is no policy
    node; the two nodes of the fragment are nodes of their own, and
    they hold no [wsdl:types] element. *)
Definition splice_in_place (keep_ops : list string)
  (policy_tree : option Element) (root target_binding : Element) : Prop :=
  forall policy_root u us p ps,
    policy_tree = Some policy_root ->
    findall target_binding soapbind_binding <> [] ->
    findall policy_root wsp_UsingPolicy = u :: us ->
    findall policy_root wsp_Policy = p :: ps ->
    (exists x rest,
       children
         (remove_first wsp_UsingPolicy
            (prune_binding_operations keep_ops target_binding)) = x :: rest
       /\ tag x <> wsp_UsingPolicy /\ tag x <> wsp_Policy)
    /\ NoDup (ids root ++ ids u ++ ids p)
    /\ (forall d, In d (iter u ++ iter p) -> tag d <> wsdl_types).
(** ** A document to run the model on *)

(** [etree.QName(ns, local)] of lxml on ASCII text.  The constructor
    reads its first argument with [_getNsTag], which takes a leading
    [{uri}] off as the namespace, and refuses a tag that is no XML name
    or has a colon ([_tagValidOrRaise]).  With [ns] [None] the local
    part is the text that is read. *)
Definition in_range (lo hi : nat) (c : ascii) : bool :=
  Nat.leb lo (nat_of_ascii c) && Nat.leb (nat_of_ascii c) hi.

Definition name_start (c : ascii) : bool :=
  in_range 65 90 c || in_range 97 122 c || Ascii.eqb c "_".

Definition name_char (c : ascii) : bool :=
  name_start c || in_range 48 57 c || Ascii.eqb c "-" || Ascii.eqb c ".".

Fixpoint all_chars (p : ascii -> bool) (s : string) : bool :=
  match s with
  | EmptyString => true
  | String c r => p c && all_chars p r
  end.

Definition valid_tag (s : string) : bool :=
  match s with
  | EmptyString => false
  | String c r => name_start c && all_chars name_char r
  end.

(** The text before and after the first closing brace. *)
Fixpoint split_brace (s : string) : option (string * string) :=
  match s with
  | EmptyString => None
  | String c r =>
      if Ascii.eqb c "}" then Some (EmptyString, r)
      else match split_brace r with
           | Some (p, l) => Some (String c p, l)
           | None => None
           end
  end.

(** [_getNsTag(text)]: [None] when it raises [ValueError]. *)
Definition get_ns_tag (text : string) : option (option string * string) :=
  match text with
  | EmptyString => None
  | String c rest =>
      if Ascii.eqb c "{" then
        match split_brace rest with
        | None => None
        | Some (ns, t) =>
            if String.eqb t "" then None
            else Some (if String.eqb ns "" then None else Some ns, t)
        end
      else Some (None, text)
  end.

Definition qname_of (ns : option string) (local : string) : option key :=
  match ns with
  | None =>
      match get_ns_tag local with
      | Some (n, t) => if valid_tag t then Some (n, t) else None
      | None => None
      end
  | Some a =>
      match get_ns_tag a with
      | Some (ns_utf, tag_utf) =>
          if valid_tag local
          then Some (match ns_utf with
                     | None => Some tag_utf
                     | Some n => Some n
                     end, local)
          else None
      | None => None
      end
  end.

Definition tns_map : list (string * string) :=
  [("tns", "urn:t"); ("xsd", XSD_NS); ("wsdl", WSDL_NS)].

Definition scenario_a : Element :=
  Elem 0 (clark WSDL_NS "definitions") [] [
    Elem 1 wsdl_types [] [
      Elem 2 xsd_schema [("targetNamespace", "urn:t")] [
        Elem 3 xsd_element [("name", "GetRequestElt"); ("type", "tns:GetRequestType")] [];
        Elem 4 xsd_complexType [("name", "GetRequestType")] [
          Elem 5 (clark XSD_NS "sequence") [] [
            Elem 6 xsd_element [("name", "id"); ("type", "tns:IdType")] []]];
        Elem 7 xsd_simpleType [("name", "IdType")] [
          Elem 8 (clark XSD_NS "restriction") [("base", "xsd:string")] []];
        Elem 9 xsd_complexType [("name", "Unused")] []]];
    Elem 10 wsdl_message [("name", "GetRequest")] [
      Elem 11 wsdl_part [("name", "body"); ("element", "tns:GetRequestElt")] []];
    Elem 12 wsdl_message [("name", "ListRequest")] [
      Elem 13 wsdl_part [("name", "body"); ("element", "tns:Unused")] []];
    Elem 14 wsdl_portType [("name", "PT")] [
      Elem 15 wsdl_operation [("name", "Get")] [
        Elem 16 wsdl_input [("message", "tns:GetRequest")] []];
      Elem 17 wsdl_operation [("name", "List")] [
        Elem 18 wsdl_input [("message", "tns:ListRequest")] []]];
    Elem 19 wsdl_binding [("name", "B"); ("type", "tns:PT")] [
      Elem 20 soapbind_binding [] [];
      Elem 21 wsdl_operation [("name", "Get")] [];
      Elem 22 wsdl_operation [("name", "List")] []];
    Elem 23 wsdl_service [("name", "S")] [
      Elem 24 wsdl_port [("name", "P"); ("binding", "tns:B")] []]].


(** A schema with an item that refers to itself, and with an item named
    only by an attribute value without a prefix. *)
Definition recursive_schema : Element :=
  Elem 2 xsd_schema [("targetNamespace", "urn:t")] [
    Elem 3 xsd_complexType [("name", "Node")] [
      Elem 4 (clark XSD_NS "sequence") [] [
        Elem 5 xsd_element [("name", "next"); ("type", "tns:Node")] []]];
    Elem 6 xsd_complexType [("name", "Loose")] [];
    Elem 7 xsd_element [("name", "holder"); ("type", "Loose")] []].

Definition recursive_index : list (index_key * Element) :=
  build_index [recursive_schema].

Definition key_Node : key := (Some "urn:t", "Node").
Definition key_holder : key := (Some "urn:t", "holder").
Definition key_string : key := (Some XSD_NS, "string").

(** The worklist the resolver ends with on [recursive_index], seeded
    with [Node] and [holder]. *)
Definition recursive_run : worklist :=
  Eval vm_compute in
    match run_worklist qname_of tns_map [key_Node; key_holder] recursive_index with
    | Some (Ok w) => w
    | _ => Worklist [] [] []
    end.

Definition item_Loose : Element := Elem 6 xsd_complexType [("name", "Loose")] [].

(** The result of the run on [scenario_a] that keeps [Get]. *)
Definition scenario_a_out : Element :=
  Eval vm_compute in
    match prune_wsdl qname_of tns_map scenario_a "S" ["Get"] None with
    | Some (Completed out) => out
    | _ => scenario_a
    end.

Definition binding_B : Element :=
  Elem 19 wsdl_binding [("name", "B"); ("type", "tns:PT")] [
    Elem 20 soapbind_binding [] [];
    Elem 21 wsdl_operation [("name", "Get")] [];
    Elem 22 wsdl_operation [("name", "List")] []].

Definition porttype_PT : Element :=
  Elem 14 wsdl_portType [("name", "PT")] [
    Elem 15 wsdl_operation [("name", "Get")] [
      Elem 16 wsdl_input [("message", "tns:GetRequest")] []];
    Elem 17 wsdl_operation [("name", "List")] [
      Elem 18 wsdl_input [("message", "tns:ListRequest")] []]].

Definition service_S : Element :=
  Elem 23 wsdl_service [("name", "S")] [
    Elem 24 wsdl_port [("name", "P"); ("binding", "tns:B")] []].

Definition port_P : Element :=
  Elem 24 wsdl_port [("name", "P"); ("binding", "tns:B")] [].

(** A service with two ports on the same binding. *)
Definition two_ports_doc : Element :=
  Elem 0 (clark WSDL_NS "definitions") [] [
    Elem 14 wsdl_portType [("name", "PT")] [
      Elem 15 wsdl_operation [("name", "Get")] []];
    Elem 19 wsdl_binding [("name", "B"); ("type", "tns:PT")] [
      Elem 21 wsdl_operation [("name", "Get")] []];
    Elem 23 wsdl_service [("name", "S")] [
      Elem 24 wsdl_port [("name", "P"); ("binding", "tns:B")] [];
      Elem 25 wsdl_port [("name", "Q"); ("binding", "tns:B")] []]].

(** An interface with [Get], bound by a binding without it. *)
Definition unbound_operation_doc : Element :=
  Elem 0 (clark WSDL_NS "definitions") [] [
    Elem 14 wsdl_portType [("name", "PT")] [
      Elem 15 wsdl_operation [("name", "Get")] []];
    Elem 19 wsdl_binding [("name", "B"); ("type", "tns:PT")] [
      Elem 20 soapbind_binding [] []];
    Elem 23 wsdl_service [("name", "S")] [
      Elem 24 wsdl_port [("name", "P"); ("binding", "tns:B")] []]].

(** Two services, each with a port on a binding of its own. *)
Definition two_services_doc : Element :=
  Elem 0 (clark WSDL_NS "definitions") [] [
    Elem 14 wsdl_portType [("name", "PT")] [
      Elem 15 wsdl_operation [("name", "Get")] []];
    Elem 19 wsdl_binding [("name", "B"); ("type", "tns:PT")] [
      Elem 21 wsdl_operation [("name", "Get")] []];
    Elem 26 wsdl_binding [("name", "B2"); ("type", "tns:PT")] [
      Elem 27 wsdl_operation [("name", "Get")] []];
    Elem 23 wsdl_service [("name", "S")] [
      Elem 24 wsdl_port [("name", "P"); ("binding", "tns:B")] []];
    Elem 28 wsdl_service [("name", "S2")] [
      Elem 29 wsdl_port [("name", "P2"); ("binding", "tns:B2")] []]].

(** Policy fragments: a well-formed one, and one with two [UsingPolicy]
    nodes. *)
Definition policy_fragment : Element :=
  Elem 100 (clark WSP_NS "PolicyAttachment") [] [
    Elem 101 wsp_UsingPolicy [] [];
    Elem 102 wsp_Policy [("Id", "P1")] []].

Definition policy_two_using : Element :=
  Elem 100 (clark WSP_NS "PolicyAttachment") [] [
    Elem 101 wsp_UsingPolicy [] [];
    Elem 103 wsp_UsingPolicy [] [];
    Elem 102 wsp_Policy [("Id", "P1")] []].

(** A binding whose existing policy comes before the transport element. *)
Definition policy_first_doc : Element :=
  Elem 0 (clark WSDL_NS "definitions") [] [
    Elem 14 wsdl_portType [("name", "PT")] [
      Elem 15 wsdl_operation [("name", "Get")] []];
    Elem 19 wsdl_binding [("name", "B"); ("type", "tns:PT")] [
      Elem 30 wsp_Policy [("Id", "old")] [];
      Elem 20 soapbind_binding [] []];
    Elem 23 wsdl_service [("name", "S")] [
      Elem 24 wsdl_port [("name", "P"); ("binding", "tns:B")] []]].

(** The two runs on [policy_first_doc] with [policy_fragment]. *)
Definition policy_first_out : Element :=
  Eval vm_compute in
    match prune_wsdl qname_of tns_map policy_first_doc "S" ["Get"]
            (Some policy_fragment) with
    | Some (Completed out) => out
    | _ => policy_first_doc
    end.

Definition policy_first_out2 : Element :=
  Eval vm_compute in
    match prune_wsdl qname_of tns_map policy_first_out "S" ["Get"]
            (Some policy_fragment) with
    | Some (Completed out) => out
    | _ => policy_first_out
    end.

(** A schema item that holds a [wsdl:types] element of its own: the
    item [X] in it names [C], and is itself not named by anything. *)
Definition nested_types_doc : Element :=
  Elem 0 (clark WSDL_NS "definitions") [] [
    Elem 1 wsdl_types [] [
      Elem 2 xsd_schema [("targetNamespace", "urn:t")] [
        Elem 3 xsd_element [("name", "A")] [
          Elem 40 wsdl_types [] [
            Elem 41 xsd_schema [("targetNamespace", "urn:t")] [
              Elem 42 xsd_element [("name", "X"); ("type", "tns:C")] []]]];
        Elem 9 xsd_complexType [("name", "C")] []]];
    Elem 10 wsdl_message [("name", "GetRequest")] [
      Elem 11 wsdl_part [("name", "body"); ("element", "tns:A")] []];
    Elem 14 wsdl_portType [("name", "PT")] [
      Elem 15 wsdl_operation [("name", "Get")] [
        Elem 16 wsdl_input [("message", "tns:GetRequest")] []]];
    Elem 19 wsdl_binding [("name", "B"); ("type", "tns:PT")] [
      Elem 21 wsdl_operation [("name", "Get")] []];
    Elem 23 wsdl_service [("name", "S")] [
      Elem 24 wsdl_port [("name", "P"); ("binding", "tns:B")] []]].

Definition nested_types_out : Element :=
  Eval vm_compute in
    match prune_wsdl qname_of tns_map nested_types_doc "S" ["Get"] None with
    | Some (Completed out) => out
    | _ => nested_types_doc
    end.

Definition nested_types_out2 : Element :=
  Eval vm_compute in
    match prune_wsdl qname_of tns_map nested_types_out "S" ["Get"] None with
    | Some (Completed out) => out
    | _ => nested_types_out
    end.

(** Two documents that differ only in the transport element of the
    binding, and what the run that keeps [Get] with [policy_fragment]
    makes of them. *)
Definition binding_soap12_two : Element :=
  Elem 19 wsdl_binding [("name", "B"); ("type", "tns:PT")] [
    Elem 20 soap12_binding [] [];
    Elem 21 wsdl_operation [("name", "Get")] [];
    Elem 22 wsdl_operation [("name", "List")] []].

Definition binding_soap11_two : Element :=
  Elem 19 wsdl_binding [("name", "B"); ("type", "tns:PT")] [
    Elem 20 soapbind_binding [] [];
    Elem 21 wsdl_operation [("name", "Get")] [];
    Elem 22 wsdl_operation [("name", "List")] []].

Definition porttype_two : Element :=
  Elem 14 wsdl_portType [("name", "PT")] [
    Elem 15 wsdl_operation [("name", "Get")] [];
    Elem 17 wsdl_operation [("name", "List")] []].

Definition soap12_service_doc : Element :=
  Elem 0 (clark WSDL_NS "definitions") [] [
    porttype_two; binding_soap12_two; service_S].

Definition soap11_service_doc : Element :=
  Elem 0 (clark WSDL_NS "definitions") [] [
    porttype_two; binding_soap11_two; service_S].

Definition soap12_service_out : Element :=
  Elem 0 (clark WSDL_NS "definitions") [] [
    Elem 14 wsdl_portType [("name", "PT")] [
      Elem 15 wsdl_operation [("name", "Get")] []];
    Elem 19 wsdl_binding [("name", "B"); ("type", "tns:PT")] [
      Elem 20 soap12_binding [] [];
      Elem 21 wsdl_operation [("name", "Get")] []];
    Elem 23 wsdl_service [("name", "S")] [
      Elem 24 wsdl_port [("name", "P"); ("binding", "tns:B")] []]].

Definition soap11_service_out : Element :=
  Elem 0 (clark WSDL_NS "definitions") [] [
    Elem 14 wsdl_portType [("name", "PT")] [
      Elem 15 wsdl_operation [("name", "Get")] []];
    Elem 19 wsdl_binding [("name", "B"); ("type", "tns:PT")] [
      Elem 20 soapbind_binding [] [];
      Elem 101 wsp_UsingPolicy [] [];
      Elem 102 wsp_Policy [("Id", "P1")] [];
      Elem 21 wsdl_operation [("name", "Get")] []];
    Elem 23 wsdl_service [("name", "S")] [
      Elem 24 wsdl_port [("name", "P"); ("binding", "tns:B")] []]].

(** ** More documents *)

(** An interface whose kept operation names its message without a
    prefix. *)
Definition porttype_unprefixed : Element :=
  Elem 14 wsdl_portType [("name", "PT")] [
    Elem 15 wsdl_operation [("name", "Get")] [
      Elem 16 wsdl_input [("message", "GetRequest")] []];
    Elem 17 wsdl_operation [("name", "List")] [
      Elem 18 wsdl_input [("message", "tns:ListRequest")] []]].

Definition unprefixed_message_doc : Element :=
  Elem 0 (clark WSDL_NS "definitions") [] [
    Elem 10 wsdl_message [("name", "GetRequest")] [];
    porttype_unprefixed; binding_B; service_S].

(** A message whose part names its element without a prefix. *)
Definition message_unprefixed : Element :=
  Elem 10 wsdl_message [("name", "GetRequest")] [
    Elem 11 wsdl_part [("name", "body"); ("element", "GetRequestElt")] []].

Definition unprefixed_part_doc : Element :=
  Elem 0 (clark WSDL_NS "definitions") [] [
    message_unprefixed;
    Elem 12 wsdl_message [("name", "ListRequest")] [];
    porttype_PT; binding_B; service_S].

(** A binding for SOAP 1.2: its transport element is in the
    [soap12] namespace. *)
Definition binding_soap12 : Element :=
  Elem 19 wsdl_binding [("name", "B"); ("type", "tns:PT")] [
    Elem 20 soap12_binding [] [];
    Elem 21 wsdl_operation [("name", "Get")] []].

Definition soap12_doc : Element :=
  Elem 0 (clark WSDL_NS "definitions") [] [
    Elem 14 wsdl_portType [("name", "PT")] [
      Elem 15 wsdl_operation [("name", "Get")] []];
    binding_soap12; service_S].

Definition service_S2 : Element :=
  Elem 28 wsdl_service [("name", "S2")] [
    Elem 29 wsdl_port [("name", "P2"); ("binding", "tns:B2")] []].

Definition two_services_out : Element :=
  Eval vm_compute in
    match prune_wsdl qname_of tns_map two_services_doc "S" ["Get"] None with
    | Some (Completed out) => out
    | _ => two_services_doc
    end.

(** The run on [scenario_a] that keeps nothing. *)
Definition scenario_a_nothing : Element :=
  Eval vm_compute in
    match prune_wsdl qname_of tns_map scenario_a "S" [] None with
    | Some (Completed out) => out
    | _ => scenario_a
    end.

Definition key_GetRequestElt : key := (Some "urn:t", "GetRequestElt").

(** What the resolver returns on [scenario_a] from the element of the
    request. *)
Definition scenario_a_reached
  : list key * list Element * list (index_key * Element) :=
  Eval vm_compute in
    match reachable_schema_items qname_of tns_map scenario_a
            [key_GetRequestElt] with
    | Some (Ok r) => r
    | _ => ([], [], [])
    end.

(** The schema of [scenario_a] after [prune_schemas] with the retained
    set above. *)
Definition scenario_a_schema_left : Element :=
  Eval vm_compute in
    hd scenario_a
      (find_schemas
         (prune_schemas (fst (fst scenario_a_reached))
            (find_schemas scenario_a) scenario_a)).

Definition using_node_101 : Element := Elem 101 wsp_UsingPolicy [] [].
Definition policy_node_102 : Element := Elem 102 wsp_Policy [("Id", "P1")] [].

(** A schema with an element and a complex type of one name. *)
Definition element_Order : Element := Elem 3 xsd_element [("name", "Order")] [].
Definition type_Order : Element := Elem 4 xsd_complexType [("name", "Order")] [].
Definition twin_schema : Element :=
  Elem 2 xsd_schema [("targetNamespace", "urn:t")] [element_Order; type_Order].
Definition key_Order : key := (Some "urn:t", "Order").

(** A document with a policy at the root and a SOAP 1.1 binding. *)
Definition binding_soap11 : Element :=
  Elem 19 wsdl_binding [("name", "B"); ("type", "tns:PT")] [
    Elem 20 soapbind_binding [] [];
    Elem 21 wsdl_operation [("name", "Get")] []].

Definition root_policy_doc : Element :=
  Elem 0 (clark WSDL_NS "definitions") [] [
    Elem 40 wsp_Policy [("Id", "old")] [];
    Elem 41 wsp_UsingPolicy [] [];
    Elem 14 wsdl_portType [("name", "PT")] [
      Elem 15 wsdl_operation [("name", "Get")] []];
    binding_soap11; service_S].

Definition root_policy_out : Element :=
  Eval vm_compute in
    match prune_wsdl qname_of tns_map root_policy_doc "S" ["Get"]
            (Some policy_fragment) with
    | Some (Completed out) => out
    | _ => root_policy_doc
    end.

(** Fragments that lack one of the two nodes, and the tree a run on
    [scenario_a] leaves when the policy step raises on them. *)
Definition policy_without_using : Element :=
  Elem 100 (clark WSP_NS "PolicyAttachment") [] [
    Elem 102 wsp_Policy [("Id", "P1")] []].

Definition policy_without_policy : Element :=
  Elem 100 (clark WSP_NS "PolicyAttachment") [] [
    Elem 101 wsp_UsingPolicy [] []].

Definition scenario_a_before_bindings : Element :=
  Elem 0 (clark WSDL_NS "definitions") [] [
    Elem 1 wsdl_types [] [
      Elem 2 xsd_schema [("targetNamespace", "urn:t")] [
        Elem 3 xsd_element [("name", "GetRequestElt"); ("type", "tns:GetRequestType")] [];
        Elem 4 xsd_complexType [("name", "GetRequestType")] [
          Elem 5 (clark XSD_NS "sequence") [] [
            Elem 6 xsd_element [("name", "id"); ("type", "tns:IdType")] []]];
        Elem 7 xsd_simpleType [("name", "IdType")] [
          Elem 8 (clark XSD_NS "restriction") [("base", "xsd:string")] []]]];
    Elem 10 wsdl_message [("name", "GetRequest")] [
      Elem 11 wsdl_part [("name", "body"); ("element", "tns:GetRequestElt")] []];
    Elem 14 wsdl_portType [("name", "PT")] [
      Elem 15 wsdl_operation [("name", "Get")] [
        Elem 16 wsdl_input [("message", "tns:GetRequest")] []]];
    binding_B;
    service_S].

Definition scenario_a_raised_without_using : Element :=
  Elem 0 (clark WSDL_NS "definitions") [] [
    Elem 1 wsdl_types [] [
      Elem 2 xsd_schema [("targetNamespace", "urn:t")] [
        Elem 3 xsd_element [("name", "GetRequestElt"); ("type", "tns:GetRequestType")] [];
        Elem 4 xsd_complexType [("name", "GetRequestType")] [
          Elem 5 (clark XSD_NS "sequence") [] [
            Elem 6 xsd_element [("name", "id"); ("type", "tns:IdType")] []]];
        Elem 7 xsd_simpleType [("name", "IdType")] [
          Elem 8 (clark XSD_NS "restriction") [("base", "xsd:string")] []]]];
    Elem 10 wsdl_message [("name", "GetRequest")] [
      Elem 11 wsdl_part [("name", "body"); ("element", "tns:GetRequestElt")] []];
    Elem 14 wsdl_portType [("name", "PT")] [
      Elem 15 wsdl_operation [("name", "Get")] [
        Elem 16 wsdl_input [("message", "tns:GetRequest")] []]];
    Elem 19 wsdl_binding [("name", "B"); ("type", "tns:PT")] [
      Elem 20 soapbind_binding [] [];
      Elem 21 wsdl_operation [("name", "Get")] []];
    service_S].

Definition scenario_a_raised_without_policy : Element :=
  Elem 0 (clark WSDL_NS "definitions") [] [
    Elem 1 wsdl_types [] [
      Elem 2 xsd_schema [("targetNamespace", "urn:t")] [
        Elem 3 xsd_element [("name", "GetRequestElt"); ("type", "tns:GetRequestType")] [];
        Elem 4 xsd_complexType [("name", "GetRequestType")] [
          Elem 5 (clark XSD_NS "sequence") [] [
            Elem 6 xsd_element [("name", "id"); ("type", "tns:IdType")] []]];
        Elem 7 xsd_simpleType [("name", "IdType")] [
          Elem 8 (clark XSD_NS "restriction") [("base", "xsd:string")] []]]];
    Elem 10 wsdl_message [("name", "GetRequest")] [
      Elem 11 wsdl_part [("name", "body"); ("element", "tns:GetRequestElt")] []];
    Elem 14 wsdl_portType [("name", "PT")] [
      Elem 15 wsdl_operation [("name", "Get")] [
        Elem 16 wsdl_input [("message", "tns:GetRequest")] []]];
    Elem 19 wsdl_binding [("name", "B"); ("type", "tns:PT")] [
      Elem 20 soapbind_binding [] [];
      Elem 101 wsp_UsingPolicy [] [];
      Elem 21 wsdl_operation [("name", "Get")] []];
    service_S].

(** An operation with two inputs: only the message of the first is
    collected. *)
Definition message_M1 : Element := Elem 10 wsdl_message [("name", "M1")] [].
Definition message_M2 : Element := Elem 12 wsdl_message [("name", "M2")] [].

Definition operation_two_inputs : Element :=
  Elem 15 wsdl_operation [("name", "Get")] [
    Elem 16 wsdl_input [("message", "tns:M1")] [];
    Elem 17 wsdl_input [("message", "tns:M2")] []].

Definition two_inputs_doc : Element :=
  Elem 0 (clark WSDL_NS "definitions") [] [
    message_M1; message_M2;
    Elem 14 wsdl_portType [("name", "PT")] [operation_two_inputs];
    binding_B; service_S].

Definition two_inputs_out : Element :=
  Elem 0 (clark WSDL_NS "definitions") [] [
    message_M1;
    Elem 14 wsdl_portType [("name", "PT")] [operation_two_inputs];
    Elem 19 wsdl_binding [("name", "B"); ("type", "tns:PT")] [
      Elem 20 soapbind_binding [] [];
      Elem 21 wsdl_operation [("name", "Get")] []];
    service_S].

(** A binding operation with a header taken from a message that no
    operation of the interface names. *)
Definition message_H : Element := Elem 12 wsdl_message [("name", "H")] [].

Definition operation_with_header : Element :=
  Elem 21 wsdl_operation [("name", "Get")] [
    Elem 25 wsdl_input [] [
      Elem 26 soapbind_header [("message", "tns:H"); ("part", "h")] []]].

Definition binding_with_header : Element :=
  Elem 19 wsdl_binding [("name", "B"); ("type", "tns:PT")] [
    Elem 20 soapbind_binding [] [];
    operation_with_header].

Definition header_doc : Element :=
  Elem 0 (clark WSDL_NS "definitions") [] [
    message_M1; message_H;
    Elem 14 wsdl_portType [("name", "PT")] [
      Elem 15 wsdl_operation [("name", "Get")] [
        Elem 16 wsdl_input [("message", "tns:M1")] []]];
    binding_with_header; service_S].

Definition header_out : Element :=
  Elem 0 (clark WSDL_NS "definitions") [] [
    message_M1;
    Elem 14 wsdl_portType [("name", "PT")] [
      Elem 15 wsdl_operation [("name", "Get")] [
        Elem 16 wsdl_input [("message", "tns:M1")] []]];
    binding_with_header; service_S].

(** A declaration in a schema that lies below another declaration: the
    part names [A], the run keeps the key of [A] and deletes [X], and
    [A] with it. *)
Definition element_A : Element := Elem 6 xsd_element [("name", "A")] [].

Definition schema_buried : Element :=
  Elem 5 xsd_schema [("targetNamespace", "urn:t")] [element_A].

Definition message_with_part_A : Element :=
  Elem 10 wsdl_message [("name", "M1")] [
    Elem 11 wsdl_part [("name", "body"); ("element", "tns:A")] []].

Definition buried_doc : Element :=
  Elem 0 (clark WSDL_NS "definitions") [] [
    Elem 1 wsdl_types [] [
      Elem 2 xsd_schema [("targetNamespace", "urn:t")] [
        Elem 3 xsd_element [("name", "X")] [
          Elem 4 wsdl_types [] [schema_buried]]]];
    message_with_part_A;
    Elem 14 wsdl_portType [("name", "PT")] [
      Elem 15 wsdl_operation [("name", "Get")] [
        Elem 16 wsdl_input [("message", "tns:M1")] []]];
    binding_B; service_S].

Definition buried_out : Element :=
  Elem 0 (clark WSDL_NS "definitions") [] [
    Elem 1 wsdl_types [] [
      Elem 2 xsd_schema [("targetNamespace", "urn:t")] []];
    message_with_part_A;
    Elem 14 wsdl_portType [("name", "PT")] [
      Elem 15 wsdl_operation [("name", "Get")] [
        Elem 16 wsdl_input [("message", "tns:M1")] []]];
    Elem 19 wsdl_binding [("name", "B"); ("type", "tns:PT")] [
      Elem 20 soapbind_binding [] [];
      Elem 21 wsdl_operation [("name", "Get")] []];
    service_S].

(** [scenario_a] after the run that keeps [Get] and splices
    [policy_fragment]. *)
Definition scenario_a_spliced : Element :=
  Elem 0 (clark WSDL_NS "definitions") [] [
    Elem 1 wsdl_types [] [
      Elem 2 xsd_schema [("targetNamespace", "urn:t")] [
        Elem 3 xsd_element [("name", "GetRequestElt"); ("type", "tns:GetRequestType")] [];
        Elem 4 xsd_complexType [("name", "GetRequestType")] [
          Elem 5 (clark XSD_NS "sequence") [] [
            Elem 6 xsd_element [("name", "id"); ("type", "tns:IdType")] []]];
        Elem 7 xsd_simpleType [("name", "IdType")] [
          Elem 8 (clark XSD_NS "restriction") [("base", "xsd:string")] []]]];
    Elem 10 wsdl_message [("name", "GetRequest")] [
      Elem 11 wsdl_part [("name", "body"); ("element", "tns:GetRequestElt")] []];
    Elem 14 wsdl_portType [("name", "PT")] [
      Elem 15 wsdl_operation [("name", "Get")] [
        Elem 16 wsdl_input [("message", "tns:GetRequest")] []]];
    Elem 19 wsdl_binding [("name", "B"); ("type", "tns:PT")] [
      Elem 20 soapbind_binding [] [];
      Elem 101 wsp_UsingPolicy [] [];
      Elem 102 wsp_Policy [("Id", "P1")] [];
      Elem 21 wsdl_operation [("name", "Get")] []];
    service_S].

(** A fragment whose [Policy] node holds a schema of its own, with a
    declaration under a key of [scenario_a] and a reference that
    [etree.QName] refuses. *)
Definition policy_with_schema : Element :=
  Elem 100 (clark WSP_NS "PolicyAttachment") [] [
    Elem 101 wsp_UsingPolicy [] [];
    Elem 102 wsp_Policy [("Id", "P1")] [
      Elem 103 wsdl_types [] [
        Elem 104 xsd_schema [("targetNamespace", "urn:t")] [
          Elem 105 xsd_element
            [("name", "GetRequestElt"); ("type", "tns:1bad")] []]]]].

Definition scenario_a_schema_spliced : Element :=
  Eval vm_compute in
    match prune_wsdl qname_of tns_map scenario_a "S" ["Get"]
            (Some policy_with_schema) with
    | Some (Completed out) => out
    | _ => scenario_a
    end.
(** * Properties *)

(** ** Equality tests *)

Lemma opt_eqb_eq (a b : option string) : opt_eqb a b = true <-> a = b.
Proof.
  destruct a as [x|], b as [y|]; simpl; split; intro H;
    try discriminate; try reflexivity.
  - apply String.eqb_eq in H. now subst.
  - injection H as ->. apply String.eqb_refl.
Qed.

Lemma opt_eqb_refl (a : option string) : opt_eqb a a = true.
Proof. now apply opt_eqb_eq. Qed.

Lemma key_eqb_eq (a b : key) : key_eqb a b = true <-> a = b.
Proof.
  destruct a as [n1 l1], b as [n2 l2]. unfold key_eqb. simpl.
  rewrite andb_true_iff, opt_eqb_eq, String.eqb_eq.
  split; [intros [-> ->]; reflexivity | intro H; injection H; auto].
Qed.

Lemma key_eqb_refl (a : key) : key_eqb a a = true.
Proof. now apply key_eqb_eq. Qed.

Lemma mem_key_In (k : key) (s : list key) : mem_key k s = true <-> In k s.
Proof.
  unfold mem_key. rewrite existsb_exists. split.
  - intros [x [Hx He]]. apply key_eqb_eq in He. now subst.
  - intro H. exists k. split; [assumption | apply key_eqb_refl].
Qed.

Lemma mem_key_not_In (k : key) (s : list key) :
  mem_key k s = false <-> ~ In k s.
Proof.
  rewrite <- mem_key_In. destruct (mem_key k s); split; intro H;
    try discriminate; try reflexivity; try (intro; discriminate).
  exfalso. now apply H.
Qed.

Lemma mem_opt_In (o : option string) (s : list (option string)) :
  mem_opt o s = true <-> In o s.
Proof.
  unfold mem_opt. rewrite existsb_exists. split.
  - intros [x [Hx He]]. apply opt_eqb_eq in He. now subst.
  - intro H. exists o. split; [assumption | apply opt_eqb_refl].
Qed.

Lemma mem_str_In (o : option string) (s : list string) :
  mem_str o s = true <-> exists n, o = Some n /\ In n s.
Proof.
  unfold mem_str. rewrite mem_opt_In, in_map_iff. split.
  - intros [n [<- Hn]]. now exists n.
  - intros [n [-> Hn]]. now exists n.
Qed.

Lemma mem_nat_In (n : nat) (s : list nat) : mem_nat n s = true <-> In n s.
Proof.
  unfold mem_nat. rewrite existsb_exists. split.
  - intros [x [Hx He]]. apply Nat.eqb_eq in He. now subst.
  - intro H. exists n. split; [assumption | apply Nat.eqb_refl].
Qed.

Lemma has_colon_split (s : string) :
  has_colon s = true <-> exists p l, split_colon s = Some (p, l).
Proof.
  unfold has_colon. destruct (split_colon s) as [[p l]|]; split.
  - intros _. now exists p, l.
  - reflexivity.
  - discriminate.
  - intros [p [l H]]. discriminate.
Qed.

(** ** Sequencing *)

Lemma mapM_Ok_In {A B} (f : A -> result B) (l : list A) (ys : list B) :
  mapM f l = Ok ys ->
  forall y, In y ys <-> exists x, In x l /\ f x = Ok y.
Proof.
  revert ys. induction l as [|x r IH]; simpl; intros ys H y.
  - injection H as <-. split; [intros [] | intros [x [[] _]]].
  - destruct (f x) as [y0|e] eqn:Hx; simpl in H; [|discriminate].
    destruct (mapM f r) as [ys0|e] eqn:Hr; simpl in H; [|discriminate].
    injection H as <-. simpl. rewrite (IH ys0 eq_refl). split.
    + intros [<-|[x' [Hin Hf]]]; [exists x; auto | exists x'; auto].
    + intros [x' [[<-|Hin] Hf]].
      * left. congruence.
      * right. now exists x'.
Qed.

Lemma mapM_Ok_length {A B} (f : A -> result B) (l : list A) (ys : list B) :
  mapM f l = Ok ys -> List.length ys = List.length l.
Proof.
  revert ys. induction l as [|x r IH]; simpl; intros ys H.
  - now injection H as <-.
  - destruct (f x) as [y0|e]; simpl in H; [|discriminate].
    destruct (mapM f r) as [ys0|e]; simpl in H; [|discriminate].
    injection H as <-. simpl. now rewrite (IH ys0 eq_refl).
Qed.

Lemma mapM_all_Ok {A B} (f : A -> result B) (l : list A) :
  (forall x, In x l -> exists y, f x = Ok y) -> exists ys, mapM f l = Ok ys.
Proof.
  induction l as [|x r IH]; simpl; intro H.
  - now exists [].
  - destruct (H x (or_introl eq_refl)) as [y ->].
    destruct IH as [ys ->]; [intros; apply H; now right|].
    simpl. now exists (y :: ys).
Qed.

(** ** Trees *)

Lemma Element_ind' (P : Element -> Prop) :
  (forall i t a cs, Forall P cs -> P (Elem i t a cs)) -> forall e, P e.
Proof.
  intro H. fix IH 1. intros [i t a cs]. apply H.
  induction cs as [|c r IHr]; constructor; [apply IH | exact IHr].
Qed.

Lemma subseq_refl {A} (l : list A) : subseq l l.
Proof. induction l; [apply subseq_nil | now apply subseq_keep]. Qed.

Lemma subseq_In {A} (l' l : list A) (x : A) :
  subseq l' l -> In x l' -> In x l.
Proof.
  induction 1 as [|y l' l H IH|y l' l H IH]; simpl; intro Hin; auto.
  destruct Hin; auto.
Qed.

Lemma subseq_NoDup {A} (l' l : list A) : subseq l' l -> NoDup l -> NoDup l'.
Proof.
  induction 1 as [|y l' l H IH|y l' l H IH]; intro Hn; [assumption| |].
  - apply NoDup_cons_iff in Hn. tauto.
  - apply NoDup_cons_iff in Hn. destruct Hn as [Hy Hn]. constructor; auto.
    intro Hin. apply Hy. eapply subseq_In; eauto.
Qed.

Lemma subseq_app {A} (l1' l1 l2' l2 : list A) :
  subseq l1' l1 -> subseq l2' l2 -> subseq (l1' ++ l2') (l1 ++ l2).
Proof.
  induction 1; simpl; intro H2;
    [assumption | apply subseq_skip; auto | apply subseq_keep; auto].
Qed.

Lemma subseq_nil_l {A} (l : list A) : subseq [] l.
Proof. induction l; [apply subseq_nil | now apply subseq_skip]. Qed.

Lemma subseq_filter {A} (p : A -> bool) (l : list A) : subseq (filter p l) l.
Proof.
  induction l as [|x r IH]; simpl; [constructor|].
  destruct (p x); [now apply subseq_keep | now apply subseq_skip].
Qed.

Lemma subseq_trans {A} (l1 l2 l3 : list A) :
  subseq l1 l2 -> subseq l2 l3 -> subseq l1 l3.
Proof.
  intros H12 H23. revert l1 H12.
  induction H23 as [|x l2 l3 H IH|x l2 l3 H IH]; intros l1 H12.
  - assumption.
  - apply subseq_skip. auto.
  - inversion H12; subst; [apply subseq_skip | apply subseq_keep]; auto.
Qed.

Lemma subseq_flat_map {A B} (f g : A -> list B) (l : list A) :
  (forall x, In x l -> subseq (g x) (f x)) ->
  subseq (flat_map g l) (flat_map f l).
Proof.
  induction l as [|x r IH]; simpl; intro H; [constructor|].
  apply subseq_app; [apply H; now left | apply IH; intros; apply H; now right].
Qed.

Lemma subseq_flat_map_of_subseq {A B} (f : A -> list B) (l' l : list A) :
  subseq l' l -> subseq (flat_map f l') (flat_map f l).
Proof.
  induction 1 as [|x l' l H IH|x l' l H IH]; simpl.
  - apply subseq_nil.
  - apply (subseq_app [] (f x)); [apply subseq_nil_l | assumption].
  - apply subseq_app; [apply subseq_refl | assumption].
Qed.

Lemma subseq_map {A B} (f : A -> B) (l' l : list A) :
  subseq l' l -> subseq (map f l') (map f l).
Proof.
  induction 1; simpl;
    [apply subseq_nil | now apply subseq_skip | now apply subseq_keep].
Qed.

(** *** Identities *)

Lemma ids_Elem (i : nat) (t : string) (a : list (string * string))
  (cs : list Element) :
  ids (Elem i t a cs) = i :: flat_map ids cs.
Proof.
  unfold ids. simpl. f_equal. induction cs as [|c r IH]; simpl; [reflexivity|].
  now rewrite map_app, IH.
Qed.

Lemma ids_children (e : Element) : ids e = eid e :: flat_map ids (children e).
Proof. destruct e. apply ids_Elem. Qed.

Lemma iter_self (e : Element) : In e (iter e).
Proof. destruct e. simpl. now left. Qed.

Lemma eid_in_ids (e : Element) : In (eid e) (ids e).
Proof. rewrite ids_children. now left. Qed.

Lemma top_ids_in_ids (e c : Element) :
  In c (children e) -> In (eid c) (flat_map ids (children e)).
Proof. intro H. apply in_flat_map. exists c. split; [assumption|apply eid_in_ids]. Qed.

Lemma NoDup_flat_map_elim {A B} (f : A -> list B) (l : list A) :
  NoDup (flat_map f l) ->
  forall x, In x l -> NoDup (f x).
Proof.
  induction l as [|y r IH]; simpl; intros Hn x Hin; [destruct Hin|].
  destruct Hin as [<-|Hin].
  - eapply NoDup_app_remove_r; eauto.
  - apply IH; [|assumption]. eapply NoDup_app_remove_l; eauto.
Qed.

(** In a list without repeated identities, an identity names one node. *)
Lemma NoDup_eid_inj (cs : list Element) (x y : Element) :
  NoDup (map eid cs) -> In x cs -> In y cs -> eid x = eid y -> x = y.
Proof.
  induction cs as [|c r IH]; simpl; intros Hn Hx Hy He; [destruct Hx|].
  apply NoDup_cons_iff in Hn. destruct Hn as [Hc Hn].
  destruct Hx as [<-|Hx], Hy as [<-|Hy]; auto.
  - exfalso. apply Hc. rewrite He. now apply in_map.
  - exfalso. apply Hc. rewrite <- He. now apply in_map.
Qed.

Lemma NoDup_ids_top (e : Element) : NoDup (ids e) -> NoDup (top_ids e).
Proof.
  rewrite ids_children. intro H. apply NoDup_cons_iff in H.
  destruct H as [_ H]. unfold top_ids.
  induction (children e) as [|c r IH]; simpl in *; [constructor|].
  constructor.
  - intro Hin. apply in_map_iff in Hin. destruct Hin as [c' [He Hin]].
    assert (NoDup (ids c ++ flat_map ids r)) as Hn by exact H.
    rewrite ids_children in Hn. simpl in Hn. apply NoDup_cons_iff in Hn.
    apply (proj1 Hn). apply in_or_app. right. apply in_flat_map.
    exists c'. split; [assumption|]. rewrite <- He. apply eid_in_ids.
  - apply IH. eapply NoDup_app_remove_l; eauto.
Qed.

Lemma NoDup_ids_child (e c : Element) :
  NoDup (ids e) -> In c (children e) -> NoDup (ids c).
Proof.
  rewrite ids_children. intros H Hin. apply NoDup_cons_iff in H.
  eapply NoDup_flat_map_elim; [apply H | assumption].
Qed.

(** *** Stages as rewritings of the children *)

Lemma per_child_compose (g1 g2 : Element -> list Element) (root : Element) :
  per_child g2 (per_child g1 root)
  = per_child (fun c => flat_map g2 (g1 c)) root.
Proof.
  unfold per_child, set_children. simpl. f_equal.
  induction (children root) as [|c r IH]; simpl; [reflexivity|].
  now rewrite flat_map_app, IH.
Qed.

Lemma per_child_ext (g1 g2 : Element -> list Element) (root : Element) :
  (forall c, In c (children root) -> g1 c = g2 c) ->
  per_child g1 root = per_child g2 root.
Proof.
  intro H. unfold per_child. f_equal.
  induction (children root) as [|c r IH]; simpl; [reflexivity|].
  rewrite (H c (or_introl eq_refl)), IH; [reflexivity|].
  intros; apply H; now right.
Qed.

Lemma flat_map_singleton {A B} (f : A -> B) (l : list A) :
  flat_map (fun x => [f x]) l = map f l.
Proof. induction l as [|x r IH]; simpl; [reflexivity | now rewrite IH]. Qed.

Lemma flat_map_one {A B} (f : A -> list B) (x : A) : flat_map f [x] = f x.
Proof. simpl. apply app_nil_r. Qed.

Lemma flat_map_filter {A} (p : A -> bool) (l : list A) :
  flat_map (fun x => if p x then [x] else []) l = filter p l.
Proof.
  induction l as [|x r IH]; simpl; [reflexivity|].
  rewrite IH. now destruct (p x).
Qed.

Lemma modify_per_child (h : Element) (f : Element -> Element) (root : Element) :
  modify h f root
  = per_child (fun c => [if Nat.eqb (eid c) (eid h) then f c else c]) root.
Proof. unfold modify, per_child. now rewrite flat_map_singleton. Qed.

Lemma remove_children_per_child (p : Element -> bool) (root : Element) :
  remove_children p root = per_child (fun c => if p c then [] else [c]) root.
Proof.
  unfold remove_children, per_child. f_equal.
  rewrite <- flat_map_filter. apply flat_map_ext. intro c. now destruct (p c).
Qed.

Lemma remove_node_per_child (h root : Element) :
  remove_node h root
  = per_child (fun c => if Nat.eqb (eid c) (eid h) then [] else [c]) root.
Proof.
  unfold remove_node, per_child. f_equal.
  rewrite <- flat_map_filter. apply flat_map_ext. intro c.
  now destruct (Nat.eqb (eid c) (eid h)).
Qed.

Lemma findall_per_child (g : Element -> list Element) (root : Element)
  (t : string) :
  findall (per_child g root) t
  = flat_map (fun c => filter (is_tag t) (g c)) (children root).
Proof.
  unfold findall, per_child. simpl.
  induction (children root) as [|c r IH]; simpl; [reflexivity|].
  now rewrite filter_app, IH.
Qed.

Lemma findall_In (e c : Element) (t : string) :
  In c (findall e t) <-> In c (children e) /\ tag c = t.
Proof.
  unfold findall, is_tag. rewrite filter_In, String.eqb_eq. tauto.
Qed.

(** *** Identities through the stages *)

Lemma ids_set_children (e : Element) (cs : list Element) :
  ids (set_children e cs) = eid e :: flat_map ids cs.
Proof. unfold set_children. apply ids_Elem. Qed.

Lemma ids_per_child_subseq (g : Element -> list Element) (root : Element) :
  (forall c, In c (children root) -> subseq (flat_map ids (g c)) (ids c)) ->
  subseq (ids (per_child g root)) (ids root).
Proof.
  intro H. unfold per_child. rewrite ids_set_children, (ids_children root).
  apply subseq_keep.
  induction (children root) as [|c r IH]; simpl; [apply subseq_nil|].
  rewrite flat_map_app. apply subseq_app.
  - apply H. now left.
  - apply IH. intros; apply H; now right.
Qed.

Lemma ids_remove_children_subseq (p : Element -> bool) (e : Element) :
  subseq (ids (remove_children p e)) (ids e).
Proof.
  rewrite remove_children_per_child. apply ids_per_child_subseq.
  intros c _. destruct (p c); simpl;
    [apply subseq_nil_l | rewrite app_nil_r; apply subseq_refl].
Qed.

Lemma ids_modify_subseq (h : Element) (f : Element -> Element) (root : Element) :
  (forall c, subseq (ids (f c)) (ids c)) ->
  subseq (ids (modify h f root)) (ids root).
Proof.
  intro H. rewrite modify_per_child. apply ids_per_child_subseq.
  intros c _. simpl. rewrite app_nil_r.
  destruct (Nat.eqb (eid c) (eid h)); [apply H | apply subseq_refl].
Qed.

Lemma top_ids_per_child_subseq (g : Element -> list Element) (root : Element) :
  (forall c, In c (children root) -> subseq (map eid (g c)) [eid c]) ->
  subseq (top_ids (per_child g root)) (top_ids root).
Proof.
  intro H. unfold top_ids, per_child. simpl.
  induction (children root) as [|c r IH]; simpl; [apply subseq_nil|].
  rewrite map_app. apply (subseq_app _ [eid c]).
  - apply H. now left.
  - apply IH. intros; apply H; now right.
Qed.

(** *** Descendants *)

Lemma iter_trans (e t s : Element) :
  In t (iter e) -> In s (iter t) -> In s (iter e).
Proof.
  induction e as [i tg a cs IH] using Element_ind'. simpl.
  intros [<-|Ht] Hs; [exact Hs|]. right.
  apply in_flat_map in Ht. destruct Ht as [c [Hc Ht]].
  apply in_flat_map. exists c. split; [assumption|].
  rewrite Forall_forall in IH. now apply IH.
Qed.

Lemma child_in_iter (t s : Element) : In s (children t) -> In s (iter t).
Proof.
  destruct t as [i tg a cs]. simpl. intro H. right.
  apply in_flat_map. exists s. split; [assumption | apply iter_self].
Qed.

Lemma descendants_ids (e : Element) :
  map eid (descendants e) = flat_map ids (children e).
Proof.
  unfold descendants, ids.
  induction (children e) as [|c r IH]; simpl; [reflexivity|].
  now rewrite map_app, IH.
Qed.

Lemma find_schemas_in_descendants (e s : Element) :
  In s (find_schemas e) -> In s (descendants e).
Proof.
  unfold find_schemas. intro H. apply in_flat_map in H.
  destruct H as [t [Ht Hs]]. apply filter_In in Ht. destruct Ht as [Ht _].
  apply findall_In in Hs. destruct Hs as [Hs _].
  unfold descendants in *. apply in_flat_map in Ht.
  destruct Ht as [c [Hc Ht]]. apply in_flat_map. exists c.
  split; [assumption|]. eapply iter_trans; [exact Ht|].
  now apply child_in_iter.
Qed.

Lemma root_is_no_schema (e : Element) :
  NoDup (ids e) -> mem_nat (eid e) (map eid (find_schemas e)) = false.
Proof.
  intro Hn. destruct (mem_nat _ _) eqn:Hm; [|reflexivity]. exfalso.
  apply mem_nat_In, in_map_iff in Hm. destruct Hm as [s [He Hs]].
  apply find_schemas_in_descendants in Hs.
  rewrite ids_children in Hn. apply NoDup_cons_iff in Hn.
  apply (proj1 Hn). rewrite <- descendants_ids, <- He. now apply in_map.
Qed.

Lemma flat_map_all_nil {A B} (g : A -> list B) (l : list A) :
  (forall x, In x l -> g x = []) -> flat_map g l = [].
Proof.
  induction l as [|x r IH]; simpl; intro H; [reflexivity|].
  rewrite (H x (or_introl eq_refl)). apply IH. intros; apply H; now right.
Qed.

(** A rewriting that answers only at one identity leaves what it
    answers there. *)
Lemma flat_map_at_eid {B} (cs : list Element) (h : Element)
  (g : Element -> list B) (v : list B) :
  NoDup (map eid cs) -> In h cs ->
  (forall c, In c cs -> g c = if Nat.eqb (eid c) (eid h) then v else []) ->
  flat_map g cs = v.
Proof.
  induction cs as [|c r IH]; simpl; intros Hn Hin Hg; [destruct Hin|].
  apply NoDup_cons_iff in Hn. destruct Hn as [Hc Hn].
  rewrite (Hg c (or_introl eq_refl)).
  destruct Hin as [->|Hin].
  - rewrite Nat.eqb_refl.
    rewrite flat_map_all_nil; [apply app_nil_r|].
    intros x Hx. rewrite (Hg x (or_intror Hx)).
    destruct (Nat.eqb (eid x) (eid h)) eqn:He; [|reflexivity].
    apply Nat.eqb_eq in He. exfalso. apply Hc. rewrite <- He. now apply in_map.
  - destruct (Nat.eqb (eid c) (eid h)) eqn:He.
    + apply Nat.eqb_eq in He. exfalso. apply Hc. rewrite He. now apply in_map.
    + simpl. apply IH; auto.
Qed.

Lemma mapM_In_Ok {A B} (f : A -> result B) (l : list A) (ys : list B) (x : A) :
  mapM f l = Ok ys -> In x l -> exists y, f x = Ok y /\ In y ys.
Proof.
  revert ys. induction l as [|a r IH]; simpl; intros ys H Hin; [destruct Hin|].
  destruct (f a) as [y0|e] eqn:Ha; simpl in H; [|discriminate].
  destruct (mapM f r) as [ys0|e] eqn:Hr; simpl in H; [|discriminate].
  injection H as <-. destruct Hin as [<-|Hin].
  - exists y0. split; [assumption | now left].
  - destruct (IH ys0 eq_refl Hin) as [y [Hy Hyin]]. exists y.
    split; [assumption | now right].
Qed.

Lemma distinctb_NoDup (l : list nat) : distinctb l = true -> NoDup l.
Proof.
  induction l as [|x r IH]; simpl; intro H; [constructor|].
  apply andb_true_iff in H. destruct H as [Hx Hr]. constructor; auto.
  intro Hin. apply mem_nat_In in Hin. rewrite Hin in Hx. discriminate.
Qed.

Lemma remove_children_In (p : Element -> bool) (e c : Element) :
  In c (children (remove_children p e)) <-> In c (children e) /\ p c = false.
Proof.
  unfold remove_children. simpl. rewrite filter_In.
  destruct (p c); simpl; intuition discriminate.
Qed.


(** ** Schema pruning on the tree *)

Lemma filter_filter {A} (p q : A -> bool) (l : list A) :
  filter p (filter q l) = filter (fun x => q x && p x) l.
Proof.
  induction l as [|x r IH]; simpl; [reflexivity|].
  destruct (q x); simpl; [destruct (p x)|]; now rewrite IH.
Qed.

Lemma prune_schema_node_children (keep_keys : list key) (sch : Element) :
  children (prune_schema_node keep_keys sch)
  = filter (fun c => negb (schema_drops keep_keys (get sch "targetNamespace") c))
      (children sch).
Proof.
  unfold prune_schema_node. cbn [fold_left]. unfold remove_children. simpl.
  rewrite !filter_filter. apply filter_ext. intro c.
  unfold schema_drops, child_unkept, get. simpl.
  rewrite !negb_orb, !andb_assoc. reflexivity.
Qed.

Lemma prune_schema_node_sig (keep_keys : list key) (sch : Element) :
  eid (prune_schema_node keep_keys sch) = eid sch
  /\ tag (prune_schema_node keep_keys sch) = tag sch
  /\ attrib (prune_schema_node keep_keys sch) = attrib sch.
Proof. repeat split. Qed.

Lemma prune_schema_node_eq (keep_keys : list key) (sch : Element) :
  prune_schema_node keep_keys sch
  = set_children sch
      (filter (fun c => negb (schema_drops keep_keys
                                (get sch "targetNamespace") c))
         (children sch)).
Proof.
  rewrite <- prune_schema_node_children.
  destruct (prune_schema_node_sig keep_keys sch) as [H1 [H2 H3]].
  unfold set_children. rewrite <- H1, <- H2, <- H3.
  now destruct (prune_schema_node keep_keys sch).
Qed.

Lemma schema_drops_sig (keep_keys : list key) (tns : option string)
  (c c' : Element) :
  tag c' = tag c -> attrib c' = attrib c ->
  schema_drops keep_keys tns c' = schema_drops keep_keys tns c.
Proof.
  intros Ht Ha. unfold schema_drops, child_unkept, is_tag, get.
  now rewrite Ht, Ha.
Qed.

Section Deep_update.

Variable handles : list nat.
Variable keep_keys : list key.

Local Abbreviation PS := (update_nodes handles (prune_schema_node keep_keys)).

Lemma update_unfold (e : Element) :
  PS e =
  let e' := set_children e (map PS (children e)) in
  if mem_nat (eid e) handles then prune_schema_node keep_keys e' else e'.
Proof. destruct e. reflexivity. Qed.

Lemma update_sig (e : Element) :
  eid (PS e) = eid e /\ tag (PS e) = tag e /\ attrib (PS e) = attrib e.
Proof.
  rewrite update_unfold. simpl.
  destruct (mem_nat (eid e) handles); repeat split.
Qed.

Lemma update_eid (e : Element) : eid (PS e) = eid e.
Proof. apply update_sig. Qed.

Lemma update_tag (e : Element) : tag (PS e) = tag e.
Proof. apply update_sig. Qed.

Lemma update_get (e : Element) (a : string) : get (PS e) a = get e a.
Proof. unfold get. now rewrite (proj2 (proj2 (update_sig e))). Qed.

Lemma update_children (e : Element) :
  children (PS e) =
  if mem_nat (eid e) handles
  then filter (fun c => negb (schema_drops keep_keys
                                (get e "targetNamespace") c))
         (map PS (children e))
  else map PS (children e).
Proof.
  rewrite update_unfold. simpl. destruct (mem_nat (eid e) handles);
    [|reflexivity].
  now rewrite prune_schema_node_children.
Qed.

Lemma update_children_subseq (e : Element) :
  subseq (children (PS e)) (map PS (children e)).
Proof.
  rewrite update_children. destruct (mem_nat (eid e) handles);
    [apply subseq_filter | apply subseq_refl].
Qed.

(** Schema pruning takes identities out and puts none in. *)
Lemma update_ids_subseq (e : Element) : subseq (ids (PS e)) (ids e).
Proof.
  induction e as [i t a cs IH] using Element_ind'.
  rewrite (ids_children (PS _)), ids_Elem, update_eid. simpl.
  apply subseq_keep.
  apply subseq_trans with (flat_map ids (map PS cs)).
  - apply subseq_flat_map_of_subseq.
    exact (update_children_subseq (Elem i t a cs)).
  - rewrite flat_map_concat_map, map_map, <- flat_map_concat_map.
    apply subseq_flat_map. intros c Hc.
    rewrite Forall_forall in IH. now apply IH.
Qed.

Lemma schema_drops_kept_tag (tns : option string) (c : Element) :
  kept_tag (tag c) -> schema_drops keep_keys tns c = false.
Proof.
  intros [H1 [H2 [H3 [H4 H5]]]]. unfold schema_drops, child_unkept, is_tag.
  apply String.eqb_neq in H1, H2, H3, H4, H5.
  now rewrite H1, H2, H3, H4, H5.
Qed.

Lemma update_findall (e : Element) (t : string) :
  kept_tag t -> findall (PS e) t = map PS (findall e t).
Proof.
  intro Ht. unfold findall. rewrite update_children.
  assert (filter (is_tag t) (map PS (children e))
          = map PS (filter (is_tag t) (children e))) as Hm.
  { rewrite filter_map_swap. f_equal. apply filter_ext. intro c.
    unfold is_tag. now rewrite update_tag. }
  destruct (mem_nat (eid e) handles); [|exact Hm].
  rewrite filter_filter, <- Hm. apply filter_ext. intro c.
  unfold is_tag. destruct (String.eqb (tag c) t) eqn:He;
    [|now rewrite andb_false_r].
  apply String.eqb_eq in He. rewrite schema_drops_kept_tag; [reflexivity|].
  now rewrite He.
Qed.

Lemma schema_drops_update (tns : option string) (c : Element) :
  schema_drops keep_keys tns (PS c) = schema_drops keep_keys tns c.
Proof.
  apply schema_drops_sig; [apply update_tag | apply (update_sig c)].
Qed.

Lemma Element_eq (x y : Element) :
  eid x = eid y -> tag x = tag y -> attrib x = attrib y ->
  children x = children y -> x = y.
Proof. destruct x, y. simpl. now intros -> -> -> ->. Qed.

(** Pruning the schemas a second time changes nothing. *)
Lemma update_idempotent (e : Element) : PS (PS e) = PS e.
Proof.
  induction e as [i t a cs IH] using Element_ind'.
  set (e := Elem i t a cs).
  apply Element_eq.
  - now rewrite !update_eid.
  - now rewrite !update_tag.
  - now rewrite !(proj2 (proj2 (update_sig _))).
  - rewrite (update_children (PS e)), update_eid, update_get.
    assert (map PS (children (PS e)) = children (PS e)) as Hm.
    { rewrite <- (map_id (children (PS e))) at 2.
      apply map_ext_in. intros c Hc.
      pose proof (subseq_In _ _ c (update_children_subseq e) Hc) as Hin.
      apply in_map_iff in Hin. destruct Hin as [c0 [<- Hc0]].
      rewrite Forall_forall in IH. now apply IH. }
    rewrite Hm. destruct (mem_nat (eid e) handles) eqn:Hh; [|reflexivity].
    rewrite update_children, Hh, filter_filter.
    apply filter_ext. intro c. apply andb_diag.
Qed.

(** Schema pruning and a filter on tag and attributes of the children
    can be done in either order. *)
Lemma update_remove_children (q : Element -> bool) (e : Element) :
  (forall c, q (PS c) = q c) ->
  PS (remove_children q e) = remove_children q (PS e).
Proof.
  intro Hq. apply Element_eq.
  - rewrite update_eid. simpl. now rewrite update_eid.
  - rewrite update_tag. simpl. now rewrite update_tag.
  - rewrite (proj2 (proj2 (update_sig _))). simpl.
    now rewrite (proj2 (proj2 (update_sig _))).
  - rewrite update_children. simpl. rewrite update_children.
    assert (map PS (filter (fun c => negb (q c)) (children e))
            = filter (fun c => negb (q c)) (map PS (children e))) as ->.
    { rewrite filter_map_swap. f_equal. apply filter_ext. intro c.
      now rewrite Hq. }
    change (get (remove_children q e) "targetNamespace")
      with (get e "targetNamespace").
    change (eid (remove_children q e)) with (eid e).
    destruct (mem_nat (eid e) handles); [|reflexivity].
    rewrite !filter_filter. apply filter_ext. intro c. apply andb_comm.
Qed.

End Deep_update.

Lemma remove_children_id (q : Element -> bool) (e : Element) :
  (forall c, In c (children e) -> q c = false) -> remove_children q e = e.
Proof.
  intro H. unfold remove_children.
  assert (filter (fun c => negb (q c)) (children e) = children e) as ->.
  { rewrite <- (filter_true (children e)) at 2. apply filter_ext_in.
    intros c Hc. now rewrite (H c Hc). }
  now destruct e.
Qed.

Lemma remove_children_idempotent (q : Element -> bool) (e : Element) :
  remove_children q (remove_children q e) = remove_children q e.
Proof.
  apply remove_children_id. intros c Hc.
  apply remove_children_In in Hc. tauto.
Qed.


(** ** The loops over snapshots *)

Lemma remove_nodes_per_child (hs : list Element) (root : Element) :
  remove_nodes hs root
  = per_child (fun c => if mem_nat (eid c) (map eid hs) then [] else [c]) root.
Proof.
  unfold remove_nodes. revert root.
  induction hs as [|h r IH]; intro root; simpl.
  - unfold per_child. rewrite flat_map_singleton, map_id. now destruct root.
  - rewrite IH, remove_node_per_child, per_child_compose.
    apply per_child_ext. intros c _.
    destruct (Nat.eqb (eid c) (eid h)); simpl; [reflexivity|].
    now rewrite app_nil_r.
Qed.

(** *** Ports *)

Lemma ports_loop_Completed (ports : list Element) (target_name : option string)
  (service service' : Element) :
  prune_ports_loop ports target_name service = Completed service' ->
  service' = remove_nodes (filter (fun p => negb (port_kept target_name p)) ports)
               service.
Proof.
  revert service. induction ports as [|port rest IH]; simpl; intros service H.
  - now injection H as <-.
  - unfold port_kept at 1.
    destruct (truthy (get port "binding")) as [bq|]; simpl.
    + destruct (split_colon bq) as [[pre local]|]; [|discriminate].
      destruct (opt_eqb (Some local) target_name); simpl; now apply IH.
    + now apply IH.
Qed.

Lemma ports_loop_no_abort (ports : list Element) (target_name : option string)
  (service : Element) :
  (forall p bq, In p ports -> truthy (get p "binding") = Some bq ->
                has_colon bq = true) ->
  exists service',
    prune_ports_loop ports target_name service = Completed service'.
Proof.
  revert service. induction ports as [|port rest IH]; simpl; intros service H.
  - eexists; reflexivity.
  - assert (forall p bq, In p rest -> truthy (get p "binding") = Some bq ->
                         has_colon bq = true) as Hr
      by (intros; eapply H; eauto).
    destruct (truthy (get port "binding")) as [bq|] eqn:Hb; [|now apply IH].
    pose proof (H port bq (or_introl eq_refl) Hb) as Hc.
    unfold has_colon in Hc.
    destruct (split_colon bq) as [[pre local]|]; [|discriminate].
    destruct (opt_eqb (Some local) target_name); now apply IH.
Qed.

Lemma mem_nat_eid_filter (cs : list Element) (q : Element -> bool)
  (c : Element) :
  NoDup (map eid cs) -> In c cs ->
  mem_nat (eid c) (map eid (filter q cs)) = q c.
Proof.
  intros Hn Hc. destruct (q c) eqn:Hq.
  - apply mem_nat_In, in_map, filter_In. auto.
  - destruct (mem_nat (eid c) (map eid (filter q cs))) eqn:Hm; [|reflexivity].
    apply mem_nat_In, in_map_iff in Hm. destruct Hm as [c' [He Hin]].
    apply filter_In in Hin. destruct Hin as [Hin Hq'].
    assert (c' = c) as -> by (eapply NoDup_eid_inj; eauto).
    congruence.
Qed.

(** With distinct children, the loop is the filter it is written as. *)
Lemma prune_service_ports_Completed (service target_binding service' : Element) :
  NoDup (top_ids service) ->
  prune_service_ports service target_binding = Completed service' ->
  service' =
  remove_children
    (fun c => is_tag wsdl_port c
              && negb (port_kept (get target_binding "name") c)) service.
Proof.
  intros Hn H. unfold prune_service_ports in H.
  apply ports_loop_Completed in H. rewrite H, remove_nodes_per_child.
  rewrite remove_children_per_child. apply per_child_ext. intros c Hc.
  unfold findall. rewrite filter_filter.
  now rewrite (mem_nat_eid_filter _ _ c Hn Hc).
Qed.

(** *** Bindings *)

Lemma bindings_loop_no_target (bs : list Element) (target : Element)
  (keep_ops : list string) (policy_tree : option Element) (root : Element) :
  (forall x, In x bs -> eid x <> eid target) ->
  prune_bindings_loop bs target keep_ops policy_tree root
  = Completed (remove_nodes bs root).
Proof.
  revert root. induction bs as [|b rest IH]; simpl; intros root H;
    [reflexivity|].
  destruct (Nat.eqb (eid b) (eid target)) eqn:He.
  - apply Nat.eqb_eq in He. now apply H in He; [|left].
  - apply IH. intros; apply H; now right.
Qed.

Lemma bindings_loop_target (bs1 bs2 : list Element) (b target : Element)
  (keep_ops : list string) (policy_tree : option Element) (root : Element) :
  (forall x, In x bs1 -> eid x <> eid target) ->
  eid b = eid target ->
  (forall x, In x bs2 -> eid x <> eid target) ->
  prune_bindings_loop (bs1 ++ b :: bs2) target keep_ops policy_tree root =
  let b1 := prune_binding_operations keep_ops b in
  let root1 := store b1 (remove_nodes bs1 root) in
  match policy_tree with
  | Some policy_root =>
      if is_soap12_binding b1 then
        match attach_policy_to_binding b1 policy_root with
        | Completed b2 =>
            Completed (remove_nodes bs2 (store b2 (prune_existing_policy root1)))
        | Aborted e b2 => Aborted e (store b2 (prune_existing_policy root1))
        end
      else Completed (remove_nodes bs2 root1)
  | None => Completed (remove_nodes bs2 root1)
  end.
Proof.
  intros H1 Hb H2. revert root.
  induction bs1 as [|x rest IH]; simpl; intro root.
  - apply Nat.eqb_eq in Hb. rewrite Hb.
    destruct policy_tree as [policy_root|].
    + destruct (is_soap12_binding (prune_binding_operations keep_ops b)).
      * destruct (attach_policy_to_binding
                    (prune_binding_operations keep_ops b) policy_root);
          [|reflexivity].
        now apply bindings_loop_no_target.
      * now apply bindings_loop_no_target.
    + now apply bindings_loop_no_target.
  - destruct (Nat.eqb (eid x) (eid target)) eqn:He.
    + apply Nat.eqb_eq in He. now apply H1 in He; [|left].
    + apply IH. intros; apply H1; now right.
Qed.

Lemma is_tag_excl (t1 t2 : string) (c : Element) :
  t1 <> t2 -> is_tag t1 c = true -> is_tag t2 c = false.
Proof.
  unfold is_tag. intros Hne H1. apply String.eqb_eq in H1.
  apply String.eqb_neq. congruence.
Qed.

Lemma mem_eid_sub (cs l : list Element) (c : Element) :
  NoDup (map eid cs) -> In c cs -> incl l cs ->
  (mem_nat (eid c) (map eid l) = true <-> In c l).
Proof.
  intros Hn Hc Hl. rewrite mem_nat_In, in_map_iff. split.
  - intros [c' [He Hin]].
    assert (c' = c) as <- by (eapply NoDup_eid_inj; eauto). assumption.
  - intro Hin. now exists c.
Qed.

Lemma mem_eid_sub_false (cs l : list Element) (c : Element) :
  NoDup (map eid cs) -> In c cs -> incl l cs -> ~ In c l ->
  mem_nat (eid c) (map eid l) = false.
Proof.
  intros Hn Hc Hl Hout.
  destruct (mem_nat (eid c) (map eid l)) eqn:Hm; [|reflexivity].
  exfalso. apply Hout. now apply (mem_eid_sub cs l c Hn Hc Hl).
Qed.

Lemma attach_sig (b policy_root : Element) :
  match attach_policy_to_binding b policy_root with
  | Completed b' | Aborted _ b' => eid b' = eid b /\ tag b' = tag b
                                   /\ attrib b' = attrib b
  end.
Proof.
  unfold attach_policy_to_binding, remove_first.
  destruct (findall policy_root wsp_UsingPolicy) as [|u us];
    [destruct (find b wsp_UsingPolicy); repeat split|].
  destruct (findall policy_root wsp_Policy) as [|p ps].
  - destruct (find b wsp_UsingPolicy);
      destruct (find _ wsp_Policy); repeat split.
  - destruct (find b wsp_UsingPolicy);
      destruct (find _ wsp_Policy); repeat split.
Qed.

(** The children of the root after the three phases of the loop: the
    bindings before the target removed, the target rewritten, the
    bindings after it removed. *)
Lemma bindings_phases (root b b1 b2 : Element) (bs1 bs2 : list Element)
  (strip : bool) :
  NoDup (top_ids root) ->
  findall root wsdl_binding = bs1 ++ b :: bs2 ->
  eid b1 = eid b -> tag b1 = tag b -> eid b2 = eid b ->
  remove_nodes bs2
    (store b2
       ((if strip then prune_existing_policy else fun r => r)
          (store b1 (remove_nodes bs1 root))))
  = per_child (bindings_stage (eid b) b2 strip) root.
Proof.
  intros Hn Hbs He1 Ht1 He2.
  assert (forall x, In x (bs1 ++ b :: bs2) <->
                    In x (children root) /\ is_tag wsdl_binding x = true) as Hin.
  { intro x. rewrite <- Hbs. apply filter_In. }
  assert (NoDup (bs1 ++ b :: bs2)) as Hnb.
  { rewrite <- Hbs. apply NoDup_filter. eapply NoDup_map_inv. exact Hn. }
  pose proof (NoDup_remove_2 _ _ _ Hnb) as Hb_out.
  pose proof (NoDup_remove_1 _ _ _ Hnb) as Hn12.
  assert (incl bs1 (children root)) as Hi1.
  { intros x Hx. apply Hin. apply in_or_app. now left. }
  assert (incl bs2 (children root)) as Hi2.
  { intros x Hx. apply Hin. apply in_or_app. right. now right. }
  assert (In b (children root) /\ is_tag wsdl_binding b = true) as [Hbc Hbt].
  { apply Hin. apply in_or_app. right. now left. }
  unfold store, prune_existing_policy.
  rewrite !remove_nodes_per_child, !modify_per_child.
  assert (forall r,
            (if strip then
               fun root0 => remove_children (is_tag wsp_UsingPolicy)
                              (remove_children (is_tag wsp_Policy) root0)
             else fun r0 => r0) r
            = per_child (fun c => if strip && (is_tag wsp_Policy c
                                               || is_tag wsp_UsingPolicy c)
                                  then [] else [c]) r) as ->.
  { intro r. destruct strip; simpl.
    - rewrite !remove_children_per_child, per_child_compose.
      apply per_child_ext. intros c _.
      destruct (is_tag wsp_Policy c); simpl; [reflexivity|].
      rewrite app_nil_r. reflexivity.
    - unfold per_child. rewrite flat_map_singleton, map_id. now destruct r. }
  rewrite !per_child_compose. apply per_child_ext. intros c Hc.
  unfold bindings_stage.
  pose proof (mem_eid_sub _ bs1 c Hn Hc Hi1) as Hm1.
  pose proof (mem_eid_sub _ bs2 c Hn Hc Hi2) as Hm2.
  destruct (is_tag wsdl_binding c) eqn:Htc.
  - assert (is_tag wsp_Policy c = false) as Hp1
      by (eapply is_tag_excl; [|exact Htc]; vm_compute; discriminate).
    assert (is_tag wsp_UsingPolicy c = false) as Hp2
      by (eapply is_tag_excl; [|exact Htc]; vm_compute; discriminate).
    assert (In c (bs1 ++ b :: bs2)) as Hcb by (apply Hin; auto).
    rewrite Hp1, Hp2, andb_false_r.
    apply in_app_or in Hcb. destruct Hcb as [Hc1|[<-|Hc2]].
    + (* a binding before the target *)
      rewrite (proj2 Hm1 Hc1). simpl.
      destruct (Nat.eqb (eid c) (eid b)) eqn:Heq; [|reflexivity].
      apply Nat.eqb_eq in Heq.
      assert (c = b) as -> by (eapply NoDup_eid_inj; eauto).
      exfalso. apply Hb_out. apply in_or_app. now left.
    + (* the target *)
      assert (mem_nat (eid b) (map eid bs1) = false) as ->.
      { apply (mem_eid_sub_false (children root)); auto.
        intro Hx. apply Hb_out, in_or_app. now left. }
      simpl. rewrite He1, Nat.eqb_refl. simpl.
      assert (is_tag wsp_Policy b1 = false) as ->
        by (unfold is_tag in *; now rewrite Ht1).
      assert (is_tag wsp_UsingPolicy b1 = false) as ->
        by (unfold is_tag in *; now rewrite Ht1).
      rewrite andb_false_r. simpl. rewrite He1, He2, Nat.eqb_refl. simpl.
      rewrite !app_nil_r, He2.
      assert (mem_nat (eid b) (map eid bs2) = false) as ->.
      { apply (mem_eid_sub_false (children root)); auto.
        intro Hx. apply Hb_out, in_or_app. now right. }
      reflexivity.
    + (* a binding after the target *)
      assert (mem_nat (eid c) (map eid bs1) = false) as ->.
      { apply (mem_eid_sub_false (children root)); auto.
        intro Hm. clear - Hn12 Hm Hc2.
        induction bs1 as [|x r IH]; [destruct Hm|].
        simpl in Hn12. apply NoDup_cons_iff in Hn12.
        destruct Hm as [->|Hm]; [|apply IH; tauto].
        apply (proj1 Hn12). apply in_or_app. now right. }
      simpl.
      assert (Nat.eqb (eid c) (eid b) = false) as Hne.
      { apply Nat.eqb_neq. intro Heq.
        assert (c = b) as -> by (eapply NoDup_eid_inj; eauto).
        apply Hb_out. apply in_or_app. now right. }
      rewrite He1, Hne. simpl. rewrite Hp1, Hp2, andb_false_r. simpl.
      rewrite He2, Hne. simpl. rewrite ?app_nil_r.
      now rewrite (proj2 Hm2 Hc2).
  - (* not a binding *)
    assert (forall l, incl l (bs1 ++ b :: bs2) ->
                      mem_nat (eid c) (map eid l) = false) as Hout.
    { intros l Hl. destruct (mem_nat (eid c) (map eid l)) eqn:Hm;
        [|reflexivity].
      apply mem_nat_In, in_map_iff in Hm. destruct Hm as [x [Hex Hx]].
      apply Hl, Hin in Hx. destruct Hx as [Hxc Hxt].
      assert (x = c) as -> by (eapply NoDup_eid_inj; eauto). congruence. }
    rewrite (Hout bs1) by (intros x Hx; apply in_or_app; now left).
    assert (Nat.eqb (eid c) (eid b) = false) as Hne.
    { apply Nat.eqb_neq. intro Heq.
      assert (c = b) as -> by (eapply NoDup_eid_inj; eauto). congruence. }
    simpl. rewrite He1, Hne. simpl.
    destruct (strip && (is_tag wsp_Policy c || is_tag wsp_UsingPolicy c));
      simpl; [reflexivity|].
    rewrite He2, Hne. simpl. rewrite ?app_nil_r.
    rewrite (Hout bs2) by (intros x Hx; apply in_or_app; right; now right).
    reflexivity.
Qed.

Lemma NoDup_app_split_eid (bs1 bs2 : list Element) (b : Element) :
  NoDup (map eid (bs1 ++ b :: bs2)) ->
  (forall x, In x bs1 -> eid x <> eid b)
  /\ (forall x, In x bs2 -> eid x <> eid b).
Proof.
  rewrite map_app. simpl. intro Hn.
  pose proof (NoDup_remove_2 _ _ _ Hn) as Hout.
  split; intros x Hx He; apply Hout, in_or_app; [left|right];
    rewrite <- He; now apply in_map.
Qed.

Lemma NoDup_map_filter {A B} (f : A -> B) (p : A -> bool) (l : list A) :
  NoDup (map f l) -> NoDup (map f (filter p l)).
Proof.
  intro H. eapply subseq_NoDup; [|exact H].
  apply subseq_map, subseq_filter.
Qed.

Lemma store_store (n root : Element) : store n (store n root) = store n root.
Proof.
  unfold store. rewrite !modify_per_child, per_child_compose.
  apply per_child_ext. intros c _.
  destruct (Nat.eqb (eid c) (eid n)) eqn:He; simpl.
  - now rewrite Nat.eqb_refl.
  - now rewrite He.
Qed.

(** [prune_bindings] when the target stands between the bindings [bs1]
    and [bs2]: what is left when the policy step raises, and when the
    loop ends. *)
Lemma prune_bindings_at_target (root b target : Element)
  (bs1 bs2 : list Element) (keep_ops : list string)
  (policy_tree : option Element) :
  NoDup (top_ids root) ->
  findall root wsdl_binding = bs1 ++ b :: bs2 -> eid b = eid target ->
  prune_bindings root target keep_ops policy_tree =
  let b1 := prune_binding_operations keep_ops b in
  let root1 := store b1 (remove_nodes bs1 root) in
  match policy_tree with
  | Some policy_root =>
      if is_soap12_binding b1 then
        match attach_policy_to_binding b1 policy_root with
        | Completed b2 =>
            Completed (remove_nodes bs2 (store b2 (prune_existing_policy root1)))
        | Aborted e b2 => Aborted e (store b2 (prune_existing_policy root1))
        end
      else Completed (remove_nodes bs2 root1)
  | None => Completed (remove_nodes bs2 root1)
  end.
Proof.
  intros Hn Hbs He.
  assert (NoDup (map eid (bs1 ++ b :: bs2))) as Hnb.
  { rewrite <- Hbs. now apply NoDup_map_filter. }
  destruct (NoDup_app_split_eid _ _ _ Hnb) as [H1 H2].
  unfold prune_bindings. rewrite Hbs.
  apply bindings_loop_target;
    [intros x Hx; rewrite <- He; now apply H1
    |assumption
    |intros x Hx; rewrite <- He; now apply H2].
Qed.

(** [prune_bindings] on a root with distinct children, one of which is
    the target. *)
Lemma prune_bindings_closed (root b target : Element) (keep_ops : list string)
  (policy_tree : option Element) :
  NoDup (top_ids root) ->
  In b (findall root wsdl_binding) -> eid b = eid target ->
  match target_binding_result keep_ops policy_tree b with
  | inl (b', strip) =>
      prune_bindings root target keep_ops policy_tree
      = Completed (per_child (bindings_stage (eid target) b' strip) root)
  | inr e =>
      exists t, prune_bindings root target keep_ops policy_tree = Aborted e t
  end.
Proof.
  intros Hn Hb He.
  destruct (in_split _ _ Hb) as [bs1 [bs2 Hbs]].
  assert (NoDup (map eid (bs1 ++ b :: bs2))) as Hnb.
  { rewrite <- Hbs. now apply NoDup_map_filter. }
  destruct (NoDup_app_split_eid _ _ _ Hnb) as [H1 H2].
  unfold prune_bindings. rewrite Hbs.
  rewrite bindings_loop_target;
    [|intros x Hx; rewrite <- He; now apply H1
     |assumption
     |intros x Hx; rewrite <- He; now apply H2].
  unfold target_binding_result. cbv zeta.
  set (b1 := prune_binding_operations keep_ops b).
  assert (eid b1 = eid b /\ tag b1 = tag b) as [He1 Ht1] by (split; reflexivity).
  rewrite <- He.
  destruct policy_tree as [policy_root|].
  - destruct (is_soap12_binding b1).
    + pose proof (attach_sig b1 policy_root) as Hs.
      destruct (attach_policy_to_binding b1 policy_root) as [b2|e b2].
      * f_equal. destruct Hs as [He2 _].
        apply (bindings_phases root b b1 b2 bs1 bs2 true); auto; congruence.
      * eexists; reflexivity.
    + f_equal.
      rewrite <- (bindings_phases root b b1 b1 bs1 bs2 false Hn Hbs He1 Ht1 He1).
      now rewrite store_store.
  - f_equal.
    rewrite <- (bindings_phases root b b1 b1 bs1 bs2 false Hn Hbs He1 Ht1 He1).
    now rewrite store_store.
Qed.

(** ** The policy splice and the other children of a binding *)

Lemma findall_insert (n : nat) (x e : Element) (t : string) :
  tag x <> t -> findall (insert n x e) t = findall e t.
Proof.
  intro Ht. unfold findall, insert, insert_at. simpl.
  rewrite filter_app. simpl.
  assert (is_tag t x = false) as -> by (now apply String.eqb_neq).
  now rewrite <- filter_app, firstn_skipn.
Qed.

Lemma in_insert_at {A} (n : nat) (x y : A) (l : list A) :
  In x (insert_at n y l) <-> x = y \/ In x l.
Proof.
  unfold insert_at. rewrite in_app_iff. simpl.
  rewrite <- (firstn_skipn n l) at 3. rewrite in_app_iff.
  intuition congruence.
Qed.

Lemma findall_remove_node (n e : Element) (t : string) :
  (forall c, In c (children e) -> eid c = eid n -> tag c <> t) ->
  findall (remove_node n e) t = findall e t.
Proof.
  intro H. unfold findall, remove_node. simpl. rewrite filter_filter.
  apply filter_ext_in. intros c Hc.
  destruct (Nat.eqb (eid c) (eid n)) eqn:He; [|reflexivity].
  apply Nat.eqb_eq in He. simpl. symmetry. apply String.eqb_neq. now apply H.
Qed.

Lemma find_Some (e n : Element) (t : string) :
  find e t = Some n -> In n (children e) /\ tag n = t.
Proof.
  unfold find. intro H. apply findall_In.
  destruct (findall e t) as [|x r]; [discriminate|].
  injection H as ->. now left.
Qed.

(** Removing the first child with tag [t'] leaves the children with
    another tag, when no two children at hand share an identity with it. *)
Lemma findall_remove_first (e : Element) (t t' : string) :
  t <> t' ->
  (forall n c, In n (children e) -> In c (children e) -> tag n = t' ->
               eid c = eid n -> tag c <> t) ->
  findall (remove_first t' e) t = findall e t.
Proof.
  intros Hne H. unfold remove_first.
  destruct (find e t') as [n|] eqn:Hf; [|reflexivity].
  apply find_Some in Hf. destruct Hf as [Hn Ht].
  apply findall_remove_node. intros c Hc He. now apply (H n c).
Qed.

Lemma remove_first_children (e : Element) (t : string) :
  subseq (children (remove_first t e)) (children e).
Proof.
  unfold remove_first. destruct (find e t); [|apply subseq_refl].
  apply subseq_filter.
Qed.

(** The splice touches only [UsingPolicy] and [Policy] children. *)
Lemma attach_findall (b policy_root : Element) (t : string) :
  NoDup (top_ids b) -> t <> wsp_UsingPolicy -> t <> wsp_Policy ->
  match attach_policy_to_binding b policy_root with
  | Completed b' | Aborted _ b' => findall b' t = findall b t
  end.
Proof.
  intros Hn Hu Hp.
  assert (findall (remove_first wsp_UsingPolicy b) t = findall b t) as H1.
  { apply findall_remove_first; [assumption|].
    intros n c Hin Hc Ht He. assert (c = n) as ->
        by (eapply NoDup_eid_inj; eauto). congruence. }
  assert (NoDup (top_ids (remove_first wsp_UsingPolicy b))) as Hn1.
  { eapply subseq_NoDup; [|exact Hn]. apply subseq_map, remove_first_children. }
  unfold attach_policy_to_binding.
  destruct (findall policy_root wsp_UsingPolicy) as [|u us] eqn:Hus;
    [exact H1|].
  assert (tag u = wsp_UsingPolicy) as Htu.
  { apply (findall_In policy_root). rewrite Hus. now left. }
  set (b1 := remove_first wsp_UsingPolicy b) in *.
  assert (findall (remove_first wsp_Policy (insert 1 u b1)) t = findall b t)
    as H2.
  { rewrite findall_remove_first; [|assumption|].
    - rewrite findall_insert; [assumption | congruence].
    - intros n c Hin Hc Ht He.
      simpl in Hin, Hc. apply in_insert_at in Hin, Hc.
      assert (In n (children b1)) as Hin'.
      { destruct Hin as [->|Hin]; [|assumption].
        rewrite Htu in Ht. vm_compute in Ht. discriminate. }
      destruct Hc as [->|Hc'].
      + congruence.
      + assert (c = n) as -> by (eapply NoDup_eid_inj; eauto). congruence. }
  destruct (findall policy_root wsp_Policy) as [|p ps] eqn:Hps; [exact H2|].
  assert (tag p = wsp_Policy) as Htp.
  { apply (findall_In policy_root). rewrite Hps. now left. }
  rewrite findall_insert; [assumption | congruence].
Qed.

Lemma findall_remove_children (q : Element -> bool) (e : Element) (t : string) :
  findall (remove_children q e) t
  = filter (fun c => negb (q c)) (findall e t).
Proof.
  unfold findall, remove_children. simpl. rewrite !filter_filter.
  apply filter_ext. intro c. apply andb_comm.
Qed.

Lemma op_names_prune (keep_ops : list string) (e : Element) :
  op_names
    (remove_children
       (fun op => is_tag wsdl_operation op
                  && negb (mem_str (get op "name") keep_ops)) e)
  = filter (fun n => mem_str n keep_ops) (op_names e).
Proof.
  unfold op_names. rewrite findall_remove_children, filter_map_swap.
  f_equal. apply filter_ext_in. intros c Hc.
  apply findall_In in Hc. destruct Hc as [_ Ht].
  unfold is_tag. rewrite Ht, String.eqb_refl. simpl. apply negb_involutive.
Qed.

Lemma op_names_update (handles : list nat) (keep_keys : list key)
  (e : Element) :
  op_names (update_nodes handles (prune_schema_node keep_keys) e) = op_names e.
Proof.
  unfold op_names. rewrite update_findall by tag_facts.
  rewrite map_map. apply map_ext. intro o. apply update_get.
Qed.

(** ** The splice on a binding whose first child is no policy node *)

Lemma filter_other_eid (h : Element) (l : list Element) :
  (forall c, In c l -> eid c <> eid h) ->
  filter (fun c => negb (Nat.eqb (eid c) (eid h))) l = l.
Proof.
  intro H. rewrite <- (filter_true l) at 2. apply filter_ext_in.
  intros c Hc. apply H, Nat.eqb_neq in Hc. now rewrite Hc.
Qed.

Lemma set_children_same (e : Element) : set_children e (children e) = e.
Proof. now destruct e. Qed.

(** Removing the first child with tag [t] behind children [pre] of other
    tags. *)
Lemma remove_first_behind (t : string) (b : Element) (pre r : list Element) :
  children b = pre ++ r ->
  (forall c, In c pre -> tag c <> t) ->
  NoDup (map eid (pre ++ r)) ->
  exists r',
    remove_first t b = set_children b (pre ++ r') /\ subseq r' r.
Proof.
  intros Hc Hpre Hn. unfold remove_first.
  destruct (find b t) as [n|] eqn:Hf.
  - apply find_Some in Hf. destruct Hf as [Hin Ht]. rewrite Hc in Hin.
    exists (filter (fun c => negb (Nat.eqb (eid c) (eid n))) r).
    split; [|apply subseq_filter].
    unfold remove_node. rewrite Hc, filter_app. f_equal. f_equal.
    apply filter_other_eid. intros c Hcp He.
    assert (c = n) as ->.
    { apply (NoDup_eid_inj (pre ++ r)); auto. apply in_or_app. now left. }
    now apply (Hpre n Hcp).
  - exists r. split; [|apply subseq_refl]. rewrite <- Hc.
    symmetry. apply set_children_same.
Qed.

Lemma remove_first_sig (t : string) (b : Element) :
  eid (remove_first t b) = eid b /\ tag (remove_first t b) = tag b
  /\ attrib (remove_first t b) = attrib b.
Proof. unfold remove_first. destruct (find b t); repeat split. Qed.

(** Removing the first child with a tag, under a map that keeps tags and
    identities. *)
Lemma remove_first_map (f : Element -> Element) (t : string) (e e' : Element) :
  (forall c, eid (f c) = eid c) -> (forall c, tag (f c) = tag c) ->
  children e' = map f (children e) ->
  children (remove_first t e') = map f (children (remove_first t e)).
Proof.
  intros He Ht Hc. unfold remove_first, find, findall. rewrite Hc.
  rewrite filter_map_swap.
  rewrite (filter_ext (fun a => is_tag t (f a)) (is_tag t))
    by (intro a; unfold is_tag; now rewrite Ht).
  destruct (filter (is_tag t) (children e)) as [|n r]; simpl;
    [exact Hc|].
  rewrite Hc, filter_map_swap. f_equal. apply filter_ext. intro a.
  now rewrite !He.
Qed.

(** The binding the splice leaves: the first child behind the
    [UsingPolicy] child that is removed, the two nodes of the fragment,
    and what is left of the other children. *)
Lemma attach_shape (b policy_root u p x : Element) (us ps r1 : list Element) :
  children (remove_first wsp_UsingPolicy b) = x :: r1 ->
  tag x <> wsp_UsingPolicy -> tag x <> wsp_Policy ->
  NoDup (map eid (children b)) ->
  findall policy_root wsp_UsingPolicy = u :: us ->
  findall policy_root wsp_Policy = p :: ps ->
  ~ In (eid u) (map eid (children b)) ->
  exists r2,
    attach_policy_to_binding b policy_root
    = Completed (set_children b (x :: u :: p :: r2))
    /\ subseq r2 r1.
Proof.
  intros Hc Hxu Hxp Hn Hu Hp Hfu.
  assert (tag u = wsp_UsingPolicy) as Htu
    by (apply (findall_In policy_root); rewrite Hu; now left).
  pose proof (remove_first_children b wsp_UsingPolicy) as Hsub.
  rewrite Hc in Hsub.
  destruct (remove_first_sig wsp_UsingPolicy b) as [E1 [E2 E3]].
  unfold attach_policy_to_binding. rewrite Hu, Hp.
  set (b1 := remove_first wsp_UsingPolicy b) in *.
  destruct (remove_first_behind wsp_Policy (insert 1 u b1) [x; u] r1)
    as [r2 [H2 Hs2]].
  { unfold insert, insert_at. simpl. now rewrite Hc. }
  { intros c [<-|[<-|[]]]; [assumption|].
    rewrite Htu. vm_compute. discriminate. }
  { assert (forall i, In i (map eid (x :: r1)) -> In i (map eid (children b)))
      as Hin.
    { intros i Hi. apply in_map_iff in Hi. destruct Hi as [c [<- Hi]].
      apply in_map. exact (subseq_In _ _ c Hsub Hi). }
    assert (NoDup (map eid (x :: r1))) as Hn1
      by (eapply subseq_NoDup; [apply subseq_map; exact Hsub | exact Hn]).
    simpl. simpl in Hn1, Hin. apply NoDup_cons_iff in Hn1.
    destruct Hn1 as [Hx Hr].
    constructor; [|constructor].
    - intros [He|Hi]; [|now apply Hx].
      apply Hfu, Hin. left. congruence.
    - intro Hi. apply Hfu, Hin. now right.
    - exact Hr. }
  rewrite H2. exists r2. split; [|exact Hs2].
  f_equal. apply Element_eq; [exact E1 | exact E2 | exact E3 | reflexivity].
Qed.

(** The splice on a binding that holds the two nodes of the fragment
    behind its first child gives the binding back. *)
Lemma attach_fixed (b policy_root u p x : Element) (us ps r2 : list Element) :
  children b = x :: u :: p :: r2 ->
  tag x <> wsp_UsingPolicy -> tag x <> wsp_Policy ->
  findall policy_root wsp_UsingPolicy = u :: us ->
  findall policy_root wsp_Policy = p :: ps ->
  (forall c, In c (x :: r2) -> eid c <> eid u /\ eid c <> eid p) ->
  eid u <> eid p ->
  attach_policy_to_binding b policy_root = Completed b.
Proof.
  intros Hc Hxu Hxp Hu Hp Hfresh Hup.
  assert (tag u = wsp_UsingPolicy) as Htu
    by (apply (findall_In policy_root); rewrite Hu; now left).
  assert (tag p = wsp_Policy) as Htp
    by (apply (findall_In policy_root); rewrite Hp; now left).
  assert (is_tag wsp_UsingPolicy x = false) as Bxu
    by (now apply String.eqb_neq).
  assert (is_tag wsp_Policy x = false) as Bxp by (now apply String.eqb_neq).
  assert (is_tag wsp_UsingPolicy u = true) as Buu
    by (unfold is_tag; rewrite Htu; apply String.eqb_refl).
  assert (is_tag wsp_Policy u = false) as Bup
    by (unfold is_tag; rewrite Htu; reflexivity).
  assert (is_tag wsp_Policy p = true) as Bpp
    by (unfold is_tag; rewrite Htp; apply String.eqb_refl).
  assert (Nat.eqb (eid x) (eid u) = false) as Exu
    by (apply Nat.eqb_neq, Hfresh; now left).
  assert (Nat.eqb (eid x) (eid p) = false) as Exp
    by (apply Nat.eqb_neq, Hfresh; now left).
  assert (Nat.eqb (eid p) (eid u) = false) as Epu
    by (apply Nat.eqb_neq; congruence).
  assert (Nat.eqb (eid u) (eid p) = false) as Eup
    by (now apply Nat.eqb_neq).
  unfold attach_policy_to_binding. rewrite Hu, Hp.
  assert (remove_first wsp_UsingPolicy b = set_children b (x :: p :: r2))
    as ->.
  { unfold remove_first, find, findall. rewrite Hc. simpl.
    rewrite Bxu, Buu. simpl. unfold remove_node. rewrite Hc. simpl.
    rewrite Exu, Nat.eqb_refl, Epu. simpl.
    rewrite filter_other_eid; [reflexivity|].
    intros c Hin. apply Hfresh. now right. }
  assert (remove_first wsp_Policy (insert 1 u (set_children b (x :: p :: r2)))
          = set_children b (x :: u :: r2)) as ->.
  { unfold remove_first, find, findall, insert, insert_at. simpl.
    rewrite Bxp, Bup, Bpp. simpl. unfold remove_node. simpl.
    rewrite Exp, Eup, Nat.eqb_refl. simpl.
    rewrite filter_other_eid; [reflexivity|].
    intros c Hin. apply Hfresh. now right. }
  unfold insert, insert_at. simpl. rewrite <- Hc. f_equal.
  now destruct b.
Qed.

(** ** Documents whose types sections are children of the root *)

Lemma iter_unfold (e : Element) : iter e = e :: descendants e.
Proof. destruct e. reflexivity. Qed.

Lemma flat_map_ext_in {A B} (f g : A -> list B) (l : list A) :
  (forall x, In x l -> f x = g x) -> flat_map f l = flat_map g l.
Proof.
  induction l as [|x r IH]; simpl; intro H; [reflexivity|].
  rewrite (H x (or_introl eq_refl)), IH; [reflexivity|].
  intros; apply H; now right.
Qed.

Lemma filter_flat_map {A B} (p : B -> bool) (f : A -> list B) (l : list A) :
  filter p (flat_map f l) = flat_map (fun x => filter p (f x)) l.
Proof.
  induction l as [|x r IH]; simpl; [reflexivity|].
  now rewrite filter_app, IH.
Qed.

Lemma flat_map_map {A B C} (f : B -> list C) (g : A -> B) (l : list A) :
  flat_map f (map g l) = flat_map (fun x => f (g x)) l.
Proof.
  induction l as [|x r IH]; simpl; [reflexivity | now rewrite IH].
Qed.

Lemma map_flat_map {A B C} (g : B -> C) (f : A -> list B) (l : list A) :
  map g (flat_map f l) = flat_map (fun x => map g (f x)) l.
Proof.
  induction l as [|x r IH]; simpl; [reflexivity|].
  now rewrite map_app, IH.
Qed.

Lemma map_filter_flat_map {A B} (f : A -> B) (p : A -> bool) (l : list A) :
  map f (filter p l) = flat_map (fun x => if p x then [f x] else []) l.
Proof.
  induction l as [|x r IH]; simpl; [reflexivity|].
  destruct (p x); simpl; now rewrite IH.
Qed.

Lemma find_map_in {A} (p : A -> bool) (g : A -> A) (l : list A) :
  (forall x, In x l -> p (g x) = p x) ->
  List.find p (map g l) = option_map g (List.find p l).
Proof.
  induction l as [|x r IH]; simpl; intro H; [reflexivity|].
  rewrite (H x (or_introl eq_refl)). destruct (p x); [reflexivity|].
  apply IH. intros; apply H; now right.
Qed.

Lemma filter_none {A} (p : A -> bool) (l : list A) :
  (forall x, In x l -> p x = false) -> filter p l = [].
Proof.
  induction l as [|x r IH]; simpl; intro H; [reflexivity|].
  rewrite (H x (or_introl eq_refl)). apply IH. intros; apply H; now right.
Qed.

Lemma find_schemas_flat (e : Element) :
  types_at_top e ->
  find_schemas e
  = flat_map (fun t => findall t xsd_schema) (findall e wsdl_types).
Proof.
  intro Hflat. unfold find_schemas, descendants.
  change (findall e wsdl_types) with (filter (is_tag wsdl_types) (children e)).
  f_equal. rewrite filter_flat_map.
  rewrite <- (flat_map_filter (is_tag wsdl_types) (children e)).
  apply flat_map_ext_in. intros c Hc.
  rewrite iter_unfold. simpl.
  rewrite (filter_none (is_tag wsdl_types) (descendants c)).
  - now destruct (is_tag wsdl_types c).
  - intros d Hd. apply String.eqb_neq. now apply (Hflat c d).
Qed.

(** *** Identities at different places *)

Lemma NoDup_app_disjoint {A} (l1 l2 : list A) (x : A) :
  NoDup (l1 ++ l2) -> In x l1 -> In x l2 -> False.
Proof.
  induction l1 as [|y r IH]; simpl; intros Hn H1 H2; [destruct H1|].
  apply NoDup_cons_iff in Hn. destruct Hn as [Hy Hn].
  destruct H1 as [->|H1]; [|now apply IH].
  apply Hy. apply in_or_app. now right.
Qed.

Lemma ids_one_child (cs : list Element) (a b : Element) (i : nat) :
  NoDup (flat_map ids cs) -> In a cs -> In b cs ->
  In i (ids a) -> In i (ids b) -> a = b.
Proof.
  induction cs as [|c r IH]; simpl; intros Hn Ha Hb Hia Hib; [destruct Ha|].
  assert (forall x, In x r -> In i (ids x) -> In i (flat_map ids r)) as Hr
    by (intros x Hx Hi; apply in_flat_map; now exists x).
  destruct Ha as [->|Ha], Hb as [->|Hb]; [reflexivity| | |].
  - exfalso. apply (NoDup_app_disjoint _ _ i Hn Hia). now apply (Hr b).
  - exfalso. apply (NoDup_app_disjoint _ _ i Hn Hib). now apply (Hr a).
  - apply IH; auto. eapply NoDup_app_remove_l; eauto.
Qed.

Lemma iter_ids (x y : Element) : In y (iter x) -> In (eid y) (ids x).
Proof. intro H. unfold ids. now apply in_map. Qed.

Lemma iter_child (s el y : Element) :
  In el (children s) -> In y (iter el) -> In y (descendants s).
Proof.
  intros Hel Hy. unfold descendants. apply in_flat_map. now exists el.
Qed.

(** Below a child of a schema there is no schema of the index. *)
Lemma no_schema_below_items (e s el y : Element) :
  NoDup (ids e) -> types_at_top e ->
  In s (find_schemas e) -> In el (children s) -> In y (iter el) ->
  mem_nat (eid y) (map eid (find_schemas e)) = false.
Proof.
  intros Hn Hflat Hs Hel Hy.
  destruct (mem_nat _ _) eqn:Hm; [|reflexivity]. exfalso.
  apply mem_nat_In, in_map_iff in Hm. destruct Hm as [s' [He Hs']].
  rewrite (find_schemas_flat e Hflat) in Hs, Hs'.
  apply in_flat_map in Hs, Hs'.
  destruct Hs as [t [Ht Hst]]. destruct Hs' as [t' [Ht' Hst']].
  apply findall_In in Ht, Ht', Hst, Hst'.
  destruct Ht as [Ht _], Ht' as [Ht' _], Hst as [Hst _], Hst' as [Hst' _].
  rewrite ids_children in Hn. apply NoDup_cons_iff in Hn.
  destruct Hn as [_ Hn].
  assert (In (eid y) (ids el)) as Hyel by now apply iter_ids.
  assert (In (eid y) (ids s)) as Hys.
  { rewrite ids_children. right. apply in_flat_map. now exists el. }
  assert (In (eid y) (ids t)) as Hyt.
  { rewrite ids_children. right. apply in_flat_map. now exists s. }
  assert (In (eid y) (ids t')) as Hyt'.
  { rewrite ids_children. right. apply in_flat_map. exists s'.
    split; [assumption|]. rewrite <- He. apply eid_in_ids. }
  assert (t = t') as <- by (eapply ids_one_child; eauto).
  pose proof (NoDup_flat_map_elim _ _ Hn t Ht) as Hnt.
  rewrite ids_children in Hnt. apply NoDup_cons_iff in Hnt.
  destruct Hnt as [_ Hnt].
  assert (s = s') as <-.
  { eapply (ids_one_child (children t)); eauto.
    rewrite <- He. apply eid_in_ids. }
  pose proof (NoDup_flat_map_elim _ _ Hnt s Hst) as Hns.
  rewrite ids_children in Hns. apply NoDup_cons_iff in Hns.
  apply (proj1 Hns). rewrite He. apply in_flat_map. now exists el.
Qed.

Section Flat_update.

Variable handles : list nat.
Variable keep_keys : list key.

Local Abbreviation PS := (update_nodes handles (prune_schema_node keep_keys)).

(** Schema pruning leaves a subtree without schema of the index as it is. *)
Lemma update_no_handle (x : Element) :
  (forall y, In y (iter x) -> mem_nat (eid y) handles = false) -> PS x = x.
Proof.
  induction x as [i t a cs IH] using Element_ind'. intro H.
  rewrite update_unfold. cbv zeta.
  rewrite (H _ (iter_self _)). simpl.
  assert (map PS cs = cs) as ->; [|reflexivity].
  rewrite <- (map_id cs) at 2. apply map_ext_in. intros c Hc.
  rewrite Forall_forall in IH. apply IH; [assumption|].
  intros y Hy. apply H. simpl. right. apply in_flat_map. now exists c.
Qed.

(** The tags below a pruned node are tags below the node. *)
Lemma update_iter_tag (x d' : Element) :
  In d' (iter (PS x)) -> exists d, In d (iter x) /\ tag d' = tag d.
Proof.
  induction x as [i t a cs IH] using Element_ind'. intro H.
  rewrite iter_unfold in H. destruct H as [<-|H].
  - exists (Elem i t a cs). split; [apply iter_self | apply update_tag].
  - unfold descendants in H. apply in_flat_map in H.
    destruct H as [c' [Hc' Hd']].
    pose proof (subseq_In _ _ c' (update_children_subseq _ _ (Elem i t a cs))
                  Hc') as Hin.
    simpl in Hin. apply in_map_iff in Hin. destruct Hin as [c [<- Hc]].
    rewrite Forall_forall in IH. destruct (IH c Hc Hd') as [d [Hd Ht]].
    exists d. split; [|assumption]. simpl. right.
    apply in_flat_map. now exists c.
Qed.

Lemma update_descendants_tag (x d' : Element) :
  In d' (descendants (PS x)) ->
  exists d, In d (descendants x) /\ tag d' = tag d.
Proof.
  unfold descendants. intro H. apply in_flat_map in H.
  destruct H as [c' [Hc' Hd']].
  pose proof (subseq_In _ _ c' (update_children_subseq _ _ x) Hc') as Hin.
  apply in_map_iff in Hin. destruct Hin as [c [<- Hc]].
  destruct (update_iter_tag c d' Hd') as [d [Hd Ht]].
  exists d. split; [|assumption]. apply in_flat_map. now exists c.
Qed.

End Flat_update.

Lemma remove_children_descendants (q : Element -> bool) (x d : Element) :
  In d (descendants (remove_children q x)) -> In d (descendants x).
Proof.
  unfold descendants. simpl. intro H. apply in_flat_map in H.
  destruct H as [c [Hc Hd]]. apply filter_In in Hc.
  apply in_flat_map. exists c. tauto.
Qed.

Lemma find_schemas_of_types (e t s : Element) :
  In t (findall e wsdl_types) -> In s (findall t xsd_schema) ->
  In s (find_schemas e).
Proof.
  intros Ht Hs. unfold find_schemas. apply in_flat_map. exists t.
  split; [|assumption]. apply findall_In in Ht. destruct Ht as [Hc Htag].
  apply filter_In. split.
  - unfold descendants. apply in_flat_map. exists t.
    split; [assumption | apply iter_self].
  - unfold is_tag. rewrite Htag. apply String.eqb_refl.
Qed.

(** ** The reachability resolver *)

Section Resolver_facts.

Variable QName : option string -> string -> option key.
Variable nsmap : list (string * string).
Variable by_name : list (index_key * Element).

Local Abbreviation resolve := (resolve_qname QName nsmap).
Local Abbreviation expand' := (expand QName nsmap).
Local Abbreviation bfs' := (bfs QName nsmap).

Lemma mapM_app {A B} (f : A -> result B) (l1 l2 : list A) :
  mapM f (l1 ++ l2) =
  (ys1 <- mapM f l1 ;; ys2 <- mapM f l2 ;; Ok (ys1 ++ ys2)).
Proof.
  induction l1 as [|x r IH]; simpl.
  - destruct (mapM f l2); reflexivity.
  - destruct (f x) as [y|e]; simpl; [|reflexivity].
    rewrite IH. destruct (mapM f r) as [ys|e]; simpl; [|reflexivity].
    destruct (mapM f l2); reflexivity.
Qed.

(** What a completed expansion leaves: [keep] as it was, and the
    resolved references on top of the worklist and of the trace. *)
Lemma expand_Ok (k : key) (nodes : list Element) (w w' : worklist) :
  expand' k nodes w = Ok w' ->
  exists qs,
    mapM resolve (flat_map refs_of nodes) = Ok qs /\
    queue w' = rev qs ++ queue w /\
    keep w' = keep w /\
    trace w' = rev (map (Pushed k) qs) ++ trace w.
Proof.
  revert w. induction nodes as [|node rest IH]; simpl; intros w H.
  - injection H as <-. exists []. auto.
  - destruct (mapM resolve (refs_of node)) as [qns|e] eqn:Hq; simpl in H;
      [|discriminate].
    apply IH in H. destruct H as [qs [Hm [Hqu [Hk Ht]]]]. simpl in *.
    exists (qns ++ qs). rewrite mapM_app, Hq, Hm. simpl.
    rewrite Hqu, Hk, Ht, map_app, !rev_app_distr, <- !app_assoc. auto.
Qed.

Lemma index_key_match (ik : index_key) (qn : key) :
  index_key_eqb ik (fst qn, Some (snd qn)) = true <->
  exists n, snd ik = Some n /\ (fst ik, n) = qn.
Proof.
  destruct ik as [t [n|]], qn as [ns l]; unfold index_key_eqb; simpl;
    rewrite andb_true_iff, opt_eqb_eq.
  - rewrite String.eqb_eq. split.
    + intros [-> ->]. now exists l.
    + intros [n' [H1 H2]]. injection H1 as <-. injection H2 as -> ->. auto.
  - split; [intros [_ H]; discriminate | intros [n' [H _]]; discriminate].
Qed.

(** Marking a key takes exactly the followed attributes of its entries
    out of what is pending. *)
Lemma pending_mark (idx : list (index_key * Element)) (kp : list key)
  (qn : key) :
  mem_key qn kp = false ->
  pending idx kp =
  pending idx (qn :: kp)
  + List.length (flat_map refs_of (by_name_get idx qn)).
Proof.
  intro Hq. unfold pending, by_name_get.
  induction idx as [|[ik node] r IH]; simpl; [reflexivity|].
  rewrite IH. clear IH.
  destruct (index_key_eqb ik (fst qn, Some (snd qn))) eqn:Hm; simpl.
  - apply index_key_match in Hm. destruct Hm as [n [Hn Hk]].
    unfold marked. rewrite Hn. simpl. rewrite Hk, Hq, key_eqb_refl. simpl.
    rewrite length_app. lia.
  - assert (marked (qn :: kp) ik = marked kp ik) as ->.
    { unfold marked. destruct (snd ik) as [n|] eqn:Hn; [|reflexivity].
      simpl. destruct (key_eqb (fst ik, n) qn) eqn:He; [|reflexivity].
      apply key_eqb_eq in He.
      assert (index_key_eqb ik (fst qn, Some (snd qn)) = true) as Hc
        by (apply index_key_match; now exists n).
      congruence. }
    lia.
Qed.

(** Each iteration lowers the potential by one, so the loop ends within
    any bound above it. *)
Lemma bfs_terminates (fuel : nat) (w : worklist) :
  potential by_name w < fuel -> exists r, bfs' fuel by_name w = Some r.
Proof.
  revert w. induction fuel as [|fuel IH]; intros w H; [lia|].
  simpl. destruct w as [q kp tr]. unfold potential in H. simpl in *.
  destruct q as [|qn rest]; [eexists; reflexivity|].
  destruct (mem_key qn kp) eqn:Hq.
  - apply IH. unfold potential. simpl in *. lia.
  - destruct (expand' qn (by_name_get by_name qn)
                (Worklist rest (qn :: kp) (Marked qn :: tr))) as [w'|e] eqn:He;
      [|eexists; reflexivity].
    apply IH. apply expand_Ok in He.
    destruct He as [qs [Hm [Hqu [Hk _]]]]. simpl in *.
    apply mapM_Ok_length in Hm.
    unfold potential. rewrite Hqu, Hk, length_app, length_rev, Hm.
    rewrite (pending_mark by_name kp qn Hq) in H. simpl in H. lia.
Qed.

(** Induction over the iterations of a run that returns. *)
Lemma bfs_invariant (I : worklist -> Prop) :
  (forall qn rest kp tr,
     I (Worklist (qn :: rest) kp tr) -> mem_key qn kp = true ->
     I (Worklist rest kp tr)) ->
  (forall qn rest kp tr w',
     I (Worklist (qn :: rest) kp tr) -> mem_key qn kp = false ->
     expand' qn (by_name_get by_name qn)
       (Worklist rest (qn :: kp) (Marked qn :: tr)) = Ok w' ->
     I w') ->
  forall fuel w w',
    I w -> bfs' fuel by_name w = Some (Ok w') -> I w' /\ queue w' = [].
Proof.
  intros Hskip Hmark. induction fuel as [|fuel IH]; intros w w' Hw H;
    [discriminate|].
  simpl in H. destruct w as [q kp tr]. simpl in H.
  destruct q as [|qn rest].
  - injection H as <-. auto.
  - destruct (mem_key qn kp) eqn:Hq.
    + eapply IH; [|exact H]. eapply Hskip; eauto.
    + destruct (expand' qn (by_name_get by_name qn)
                  (Worklist rest (qn :: kp) (Marked qn :: tr))) as [w1|e] eqn:He;
        [|discriminate].
      eapply IH; [|exact H]. eapply Hmark; eauto.
Qed.

Lemma run_worklist_terminates (seeds : list key) :
  exists r, run_worklist QName nsmap seeds by_name = Some r.
Proof.
  apply bfs_terminates. unfold potential, worklist_bound. simpl.
  rewrite length_rev.
  assert (pending by_name [] =
          list_sum (map (fun kn => List.length (refs_of (snd kn))) by_name))
    as ->; [|lia].
  unfold pending. f_equal. apply map_ext. intro kn. unfold marked.
  destruct (snd (fst kn)); reflexivity.
Qed.


(** *** The trace *)

Lemma marks_pushes (k : key) (ps : list key) (tr : list event) :
  marks (map (Pushed k) ps ++ tr) = marks tr.
Proof. induction ps as [|p r IH]; simpl; auto. Qed.

Lemma In_pushes (k src x : key) (ps : list key) (tr : list event) :
  In (Pushed src x) (map (Pushed k) ps ++ Marked k :: tr) <->
  (src = k /\ In x ps) \/ In (Pushed src x) tr.
Proof.
  rewrite in_app_iff, in_map_iff. simpl. split.
  - intros [[p [Hp Hin]]|[Hd|Hin]]; [|discriminate|auto].
    injection Hp as <- <-. auto.
  - intros [[-> Hin]|Hin]; [left; now exists x | auto].
Qed.

(** Where a push sits in a block-shaped trace. *)
Lemma block_split (k0 : key) (ps : list key) (tr0 : list event)
  (later earlier : list event) (src k : key) :
  map (Pushed k0) ps ++ Marked k0 :: tr0 = later ++ Pushed src k :: earlier ->
  (src = k0 /\ exists ps', earlier = map (Pushed k0) ps' ++ Marked k0 :: tr0)
  \/ (exists later', tr0 = later' ++ Pushed src k :: earlier).
Proof.
  revert later. induction ps as [|p ps' IH]; simpl; intros later H.
  - destruct later as [|e later']; simpl in H; [discriminate|].
    injection H as _ H. right. now exists later'.
  - destruct later as [|e later']; simpl in H.
    + injection H as -> _ <-. left. split; [reflexivity | now exists ps'].
    + injection H as _ H. now apply IH in H.
Qed.

Lemma well_logged_push_in_block (tr : list event) :
  well_logged tr ->
  forall later earlier src k,
    tr = later ++ Pushed src k :: earlier ->
    exists ps tr0, earlier = map (Pushed src) ps ++ Marked src :: tr0.
Proof.
  induction 1 as [|k0 ps tr0 Hwl IH Hnew]; intros later earlier src k H.
  - destruct later; discriminate.
  - apply block_split in H. destruct H as [[-> [ps' ->]]|[later' H]].
    + now exists ps', tr0.
    + eapply IH; eauto.
Qed.

Lemma well_logged_NoDup_marks (tr : list event) :
  well_logged tr -> NoDup (marks tr).
Proof.
  induction 1 as [|k0 ps tr0 Hwl IH Hnew]; simpl; [constructor|].
  rewrite marks_pushes. simpl. now constructor.
Qed.

(** *** Invariants of the loop *)

Local Abbreviation justified := (justified QName nsmap by_name).
Local Abbreviation all_justified := (all_justified QName nsmap by_name).
Local Abbreviation pushes_have_nodes := (pushes_have_nodes by_name).

Lemma justified_mono (seeds kp : list key) (qn k : key) :
  justified seeds kp k -> justified seeds (qn :: kp) k.
Proof.
  intros [H|[src [node [v [H1 H2]]]]]; [now left|].
  right. exists src, node, v. split; [now right | assumption].
Qed.

Lemma run_logged (seeds : list key) (w : worklist) :
  run_worklist QName nsmap seeds by_name = Some (Ok w) -> logged w.
Proof.
  intro H. refine (proj1 (bfs_invariant logged _ _ _ _ _ _ H));
    [| |split; [apply wl_nil|reflexivity]].
  - intros qn rest kp tr Hw _. exact Hw.
  - intros qn rest kp tr w' [Hwl Hm] Hq He. simpl in *.
    apply expand_Ok in He. destruct He as [qs [_ [_ [Hk Ht]]]]. simpl in *.
    rewrite <- map_rev in Ht. unfold logged. rewrite Ht, Hk. split.
    + apply wl_block; [assumption|]. rewrite Hm. now apply mem_key_not_In.
    + rewrite marks_pushes. simpl. now rewrite Hm.
Qed.

Lemma run_pushes_have_nodes (seeds : list key) (w : worklist) :
  run_worklist QName nsmap seeds by_name = Some (Ok w) -> pushes_have_nodes w.
Proof.
  intro H. refine (proj1 (bfs_invariant pushes_have_nodes _ _ _ _ _ _ H));
    [| |intros src x []].
  - intros qn rest kp tr Hw _. exact Hw.
  - intros qn rest kp tr w' Hw Hq He src x Hin.
    apply expand_Ok in He. destruct He as [qs [Hmap [_ [_ Ht]]]]. simpl in *.
    rewrite <- map_rev in Ht. rewrite Ht in Hin. apply In_pushes in Hin.
    destruct Hin as [[-> Hin]|Hin]; [|eapply Hw; eauto].
    intro Hnil. rewrite Hnil in Hmap. simpl in Hmap. injection Hmap as <-.
    destruct Hin.
Qed.

Lemma run_nothing_lost (seeds : list key) (w : worklist) :
  run_worklist QName nsmap seeds by_name = Some (Ok w) ->
  nothing_lost seeds w /\ queue w = [].
Proof.
  intro H. refine (bfs_invariant (nothing_lost seeds) _ _ _ _ _ _ H).
  - intros qn rest kp tr Hw Hq k Hk. simpl in *.
    destruct (Hw k Hk) as [[<-|Hin]|Hin]; auto.
    right. now apply mem_key_In.
  - intros qn rest kp tr w' Hw Hq He k Hk.
    apply expand_Ok in He. destruct He as [qs [_ [Hqu [Hkp Ht]]]]. simpl in *.
    rewrite <- map_rev in Ht. rewrite Hqu, Hkp, in_app_iff. simpl.
    assert (In k (rev qs) \/ In k (qn :: rest) \/ In k kp) as Hc.
    { destruct Hk as [Hs|[src Hp]]; [right; apply Hw; auto|].
      rewrite Ht in Hp. apply In_pushes in Hp.
      destruct Hp as [[_ Hin]|Hin]; [now left|].
      right. apply Hw. right. now exists src. }
    simpl in Hc. tauto.
  - intros k [Hs|[src []]]. left. simpl. now apply in_rev in Hs.
Qed.

Lemma run_all_justified (seeds : list key) (w : worklist) :
  run_worklist QName nsmap seeds by_name = Some (Ok w) -> all_justified seeds w.
Proof.
  intro H. refine (proj1 (bfs_invariant (all_justified seeds) _ _ _ _ _ _ H)).
  - intros qn rest kp tr Hw Hq k Hk. simpl in *. apply Hw. simpl. tauto.
  - intros qn rest kp tr w' Hw Hq He k Hk.
    apply expand_Ok in He. destruct He as [qs [Hmap [Hqu [Hkp _]]]].
    simpl in *. rewrite Hqu, Hkp, in_app_iff in Hk. rewrite Hkp. simpl in Hk.
    destruct Hk as [[Hin|Hin]|[<-|Hin]].
    + apply in_rev in Hin.
      apply (mapM_Ok_In _ _ _ Hmap) in Hin. destruct Hin as [v [Hv Hr]].
      apply in_flat_map in Hv. destruct Hv as [node [Hn Hv]].
      right. exists qn, node, v. simpl. auto.
    + apply justified_mono, Hw. simpl. auto.
    + apply justified_mono, Hw. simpl. auto.
    + apply justified_mono, Hw. simpl. auto.
  - intros k [Hin|[]]. left. simpl in Hin. now apply in_rev.
Qed.

Lemma refs_of_In (node : Element) (v : string) :
  In v (refs_of node) <->
  exists a, In a ["type"; "ref"; "base"] /\ In v (attr_values a node) /\
            has_colon v = true.
Proof.
  unfold refs_of. rewrite in_flat_map. split.
  - intros [a [Ha Hv]]. apply filter_In in Hv. now exists a.
  - intros [a [Ha [Hv Hc]]]. exists a. split; [assumption|].
    now apply filter_In.
Qed.

Lemma run_pushes_prefixed (seeds : list key) (w : worklist) :
  run_worklist QName nsmap seeds by_name = Some (Ok w) ->
  pushes_prefixed QName nsmap by_name w.
Proof.
  intro H.
  refine (proj1 (bfs_invariant (pushes_prefixed QName nsmap by_name)
                   _ _ _ _ _ _ H)); [| |intros src k []].
  - intros qn rest kp tr Hw _. exact Hw.
  - intros qn rest kp tr w' Hw Hq He src k Hin.
    apply expand_Ok in He. destruct He as [qs [Hmap [_ [_ Ht]]]]. simpl in *.
    rewrite <- map_rev in Ht. rewrite Ht in Hin. apply In_pushes in Hin.
    destruct Hin as [[-> Hin]|Hin]; [|now apply Hw].
    apply in_rev in Hin.
    apply (mapM_Ok_In _ _ _ Hmap) in Hin. destruct Hin as [v [Hv Hr]].
    apply in_flat_map in Hv. destruct Hv as [node [Hn Hv]].
    apply refs_of_In in Hv. destruct Hv as [a [Ha [Hv Hc]]].
    now exists node, a, v.
Qed.

End Resolver_facts.

(** ** Runs on two indexes *)

Section Resolver_simulation.

Variable QName : option string -> string -> option key.
Variable nsmap : list (string * string).

Local Abbreviation expand' := (expand QName nsmap).
Local Abbreviation bfs' := (bfs QName nsmap).

Lemma bfs_keep_grows (idx : list (index_key * Element)) (fuel : nat)
  (w w' : worklist) :
  bfs' fuel idx w = Some (Ok w') -> incl (keep w) (keep w').
Proof.
  intro H.
  refine (proj1 (bfs_invariant QName nsmap idx
                   (fun w1 => incl (keep w) (keep w1)) _ _ _ _ _ _ H)).
  - intros qn rest kp tr Hw _. exact Hw.
  - intros qn rest kp tr w1 Hw _ He. apply expand_Ok in He.
    destruct He as [qs [_ [_ [Hk _]]]]. rewrite Hk. simpl in *.
    intros k Hin. right. now apply Hw.
  - apply incl_refl.
Qed.

(** The result does not depend on the bound. *)
Lemma bfs_fuel_irrelevant (idx : list (index_key * Element)) (f1 f2 : nat)
  (w : worklist) (r1 r2 : result worklist) :
  bfs' f1 idx w = Some r1 -> bfs' f2 idx w = Some r2 -> r1 = r2.
Proof.
  revert f2 w. induction f1 as [|f1 IH]; intros f2 w H1 H2; [discriminate|].
  destruct f2 as [|f2]; [discriminate|]. simpl in H1, H2.
  destruct (queue w) as [|qn rest]; [congruence|].
  destruct (mem_key qn (keep w)); [eapply IH; eauto|].
  destruct (expand' qn (by_name_get idx qn) _) as [w1|e];
    [eapply IH; eauto | congruence].
Qed.

(** A run goes the same way on an index that agrees on the keys it
    ends up retaining. *)
Lemma bfs_simulation (idx1 idx2 : list (index_key * Element)) (fuel : nat)
  (w w' : worklist) :
  bfs' fuel idx1 w = Some (Ok w') ->
  (forall k, In k (keep w') -> by_name_get idx2 k = by_name_get idx1 k) ->
  bfs' fuel idx2 w = Some (Ok w').
Proof.
  revert w. induction fuel as [|fuel IH]; intros w H Hagree; [discriminate|].
  simpl in *. destruct (queue w) as [|qn rest]; [assumption|].
  destruct (mem_key qn (keep w)); [now apply IH|].
  destruct (expand' qn (by_name_get idx1 qn) _) as [w1|e] eqn:He;
    [|discriminate].
  assert (In qn (keep w')) as Hin.
  { apply (bfs_keep_grows _ _ _ _ H).
    apply expand_Ok in He. destruct He as [qs [_ [_ [Hk _]]]].
    rewrite Hk. now left. }
  rewrite (Hagree qn Hin), He. now apply IH.
Qed.

Lemma run_worklist_simulation (idx1 idx2 : list (index_key * Element))
  (seeds : list key) (w : worklist) :
  run_worklist QName nsmap seeds idx1 = Some (Ok w) ->
  (forall k, In k (keep w) -> by_name_get idx2 k = by_name_get idx1 k) ->
  run_worklist QName nsmap seeds idx2 = Some (Ok w).
Proof.
  intros H Hagree. unfold run_worklist in *.
  pose proof (bfs_simulation _ idx2 _ _ _ H Hagree) as H2.
  destruct (run_worklist_terminates QName nsmap idx2 seeds) as [r Hr].
  unfold run_worklist in Hr. rewrite Hr. f_equal.
  symmetry. eapply bfs_fuel_irrelevant; eauto.
Qed.

End Resolver_simulation.

(** ** Pruning one schema *)

Lemma get_remove_children (p : Element -> bool) (e : Element) (a : string) :
  get (remove_children p e) a = get e a.
Proof. reflexivity. Qed.

(** Whether [prune_schema_node] takes the child [c] out of a schema with
    target namespace [tns]. *)
Lemma prune_schema_node_In (keep_keys : list key) (sch c : Element) :
  In c (children (prune_schema_node keep_keys sch)) <->
  In c (children sch) /\ schema_drops keep_keys (get sch "targetNamespace") c = false.
Proof.
  unfold prune_schema_node, schema_drops. cbn [fold_left].
  rewrite !remove_children_In. unfold child_unkept.
  rewrite !orb_false_iff. tauto.
Qed.

(** A declaration whose key is retained stays in its schema. *)
Lemma declared_key_kept (keep_keys : list key) (sch item : Element) (k : key) :
  declared_key sch item = Some k -> In k keep_keys ->
  In item (children sch) ->
  In item (children (prune_schema_node keep_keys sch)).
Proof.
  unfold declared_key. intros Hd Hk Hin. apply prune_schema_node_In.
  split; [assumption|].
  destruct (is_tag xsd_element item || is_tag xsd_complexType item
            || is_tag xsd_simpleType item) eqn:Ht; [|discriminate].
  destruct (get item "name") as [name|] eqn:Hn; [|discriminate].
  injection Hd as <-. apply mem_key_In in Hk.
  unfold schema_drops, child_unkept. rewrite Hn, Hk. simpl.
  rewrite !andb_false_r. simpl.
  apply orb_true_iff in Ht. destruct Ht as [Ht|Ht];
    [apply orb_true_iff in Ht; destruct Ht as [Ht|Ht]|];
    unfold is_tag in *; apply String.eqb_eq in Ht; rewrite Ht; reflexivity.
Qed.

(** ** The index of a pruned document *)

Lemma schema_drops_retained (keep_keys : list key) (tns : option string)
  (c : Element) (n : string) :
  tag c = xsd_element \/ tag c = xsd_complexType \/ tag c = xsd_simpleType ->
  get c "name" = Some n -> In (tns, n) keep_keys ->
  schema_drops keep_keys tns c = false.
Proof.
  intros Ht Hn Hk. apply mem_key_In in Hk.
  unfold schema_drops, child_unkept, is_tag. rewrite Hn, Hk. simpl.
  rewrite !andb_false_r. simpl.
  destruct Ht as [-> | [-> | ->]]; reflexivity.
Qed.

Lemma by_name_get_build (l : list Element) (k : key) :
  by_name_get (build_index l) k
  = flat_map (fun s => by_name_get (index_schema s) k) l.
Proof.
  unfold by_name_get, build_index.
  now rewrite filter_flat_map, map_flat_map.
Qed.

Section Index_agreement.

Variable handles : list nat.
Variable keep_keys : list key.

Local Abbreviation PS := (update_nodes handles (prune_schema_node keep_keys)).

(** The entries of one kind under a retained key are the same in a
    schema and in the schema pruned. *)
Lemma entries_agree (s : Element) (t : string) (k : key) :
  t = xsd_element \/ t = xsd_complexType \/ t = xsd_simpleType ->
  mem_nat (eid s) handles = true ->
  (forall el, In el (children s) -> PS el = el) ->
  In k keep_keys ->
  filter (fun kn => index_key_eqb (fst kn) (fst k, Some (snd k)))
    (map (fun el => ((get (PS s) "targetNamespace", get el "name"), el))
       (findall (PS s) t))
  = filter (fun kn => index_key_eqb (fst kn) (fst k, Some (snd k)))
      (map (fun el => ((get s "targetNamespace", get el "name"), el))
         (findall s t)).
Proof.
  intros Ht Hh Hfix Hk. rewrite update_get. unfold findall.
  rewrite update_children, Hh.
  assert (map PS (children s) = children s) as ->.
  { rewrite <- (map_id (children s)) at 2. now apply map_ext_in. }
  rewrite !filter_map_swap. f_equal. rewrite !filter_filter.
  apply filter_ext_in. intros c Hc. simpl.
  destruct (is_tag t c) eqn:Htc; [|now rewrite !andb_false_r].
  destruct (index_key_eqb (get s "targetNamespace", get c "name")
              (fst k, Some (snd k))) eqn:Hm; [|now rewrite !andb_false_r].
  apply index_key_match in Hm. simpl in Hm. destruct Hm as [n [Hn Hkey]].
  rewrite (schema_drops_retained keep_keys _ c n); [reflexivity| |assumption|].
  - apply String.eqb_eq in Htc. rewrite Htc. exact Ht.
  - now rewrite Hkey.
Qed.

Lemma index_schema_agree (s : Element) (k : key) :
  mem_nat (eid s) handles = true ->
  (forall el, In el (children s) -> PS el = el) ->
  In k keep_keys ->
  by_name_get (index_schema (PS s)) k = by_name_get (index_schema s) k.
Proof.
  intros Hh Hfix Hk. unfold by_name_get, index_schema. cbn [flat_map].
  rewrite !filter_app, !app_nil_r.
  rewrite !(entries_agree s _ k) by (auto using eq_refl).
  reflexivity.
Qed.

End Index_agreement.

(** On a document with distinct nodes and its types sections at the
    top, pruning the schemas keeps the index at the retained keys. *)
Lemma index_agree (e : Element) (keep_keys : list key) (k : key) :
  NoDup (ids e) -> types_at_top e -> In k keep_keys ->
  by_name_get
    (build_index
       (map (update_nodes (map eid (find_schemas e))
               (prune_schema_node keep_keys)) (find_schemas e))) k
  = by_name_get (build_index (find_schemas e)) k.
Proof.
  intros Hn Hflat Hk. rewrite !by_name_get_build, flat_map_map.
  apply flat_map_ext_in. intros s Hs.
  apply index_schema_agree; [| |assumption].
  - apply mem_nat_In. now apply in_map.
  - intros el Hel. apply update_no_handle. intros y Hy.
    now apply (no_schema_below_items e s el y).
Qed.

(** ** The stages of a completed run *)

Section Pipeline_facts.

Variable QName : option string -> string -> option key.
Variable nsmap : list (string * string).

Lemma reachable_schema_items_Ok (root : Element) (seeds keep_keys : list key)
  (schemas : list Element) (by_name : list (index_key * Element)) :
  reachable_schema_items QName nsmap root seeds
  = Some (Ok (keep_keys, schemas, by_name)) ->
  schemas = find_schemas root /\ by_name = build_index (find_schemas root)
  /\ exists w, run_worklist QName nsmap seeds by_name = Some (Ok w)
               /\ keep w = keep_keys.
Proof.
  unfold reachable_schema_items. intro H.
  destruct (run_worklist QName nsmap seeds (build_index (find_schemas root)))
    as [[w|e]|] eqn:Hr; try discriminate.
  injection H as <- <- <-. repeat split. now exists w.
Qed.

Lemma prune_wsdl_Completed (root : Element) (service_name : string)
  (keep_ops : list string) (policy_tree : option Element) (out : Element) :
  prune_wsdl QName nsmap root service_name keep_ops policy_tree
  = Some (Completed out) ->
  completed_run QName nsmap root service_name keep_ops policy_tree out.
Proof.
  unfold prune_wsdl. intro H.
  destruct (find_service root service_name) as [service|e] eqn:Hs;
    [|discriminate].
  destruct (findall service wsdl_port) as [|port0 ports] eqn:Hp;
    [discriminate|].
  destruct (binding_for_port root port0) as [[tb|]|e] eqn:Hb;
    try discriminate.
  destruct (porttype_for_binding root tb) as [[tp|]|e] eqn:Ht;
    try discriminate.
  destruct (find_messages _ _) as [keep_messages|e] eqn:Hm; [|discriminate].
  destruct (collect_schema_qnames_from_messages _ _ _) as [seeds|e] eqn:Hq;
    [|discriminate].
  unfold prune_unreferenced_messages in *.
  destruct (reachable_schema_items _ _ _ _) as [[[[kk schemas] by_name]|e]|]
    eqn:Hr; try discriminate.
  destruct (reachable_schema_items_Ok _ _ _ _ _ Hr) as [-> [-> _]].
  destruct (prune_bindings _ _ _ _) as [root4|e root4] eqn:H4; [|discriminate].
  destruct (prune_service_ports _ _) as [service5|e service5] eqn:H5;
    [|discriminate].
  injection H as <-. unfold clean_unused_namespaces.
  eapply Run; eauto.
Qed.

(** *** What the lookups return *)

Lemma find_service_Ok (root service : Element) (service_name : string) :
  find_service root service_name = Ok service ->
  In service (findall root wsdl_service)
  /\ get service "name" = Some service_name.
Proof.
  unfold find_service. intro H.
  destruct (List.find _ _) as [svc|] eqn:Hf; [|discriminate].
  injection H as <-. apply find_some in Hf. destruct Hf as [Hin He].
  apply opt_eqb_eq in He. auto.
Qed.

Lemma resolve_qname_in_Ok (root el : Element) (q : option string) (t : string) :
  resolve_qname_in root q t = Ok (Some el) ->
  In el (findall root t)
  /\ exists s pre local,
       q = Some s /\ split_colon s = Some (pre, local)
       /\ get el "name" = Some local.
Proof.
  unfold resolve_qname_in. intro H.
  destruct q as [s|]; [|discriminate].
  destruct (split_colon s) as [[pre local]|] eqn:Hsp; [|discriminate].
  injection H as H. apply find_some in H. destruct H as [Hin He].
  apply opt_eqb_eq in He. split; [assumption|].
  now exists s, pre, local.
Qed.

Lemma find_messages_Ok (root : Element) (qnames : list string)
  (keep_messages : list Element) :
  find_messages root qnames = Ok keep_messages ->
  exists names,
    mapM local_of qnames = Ok names
    /\ keep_messages = filter (fun msg => mem_str (get msg "name") names)
                         (findall root wsdl_message).
Proof.
  unfold find_messages. intro H.
  destruct (mapM local_of qnames) as [names|e]; [|discriminate].
  simpl in H. injection H as <-. now exists names.
Qed.

Lemma deref_In (root h c : Element) :
  NoDup (top_ids root) -> In c (children root) -> eid c = eid h ->
  deref root h = c.
Proof.
  intros Hn Hc He. unfold deref.
  destruct (List.find _ _) as [c'|] eqn:Hf.
  - apply find_some in Hf. destruct Hf as [Hc' He'].
    apply Nat.eqb_eq in He'. eapply NoDup_eid_inj; eauto. congruence.
  - apply find_none with (x := c) in Hf; [|assumption].
    apply Nat.eqb_neq in Hf. congruence.
Qed.

Lemma target_binding_result_sig (keep_ops : list string)
  (policy_tree : option Element) (b b' : Element) (strip : bool) :
  target_binding_result keep_ops policy_tree b = inl (b', strip) ->
  eid b' = eid b /\ tag b' = tag b /\ attrib b' = attrib b.
Proof.
  unfold target_binding_result. intro H.
  destruct policy_tree as [policy_root|].
  - destruct (is_soap12_binding _).
    + pose proof (attach_sig (prune_binding_operations keep_ops b) policy_root)
        as Hs.
      destruct (attach_policy_to_binding _ _) as [b2|e b2]; [|discriminate].
      injection H as <- _. exact Hs.
    + injection H as <- _. repeat split.
  - injection H as <- _. repeat split.
Qed.

End Pipeline_facts.

(** ** Trees with subtrees deleted *)

Lemma sublist_by_refl {A} (R : A -> A -> Prop) (l : list A) :
  (forall x, In x l -> R x x) -> sublist_by R l l.
Proof.
  induction l as [|x r IH]; intro H; [apply sb_nil|].
  apply sb_keep; [apply H; now left | apply IH; intros; apply H; now right].
Qed.

Lemma sublist_by_nil {A} (R : A -> A -> Prop) (l : list A) :
  sublist_by R [] l.
Proof. induction l; [apply sb_nil | now apply sb_skip]. Qed.

Lemma sublist_by_flat_map {A} (R : A -> A -> Prop) (g : A -> list A)
  (l : list A) :
  (forall x, In x l -> g x = [] \/ exists x', g x = [x'] /\ R x' x) ->
  sublist_by R (flat_map g l) l.
Proof.
  induction l as [|x r IH]; simpl; intro H; [apply sb_nil|].
  assert (sublist_by R (flat_map g r) r) as Hr
    by (apply IH; intros; apply H; now right).
  destruct (H x (or_introl eq_refl)) as [->|[x' [-> Hx]]]; simpl.
  - now apply sb_skip.
  - now apply sb_keep.
Qed.

Lemma sublist_by_filter_l {A} (R : A -> A -> Prop) (p : A -> bool)
  (l' l : list A) :
  sublist_by R l' l -> sublist_by R (filter p l') l.
Proof.
  induction 1 as [|x l' l _ IH|x' x l' l Hx _ IH]; simpl.
  - apply sb_nil.
  - now apply sb_skip.
  - destruct (p x'); [now apply sb_keep | now apply sb_skip].
Qed.

Lemma sublist_by_map {A} (R : A -> A -> Prop) (f : A -> A) (l : list A) :
  (forall x, In x l -> R (f x) x) -> sublist_by R (map f l) l.
Proof.
  induction l as [|x r IH]; simpl; intro H; [apply sb_nil|].
  apply sb_keep; [apply H; now left | apply IH; intros; apply H; now right].
Qed.

Lemma sublist_by_trans {A} (R : A -> A -> Prop) (lx ly lz : list A) :
  (forall z, In z lz -> forall x y, R x y -> R y z -> R x z) ->
  sublist_by R lx ly -> sublist_by R ly lz -> sublist_by R lx lz.
Proof.
  intros Ht Hxy Hyz. revert lx Hxy.
  induction Hyz as [|z ly lz _ IH|y z ly lz Hy _ IH]; intros lx Hxy.
  - exact Hxy.
  - apply sb_skip. apply IH; [|assumption]. intros; eapply Ht; eauto.
    now right.
  - inversion Hxy as [|y0 lx0 ly0 Hxy'|x y0 lx0 ly0 Hx Hxy']; subst.
    + apply sb_skip. apply IH; [|assumption]. intros; eapply Ht; eauto.
      now right.
    + apply sb_keep.
      * apply (Ht z (or_introl eq_refl) x y); assumption.
      * apply IH; [|assumption]. intros; eapply Ht; eauto. now right.
Qed.

Lemma pruned_from_intro (x e : Element) :
  eid x = eid e -> tag x = tag e -> attrib x = attrib e ->
  sublist_by pruned_from (children x) (children e) -> pruned_from x e.
Proof.
  destruct x, e. simpl. intros -> -> -> H. now apply pruned_node.
Qed.

Lemma pruned_from_refl (e : Element) : pruned_from e e.
Proof.
  induction e as [i t a cs IH] using Element_ind'.
  apply pruned_node. apply sublist_by_refl. now apply Forall_forall.
Qed.

Lemma pruned_from_trans (x y z : Element) :
  pruned_from x y -> pruned_from y z -> pruned_from x z.
Proof.
  revert x y. induction z as [i t a cs IH] using Element_ind'.
  intros x y Hxy Hyz.
  inversion Hyz as [i1 t1 a1 csy cs1 Hcy]; subst.
  inversion Hxy as [i2 t2 a2 csx cs2 Hcx]; subst.
  apply pruned_node. apply (sublist_by_trans _ csx csy cs); try assumption.
  rewrite Forall_forall in IH. intros z Hz x y. now apply IH.
Qed.

Lemma pruned_from_remove_children (p : Element -> bool) (e : Element) :
  pruned_from (remove_children p e) e.
Proof.
  apply pruned_from_intro; try reflexivity. simpl.
  apply sublist_by_filter_l, sublist_by_refl. intros; apply pruned_from_refl.
Qed.

Lemma pruned_from_update (handles : list nat) (keep_keys : list key)
  (e : Element) :
  pruned_from (update_nodes handles (prune_schema_node keep_keys) e) e.
Proof.
  induction e as [i t a cs IH] using Element_ind'.
  apply pruned_from_intro;
    [apply update_eid | apply update_tag | apply (update_sig _ _ _)|].
  rewrite update_children. rewrite Forall_forall in IH.
  destruct (mem_nat _ _); [apply sublist_by_filter_l|];
    now apply sublist_by_map.
Qed.

Lemma pruned_from_per_child (g : Element -> list Element) (root : Element) :
  (forall c, In c (children root) ->
             g c = [] \/ exists c', g c = [c'] /\ pruned_from c' c) ->
  pruned_from (per_child g root) root.
Proof.
  intro H. apply pruned_from_intro; try reflexivity. simpl.
  now apply sublist_by_flat_map.
Qed.

Lemma pruned_from_tag (x e : Element) :
  pruned_from x e ->
  eid x = eid e /\ tag x = tag e /\ attrib x = attrib e.
Proof. intro H. now inversion H. Qed.

Lemma sublist_by_In {A} (R : A -> A -> Prop) (l' l : list A) (x' : A) :
  sublist_by R l' l -> In x' l' -> exists x, In x l /\ R x' x.
Proof.
  induction 1 as [|x l' l _ IH|y' y l' l Hy _ IH]; intro Hin.
  - destruct Hin.
  - destruct (IH Hin) as [z [Hz Hr]]. exists z. split; [now right|assumption].
  - destruct Hin as [<-|Hin].
    + exists y. split; [now left|assumption].
    + destruct (IH Hin) as [z [Hz Hr]]. exists z.
      split; [now right|assumption].
Qed.

(** Every node of a pruned tree is a node of the tree, as it was but for
    the subtrees deleted below it. *)
Lemma pruned_from_iter (x e n' : Element) :
  pruned_from x e -> In n' (iter x) ->
  exists n, In n (iter e) /\ pruned_from n' n.
Proof.
  revert x n'. induction e as [i t a cs IH] using Element_ind'.
  intros x n' Hx Hn. inversion Hx as [i1 t1 a1 cs' cs1 Hcs]; subst.
  simpl in Hn. destruct Hn as [<-|Hn].
  - exists (Elem i t a cs). split; [apply iter_self|assumption].
  - apply in_flat_map in Hn. destruct Hn as [c' [Hc' Hn]].
    destruct (sublist_by_In _ _ _ c' Hcs Hc') as [c [Hc Hr]].
    rewrite Forall_forall in IH.
    destruct (IH c Hc c' n' Hr Hn) as [n [Hin Hp]].
    exists n. split; [|assumption]. simpl. right.
    apply in_flat_map. now exists c.
Qed.

Lemma pruned_from_modify (h : Element) (f : Element -> Element)
  (root : Element) :
  (forall c, pruned_from (f c) c) -> pruned_from (modify h f root) root.
Proof.
  intro H. apply pruned_from_intro; try reflexivity. simpl.
  apply sublist_by_map. intros c _.
  destruct (Nat.eqb _ _); [apply H | apply pruned_from_refl].
Qed.

Lemma is_tag_pruned_gen (handles : list nat) (keep_keys : list key)
  (t : string) (x : Element) :
  is_tag t (update_nodes handles (prune_schema_node keep_keys) x)
  = is_tag t x.
Proof. unfold is_tag. now rewrite update_tag. Qed.

(** The transport test sees the binding of the input: neither schema
    pruning nor operation pruning touches a [soapbind:binding] child. *)
Lemma is_soap12_binding_stages (handles : list nat) (keep_keys : list key)
  (keep_ops : list string) (b : Element) :
  is_soap12_binding
    (prune_binding_operations keep_ops
       (update_nodes handles (prune_schema_node keep_keys) b))
  = match findall b soapbind_binding with [] => false | _ => true end.
Proof.
  unfold is_soap12_binding, find, prune_binding_operations.
  rewrite findall_remove_children, update_findall by tag_facts.
  destruct (findall b soapbind_binding) as [|x r] eqn:Hx; [reflexivity|].
  assert (is_tag wsdl_operation x = false) as Hop.
  { assert (In x (findall b soapbind_binding)) as Hin by (rewrite Hx; now left).
    apply findall_In in Hin. unfold is_tag. now rewrite (proj2 Hin). }
  simpl. rewrite is_tag_pruned_gen, Hop. reflexivity.
Qed.

Lemma is_soap12_binding_pruned (handles : list nat) (keep_keys : list key)
  (keep_ops : list string) (b : Element) :
  findall b soapbind_binding <> [] ->
  is_soap12_binding
    (prune_binding_operations keep_ops
       (update_nodes handles (prune_schema_node keep_keys) b)) = true.
Proof.
  intro Hsoap. rewrite is_soap12_binding_stages.
  destruct (findall b soapbind_binding); [now elim Hsoap | reflexivity].
Qed.

(** ** The closed form of a completed run *)

Section Stages.

Variable QName : option string -> string -> option key.
Variable nsmap : list (string * string).
Variables (root : Element) (service_name : string) (keep_ops : list string)
  (policy_tree : option Element).
Variables (service port0 target_binding target_porttype : Element)
  (ports keep_messages : list Element) (seed_qnames keep_keys : list key)
  (root4 service5 out : Element).

Hypothesis distinct : NoDup (ids root).
Hypothesis Hservice : find_service root service_name = Ok service.
Hypothesis Hports : findall service wsdl_port = port0 :: ports.
Hypothesis Hbinding : binding_for_port root port0 = Ok (Some target_binding).
Hypothesis Hporttype :
  porttype_for_binding root target_binding = Ok (Some target_porttype).

Let root1 := modify target_porttype (prune_porttype_operations keep_ops) root.
Let root2 := prune_messages keep_messages root1.
Let handles := map eid (find_schemas root2).
Let pruned := update_nodes handles (prune_schema_node keep_keys).
Let keep_names := map (fun m => get m "name") keep_messages.

Hypothesis Hmessages :
  find_messages root1
    (collect_messages_from_porttype
       (prune_porttype_operations keep_ops target_porttype))
  = Ok keep_messages.
Hypothesis Hbindings :
  prune_bindings (prune_schemas keep_keys (find_schemas root2) root2)
    target_binding keep_ops policy_tree = Completed root4.
Hypothesis Hprune_ports :
  prune_service_ports (deref root4 service) target_binding
  = Completed service5.
Hypothesis Hout :
  out = prune_unused_porttypes target_porttype (store service5 root4).

Lemma distinct_top : NoDup (top_ids root).
Proof. now apply NoDup_ids_top. Qed.

Lemma service_child :
  In service (children root) /\ tag service = wsdl_service.
Proof.
  apply find_service_Ok in Hservice. now apply findall_In.
Qed.

Lemma binding_child :
  In target_binding (children root) /\ tag target_binding = wsdl_binding.
Proof.
  apply resolve_qname_in_Ok in Hbinding. now apply findall_In.
Qed.

Lemma porttype_child :
  In target_porttype (children root) /\ tag target_porttype = wsdl_portType.
Proof.
  apply resolve_qname_in_Ok in Hporttype. now apply findall_In.
Qed.

(** A child of the root with the identity of a handle is that node. *)
Lemma same_node (c h : Element) :
  In c (children root) -> In h (children root) ->
  Nat.eqb (eid c) (eid h) = true -> c = h.
Proof.
  intros Hc Hh He. apply Nat.eqb_eq in He.
  exact (NoDup_eid_inj (children root) c h distinct_top Hc Hh He).
Qed.

Lemma distinct_root2 : NoDup (ids root2).
Proof.
  eapply subseq_NoDup; [|exact distinct].
  eapply subseq_trans; [apply ids_remove_children_subseq|].
  apply ids_modify_subseq. intro c. apply ids_remove_children_subseq.
Qed.

Lemma root3_per_child :
  prune_schemas keep_keys (find_schemas root2) root2
  = per_child (fun c => [pruned c]) root2.
Proof.
  unfold prune_schemas. fold handles. rewrite update_unfold. cbv zeta.
  fold handles. unfold handles at 1.
  rewrite (root_is_no_schema _ distinct_root2).
  unfold per_child. now rewrite flat_map_singleton.
Qed.

Let root3 := prune_schemas keep_keys (find_schemas root2) root2.

Local Abbreviation upto :=
  (upto_schemas handles keep_keys keep_ops keep_names target_porttype).

Lemma root3_closed : root3 = per_child upto root.
Proof.
  unfold root3. rewrite root3_per_child. unfold root2, prune_messages, root1.
  rewrite remove_children_per_child, modify_per_child, !per_child_compose.
  apply per_child_ext. intros c _. unfold upto_schemas. simpl.
  rewrite app_nil_r. fold keep_names.
  destruct (Nat.eqb (eid c) (eid target_porttype)); simpl.
  - change (is_tag wsdl_message (prune_porttype_operations keep_ops c))
      with (is_tag wsdl_message c).
    change (get (prune_porttype_operations keep_ops c) "name")
      with (get c "name").
    destruct (is_tag wsdl_message c && negb (mem_opt (get c "name") keep_names));
      reflexivity.
  - destruct (is_tag wsdl_message c && negb (mem_opt (get c "name") keep_names));
      reflexivity.
Qed.

Lemma upto_schemas_top_ids (c : Element) :
  subseq (map eid (upto c)) [eid c].
Proof.
  unfold upto_schemas.
  destruct (is_tag wsdl_message c && _); simpl; [apply subseq_nil_l|].
  unfold pruned. rewrite update_eid.
  destruct (Nat.eqb (eid c) (eid target_porttype)); apply subseq_refl.
Qed.

Lemma distinct_top_root3 : NoDup (top_ids root3).
Proof.
  rewrite root3_closed. eapply subseq_NoDup; [|exact distinct_top].
  apply top_ids_per_child_subseq. intros c _. apply upto_schemas_top_ids.
Qed.

Lemma tag_neq_false (c : Element) (t t' : string) :
  tag c = t -> String.eqb t t' = false -> is_tag t' c = false.
Proof. unfold is_tag. now intros ->. Qed.

Lemma upto_schemas_binding :
  upto target_binding = [pruned target_binding].
Proof.
  destruct binding_child as [Hc Ht]. destruct porttype_child as [Hpc Hpt].
  unfold upto_schemas.
  rewrite (tag_neq_false _ _ wsdl_message Ht eq_refl). simpl.
  destruct (Nat.eqb (eid target_binding) (eid target_porttype)) eqn:He;
    [|reflexivity].
  apply same_node in He; auto. rewrite He, Hpt in Ht. discriminate.
Qed.

Lemma upto_schemas_service : upto service = [pruned service].
Proof.
  destruct service_child as [Hc Ht]. destruct porttype_child as [Hpc Hpt].
  unfold upto_schemas.
  rewrite (tag_neq_false _ _ wsdl_message Ht eq_refl). simpl.
  destruct (Nat.eqb (eid service) (eid target_porttype)) eqn:He;
    [|reflexivity].
  apply same_node in He; auto. rewrite He, Hpt in Ht. discriminate.
Qed.

Lemma in_per_child (g : Element -> list Element) (r c x : Element) :
  In c (children r) -> In x (g c) -> In x (children (per_child g r)).
Proof.
  intros Hc Hx. unfold per_child. simpl. apply in_flat_map. now exists c.
Qed.

Lemma binding_in_root3 : In (pruned target_binding) (findall root3 wsdl_binding).
Proof.
  destruct binding_child as [Hc Ht]. apply findall_In. split.
  - rewrite root3_closed. apply (in_per_child _ _ target_binding); auto.
    rewrite upto_schemas_binding. now left.
  - unfold pruned. now rewrite update_tag.
Qed.

Lemma root4_closed :
  exists b' strip,
    target_binding_result keep_ops policy_tree (pruned target_binding)
    = inl (b', strip)
    /\ root4 = per_child (bindings_stage (eid target_binding) b' strip) root3.
Proof.
  pose proof (prune_bindings_closed root3 (pruned target_binding)
                target_binding keep_ops policy_tree distinct_top_root3
                binding_in_root3 (update_eid _ _ _)) as H.
  fold root3 in Hbindings.
  destruct (target_binding_result keep_ops policy_tree (pruned target_binding))
    as [[b' strip]|e].
  - exists b', strip. split; [reflexivity|]. congruence.
  - destruct H as [t Ht]. congruence.
Qed.

Variables (binding' : Element) (strip : bool).
Hypothesis Hresult :
  target_binding_result keep_ops policy_tree (pruned target_binding)
  = inl (binding', strip).

Lemma root4_eq :
  root4 = per_child (bindings_stage (eid target_binding) binding' strip) root3.
Proof.
  destruct root4_closed as [b' [s' [H1 H2]]]. rewrite Hresult in H1.
  now injection H1 as <- <-.
Qed.

Lemma binding'_sig :
  eid binding' = eid target_binding /\ tag binding' = wsdl_binding
  /\ attrib binding' = attrib target_binding.
Proof.
  destruct (target_binding_result_sig _ _ _ _ _ Hresult) as [H1 [H2 H3]].
  unfold pruned in *. rewrite update_eid in H1. rewrite update_tag in H2.
  rewrite (proj2 (proj2 (update_sig _ _ _))) in H3.
  destruct binding_child as [_ Ht]. repeat split; congruence.
Qed.

Lemma bindings_stage_top_ids (c : Element) :
  subseq (map eid (bindings_stage (eid target_binding) binding' strip c))
    [eid c].
Proof.
  unfold bindings_stage.
  destruct (strip && _); [apply subseq_nil_l|].
  destruct (is_tag wsdl_binding c); [|apply subseq_refl].
  destruct (Nat.eqb (eid c) (eid target_binding)) eqn:He;
    [|apply subseq_nil_l].
  apply Nat.eqb_eq in He. simpl. rewrite (proj1 binding'_sig), He.
  apply subseq_refl.
Qed.

Lemma distinct_top_root4 : NoDup (top_ids root4).
Proof.
  rewrite root4_eq. eapply subseq_NoDup; [|exact distinct_top_root3].
  apply top_ids_per_child_subseq. intros c _. apply bindings_stage_top_ids.
Qed.

Lemma service_in_root4 : In (pruned service) (children root4).
Proof.
  destruct service_child as [Hc Ht].
  rewrite root4_eq. apply (in_per_child _ _ (pruned service)).
  - rewrite root3_closed. apply (in_per_child _ _ service); auto.
    rewrite upto_schemas_service. now left.
  - unfold bindings_stage, is_tag, pruned. rewrite update_tag, Ht.
    rewrite andb_false_r. simpl. now left.
Qed.

Lemma service5_closed :
  service5 =
  remove_children
    (fun c => is_tag wsdl_port c
              && negb (port_kept (get target_binding "name") c))
    (pruned service).
Proof.
  rewrite (deref_In root4 service (pruned service) distinct_top_root4
             service_in_root4 (update_eid _ _ _)) in Hprune_ports.
  apply prune_service_ports_Completed; [|assumption].
  apply NoDup_ids_top. eapply subseq_NoDup; [apply update_ids_subseq|].
  apply (NoDup_ids_child root); [exact distinct | apply service_child].
Qed.

Lemma is_tag_pruned (t : string) (x : Element) :
  is_tag t (pruned x) = is_tag t x.
Proof. unfold is_tag, pruned. now rewrite update_tag. Qed.

Lemma service5_sig : eid service5 = eid service /\ tag service5 = wsdl_service.
Proof.
  rewrite service5_closed. simpl. unfold pruned.
  rewrite update_eid, update_tag. split; [reflexivity | apply service_child].
Qed.

(** Which handle a child of the root is, by its tag. *)
Lemma not_porttype (c : Element) :
  In c (children root) -> is_tag wsdl_portType c = false ->
  Nat.eqb (eid c) (eid target_porttype) = false.
Proof.
  intros Hc Ht. destruct (Nat.eqb _ _) eqn:He; [|reflexivity].
  apply same_node in He; [|assumption|apply porttype_child].
  unfold is_tag in Ht. rewrite He, (proj2 porttype_child) in Ht. discriminate.
Qed.

Lemma not_binding (c : Element) :
  In c (children root) -> is_tag wsdl_binding c = false ->
  Nat.eqb (eid c) (eid target_binding) = false.
Proof.
  intros Hc Ht. destruct (Nat.eqb _ _) eqn:He; [|reflexivity].
  apply same_node in He; [|assumption|apply binding_child].
  unfold is_tag in Ht. rewrite He, (proj2 binding_child) in Ht. discriminate.
Qed.

Lemma not_service (c : Element) :
  In c (children root) -> is_tag wsdl_service c = false ->
  Nat.eqb (eid c) (eid service) = false.
Proof.
  intros Hc Ht. destruct (Nat.eqb _ _) eqn:He; [|reflexivity].
  apply same_node in He; [|assumption|apply service_child].
  unfold is_tag in Ht. rewrite He, (proj2 service_child) in Ht. discriminate.
Qed.

Lemma is_tag_eq (t : string) (x c : Element) :
  tag x = tag c -> is_tag t x = is_tag t c.
Proof. unfold is_tag. now intros ->. Qed.

(** The last three stages on what a child [c] of the root has become. *)
Lemma tail_stages (c x : Element) :
  In c (children root) -> eid x = eid c -> tag x = tag c ->
  flat_map
    (fun c1 =>
       flat_map
         (fun c2 => if is_tag wsdl_portType c2
                       && negb (Nat.eqb (eid c2) (eid target_porttype))
                    then [] else [c2])
         [if Nat.eqb (eid c1) (eid service5) then service5 else c1])
    (bindings_stage (eid target_binding) binding' strip x)
  = if is_tag wsdl_binding c then
      (if Nat.eqb (eid c) (eid target_binding) then [binding'] else [])
    else if is_tag wsdl_portType c then
      (if Nat.eqb (eid c) (eid target_porttype) then [x] else [])
    else if strip && (is_tag wsp_Policy c || is_tag wsp_UsingPolicy c) then []
    else if Nat.eqb (eid c) (eid service) then [service5] else [x].
Proof.
  intros Hc Hex Htx.
  destruct service5_sig as [He5 Ht5]. destruct binding'_sig as [Heb [Htb _]].
  unfold bindings_stage.
  rewrite !(is_tag_eq _ x c Htx), Hex.
  destruct (is_tag wsdl_binding c) eqn:Hb.
  - rewrite (is_tag_excl wsdl_binding wsp_Policy c) by
      (auto; vm_compute; discriminate).
    rewrite (is_tag_excl wsdl_binding wsp_UsingPolicy c) by
      (auto; vm_compute; discriminate).
    rewrite andb_false_r.
    destruct (Nat.eqb (eid c) (eid target_binding)); [|reflexivity].
    simpl. rewrite Heb, He5.
    assert (Nat.eqb (eid target_binding) (eid service) = false) as ->.
    { apply not_service; [apply binding_child|].
      apply (tag_neq_false _ wsdl_binding); [apply binding_child|reflexivity]. }
    rewrite (tag_neq_false binding' wsdl_binding wsdl_portType Htb eq_refl).
    reflexivity.
  - destruct (is_tag wsdl_portType c) eqn:Hp.
    + rewrite (is_tag_excl wsdl_portType wsp_Policy c) by
        (auto; vm_compute; discriminate).
      rewrite (is_tag_excl wsdl_portType wsp_UsingPolicy c) by
        (auto; vm_compute; discriminate).
      rewrite andb_false_r. simpl. rewrite He5, Hex.
      rewrite (not_service c Hc) by
        (apply (is_tag_excl wsdl_portType); [vm_compute; discriminate|exact Hp]).
      rewrite (is_tag_eq _ x c Htx), Hp. simpl. rewrite Hex, !app_nil_r.
      now destruct (Nat.eqb (eid c) (eid target_porttype)).
    + destruct (strip && _); [reflexivity|]. simpl. rewrite He5, Hex.
      destruct (Nat.eqb (eid c) (eid service)).
      * now rewrite (tag_neq_false service5 wsdl_service wsdl_portType Ht5 eq_refl).
      * now rewrite (is_tag_eq _ x c Htx), Hp.
Qed.

Lemma out_closed :
  out = per_child
          (final_child handles keep_keys keep_ops keep_names target_porttype
             target_binding service binding' service5 strip) root.
Proof.
  rewrite Hout. unfold prune_unused_porttypes, store.
  rewrite remove_children_per_child, modify_per_child, root4_eq, root3_closed.
  rewrite !per_child_compose. apply per_child_ext. intros c Hc.
  unfold final_child, upto_schemas. fold pruned.
  destruct (is_tag wsdl_message c) eqn:Hm.
  - rewrite (not_porttype c Hc) by
      (apply (is_tag_excl wsdl_message); [vm_compute; discriminate|exact Hm]).
    rewrite andb_true_l.
    destruct (mem_opt (get c "name") keep_names); [|reflexivity].
    cbn [negb]. rewrite flat_map_one.
    rewrite (tail_stages c (pruned c) Hc
               (update_eid _ _ _) (update_tag _ _ _)).
    rewrite (is_tag_excl wsdl_message wsdl_binding c) by
      (auto; vm_compute; discriminate).
    rewrite (is_tag_excl wsdl_message wsdl_portType c) by
      (auto; vm_compute; discriminate).
    rewrite (is_tag_excl wsdl_message wsp_Policy c) by
      (auto; vm_compute; discriminate).
    rewrite (is_tag_excl wsdl_message wsp_UsingPolicy c) by
      (auto; vm_compute; discriminate).
    rewrite andb_false_r.
    rewrite (not_service c Hc) by
      (apply (is_tag_excl wsdl_message); [vm_compute; discriminate|exact Hm]).
    reflexivity.
  - rewrite andb_false_l, flat_map_one.
    rewrite (tail_stages c _ Hc).
    + destruct (is_tag wsdl_binding c); [reflexivity|].
      destruct (is_tag wsdl_portType c) eqn:Hp.
      * now destruct (Nat.eqb (eid c) (eid target_porttype)).
      * now rewrite (not_porttype c Hc Hp).
    + unfold pruned. rewrite update_eid.
      now destruct (Nat.eqb (eid c) (eid target_porttype)).
    + unfold pruned. rewrite update_tag.
      now destruct (Nat.eqb (eid c) (eid target_porttype)).
Qed.

(** *** What is left of each kind *)

Lemma is_tag_ppo (t : string) (x : Element) :
  is_tag t (prune_porttype_operations keep_ops x) = is_tag t x.
Proof. reflexivity. Qed.

Lemma findall_out (t : string) :
  findall out t
  = flat_map
      (fun c => filter (is_tag t)
                  (final_child handles keep_keys keep_ops keep_names
                     target_porttype target_binding service binding'
                     service5 strip c)) (children root).
Proof. rewrite out_closed. apply findall_per_child. Qed.

Lemma filter_is_tag_one (t : string) (x : Element) :
  filter (is_tag t) [x] = if is_tag t x then [x] else [].
Proof. reflexivity. Qed.

Lemma findall_out_binding : findall out wsdl_binding = [binding'].
Proof.
  rewrite findall_out.
  apply (flat_map_at_eid _ target_binding);
    [exact distinct_top | apply binding_child|].
  intros c Hc. unfold final_child. fold pruned.
  destruct binding'_sig as [_ [Htb _]]. destruct service5_sig as [_ Ht5].
  destruct (is_tag wsdl_message c) eqn:Hm.
  - rewrite (not_binding c Hc) by
      (apply (is_tag_excl wsdl_message); [vm_compute; discriminate|exact Hm]).
    destruct (mem_opt _ _); [|reflexivity].
    now rewrite filter_is_tag_one, is_tag_pruned,
      (is_tag_excl wsdl_message wsdl_binding c)
      by (auto; vm_compute; discriminate).
  - destruct (is_tag wsdl_binding c) eqn:Hb.
    + destruct (Nat.eqb (eid c) (eid target_binding)); [|reflexivity].
      rewrite filter_is_tag_one. unfold is_tag. now rewrite Htb.
    + rewrite (not_binding c Hc Hb).
      destruct (is_tag wsdl_portType c).
      * destruct (Nat.eqb _ _); [|reflexivity].
        now rewrite filter_is_tag_one, is_tag_pruned, is_tag_ppo, Hb.
      * destruct (strip && _); [reflexivity|].
        destruct (Nat.eqb _ _); rewrite filter_is_tag_one.
        -- unfold is_tag. now rewrite Ht5.
        -- now rewrite is_tag_pruned, Hb.
Qed.

Lemma findall_out_porttype :
  findall out wsdl_portType
  = [pruned (prune_porttype_operations keep_ops target_porttype)].
Proof.
  rewrite findall_out.
  apply (flat_map_at_eid _ target_porttype);
    [exact distinct_top | apply porttype_child|].
  intros c Hc. unfold final_child. fold pruned.
  destruct binding'_sig as [_ [Htb _]]. destruct service5_sig as [_ Ht5].
  destruct (is_tag wsdl_message c) eqn:Hm.
  - rewrite (not_porttype c Hc) by
      (apply (is_tag_excl wsdl_message); [vm_compute; discriminate|exact Hm]).
    destruct (mem_opt _ _); [|reflexivity].
    now rewrite filter_is_tag_one, is_tag_pruned,
      (is_tag_excl wsdl_message wsdl_portType c)
      by (auto; vm_compute; discriminate).
  - destruct (is_tag wsdl_binding c) eqn:Hb.
    + rewrite (not_porttype c Hc) by
        (apply (is_tag_excl wsdl_binding); [vm_compute; discriminate|exact Hb]).
      destruct (Nat.eqb _ _); [|reflexivity].
      rewrite filter_is_tag_one. unfold is_tag. now rewrite Htb.
    + destruct (is_tag wsdl_portType c) eqn:Hp.
      * destruct (Nat.eqb (eid c) (eid target_porttype)) eqn:He;
          [|reflexivity].
        apply same_node in He; [|assumption|apply porttype_child].
        subst c. now rewrite filter_is_tag_one, is_tag_pruned, is_tag_ppo, Hp.
      * rewrite (not_porttype c Hc Hp).
        destruct (strip && _); [reflexivity|].
        destruct (Nat.eqb _ _); rewrite filter_is_tag_one.
        -- unfold is_tag. now rewrite Ht5.
        -- now rewrite is_tag_pruned, Hp.
Qed.

Lemma final_child_service :
  final_child handles keep_keys keep_ops keep_names target_porttype
    target_binding service binding' service5 strip service = [service5].
Proof.
  destruct service_child as [Hc Ht]. unfold final_child.
  rewrite (tag_neq_false service wsdl_service wsdl_message Ht eq_refl).
  rewrite (tag_neq_false service wsdl_service wsdl_binding Ht eq_refl).
  rewrite (tag_neq_false service wsdl_service wsdl_portType Ht eq_refl).
  rewrite (tag_neq_false service wsdl_service wsp_Policy Ht eq_refl).
  rewrite (tag_neq_false service wsdl_service wsp_UsingPolicy Ht eq_refl).
  rewrite andb_false_r, Nat.eqb_refl. reflexivity.
Qed.

Lemma service_in_out : In service5 (findall out wsdl_service).
Proof.
  apply findall_In. split; [|apply service5_sig].
  rewrite out_closed. apply (in_per_child _ _ service); [apply service_child|].
  rewrite final_child_service. now left.
Qed.

(** *** Operations *)

Lemma distinct_pruned_binding :
  NoDup (top_ids (prune_binding_operations keep_ops (pruned target_binding))).
Proof.
  apply NoDup_ids_top. eapply subseq_NoDup.
  - eapply subseq_trans; [apply ids_remove_children_subseq|].
    apply update_ids_subseq.
  - apply (NoDup_ids_child root); [exact distinct | apply binding_child].
Qed.

Lemma op_names_binding' :
  op_names binding'
  = filter (fun n => mem_str n keep_ops) (op_names target_binding).
Proof.
  rewrite <- (op_names_update handles keep_keys target_binding).
  fold pruned. rewrite <- op_names_prune.
  change (remove_children _ (pruned target_binding))
    with (prune_binding_operations keep_ops (pruned target_binding)).
  revert Hresult. unfold target_binding_result.
  set (b1 := prune_binding_operations keep_ops (pruned target_binding)).
  intro H. destruct policy_tree as [policy_root|].
  - destruct (is_soap12_binding b1).
    + pose proof (attach_findall b1 policy_root wsdl_operation
                    distinct_pruned_binding) as Hf.
      destruct (attach_policy_to_binding b1 policy_root) as [b2|e b2];
        [|discriminate].
      injection H as <- _. unfold op_names. rewrite Hf; [reflexivity| |];
        intro Ht; vm_compute in Ht; discriminate.
    + now injection H as <- _.
  - now injection H as <- _.
Qed.

Lemma op_names_porttype :
  op_names (pruned (prune_porttype_operations keep_ops target_porttype))
  = filter (fun n => mem_str n keep_ops) (op_names target_porttype).
Proof.
  unfold pruned. rewrite op_names_update. apply op_names_prune.
Qed.

(** *** Ports *)

Lemma ports_of_service5 :
  findall service5 wsdl_port
  = filter (port_kept (get target_binding "name"))
      (map pruned (findall service wsdl_port)).
Proof.
  rewrite service5_closed, findall_remove_children.
  unfold pruned. rewrite update_findall by tag_facts.
  apply filter_ext_in. intros c Hc. apply in_map_iff in Hc.
  destruct Hc as [p [<- Hp]]. apply findall_In in Hp.
  unfold is_tag. rewrite update_tag, (proj2 Hp), String.eqb_refl. simpl.
  apply negb_involutive.
Qed.

Lemma truthy_colon (s pre local : string) :
  split_colon s = Some (pre, local) -> truthy (Some s) = Some s.
Proof. destruct s; [discriminate | reflexivity]. Qed.

Lemma port_kept_spec (target_name : option string) (p : Element) :
  port_kept target_name p = true <->
  exists bq pre local,
    get p "binding" = Some bq /\ split_colon bq = Some (pre, local)
    /\ target_name = Some local.
Proof.
  unfold port_kept. split.
  - destruct (get p "binding") as [bq|]; [|discriminate].
    destruct (truthy (Some bq)) as [bq'|] eqn:Hb; [|discriminate].
    assert (bq' = bq) as -> by (destruct bq; [discriminate | now injection Hb]).
    destruct (split_colon bq) as [[pre local]|] eqn:Hs; [|discriminate].
    intro H. apply opt_eqb_eq in H. now exists bq, pre, local.
  - intros [bq [pre [local [-> [Hs ->]]]]].
    rewrite (truthy_colon _ _ _ Hs), Hs. apply opt_eqb_refl.
Qed.

Lemma first_port_kept :
  port_kept (get target_binding "name") (pruned port0) = true.
Proof.
  apply port_kept_spec. unfold binding_for_port in Hbinding.
  apply resolve_qname_in_Ok in Hbinding.
  destruct Hbinding as [_ [s [pre [local [Hq [Hs Hn]]]]]].
  exists s, pre, local. unfold pruned. now rewrite update_get.
Qed.

Lemma service5_has_port : findall service5 wsdl_port <> [].
Proof.
  rewrite ports_of_service5, Hports. simpl.
  now rewrite first_port_kept.
Qed.

(** *** Messages *)

Lemma message_is_unmodified (c : Element) :
  In c (children root) -> is_tag wsdl_message c = true ->
  In c (findall root1 wsdl_message).
Proof.
  intros Hc Hm. apply findall_In. split; [|now apply String.eqb_eq].
  unfold root1, modify. simpl. apply in_map_iff. exists c. split; [|assumption].
  rewrite (not_porttype c Hc); [reflexivity|].
  apply (is_tag_excl wsdl_message); [vm_compute; discriminate | exact Hm].
Qed.

Lemma root1_message (m : Element) :
  In m (findall root1 wsdl_message) ->
  In m (children root) /\ is_tag wsdl_message m = true.
Proof.
  intro H. apply findall_In in H. destruct H as [Hin Ht].
  unfold root1, modify in Hin. simpl in Hin. apply in_map_iff in Hin.
  destruct Hin as [c [Hc Hin]].
  assert (tag c = wsdl_message) as Htc.
  { rewrite <- Ht, <- Hc. now destruct (Nat.eqb _ _). }
  assert (is_tag wsdl_message c = true) as Hm by (now apply String.eqb_eq).
  rewrite (not_porttype c Hin) in Hc
    by (apply (is_tag_excl wsdl_message); [vm_compute; discriminate|exact Hm]).
  subst m. auto.
Qed.

Lemma keep_names_spec (c : Element) :
  In c (children root) -> is_tag wsdl_message c = true ->
  (mem_opt (get c "name") keep_names = true <-> In c keep_messages).
Proof.
  intros Hc Hm.
  destruct (find_messages_Ok _ _ _ Hmessages) as [names [_ Hkm]].
  fold root1 in Hkm. split.
  - intro H. apply mem_opt_In in H. unfold keep_names in H.
    apply in_map_iff in H. destruct H as [m [Hn Hin]].
    rewrite Hkm in Hin |- *. apply filter_In in Hin. apply filter_In.
    split; [now apply message_is_unmodified|]. rewrite <- Hn. apply Hin.
  - intro H. apply mem_opt_In. unfold keep_names.
    now apply (in_map (fun m => get m "name")).
Qed.

Lemma final_child_message (c : Element) :
  In c (children root) ->
  filter (is_tag wsdl_message)
    (final_child handles keep_keys keep_ops keep_names target_porttype
       target_binding service binding' service5 strip c)
  = if is_tag wsdl_message c && mem_opt (get c "name") keep_names
    then [pruned c] else [].
Proof.
  intro Hc. unfold final_child. fold pruned.
  destruct binding'_sig as [_ [Htb _]]. destruct service5_sig as [_ Ht5].
  destruct (is_tag wsdl_message c) eqn:Hm; simpl.
  - destruct (mem_opt _ _); [|reflexivity].
    now rewrite filter_is_tag_one, is_tag_pruned, Hm.
  - destruct (is_tag wsdl_binding c).
    + destruct (Nat.eqb _ _); [|reflexivity].
      rewrite filter_is_tag_one. unfold is_tag. now rewrite Htb.
    + destruct (is_tag wsdl_portType c).
      * destruct (Nat.eqb _ _); [|reflexivity].
        now rewrite filter_is_tag_one, is_tag_pruned, is_tag_ppo, Hm.
      * destruct (strip && _); [reflexivity|].
        destruct (Nat.eqb _ _); rewrite filter_is_tag_one.
        -- unfold is_tag. now rewrite Ht5.
        -- now rewrite is_tag_pruned, Hm.
Qed.

Lemma messages_of_out (msg : Element) :
  In msg (findall out wsdl_message) <->
  exists m, In m keep_messages /\ msg = pruned m.
Proof.
  rewrite findall_out, in_flat_map. split.
  - intros [c [Hc Hin]]. rewrite (final_child_message c Hc) in Hin.
    destruct (is_tag wsdl_message c) eqn:Hm; [|destruct Hin].
    destruct (mem_opt (get c "name") keep_names) eqn:Hk; [|destruct Hin].
    destruct Hin as [<-|[]]. exists c. split; [|reflexivity].
    now apply keep_names_spec.
  - intros [m [Hin ->]].
    destruct (find_messages_Ok _ _ _ Hmessages) as [names [_ Hkm]].
    fold root1 in Hkm. pose proof Hin as Hin'. rewrite Hkm in Hin'.
    apply filter_In in Hin'. destruct Hin' as [Hr1 _].
    apply root1_message in Hr1. destruct Hr1 as [Hc Hm].
    exists m. split; [assumption|]. rewrite (final_child_message m Hc), Hm.
    rewrite (proj2 (keep_names_spec m Hc Hm) Hin). now left.
Qed.

Lemma message_refs_pruned (m : Element) :
  message_refs (pruned m) = message_refs m.
Proof.
  unfold message_refs, pruned. rewrite update_findall by tag_facts.
  rewrite flat_map_concat_map, map_map, <- flat_map_concat_map.
  apply flat_map_ext. intro p. unfold part_refs. cbn [flat_map].
  now rewrite !update_get.
Qed.

Lemma collect_messages_pruned (x : Element) :
  collect_messages_from_porttype (pruned x) = collect_messages_from_porttype x.
Proof.
  unfold collect_messages_from_porttype, pruned.
  rewrite update_findall by tag_facts.
  rewrite flat_map_concat_map, map_map, <- flat_map_concat_map.
  apply flat_map_ext. intro op. f_equal.
  - cbn [flat_map]. unfold find.
    rewrite !update_findall by tag_facts.
    destruct (findall op wsdl_input) as [|ch r];
      destruct (findall op wsdl_output) as [|ch' r']; simpl;
      unfold message_of; now rewrite ?update_get.
  - rewrite update_findall by tag_facts.
    rewrite flat_map_concat_map, map_map, <- flat_map_concat_map.
    apply flat_map_ext. intro ch. unfold message_of. now rewrite update_get.
Qed.

Hypothesis Hseeds :
  collect_schema_qnames_from_messages QName nsmap keep_messages
  = Ok seed_qnames.
Hypothesis Hreach :
  reachable_schema_items QName nsmap root2 seed_qnames
  = Some (Ok (keep_keys, find_schemas root2, build_index (find_schemas root2))).

(** Every part of a message that is left resolves into the retained set. *)
Lemma part_refs_retained (msg : Element) (v : string) :
  In msg (findall out wsdl_message) -> In v (message_refs msg) ->
  exists k, resolve_qname QName nsmap v = Ok k /\ In k keep_keys.
Proof.
  intros Hmsg Hv. apply messages_of_out in Hmsg. destruct Hmsg as [m [Hm ->]].
  rewrite message_refs_pruned in Hv.
  assert (In v (flat_map message_refs keep_messages)) as Hin
    by (apply in_flat_map; now exists m).
  destruct (mapM_In_Ok _ _ _ _ Hseeds Hin) as [k [Hk Hks]].
  exists k. split; [assumption|].
  destruct (reachable_schema_items_Ok _ _ _ _ _ _ _ Hreach)
    as [_ [_ [w [Hw <-]]]].
  destruct (run_nothing_lost _ _ _ _ _ Hw) as [Hl Hq].
  destruct (Hl k (or_introl Hks)) as [Hin'|Hin']; [|assumption].
  rewrite Hq in Hin'. destruct Hin'.
Qed.

(** Every message a surviving operation names is left, if there was one. *)
Lemma operation_messages_left (q : string) :
  In q (collect_messages_from_porttype
          (pruned (prune_porttype_operations keep_ops target_porttype))) ->
  exists local,
    local_of q = Ok local
    /\ forall m, In m (findall root wsdl_message) ->
         get m "name" = Some local ->
         In (pruned m) (findall out wsdl_message).
Proof.
  rewrite collect_messages_pruned. intro Hq.
  destruct (find_messages_Ok _ _ _ Hmessages) as [names [Hn Hkm]].
  fold root1 in Hkm.
  destruct (mapM_In_Ok _ _ _ _ Hn Hq) as [local [Hl Hln]].
  exists local. split; [assumption|]. intros m Hm Hname.
  apply messages_of_out. exists m. split; [|reflexivity].
  apply findall_In in Hm. destruct Hm as [Hc Ht].
  rewrite Hkm. apply filter_In. split.
  - apply message_is_unmodified; [assumption | now apply String.eqb_eq].
  - rewrite Hname. apply mem_str_In. now exists local.
Qed.

(** Every operation of the interface that a surviving binding operation
    names is left. *)
Lemma binding_operations_left (bop op : Element) :
  In bop (findall binding' wsdl_operation) ->
  In op (findall target_porttype wsdl_operation) ->
  get op "name" = get bop "name" ->
  In (pruned op)
    (findall (pruned (prune_porttype_operations keep_ops target_porttype))
       wsdl_operation).
Proof.
  intros Hbop Hop Hname.
  assert (mem_str (get bop "name") keep_ops = true) as Hk.
  { assert (In (get bop "name") (op_names binding')) as Hin
      by (unfold op_names; now apply (in_map (fun o => get o "name"))).
    rewrite op_names_binding' in Hin. now apply filter_In in Hin. }
  unfold pruned. rewrite update_findall by tag_facts.
  apply in_map. unfold prune_porttype_operations.
  rewrite findall_remove_children. apply filter_In. split; [assumption|].
  rewrite Hname, Hk. now rewrite andb_false_r.
Qed.

(** *** Summary *)

Lemma run_summary :
  out = per_child
          (final_child handles keep_keys keep_ops keep_names target_porttype
             target_binding service binding' service5 strip) root
  /\ findall out wsdl_portType
     = [pruned (prune_porttype_operations keep_ops target_porttype)]
  /\ findall out wsdl_binding = [binding']
  /\ In service5 (findall out wsdl_service)
  /\ service5 =
     remove_children
       (fun c => is_tag wsdl_port c
                 && negb (port_kept (get target_binding "name") c))
       (pruned service)
  /\ findall service5 wsdl_port
     = filter (port_kept (get target_binding "name"))
         (map pruned (findall service wsdl_port))
  /\ findall service5 wsdl_port <> []
  /\ attrib binding' = attrib target_binding
  /\ op_names binding'
     = filter (fun n => mem_str n keep_ops) (op_names target_binding)
  /\ op_names (pruned (prune_porttype_operations keep_ops target_porttype))
     = filter (fun n => mem_str n keep_ops) (op_names target_porttype)
  /\ (forall msg v,
        In msg (findall out wsdl_message) -> In v (message_refs msg) ->
        exists k, resolve_qname QName nsmap v = Ok k /\ In k keep_keys)
  /\ (forall q,
        In q (collect_messages_from_porttype
                (pruned (prune_porttype_operations keep_ops target_porttype))) ->
        exists local,
          local_of q = Ok local
          /\ forall m, In m (findall root wsdl_message) ->
               get m "name" = Some local ->
               In (pruned m) (findall out wsdl_message))
  /\ (forall bop op,
        In bop (findall binding' wsdl_operation) ->
        In op (findall target_porttype wsdl_operation) ->
        get op "name" = get bop "name" ->
        In (pruned op)
          (findall (pruned (prune_porttype_operations keep_ops target_porttype))
             wsdl_operation)).
Proof.
  split; [|split; [|split; [|split; [|split; [|split; [|split; [|split;
    [|split; [|split; [|split; [|split]]]]]]]]]]].
  - exact out_closed.
  - exact findall_out_porttype.
  - exact findall_out_binding.
  - exact service_in_out.
  - exact service5_closed.
  - exact ports_of_service5.
  - exact service5_has_port.
  - apply binding'_sig.
  - exact op_names_binding'.
  - exact op_names_porttype.
  - exact part_refs_retained.
  - exact operation_messages_left.
  - exact binding_operations_left.
Qed.

(** *** The messages that are left *)

Lemma message_origin (m' : Element) :
  In m' (findall out wsdl_message) ->
  exists m, In m (findall root wsdl_message) /\ eid m' = eid m.
Proof.
  intro H. apply messages_of_out in H. destruct H as [m [Hm ->]].
  destruct (find_messages_Ok _ _ _ Hmessages) as [names [_ Hkm]].
  fold root1 in Hkm. rewrite Hkm in Hm. apply filter_In in Hm.
  destruct Hm as [Hm _]. apply root1_message in Hm. destruct Hm as [Hc Ht].
  exists m. split; [|apply update_eid].
  apply findall_In. split; [assumption | now apply String.eqb_eq].
Qed.

Lemma message_survivors (m : Element) :
  In m (findall root wsdl_message) ->
  ((exists m', In m' (findall out wsdl_message) /\ eid m' = eid m)
   <-> exists q pre local,
         In q (collect_messages_from_porttype
                 (pruned (prune_porttype_operations keep_ops target_porttype)))
         /\ split_colon q = Some (pre, local)
         /\ get m "name" = Some local).
Proof.
  intro Hm. rewrite collect_messages_pruned.
  destruct (find_messages_Ok _ _ _ Hmessages) as [names [Hn Hkm]].
  fold root1 in Hkm.
  apply findall_In in Hm. destruct Hm as [Hc Ht].
  assert (is_tag wsdl_message m = true) as Htm by now apply String.eqb_eq.
  assert (In m keep_messages <-> mem_str (get m "name") names = true) as Hk.
  { rewrite Hkm, filter_In. split; [tauto|]. intro H.
    split; [now apply message_is_unmodified | assumption]. }
  split.
  - intros [m' [Hin He]]. apply messages_of_out in Hin.
    destruct Hin as [m0 [Hm0 ->]]. unfold pruned in He.
    rewrite update_eid in He.
    assert (m0 = m) as ->.
    { pose proof Hm0 as H0. rewrite Hkm in H0. apply filter_In in H0.
      destruct H0 as [H0 _]. apply root1_message in H0.
      apply (NoDup_eid_inj (children root)); try tauto. exact distinct_top. }
    apply Hk, mem_str_In in Hm0. destruct Hm0 as [n [Hname Hin]].
    apply (mapM_Ok_In _ _ _ Hn) in Hin. destruct Hin as [q [Hq Hl]].
    unfold local_of in Hl.
    destruct (split_colon q) as [[pre local]|] eqn:Hs; [|discriminate].
    injection Hl as ->. now exists q, pre, n.
  - intros [q [pre [local [Hq [Hs Hname]]]]].
    exists (pruned m). split; [|apply update_eid].
    apply messages_of_out. exists m. split; [|reflexivity].
    apply Hk, mem_str_In. exists local. split; [assumption|].
    apply (mapM_Ok_In _ _ _ Hn). exists q. split; [assumption|].
    unfold local_of. now rewrite Hs.
Qed.

(** *** What passes through *)

Lemma root2_pruned_from : pruned_from root2 root.
Proof.
  unfold root2, root1, prune_messages.
  eapply pruned_from_trans; [apply pruned_from_remove_children|].
  apply pruned_from_modify. intro c. apply pruned_from_remove_children.
Qed.

(** The schemas of the index are [xsd:schema] nodes of the input. *)
Lemma handle_is_schema (y : Element) :
  In y (iter root) -> mem_nat (eid y) handles = true -> tag y = xsd_schema.
Proof.
  intros Hy Hm. apply mem_nat_In, in_map_iff in Hm.
  destruct Hm as [s [He Hs]].
  assert (tag s = xsd_schema) as Hts.
  { unfold find_schemas in Hs. apply in_flat_map in Hs.
    destruct Hs as [t [_ Hs]]. now apply findall_In in Hs. }
  apply find_schemas_in_descendants in Hs.
  assert (In s (iter root2)) as Hi
    by (destruct root2; simpl; right; exact Hs).
  destruct (pruned_from_iter _ _ _ root2_pruned_from Hi) as [n [Hn Hp]].
  apply pruned_from_tag in Hp. destruct Hp as [Hen [Htn _]].
  assert (y = n) as ->.
  { apply (NoDup_eid_inj (iter root)); try assumption. congruence. }
  congruence.
Qed.

Lemma passes_through (c : Element) :
  In c (children root) ->
  is_tag wsdl_message c = false -> is_tag wsdl_binding c = false ->
  is_tag wsdl_portType c = false ->
  is_tag wsp_Policy c = false -> is_tag wsp_UsingPolicy c = false ->
  c <> service ->
  (forall y, In y (iter c) -> tag y <> xsd_schema) ->
  In c (children out).
Proof.
  intros Hc Hm Hb Hp Hpol Hup Hsv Hsch. rewrite out_closed.
  apply (in_per_child _ _ c); [assumption|].
  unfold final_child. rewrite Hm, Hb, Hp, Hpol, Hup, andb_false_r.
  destruct (Nat.eqb (eid c) (eid service)) eqn:He.
  - elim Hsv. exact (same_node c service Hc (proj1 service_child) He).
  - left. apply update_no_handle. intros y Hy.
    destruct (mem_nat (eid y) _) eqn:Hmem; [|reflexivity].
    exfalso. apply (Hsch y Hy). apply handle_is_schema; [|exact Hmem].
    apply (iter_trans root c y); [now apply child_in_iter | assumption].
Qed.

(** *** The root-level policy after a splice *)

Lemma root_policy_stripped (t : string) :
  strip = true -> t = wsp_Policy \/ t = wsp_UsingPolicy ->
  findall out t = [].
Proof.
  intros Hst Ht. rewrite findall_out. apply flat_map_all_nil. intros c Hc.
  unfold final_child. fold pruned. rewrite Hst. simpl.
  destruct binding'_sig as [_ [Htb _]]. destruct service5_sig as [_ Ht5].
  assert (forall t0 x, tag x = t0 -> t0 <> wsp_Policy ->
                       t0 <> wsp_UsingPolicy -> is_tag t x = false) as Hno.
  { intros t0 x Hx H1 H2. unfold is_tag. rewrite Hx. apply String.eqb_neq.
    destruct Ht as [->| ->]; assumption. }
  destruct (is_tag wsdl_message c) eqn:Hm.
  { destruct (mem_opt _ _); [|reflexivity].
    rewrite filter_is_tag_one, is_tag_pruned.
    apply String.eqb_eq in Hm.
    now rewrite (Hno wsdl_message c Hm) by (vm_compute; discriminate). }
  destruct (is_tag wsdl_binding c).
  { destruct (Nat.eqb _ _); [|reflexivity]. rewrite filter_is_tag_one.
    now rewrite (Hno wsdl_binding binding' Htb) by (vm_compute; discriminate). }
  destruct (is_tag wsdl_portType c) eqn:Hp.
  { destruct (Nat.eqb _ _); [|reflexivity].
    rewrite filter_is_tag_one, is_tag_pruned, is_tag_ppo.
    apply String.eqb_eq in Hp.
    now rewrite (Hno wsdl_portType c Hp) by (vm_compute; discriminate). }
  destruct (is_tag wsp_Policy c) eqn:H1; [reflexivity|].
  destruct (is_tag wsp_UsingPolicy c) eqn:H2; [reflexivity|]. simpl.
  destruct (Nat.eqb _ _); rewrite filter_is_tag_one.
  - now rewrite (Hno wsdl_service service5 Ht5) by (vm_compute; discriminate).
  - rewrite is_tag_pruned. now destruct Ht as [->| ->]; rewrite ?H1, ?H2.
Qed.

(** *** The binding that is left *)

Local Abbreviation unspliced :=
  (prune_binding_operations keep_ops (pruned target_binding)).

Lemma binding_is_no_handle : mem_nat (eid target_binding) handles = false.
Proof.
  destruct binding_child as [Hc Ht].
  destruct (mem_nat (eid target_binding) handles) eqn:Hm; [|reflexivity].
  apply handle_is_schema in Hm; [|now apply child_in_iter].
  rewrite Ht in Hm. vm_compute in Hm. discriminate.
Qed.

Lemma handle_in_ids (i : nat) : mem_nat i handles = true -> In i (ids root).
Proof.
  intro Hm. apply mem_nat_In, in_map_iff in Hm.
  destruct Hm as [s [<- Hs]]. apply find_schemas_in_descendants in Hs.
  assert (In s (iter root2)) as Hi
    by (destruct root2; simpl; right; exact Hs).
  destruct (pruned_from_iter _ _ _ root2_pruned_from Hi) as [n [Hn Hp]].
  apply pruned_from_tag in Hp. destruct Hp as [-> _].
  unfold ids. now apply in_map.
Qed.

Lemma unspliced_commutes :
  unspliced = pruned (prune_binding_operations keep_ops target_binding).
Proof.
  unfold prune_binding_operations, pruned. symmetry.
  apply update_remove_children. intro c.
  now rewrite is_tag_pruned_gen, update_get.
Qed.

Lemma unspliced_children :
  children unspliced
  = map pruned (children (prune_binding_operations keep_ops target_binding)).
Proof.
  rewrite unspliced_commutes. unfold pruned. rewrite update_children.
  change (eid (prune_binding_operations keep_ops target_binding))
    with (eid target_binding).
  now rewrite binding_is_no_handle.
Qed.

Lemma unspliced_pruned : pruned unspliced = unspliced.
Proof. rewrite unspliced_commutes. apply update_idempotent. Qed.

Lemma unspliced_child_pruned (c : Element) :
  In c (children unspliced) -> pruned c = c.
Proof.
  rewrite unspliced_children. intro H. apply in_map_iff in H.
  destruct H as [c0 [<- _]]. apply update_idempotent.
Qed.

Lemma unspliced_child_kept (c : Element) :
  In c (children unspliced) ->
  is_tag wsdl_operation c && negb (mem_str (get c "name") keep_ops) = false.
Proof.
  unfold prune_binding_operations. intro H. apply remove_children_In in H.
  destruct H as [_ H]. exact H.
Qed.

Lemma unspliced_child_id (c : Element) :
  In c (children unspliced) -> In (eid c) (ids root).
Proof.
  rewrite unspliced_children. intro H. apply in_map_iff in H.
  destruct H as [c0 [<- H]]. unfold pruned. rewrite update_eid.
  apply remove_children_In in H. destruct H as [H _].
  unfold ids. apply in_map.
  apply (iter_trans root target_binding c0).
  - apply child_in_iter, binding_child.
  - now apply child_in_iter.
Qed.

Lemma unspliced_flat (d : Element) :
  types_at_top root -> In d (descendants unspliced) -> tag d <> wsdl_types.
Proof.
  intros Hflat Hd. apply remove_children_descendants in Hd.
  apply update_descendants_tag in Hd. destruct Hd as [d0 [Hd0 ->]].
  exact (Hflat target_binding d0 (proj1 binding_child) Hd0).
Qed.

Lemma unspliced_iter_flat (c d : Element) :
  types_at_top root -> In c (children unspliced) -> In d (iter c) ->
  tag d <> wsdl_types.
Proof.
  intros Hflat Hc Hd. apply (unspliced_flat d Hflat).
  unfold descendants. apply in_flat_map. now exists c.
Qed.

(** Without a splice the binding step gives the binding back. *)
Lemma unspliced_again :
  strip = false ->
  binding' = unspliced
  /\ target_binding_result keep_ops policy_tree binding' = inl (binding', strip).
Proof.
  intro Hst. pose proof Hresult as H. unfold target_binding_result in H |- *.
  assert (prune_binding_operations keep_ops unspliced = unspliced) as Hid
    by (unfold prune_binding_operations; apply remove_children_idempotent).
  revert H. generalize policy_tree. intros [pr|] H.
  - destruct (is_soap12_binding unspliced) eqn:Hs.
    + destruct (attach_policy_to_binding unspliced pr); [|discriminate].
      injection H as _ H. congruence.
    + injection H as <- <-. split; [reflexivity|]. now rewrite Hid, Hs.
  - injection H as <- <-. split; [reflexivity|]. now rewrite Hid.
Qed.

(** With a splice in place the binding holds its first child, the two
    nodes of the fragment and what is left of its other children. *)
Lemma spliced_shape :
  splice_in_place keep_ops policy_tree root target_binding ->
  strip = true ->
  exists pr u us p ps x' r2,
    policy_tree = Some pr
    /\ findall pr wsp_UsingPolicy = u :: us
    /\ findall pr wsp_Policy = p :: ps
    /\ is_soap12_binding unspliced = true
    /\ attach_policy_to_binding unspliced pr = Completed binding'
    /\ binding' = set_children unspliced (x' :: u :: p :: r2)
    /\ tag x' <> wsp_UsingPolicy /\ tag x' <> wsp_Policy
    /\ (forall c, In c (x' :: r2) -> In c (children unspliced))
    /\ NoDup (ids root ++ ids u ++ ids p)
    /\ (forall d, In d (iter u ++ iter p) -> tag d <> wsdl_types).
Proof.
  intros Hsplice Hst. pose proof Hresult as H.
  unfold target_binding_result in H. unfold splice_in_place in Hsplice.
  revert H Hsplice. generalize policy_tree. intros [pr|] H Hsplice;
    [|injection H as _ H; congruence].
  destruct (is_soap12_binding unspliced) eqn:Hs;
    [|injection H as _ H; congruence].
  assert (findall target_binding soapbind_binding <> []) as Hsoap.
  { unfold pruned in Hs. rewrite is_soap12_binding_stages in Hs.
    destruct (findall target_binding soapbind_binding);
      [discriminate | discriminate]. }
  destruct (attach_policy_to_binding unspliced pr) as [b2|e b2] eqn:Ha;
    [|discriminate].
  injection H as Hb2 _. subst b2.
  pose proof Ha as Ha'. unfold attach_policy_to_binding in Ha'.
  destruct (findall pr wsp_UsingPolicy) as [|u us] eqn:Hu; [discriminate|].
  destruct (findall pr wsp_Policy) as [|p ps] eqn:Hp; [discriminate|].
  clear Ha'.
  destruct (Hsplice pr u us p ps eq_refl Hsoap Hu Hp)
    as [[x [rest [Hc [Hxu Hxp]]]] [Hfresh Hflat]].
  assert (children (remove_first wsp_UsingPolicy unspliced)
          = pruned x :: map pruned rest) as Hch.
  { rewrite (remove_first_map pruned wsp_UsingPolicy
               (prune_binding_operations keep_ops target_binding) unspliced).
    - now rewrite Hc.
    - intro c. apply update_eid.
    - intro c. apply update_tag.
    - exact unspliced_children. }
  assert (tag (pruned x) <> wsp_UsingPolicy) as Hxu'
    by (unfold pruned; now rewrite update_tag).
  assert (tag (pruned x) <> wsp_Policy) as Hxp'
    by (unfold pruned; now rewrite update_tag).
  destruct (attach_shape unspliced pr u p (pruned x) us ps (map pruned rest)
              Hch Hxu' Hxp') as [r2 [Hat Hsub]]; try assumption.
  { exact distinct_pruned_binding. }
  { intro Hin. apply in_map_iff in Hin.
    destruct Hin as [c [He Hin]]. apply unspliced_child_id in Hin.
    apply (NoDup_app_disjoint _ _ (eid u) Hfresh).
    - now rewrite <- He.
    - apply in_or_app. left. apply eid_in_ids. }
  exists pr, u, us, p, ps, (pruned x), r2.
  repeat (split; [first [reflexivity | assumption]|]).
  split; [congruence|]. split; [assumption|]. split; [assumption|].
  split; [|split; assumption].
  intros c Hin.
  apply (subseq_In _ _ c (remove_first_children unspliced wsp_UsingPolicy)).
  rewrite Hch. destruct Hin as [<-|Hin]; [now left|].
  right. exact (subseq_In _ _ c Hsub Hin).
Qed.

Lemma bool_cases (b : bool) : b = false \/ b = true.
Proof. destruct b; auto. Qed.

(** The binding step on the binding that is left gives it back. *)
Lemma binding'_again :
  splice_in_place keep_ops policy_tree root target_binding ->
  target_binding_result keep_ops policy_tree binding' = inl (binding', strip).
Proof.
  intro Hsplice. destruct (bool_cases strip) as [Hst|Hst].
  { exact (proj2 (unspliced_again Hst)). }
  destruct (spliced_shape Hsplice Hst)
    as (pr & u & us & p & ps & x' & r2 & Hpol & Hu & Hp & Hs & Ha & Hb' & Hxu & Hxp & Hin & Hfresh & _).
  assert (tag u = wsp_UsingPolicy) as Htu
    by (apply (findall_In pr); rewrite Hu; now left).
  assert (tag p = wsp_Policy) as Htp
    by (apply (findall_In pr); rewrite Hp; now left).
  assert (prune_binding_operations keep_ops binding' = binding') as Hid.
  { unfold prune_binding_operations at 1. apply remove_children_id.
    rewrite Hb'. simpl. intros c [<-|[<-|[<-|Hc]]].
    - apply unspliced_child_kept, Hin. now left.
    - unfold is_tag. now rewrite Htu.
    - unfold is_tag. now rewrite Htp.
    - apply unspliced_child_kept, Hin. now right. }
  assert (is_soap12_binding binding' = true) as Hs'.
  { pose proof (attach_findall unspliced pr soapbind_binding
                  distinct_pruned_binding) as Hf.
    rewrite Ha in Hf. unfold is_soap12_binding, find in *.
    rewrite Hf; [exact Hs | |]; vm_compute; discriminate. }
  assert (attach_policy_to_binding binding' pr = Completed binding') as Ha'.
  { apply (attach_fixed binding' pr u p x' us ps r2); try assumption.
    - rewrite Hb'. reflexivity.
    - intros c Hc. apply Hin, unspliced_child_id in Hc. split; intro He.
      + apply (NoDup_app_disjoint _ _ (eid c) Hfresh Hc).
        apply in_or_app. left. rewrite He. apply eid_in_ids.
      + apply (NoDup_app_disjoint _ _ (eid c) Hfresh Hc).
        apply in_or_app. right. rewrite He. apply eid_in_ids.
    - intro He. apply NoDup_app_remove_l in Hfresh.
      apply (NoDup_app_disjoint _ _ (eid u) Hfresh).
      + apply eid_in_ids.
      + rewrite He. apply eid_in_ids. }
  unfold target_binding_result. rewrite Hpol, Hid, Hs', Ha', Hst.
  reflexivity.
Qed.

Lemma binding'_flat (d : Element) :
  types_at_top root ->
  splice_in_place keep_ops policy_tree root target_binding ->
  In d (descendants binding') -> tag d <> wsdl_types.
Proof.
  intros Hflat Hsplice Hd. destruct (bool_cases strip) as [Hst|Hst].
  { rewrite (proj1 (unspliced_again Hst)) in Hd.
    exact (unspliced_flat d Hflat Hd). }
  destruct (spliced_shape Hsplice Hst)
    as (pr & u & us & p & ps & x' & r2 & _ & _ & _ & _ & _ & Hb' & _ & _ & Hin & _ & Hfl).
  rewrite Hb' in Hd. unfold descendants in Hd. simpl in Hd.
  apply in_app_or in Hd. destruct Hd as [Hd|Hd].
  { apply (unspliced_iter_flat x' d Hflat); [apply Hin; now left | exact Hd]. }
  apply in_app_or in Hd. destruct Hd as [Hd|Hd].
  { apply Hfl, in_or_app. now left. }
  apply in_app_or in Hd. destruct Hd as [Hd|Hd].
  { apply Hfl, in_or_app. now right. }
  apply in_flat_map in Hd. destruct Hd as [c [Hc Hd]].
  apply (unspliced_iter_flat c d Hflat); [apply Hin; now right | exact Hd].
Qed.

Lemma binding'_pruned :
  splice_in_place keep_ops policy_tree root target_binding ->
  pruned binding' = binding'.
Proof.
  intro Hsplice. destruct (bool_cases strip) as [Hst|Hst].
  { rewrite (proj1 (unspliced_again Hst)). exact unspliced_pruned. }
  destruct (spliced_shape Hsplice Hst)
    as (pr & u & us & p & ps & x' & r2 & _ & _ & _ & _ & _ & Hb' & _ & _ & Hin & Hfresh & _).
  assert (forall n, In (eid n) (ids u ++ ids p) ->
                    mem_nat (eid n) handles = false) as Hno.
  { intros n Hn. destruct (mem_nat (eid n) handles) eqn:Hm; [|reflexivity].
    exfalso. apply handle_in_ids in Hm.
    exact (NoDup_app_disjoint _ _ (eid n) Hfresh Hm Hn). }
  assert (pruned u = u) as Hu.
  { apply update_no_handle. intros y Hy. apply Hno, in_or_app. left.
    unfold ids. now apply in_map. }
  assert (pruned p = p) as Hp.
  { apply update_no_handle. intros y Hy. apply Hno, in_or_app. right.
    unfold ids. now apply in_map. }
  assert (eid (set_children unspliced (x' :: u :: p :: r2))
          = eid target_binding) as He by (simpl; apply update_eid).
  rewrite Hb'. unfold pruned at 1. rewrite update_unfold. cbv zeta.
  rewrite He, binding_is_no_handle. simpl children. fold pruned.
  assert (map pruned (x' :: u :: p :: r2) = x' :: u :: p :: r2) as ->;
    [|reflexivity].
  simpl. rewrite Hu, Hp, (unspliced_child_pruned x') by (apply Hin; now left).
  do 3 f_equal. rewrite <- (map_id r2) at 2. apply map_ext_in.
  intros c Hc. apply unspliced_child_pruned, Hin. now right.
Qed.

(** *** A second run on the output *)

(** What the second run needs of the binding the first run leaves: the
    binding step gives it back, it holds no [wsdl:types] element and no
    schema of the document. *)
Hypothesis Hfix :
  target_binding_result keep_ops policy_tree binding' = inl (binding', strip).
Hypothesis Hbflat :
  forall d, In d (descendants binding') -> tag d <> wsdl_types.
Hypothesis Hbpruned : pruned binding' = binding'.

Local Abbreviation final :=
  (final_child handles keep_keys keep_ops keep_names target_porttype
     target_binding service binding' service5 strip).

Local Abbreviation porttype' :=
  (pruned (prune_porttype_operations keep_ops target_porttype)).

(** Without a splice the run only deletes. *)
Lemma out_pruned_from :
  strip = false ->
  binding' = prune_binding_operations keep_ops (pruned target_binding) ->
  pruned_from out root.
Proof.
  intros Hst Hb'.
  rewrite out_closed. apply pruned_from_per_child. intros c Hc.
  unfold final_child. fold pruned.
  rewrite Hst. simpl.
  assert (pruned_from (pruned c) c) as Hpc by apply pruned_from_update.
  destruct (is_tag wsdl_message c).
  { destruct (mem_opt _ _); [right; now exists (pruned c) | now left]. }
  destruct (is_tag wsdl_binding c).
  { destruct (Nat.eqb _ _) eqn:He; [|now left].
    right. exists binding'. split; [reflexivity|].
    rewrite (same_node c target_binding Hc (proj1 binding_child) He), Hb'.
    eapply pruned_from_trans;
      [apply pruned_from_remove_children | apply pruned_from_update]. }
  destruct (is_tag wsdl_portType c).
  { destruct (Nat.eqb _ _); [|now left].
    right. eexists. split; [reflexivity|].
    eapply pruned_from_trans;
      [apply pruned_from_update | apply pruned_from_remove_children]. }
  destruct (Nat.eqb _ _) eqn:He; right.
  - exists service5. split; [reflexivity|].
    rewrite (same_node c service Hc (proj1 service_child) He).
    rewrite service5_closed.
    eapply pruned_from_trans;
      [apply pruned_from_remove_children | apply pruned_from_update].
  - now exists (pruned c).
Qed.

Lemma final_top_ids (c : Element) : subseq (map eid (final c)) [eid c].
Proof.
  unfold final_child. fold pruned.
  destruct binding'_sig as [Heb _]. destruct service5_sig as [He5 _].
  destruct (is_tag wsdl_message c).
  - destruct (mem_opt _ _); [|apply subseq_nil_l].
    simpl. unfold pruned. rewrite update_eid. apply subseq_refl.
  - destruct (is_tag wsdl_binding c).
    + destruct (Nat.eqb (eid c) (eid target_binding)) eqn:He;
        [|apply subseq_nil_l].
      apply Nat.eqb_eq in He. simpl. rewrite Heb, He. apply subseq_refl.
    + destruct (is_tag wsdl_portType c).
      * destruct (Nat.eqb _ _); [|apply subseq_nil_l].
        simpl. unfold pruned. rewrite update_eid. apply subseq_refl.
      * destruct (strip && _); [apply subseq_nil_l|].
        destruct (Nat.eqb (eid c) (eid service)) eqn:He; simpl.
        -- apply Nat.eqb_eq in He. rewrite He5, He. apply subseq_refl.
        -- unfold pruned. rewrite update_eid. apply subseq_refl.
Qed.

Lemma distinct_top_out : NoDup (top_ids out).
Proof.
  rewrite out_closed. eapply subseq_NoDup; [|exact distinct_top].
  apply top_ids_per_child_subseq. intros c _. apply final_top_ids.
Qed.

Lemma per_child_id (g : Element -> list Element) (r : Element) :
  (forall c, In c (children r) -> g c = [c]) -> per_child g r = r.
Proof.
  intro H. unfold per_child.
  assert (flat_map g (children r) = children r) as ->; [|now destruct r].
  induction (children r) as [|c l IH]; simpl; [reflexivity|].
  rewrite (H c (or_introl eq_refl)), IH; [reflexivity|].
  intros; apply H; now right.
Qed.

(** The services of the output are those of the input, rewritten. *)
Lemma findall_out_service :
  findall out wsdl_service
  = map (fun c => if Nat.eqb (eid c) (eid service) then service5 else pruned c)
      (findall root wsdl_service).
Proof.
  rewrite findall_out. unfold findall. rewrite map_filter_flat_map.
  apply flat_map_ext_in. intros c Hc. unfold final_child. fold pruned.
  destruct binding'_sig as [_ [Htb _]]. destruct service5_sig as [_ Ht5].
  destruct (is_tag wsdl_service c) eqn:Hsv.
  - rewrite (is_tag_excl wsdl_service wsdl_message c),
      (is_tag_excl wsdl_service wsdl_binding c),
      (is_tag_excl wsdl_service wsdl_portType c),
      (is_tag_excl wsdl_service wsp_Policy c),
      (is_tag_excl wsdl_service wsp_UsingPolicy c)
      by (auto; vm_compute; discriminate).
    rewrite andb_false_r. simpl.
    destruct (Nat.eqb (eid c) (eid service)); simpl.
    + unfold is_tag. now rewrite Ht5.
    + now rewrite is_tag_pruned, Hsv.
  - simpl. destruct (is_tag wsdl_message c).
    + destruct (mem_opt _ _); [|reflexivity].
      now rewrite filter_is_tag_one, is_tag_pruned, Hsv.
    + destruct (is_tag wsdl_binding c).
      * destruct (Nat.eqb _ _); [|reflexivity].
        rewrite filter_is_tag_one. unfold is_tag. now rewrite Htb.
      * destruct (is_tag wsdl_portType c).
        -- destruct (Nat.eqb _ _); [|reflexivity].
           now rewrite filter_is_tag_one, is_tag_pruned, is_tag_ppo, Hsv.
        -- destruct (strip && _); [reflexivity|].
           rewrite (not_service c Hc Hsv).
           now rewrite filter_is_tag_one, is_tag_pruned, Hsv.
Qed.

Lemma second_find_service : find_service out service_name = Ok service5.
Proof.
  pose proof Hservice as Hs.
  unfold find_service in *. rewrite findall_out_service, find_map_in.
  - destruct (List.find _ (findall root wsdl_service)) as [svc|];
      [|discriminate].
    injection Hs as ->. simpl. now rewrite Nat.eqb_refl.
  - intros c Hc. apply findall_In in Hc. destruct Hc as [Hc _].
    destruct (Nat.eqb (eid c) (eid service)) eqn:He.
    + apply same_node in He; [|assumption|apply service_child]. subst c.
      rewrite service5_closed, get_remove_children. unfold pruned.
      now rewrite update_get.
    + unfold pruned. now rewrite update_get.
Qed.

Lemma second_ports :
  findall service5 wsdl_port
  = pruned port0
    :: filter (port_kept (get target_binding "name")) (map pruned ports).
Proof.
  rewrite ports_of_service5, Hports. simpl. now rewrite first_port_kept.
Qed.

Lemma second_binding :
  binding_for_port out (pruned port0) = Ok (Some binding').
Proof.
  destruct (resolve_qname_in_Ok _ _ _ _ Hbinding)
    as [_ [s [pre [local [Hq [Hs Hname]]]]]].
  unfold binding_for_port, resolve_qname_in, pruned.
  rewrite update_get, Hq, Hs.
  rewrite findall_out_binding. simpl.
  destruct binding'_sig as [_ [_ Ha]]. unfold get in *.
  now rewrite Ha, Hname, opt_eqb_refl.
Qed.

Lemma second_porttype :
  porttype_for_binding out binding' = Ok (Some porttype').
Proof.
  destruct (resolve_qname_in_Ok _ _ _ _ Hporttype)
    as [_ [s [pre [local [Hq [Hs Hname]]]]]].
  destruct binding'_sig as [_ [_ Ha]].
  unfold porttype_for_binding, resolve_qname_in. unfold get at 1. rewrite Ha.
  unfold get in Hq. rewrite Hq, Hs, findall_out_porttype. simpl.
  unfold pruned. rewrite update_get.
  change (get (prune_porttype_operations keep_ops target_porttype) "name")
    with (get target_porttype "name").
  now rewrite Hname, opt_eqb_refl.
Qed.

Lemma keep_test_pruned (c : Element) :
  is_tag wsdl_operation (pruned c)
  && negb (mem_str (get (pruned c) "name") keep_ops)
  = is_tag wsdl_operation c && negb (mem_str (get c "name") keep_ops).
Proof. unfold pruned. now rewrite is_tag_pruned, update_get. Qed.

Lemma porttype'_fixed :
  prune_porttype_operations keep_ops porttype' = porttype'.
Proof.
  unfold prune_porttype_operations, pruned.
  rewrite <- update_remove_children by apply keep_test_pruned.
  now rewrite remove_children_idempotent.
Qed.

Lemma out_child_by_eid (c h : Element) :
  In c (children out) -> In h (children out) ->
  Nat.eqb (eid c) (eid h) = true -> c = h.
Proof.
  intros Hc Hh He. apply Nat.eqb_eq in He.
  exact (NoDup_eid_inj (children out) c h distinct_top_out Hc Hh He).
Qed.

Lemma porttype'_child : In porttype' (children out).
Proof.
  apply (findall_In out porttype' wsdl_portType).
  rewrite findall_out_porttype. now left.
Qed.

Lemma binding'_child : In binding' (children out).
Proof.
  apply (findall_In out binding' wsdl_binding).
  rewrite findall_out_binding. now left.
Qed.

Lemma service5_child : In service5 (children out).
Proof. apply (findall_In out service5 wsdl_service). exact service_in_out. Qed.

Lemma second_root1 :
  modify porttype' (prune_porttype_operations keep_ops) out = out.
Proof.
  rewrite modify_per_child. apply per_child_id. intros c Hc.
  destruct (Nat.eqb (eid c) (eid porttype')) eqn:He; [|reflexivity].
  apply out_child_by_eid in He; [|assumption|exact porttype'_child].
  subst c. now rewrite porttype'_fixed.
Qed.

Lemma findall_root1_message :
  findall root1 wsdl_message = findall root wsdl_message.
Proof.
  unfold root1, modify, findall. simpl. rewrite filter_map_swap.
  assert (filter (fun a => is_tag wsdl_message
                             (if Nat.eqb (eid a) (eid target_porttype)
                              then prune_porttype_operations keep_ops a else a))
            (children root)
          = filter (is_tag wsdl_message) (children root)) as ->.
  { apply filter_ext. intro c. now destruct (Nat.eqb _ _). }
  rewrite <- (map_id (filter (is_tag wsdl_message) (children root))) at 2.
  apply map_ext_in. intros c Hc. apply filter_In in Hc. destruct Hc as [Hc Hm].
  rewrite (not_porttype c Hc); [reflexivity|].
  apply (is_tag_excl wsdl_message); [vm_compute; discriminate | exact Hm].
Qed.

Lemma findall_out_message :
  findall out wsdl_message = map pruned keep_messages.
Proof.
  rewrite findall_out.
  destruct (find_messages_Ok _ _ _ Hmessages) as [names [_ Hkm]].
  fold root1 in Hkm. rewrite findall_root1_message in Hkm.
  unfold findall in Hkm. rewrite filter_filter in Hkm.
  replace (map pruned keep_messages)
    with (map pruned
            (filter (fun x => is_tag wsdl_message x
                              && mem_str (get x "name") names)
               (children root)))
    by (now rewrite <- Hkm).
  rewrite map_filter_flat_map.
  apply flat_map_ext_in. intros c Hc.
  rewrite (final_child_message c Hc).
  destruct (is_tag wsdl_message c) eqn:Hm; [|reflexivity]. simpl.
  assert (mem_opt (get c "name") keep_names = mem_str (get c "name") names)
    as ->; [|reflexivity].
  apply Bool.eq_iff_eq_true. rewrite (keep_names_spec c Hc Hm).
  rewrite Hkm, filter_In, Hm. simpl. tauto.
Qed.

Lemma second_collect :
  collect_messages_from_porttype
    (prune_porttype_operations keep_ops porttype')
  = collect_messages_from_porttype
      (prune_porttype_operations keep_ops target_porttype).
Proof. rewrite porttype'_fixed. apply collect_messages_pruned. Qed.

Lemma second_find_messages :
  find_messages out
    (collect_messages_from_porttype
       (prune_porttype_operations keep_ops target_porttype))
  = Ok (map pruned keep_messages).
Proof.
  destruct (find_messages_Ok _ _ _ Hmessages) as [names [Hn Hkm]].
  fold root1 in Hkm.
  unfold find_messages. rewrite Hn. simpl. f_equal.
  rewrite findall_out_message.
  rewrite <- (filter_true (map pruned keep_messages)) at 2.
  apply filter_ext_in. intros c Hc. apply in_map_iff in Hc.
  destruct Hc as [m [<- Hm]]. unfold pruned. rewrite update_get.
  rewrite Hkm in Hm. apply filter_In in Hm. tauto.
Qed.

Lemma second_prune_messages :
  prune_unreferenced_messages (map pruned keep_messages) out = out.
Proof.
  unfold prune_unreferenced_messages, prune_messages.
  apply remove_children_id. intros c Hc.
  destruct (is_tag wsdl_message c) eqn:Hm; [|reflexivity]. simpl.
  assert (In c (findall out wsdl_message)) as Hin
    by (apply findall_In; split; [assumption | now apply String.eqb_eq]).
  assert (mem_opt (get c "name")
            (map (fun m => get m "name") (map pruned keep_messages)) = true)
    as ->; [|reflexivity].
  apply mem_opt_In. rewrite <- findall_out_message.
  now apply (in_map (fun m => get m "name")).
Qed.

Lemma second_seeds :
  collect_schema_qnames_from_messages QName nsmap (map pruned keep_messages)
  = Ok seed_qnames.
Proof.
  unfold collect_schema_qnames_from_messages in *.
  rewrite flat_map_map.
  rewrite (flat_map_ext _ message_refs message_refs_pruned).
  exact Hseeds.
Qed.

(** *** The schemas of the output *)

Hypothesis Hflat : types_at_top root.

Lemma findall_root2_types : findall root2 wsdl_types = findall root wsdl_types.
Proof.
  unfold root2, prune_messages. rewrite findall_remove_children.
  assert (findall root1 wsdl_types = findall root wsdl_types) as ->.
  { unfold root1, modify, findall. simpl. rewrite filter_map_swap.
    assert (filter (fun a => is_tag wsdl_types
                               (if Nat.eqb (eid a) (eid target_porttype)
                                then prune_porttype_operations keep_ops a
                                else a)) (children root)
            = filter (is_tag wsdl_types) (children root)) as ->.
    { apply filter_ext. intro c. now destruct (Nat.eqb _ _). }
    rewrite <- (map_id (filter (is_tag wsdl_types) (children root))) at 2.
    apply map_ext_in. intros c Hc. apply filter_In in Hc.
    destruct Hc as [Hc Hm]. rewrite (not_porttype c Hc); [reflexivity|].
    apply (is_tag_excl wsdl_types); [vm_compute; discriminate | exact Hm]. }
  rewrite <- (filter_true (findall root wsdl_types)) at 2.
  apply filter_ext_in. intros c Hc. apply findall_In in Hc.
  rewrite (tag_neq_false c wsdl_types wsdl_message (proj2 Hc) eq_refl).
  reflexivity.
Qed.

Lemma flat_root2 : types_at_top root2.
Proof.
  intros c2 d Hc2 Hd. unfold root2, prune_messages in Hc2.
  apply remove_children_In in Hc2. destruct Hc2 as [Hc2 _].
  unfold root1, modify in Hc2. simpl in Hc2. apply in_map_iff in Hc2.
  destruct Hc2 as [c [Hc2 Hc]]. apply (Hflat c d Hc).
  destruct (Nat.eqb (eid c) (eid target_porttype)); subst c2; [|assumption].
  now apply remove_children_descendants in Hd.
Qed.

Lemma final_descendants (c c' d : Element) :
  In c (children root) -> In c' (final c) -> In d (descendants c') ->
  tag d <> wsdl_types.
Proof.
  intros Hc Hc' Hd. unfold final_child in Hc'. fold pruned in Hc'.
  assert (forall x, In d (descendants (pruned x)) ->
                    (forall y, In y (descendants x) -> In y (descendants c)) ->
                    tag d <> wsdl_types) as Hp.
  { intros x Hx Hsub. apply update_descendants_tag in Hx.
    destruct Hx as [d0 [Hd0 ->]]. apply (Hflat c d0 Hc). auto. }
  destruct (is_tag wsdl_message c).
  { destruct (mem_opt _ _); [|destruct Hc'].
    destruct Hc' as [<-|[]]. apply (Hp c); auto. }
  destruct (is_tag wsdl_binding c).
  { destruct (Nat.eqb (eid c) (eid target_binding)) eqn:He; [|destruct Hc'].
    destruct Hc' as [<-|[]]. now apply Hbflat. }
  destruct (is_tag wsdl_portType c).
  { destruct (Nat.eqb _ _); [|destruct Hc'].
    destruct Hc' as [<-|[]].
    apply (Hp (prune_porttype_operations keep_ops c)); [assumption|].
    intros y Hy. now apply remove_children_descendants in Hy. }
  destruct (strip && _); [destruct Hc'|].
  destruct (Nat.eqb (eid c) (eid service)) eqn:He.
  - apply same_node in He; [|assumption|apply service_child]. subst c.
    destruct Hc' as [<-|[]]. rewrite service5_closed in Hd.
    apply remove_children_descendants in Hd. apply (Hp service); auto.
  - destruct Hc' as [<-|[]]. apply (Hp c); auto.
Qed.

Lemma flat_out : types_at_top out.
Proof.
  intros c' d Hc' Hd. rewrite out_closed in Hc'. unfold per_child in Hc'.
  simpl in Hc'. apply in_flat_map in Hc'. destruct Hc' as [c [Hc Hc']].
  exact (final_descendants c c' d Hc Hc' Hd).
Qed.

Lemma findall_out_types :
  findall out wsdl_types = map pruned (findall root wsdl_types).
Proof.
  rewrite findall_out. unfold findall. rewrite map_filter_flat_map.
  apply flat_map_ext_in. intros c Hc. unfold final_child. fold pruned.
  destruct binding'_sig as [_ [Htb _]]. destruct service5_sig as [_ Ht5].
  destruct (is_tag wsdl_types c) eqn:Hty.
  - rewrite (is_tag_excl wsdl_types wsdl_message c),
      (is_tag_excl wsdl_types wsdl_binding c),
      (is_tag_excl wsdl_types wsdl_portType c),
      (is_tag_excl wsdl_types wsp_Policy c),
      (is_tag_excl wsdl_types wsp_UsingPolicy c)
      by (auto; vm_compute; discriminate).
    rewrite andb_false_r.
    rewrite (not_service c Hc)
      by (apply (is_tag_excl wsdl_types); [vm_compute; discriminate|exact Hty]).
    now rewrite filter_is_tag_one, is_tag_pruned, Hty.
  - destruct (is_tag wsdl_message c).
    + destruct (mem_opt _ _); [|reflexivity].
      now rewrite filter_is_tag_one, is_tag_pruned, Hty.
    + destruct (is_tag wsdl_binding c).
      * destruct (Nat.eqb _ _); [|reflexivity].
        rewrite filter_is_tag_one. unfold is_tag. now rewrite Htb.
      * destruct (is_tag wsdl_portType c).
        -- destruct (Nat.eqb _ _); [|reflexivity].
           now rewrite filter_is_tag_one, is_tag_pruned, is_tag_ppo, Hty.
        -- destruct (strip && _); [reflexivity|].
           destruct (Nat.eqb _ _); rewrite filter_is_tag_one.
           ++ unfold is_tag. now rewrite Ht5.
           ++ now rewrite is_tag_pruned, Hty.
Qed.

(** A declaration of a schema of the input whose key is retained is
    still in its schema in the output. *)
Lemma declaration_left (t sch item : Element) (k : key) :
  In t (findall root wsdl_types) -> In sch (findall t xsd_schema) ->
  In item (children sch) -> declared_key sch item = Some k ->
  In k keep_keys ->
  In (pruned sch) (find_schemas out)
  /\ In (pruned item) (children (pruned sch)).
Proof.
  intros Ht Hs Hi Hd Hk. split.
  - apply (find_schemas_of_types out (pruned t)).
    + rewrite findall_out_types. now apply in_map.
    + unfold pruned. rewrite update_findall by tag_facts. now apply in_map.
  - assert (schema_drops keep_keys (get sch "targetNamespace") item = false)
      as Hdrop.
    { pose proof (declared_key_kept keep_keys sch item k Hd Hk Hi) as H.
      apply prune_schema_node_In in H. tauto. }
    unfold pruned. rewrite update_children.
    destruct (mem_nat (eid sch) handles); [|now apply in_map].
    apply filter_In. split; [now apply in_map|].
    now rewrite schema_drops_update, Hdrop.
Qed.

Lemma find_schemas_out : find_schemas out = map pruned (find_schemas root2).
Proof.
  rewrite (find_schemas_flat out flat_out).
  rewrite (find_schemas_flat root2 flat_root2).
  rewrite findall_out_types, findall_root2_types, flat_map_map, map_flat_map.
  apply flat_map_ext. intro t. unfold pruned.
  now rewrite update_findall by tag_facts.
Qed.

Lemma second_handles : map eid (find_schemas out) = handles.
Proof.
  rewrite find_schemas_out, map_map. unfold handles.
  apply map_ext. intro s. apply update_eid.
Qed.

Lemma second_reachable :
  reachable_schema_items QName nsmap out seed_qnames
  = Some (Ok (keep_keys, find_schemas out, build_index (find_schemas out))).
Proof.
  destruct (reachable_schema_items_Ok _ _ _ _ _ _ _ Hreach)
    as [_ [_ [w [Hw Hk]]]].
  unfold reachable_schema_items.
  rewrite (run_worklist_simulation QName nsmap
             (build_index (find_schemas root2))
             (build_index (find_schemas out)) seed_qnames w Hw).
  - now rewrite Hk.
  - intros k Hin. rewrite find_schemas_out. unfold pruned, handles.
    apply index_agree; [exact distinct_root2 | exact flat_root2|].
    now rewrite <- Hk.
Qed.

Lemma eid_out : eid out = eid root.
Proof. now rewrite out_closed. Qed.

Lemma port_test_pruned (c : Element) :
  is_tag wsdl_port (pruned c)
  && negb (port_kept (get target_binding "name") (pruned c))
  = is_tag wsdl_port c && negb (port_kept (get target_binding "name") c).
Proof.
  unfold port_kept, pruned. now rewrite is_tag_pruned, update_get.
Qed.

Lemma out_children_pruned (c' : Element) :
  In c' (children out) -> pruned c' = c'.
Proof.
  intro Hc'. rewrite out_closed in Hc'. unfold per_child in Hc'.
  simpl in Hc'. apply in_flat_map in Hc'. destruct Hc' as [c [Hc Hin]].
  unfold final_child in Hin. fold pruned in Hin.
  pose proof Hbpruned as Hb'.
  assert (pruned service5 = service5) as Hs5.
  { rewrite service5_closed. unfold pruned.
    rewrite update_remove_children by apply port_test_pruned.
    now rewrite update_idempotent. }
  destruct (is_tag wsdl_message c).
  { destruct (mem_opt _ _); [|destruct Hin].
    destruct Hin as [<-|[]]. apply update_idempotent. }
  destruct (is_tag wsdl_binding c).
  { destruct (Nat.eqb _ _); [|destruct Hin]. now destruct Hin as [<-|[]]. }
  destruct (is_tag wsdl_portType c).
  { destruct (Nat.eqb _ _); [|destruct Hin].
    destruct Hin as [<-|[]]. apply update_idempotent. }
  destruct (strip && _); [destruct Hin|].
  destruct (Nat.eqb _ _); destruct Hin as [<-|[]];
    [assumption | apply update_idempotent].
Qed.

Lemma second_prune_schemas :
  prune_schemas keep_keys (find_schemas out) out = out.
Proof.
  unfold prune_schemas. rewrite second_handles. fold pruned.
  unfold pruned. rewrite update_unfold. cbv zeta. fold pruned.
  rewrite eid_out.
  change (eid root) with (eid root2). unfold handles at 1.
  rewrite (root_is_no_schema root2 distinct_root2).
  assert (map pruned (children out) = children out) as ->.
  { rewrite <- (map_id (children out)) at 2. apply map_ext_in.
    exact out_children_pruned. }
  now destruct out.
Qed.

Lemma second_prune_bindings :
  prune_bindings out binding' keep_ops policy_tree = Completed out.
Proof.
  assert (In binding' (findall out wsdl_binding)) as Hin
    by (rewrite findall_out_binding; now left).
  pose proof (prune_bindings_closed out binding' binding' keep_ops policy_tree
                distinct_top_out Hin eq_refl) as H.
  rewrite Hfix in H. rewrite H. f_equal.
  apply per_child_id. intros c Hc. unfold bindings_stage.
  assert (strip = true ->
          is_tag wsp_Policy c || is_tag wsp_UsingPolicy c = false) as Hno.
  { intro Hst. apply orb_false_iff. split.
    - destruct (is_tag wsp_Policy c) eqn:Ht; [|reflexivity].
      assert (In c (findall out wsp_Policy)) as Hcp
        by (apply findall_In; split; [assumption | now apply String.eqb_eq]).
      rewrite (root_policy_stripped wsp_Policy Hst) in Hcp by now left.
      destruct Hcp.
    - destruct (is_tag wsp_UsingPolicy c) eqn:Ht; [|reflexivity].
      assert (In c (findall out wsp_UsingPolicy)) as Hcp
        by (apply findall_In; split; [assumption | now apply String.eqb_eq]).
      rewrite (root_policy_stripped wsp_UsingPolicy Hst) in Hcp by now right.
      destruct Hcp. }
  assert (strip && (is_tag wsp_Policy c || is_tag wsp_UsingPolicy c) = false)
    as ->.
  { destruct (is_tag wsp_Policy c || is_tag wsp_UsingPolicy c) eqn:Hpol;
      [|apply andb_false_r].
    rewrite andb_true_r. destruct (Bool.bool_dec strip true) as [Hst|Hst];
      [|now apply Bool.not_true_is_false].
    pose proof (Hno Hst) as Hf. congruence. }
  destruct (is_tag wsdl_binding c) eqn:Hb; [|reflexivity].
  assert (In c (findall out wsdl_binding)) as Hcb
    by (apply findall_In; split; [assumption | now apply String.eqb_eq]).
  rewrite findall_out_binding in Hcb. destruct Hcb as [<-|[]].
  now rewrite Nat.eqb_refl.
Qed.

Lemma second_deref : deref out service5 = service5.
Proof.
  exact (deref_In out service5 service5 distinct_top_out service5_child
           eq_refl).
Qed.

Lemma distinct_top_service5 : NoDup (top_ids service5).
Proof.
  apply NoDup_ids_top. rewrite service5_closed. eapply subseq_NoDup.
  - eapply subseq_trans; [apply ids_remove_children_subseq|].
    apply update_ids_subseq.
  - apply (NoDup_ids_child root); [exact distinct | apply service_child].
Qed.

Lemma service5_ports_kept (p : Element) :
  In p (findall service5 wsdl_port) ->
  port_kept (get binding' "name") p = true.
Proof.
  intro Hp. rewrite ports_of_service5 in Hp. apply filter_In in Hp.
  destruct binding'_sig as [_ [_ Ha]]. unfold get at 1. rewrite Ha. apply Hp.
Qed.

Lemma second_prune_ports :
  prune_service_ports service5 binding' = Completed service5.
Proof.
  destruct (ports_loop_no_abort (findall service5 wsdl_port)
              (get binding' "name") service5) as [s' Hs'].
  { intros p bq Hp Hb. apply service5_ports_kept, port_kept_spec in Hp.
    destruct Hp as [bq' [pre [local [Hg [Hsp _]]]]].
    rewrite Hg, (truthy_colon _ _ _ Hsp) in Hb. injection Hb as <-.
    apply has_colon_split. now exists pre, local. }
  unfold prune_service_ports. rewrite Hs'. f_equal.
  rewrite (prune_service_ports_Completed service5 binding' s'
             distinct_top_service5 Hs').
  apply remove_children_id. intros c Hc.
  destruct (is_tag wsdl_port c) eqn:Hp; [|reflexivity]. simpl.
  rewrite service5_ports_kept; [reflexivity|].
  apply findall_In. split; [assumption | now apply String.eqb_eq].
Qed.

Lemma second_store : store service5 out = out.
Proof.
  unfold store. rewrite modify_per_child. apply per_child_id. intros c Hc.
  destruct (Nat.eqb (eid c) (eid service5)) eqn:He; [|reflexivity].
  apply out_child_by_eid in He; [|assumption|exact service5_child].
  now subst c.
Qed.

Lemma second_unused_porttypes : prune_unused_porttypes porttype' out = out.
Proof.
  unfold prune_unused_porttypes. apply remove_children_id. intros c Hc.
  destruct (is_tag wsdl_portType c) eqn:Hp; [|reflexivity]. simpl.
  assert (In c (findall out wsdl_portType)) as Hin
    by (apply findall_In; split; [assumption | now apply String.eqb_eq]).
  rewrite findall_out_porttype in Hin. destruct Hin as [<-|[]].
  now rewrite Nat.eqb_refl.
Qed.

(** The run on the output changes nothing. *)
Lemma second_run :
  prune_wsdl QName nsmap out service_name keep_ops policy_tree
  = Some (Completed out).
Proof.
  unfold prune_wsdl.
  rewrite second_find_service, second_ports, second_binding, second_porttype.
  rewrite second_root1, second_collect, second_find_messages,
    second_prune_messages, second_seeds, second_reachable,
    second_prune_schemas, second_prune_bindings, second_deref,
    second_prune_ports, second_store, second_unused_porttypes.
  reflexivity.
Qed.

End Stages.

(** ** Claims on the reachability resolver *)

Section Resolver_claims.

Variable QName : option string -> string -> option key.
Variable nsmap : list (string * string).

(** C2, amended.  The worklist loop ends for every seed set and every
    index, cyclic or not.  When it returns, the worklist is empty, every
    key is in the retained set once, and the trace is a sequence of
    blocks in which a key not marked before is marked and then the
    references under it are pushed: a key is marked before it is expanded
    and is expanded only then.  (A marked key can be pushed again; it is
    dropped when it is popped.) *)
Theorem C2_worklist_terminates_and_marks_once
  (seeds : list key) (by_name : list (index_key * Element)) :
  exists r,
    run_worklist QName nsmap seeds by_name = Some r /\
    forall w, r = Ok w ->
      queue w = [] /\
      NoDup (keep w) /\
      marks (trace w) = keep w /\
      well_logged (trace w) /\
      (forall later earlier src k,
         trace w = later ++ Pushed src k :: earlier ->
         exists ps tr0, earlier = map (Pushed src) ps ++ Marked src :: tr0).
Proof.
  destruct (run_worklist_terminates QName nsmap by_name seeds) as [r Hr].
  exists r. split; [assumption|]. intros w ->.
  destruct (run_logged _ _ _ _ _ Hr) as [Hwl Hm].
  destruct (run_nothing_lost _ _ _ _ _ Hr) as [_ Hq].
  repeat split; try assumption.
  - rewrite <- Hm. now apply well_logged_NoDup_marks.
  - now apply well_logged_push_in_block.
Qed.

(** Each iteration that pops a key without declaring node and not yet
    retained goes on to the next one with the key retained and nothing
    pushed. *)
Lemma bfs_leaf_step (by_name : list (index_key * Element)) (k : key)
  (fuel : nat) (rest kp : list key) (tr : list event) :
  by_name_get by_name k = [] -> mem_key k kp = false ->
  bfs QName nsmap (S fuel) by_name (Worklist (k :: rest) kp tr) =
  bfs QName nsmap fuel by_name (Worklist rest (k :: kp) (Marked k :: tr)).
Proof. intros Hn Hk. simpl. now rewrite Hk, Hn. Qed.

Lemma bfs_leaves_Ok (by_name : list (index_key * Element)) (fuel : nat)
  (w : worklist) :
  (forall k, In k (queue w) -> by_name_get by_name k = []) ->
  List.length (queue w) < fuel ->
  exists w', bfs QName nsmap fuel by_name w = Some (Ok w').
Proof.
  revert w. induction fuel as [|fuel IH]; intros [q kp tr] Hl Hf; [lia|].
  simpl in *. destruct q as [|k rest]; [eexists; reflexivity|].
  destruct (mem_key k kp).
  - apply IH; simpl; [intros; apply Hl; now right | simpl in Hf; lia].
  - rewrite (Hl k (or_introl eq_refl)). simpl.
    apply IH; simpl; [intros; apply Hl; now right | simpl in Hf; lia].
Qed.

(** C8.  A key with no declaring node in the index is retained, nothing
    is expanded from it and the iteration that takes it raises nothing;
    a run whose seeds all are such keys returns. *)
Theorem C8_undeclared_key_is_retained_leaf
  (by_name : list (index_key * Element)) (k : key) :
  by_name_get by_name k = [] ->
  (forall fuel rest kp tr,
     mem_key k kp = false ->
     bfs QName nsmap (S fuel) by_name (Worklist (k :: rest) kp tr) =
     bfs QName nsmap fuel by_name (Worklist rest (k :: kp) (Marked k :: tr)))
  /\ (forall seeds w,
        run_worklist QName nsmap seeds by_name = Some (Ok w) ->
        In k seeds \/ (exists src, In (Pushed src k) (trace w)) ->
        In k (keep w) /\ forall x, ~ In (Pushed k x) (trace w))
  /\ (forall seeds,
        (forall s, In s seeds -> by_name_get by_name s = []) ->
        exists w, run_worklist QName nsmap seeds by_name = Some (Ok w)).
Proof.
  intro Hn. split; [|split].
  - intros. now apply bfs_leaf_step.
  - intros seeds w Hr Hk. split.
    + destruct (run_nothing_lost _ _ _ _ _ Hr) as [Hl Hq].
      destruct (Hl k Hk) as [Hin|Hin]; [|assumption].
      rewrite Hq in Hin. destruct Hin.
    + intros x Hin. now apply (run_pushes_have_nodes _ _ _ _ _ Hr) in Hin.
  - intros seeds Hs. apply bfs_leaves_Ok; simpl.
    + intros s Hin. apply Hs. now apply in_rev.
    + unfold worklist_bound. rewrite length_rev. lia.
Qed.


End Resolver_claims.

(** ** Lookups and policy attachment *)

Lemma find_None_iff {A} (p : A -> bool) (l : list A) :
  List.find p l = None <-> forall x, In x l -> p x = false.
Proof.
  split.
  - intros H x Hin. now apply (find_none p l H).
  - induction l as [|y r IH]; simpl; intro H; [reflexivity|].
    rewrite (H y (or_introl eq_refl)). apply IH. intros; apply H; now right.
Qed.

Lemma find_service_Raise (root : Element) (service_name : string) :
  (forall svc, In svc (findall root wsdl_service) ->
               get svc "name" <> Some service_name) ->
  find_service root service_name = Raise ValueError.
Proof.
  intro H. unfold find_service.
  assert (List.find (fun svc => opt_eqb (get svc "name") (Some service_name))
            (findall root wsdl_service) = None) as ->; [|reflexivity].
  apply find_None_iff. intros svc Hin.
  destruct (opt_eqb (get svc "name") (Some service_name)) eqn:He;
    [|reflexivity].
  apply opt_eqb_eq in He. now apply H in Hin.
Qed.

Section Lookup_claims.

Variable QName : option string -> string -> option key.
Variable nsmap : list (string * string).

(** C5.  When the service is not found, has no port, or the binding of
    its first port or the port type of that binding does not resolve,
    the run raises and the tree it leaves is the input tree. *)
Theorem C5_lookup_failure_aborts_before_mutation
  (root : Element) (service_name : string) (keep_ops : list string)
  (policy_tree : option Element) :
  lookup_fails root service_name ->
  exists e,
    prune_wsdl QName nsmap root service_name keep_ops policy_tree
    = Some (Aborted e root).
Proof.
  intros [Hs|service Hs Hp|service port0 ports Hs Hp Hb
          |service port0 binding ports Hs Hp Hb Ht]; unfold prune_wsdl.
  - rewrite (find_service_Raise _ _ Hs). eexists; reflexivity.
  - rewrite Hs, Hp. eexists; reflexivity.
  - rewrite Hs, Hp.
    destruct (binding_for_port root port0) as [[b|]|e] eqn:He;
      [now elim (Hb b) | eexists; reflexivity | eexists; reflexivity].
  - rewrite Hs, Hp, Hb.
    destruct (porttype_for_binding root binding) as [[pt|]|e] eqn:He;
      [now elim (Ht pt) | eexists; reflexivity | eexists; reflexivity].
Qed.

End Lookup_claims.

(** [attach_policy_to_binding] raises exactly when the root of the
    fragment has no [UsingPolicy] child or no [Policy] child; with at
    least one of each it splices the first of each. *)
Lemma attach_policy_to_binding_spec
  (binding policy_root : Element) :
  (findall policy_root wsp_UsingPolicy = []
   \/ findall policy_root wsp_Policy = [] ->
   exists b', attach_policy_to_binding binding policy_root
              = Aborted IndexError b')
  /\ (forall u us p ps,
        findall policy_root wsp_UsingPolicy = u :: us ->
        findall policy_root wsp_Policy = p :: ps ->
        attach_policy_to_binding binding policy_root =
        Completed
          (insert 2 p
             (remove_first wsp_Policy
                (insert 1 u (remove_first wsp_UsingPolicy binding))))).
Proof.
  unfold attach_policy_to_binding. split.
  - intros [H|H].
    + rewrite H. eexists; reflexivity.
    + destruct (findall policy_root wsp_UsingPolicy) as [|u us];
        [eexists; reflexivity|].
      rewrite H. eexists; reflexivity.
  - intros u us p ps -> ->. reflexivity.
Qed.

(** ** Claims on the whole run *)

Section Run_claims.

Variable QName : option string -> string -> option key.
Variable nsmap : list (string * string).

Lemma port_kept_update (handles : list nat) (keep_keys : list key)
  (target_name : option string) (p : Element) :
  port_kept target_name (update_nodes handles (prune_schema_node keep_keys) p)
  = port_kept target_name p.
Proof. unfold port_kept. now rewrite update_get. Qed.

Lemma eids_filter_update (handles : list nat) (keep_keys : list key)
  (q : Element -> bool) (l : list Element) :
  (forall x, q (update_nodes handles (prune_schema_node keep_keys) x) = q x) ->
  map eid (filter q (map (update_nodes handles (prune_schema_node keep_keys)) l))
  = map eid (filter q l).
Proof.
  intro Hq. induction l as [|x r IH]; simpl; [reflexivity|].
  rewrite Hq. destruct (q x); simpl; now rewrite ?update_eid, IH.
Qed.

(** C3, amended.  After a run that completes, exactly one port type and
    exactly one binding are left under the root, the binding being the
    target binding.  The service the run works on is left, and the
    ports left in it are exactly its ports that name the target binding
    by the local part of their [binding] attribute, in their order and
    with their attributes: the first port is always among them, and
    when several ports name the binding all of them are left. *)
Theorem C3_one_interface_one_binding_ports_of_the_binding
  (root : Element) (service_name : string) (keep_ops : list string)
  (policy_tree : option Element)
  (service port0 target_binding : Element) (ports : list Element)
  (out : Element) :
  NoDup (ids root) ->
  find_service root service_name = Ok service ->
  findall service wsdl_port = port0 :: ports ->
  binding_for_port root port0 = Ok (Some target_binding) ->
  prune_wsdl QName nsmap root service_name keep_ops policy_tree
  = Some (Completed out) ->
  exists pt b svc,
    findall out wsdl_portType = [pt]
    /\ findall out wsdl_binding = [b]
    /\ eid b = eid target_binding
    /\ get b "name" = get target_binding "name"
    /\ In svc (findall out wsdl_service)
    /\ eid svc = eid service
    /\ get svc "name" = Some service_name
    /\ map eid (findall svc wsdl_port)
       = eid port0 :: map eid (filter (port_kept (get b "name")) ports)
    /\ (forall p,
          port_kept (get b "name") p = true
          <-> exists bq pre local,
                get p "binding" = Some bq
                /\ split_colon bq = Some (pre, local)
                /\ get b "name" = Some local)
    /\ (forall p', In p' (findall svc wsdl_port) ->
          exists p, In p (port0 :: ports) /\ eid p' = eid p
                    /\ attrib p' = attrib p
                    /\ port_kept (get b "name") p = true).
Proof.
  intros Hn Hs0 Hp0 Hb0 Hrun. apply prune_wsdl_Completed in Hrun.
  destruct Hrun as [service' port0' tb tp ports' km seeds kk root4 service5
                      Hs Hp Hb Ht root1 Hm root2 Hq Hr H4 H5 Hout].
  assert (service' = service) as -> by congruence.
  assert (port0' = port0 /\ ports' = ports) as [-> ->]
    by (split; congruence).
  assert (tb = target_binding) as -> by congruence.
  destruct (root4_closed root keep_ops policy_tree port0 target_binding tp km
              kk root4 Hn Hb Ht H4) as [b' [strip [Hres _]]].
  destruct (run_summary QName nsmap root service_name keep_ops policy_tree
              service port0 target_binding tp ports km seeds kk root4
              service5 out Hn Hs Hp Hb Ht Hm H4 H5 Hout b' strip Hres Hq Hr)
    as [_ [Hpt [Hbd [Hsv [Hs5 [Hps [_ [Hattr _]]]]]]]].
  assert (get b' "name" = get target_binding "name") as Hname
    by (unfold get; now rewrite Hattr).
  assert (port_kept (get target_binding "name") port0 = true) as Hfirst.
  { apply port_kept_spec. unfold binding_for_port in Hb.
    apply resolve_qname_in_Ok in Hb.
    destruct Hb as [_ [bq [pre [local [Hg [Hsp Hl]]]]]].
    now exists bq, pre, local. }
  eexists. exists b', service5.
  split; [exact Hpt|]. split; [exact Hbd|]. split.
  { destruct (target_binding_result_sig _ _ _ _ _ Hres) as [He _].
    now rewrite update_eid in He. }
  split; [exact Hname|]. split; [exact Hsv|]. split.
  { rewrite Hs5. simpl. apply update_eid. }
  split.
  { rewrite Hs5, get_remove_children, update_get.
    now apply find_service_Ok in Hs. }
  rewrite Hname. split; [|split].
  - rewrite Hps, Hp, eids_filter_update by (intro; apply port_kept_update).
    simpl. now rewrite Hfirst.
  - intro p. apply port_kept_spec.
  - intros p' Hin. rewrite Hps, Hp in Hin. apply filter_In in Hin.
    destruct Hin as [Hin Hk]. apply in_map_iff in Hin.
    destruct Hin as [p [<- Hp']]. exists p. split; [assumption|].
    rewrite port_kept_update in Hk.
    split; [apply update_eid|]. split; [apply (update_sig _ _ p)|exact Hk].
Qed.

(** A run that reaches [prune_bindings] ends as that stage and
    [prune_service_ports] end. *)
Lemma prune_wsdl_from_bindings
  (root : Element) (service_name : string) (keep_ops : list string)
  (policy_tree : option Element)
  (service target_binding target_porttype root3 : Element) :
  reaches_bindings QName nsmap root service_name keep_ops service
    target_binding target_porttype root3 ->
  prune_wsdl QName nsmap root service_name keep_ops policy_tree
  = match prune_bindings root3 target_binding keep_ops policy_tree with
    | Aborted e root4 => Some (Aborted e root4)
    | Completed root4 =>
        match prune_service_ports (deref root4 service) target_binding with
        | Aborted e service5 => Some (Aborted e (store service5 root4))
        | Completed service5 =>
            Some (Completed
                    (clean_unused_namespaces
                       (prune_unused_porttypes target_porttype
                          (store service5 root4))))
        end
    end.
Proof.
  intros [port0 ports km seeds kk Hs Hp Hb Ht root1 Hm root2 Hq Hr ->].
  unfold prune_wsdl. rewrite Hs, Hp, Hb, Ht. cbv zeta.
  fold root1. rewrite Hm. unfold prune_unreferenced_messages.
  fold root2. rewrite Hq, Hr. reflexivity.
Qed.

(** C7, amended.  On a run that reaches [prune_bindings] with a target
    binding that has a [soapbind:binding] child, so that the policy step
    is entered: when the root of the fragment has no [UsingPolicy]
    child, or no [Policy] child, the run raises [IndexError] in
    [attach_policy_to_binding], and the tree it leaves is the tree of
    the first three stages with the bindings before the target removed,
    the operations of the target pruned, the policy children of the
    root removed and the binding as far as the splice got.  When the
    fragment has at least one of each, however many, [prune_bindings]
    completes with the first of each spliced in, and the run ends as
    [prune_service_ports] ends. *)
Theorem C7_run_raises_in_the_policy_step_iff_a_node_is_missing
  (root : Element) (service_name : string) (keep_ops : list string)
  (policy_root service target_binding target_porttype root3 : Element) :
  NoDup (ids root) ->
  reaches_bindings QName nsmap root service_name keep_ops service
    target_binding target_porttype root3 ->
  findall target_binding soapbind_binding <> [] ->
  exists bs1 b bs2,
    findall root3 wsdl_binding = bs1 ++ b :: bs2
    /\ eid b = eid target_binding
    /\ let b1 := prune_binding_operations keep_ops b in
       let stripped :=
         prune_existing_policy (store b1 (remove_nodes bs1 root3)) in
       (findall policy_root wsp_UsingPolicy = [] ->
        prune_wsdl QName nsmap root service_name keep_ops (Some policy_root)
        = Some (Aborted IndexError
                  (store (remove_first wsp_UsingPolicy b1) stripped)))
       /\ (forall u us,
             findall policy_root wsp_UsingPolicy = u :: us ->
             findall policy_root wsp_Policy = [] ->
             prune_wsdl QName nsmap root service_name keep_ops
               (Some policy_root)
             = Some (Aborted IndexError
                       (store
                          (remove_first wsp_Policy
                             (insert 1 u (remove_first wsp_UsingPolicy b1)))
                          stripped)))
       /\ (forall u us p ps,
             findall policy_root wsp_UsingPolicy = u :: us ->
             findall policy_root wsp_Policy = p :: ps ->
             let root4 :=
               remove_nodes bs2
                 (store
                    (insert 2 p
                       (remove_first wsp_Policy
                          (insert 1 u (remove_first wsp_UsingPolicy b1))))
                    stripped) in
             prune_bindings root3 target_binding keep_ops (Some policy_root)
             = Completed root4
             /\ prune_wsdl QName nsmap root service_name keep_ops
                  (Some policy_root)
                = match prune_service_ports (deref root4 service)
                          target_binding with
                  | Aborted e service5 =>
                      Some (Aborted e (store service5 root4))
                  | Completed service5 =>
                      Some (Completed
                              (clean_unused_namespaces
                                 (prune_unused_porttypes target_porttype
                                    (store service5 root4))))
                  end).
Proof.
  intros Hn Hreach Hsoap.
  pose proof (prune_wsdl_from_bindings root service_name keep_ops
                (Some policy_root) service target_binding target_porttype
                root3 Hreach) as Hrun.
  destruct Hreach as [port0 ports km seeds kk Hs Hp Hb Ht root1 Hm root2 Hq
                        Hr Hroot3].
  pose proof (distinct_top_root3 root keep_ops target_porttype km kk Hn)
    as Htop.
  pose proof (binding_in_root3 root keep_ops port0 target_binding
                target_porttype km kk Hn Hb Ht) as Hin.
  fold root1 root2 in Htop, Hin. rewrite <- Hroot3 in Htop, Hin.
  destruct (in_split _ _ Hin) as [bs1 [bs2 Hbs]].
  eexists bs1, _, bs2. split; [exact Hbs|]. split; [apply update_eid|].
  pose proof (prune_bindings_at_target root3 _ target_binding bs1 bs2
                keep_ops (Some policy_root) Htop Hbs (update_eid _ _ _))
    as H4.
  cbv zeta in H4.
  rewrite (is_soap12_binding_pruned _ _ _ _ Hsoap) in H4.
  cbv zeta. unfold attach_policy_to_binding in H4. split; [|split].
  - intro Hu. rewrite Hu in H4. now rewrite Hrun, H4.
  - intros u us Hu Hp0. rewrite Hu, Hp0 in H4. now rewrite Hrun, H4.
  - intros u us p ps Hu Hp0. rewrite Hu, Hp0 in H4. split; [exact H4|].
    now rewrite Hrun, H4.
Qed.

(** C1, amended.  After a run that completes: every element or type
    reference of a part of a message that is left resolves to a key of
    the retained set, and every declaration under that key in a schema
    of a [wsdl:types] child of the root is still in its schema; every
    message of the input that the first input, the first output or a
    fault of an operation left in the interface names is left; every
    operation of the interface that an operation left in the binding
    names is left; and every port left in the target service names the
    binding that is left. *)
Theorem C1_references_of_the_target_are_closed
  (root : Element) (service_name : string) (keep_ops : list string)
  (policy_tree : option Element) (out : Element) :
  NoDup (ids root) ->
  prune_wsdl QName nsmap root service_name keep_ops policy_tree
  = Some (Completed out) ->
  exists keep_keys b pt svc,
    retained_by_run QName nsmap root service_name keep_ops keep_keys
    /\ findall out wsdl_binding = [b]
    /\ findall out wsdl_portType = [pt]
    /\ In svc (findall out wsdl_service)
    /\ get svc "name" = Some service_name
    /\ (forall msg v,
          In msg (findall out wsdl_message) -> In v (message_refs msg) ->
          exists k, resolve_qname QName nsmap v = Ok k /\ In k keep_keys)
    /\ parts_name_surviving_declarations QName nsmap top_schemas root out
    /\ operations_name_surviving_messages collected_message_refs root out
    /\ (forall bop tp op,
          In bop (findall b wsdl_operation) ->
          In tp (findall root wsdl_portType) -> eid tp = eid pt ->
          In op (findall tp wsdl_operation) ->
          get op "name" = get bop "name" ->
          exists op', In op' (findall pt wsdl_operation) /\ eid op' = eid op)
    /\ (forall p, In p (findall svc wsdl_port) ->
          exists bq pre local,
            get p "binding" = Some bq /\ split_colon bq = Some (pre, local)
            /\ get b "name" = Some local).
Proof.
  intros Hn Hrun. apply prune_wsdl_Completed in Hrun.
  destruct Hrun as [service port0 tb tp ports km seeds kk root4 service5
                      Hs Hp Hb Ht root1 Hm root2 Hq Hr H4 H5 Hout].
  destruct (root4_closed root keep_ops policy_tree port0 tb tp km kk root4
              Hn Hb Ht H4) as [b' [strip [Hres _]]].
  destruct (run_summary QName nsmap root service_name keep_ops policy_tree
              service port0 tb tp ports km seeds kk root4 service5 out
              Hn Hs Hp Hb Ht Hm H4 H5 Hout b' strip Hres Hq Hr)
    as [_ [Hpt [Hbd [Hsv [Hs5 [Hps [_ [Hattr [_ [_ [Hparts [Hops Hbops]]]]]]]]]]]].
  exists kk, b'. eexists. exists service5.
  split; [|split; [exact Hbd|split; [exact Hpt|split; [exact Hsv|split;
    [|split; [exact Hparts|split; [|split; [|split]]]]]]]].
  - exists service, port0, ports, tb, tp, km, seeds. repeat split; assumption.
  - rewrite Hs5, get_remove_children, update_get.
    now apply find_service_Ok in Hs.
  - intros msg v k sch item Hmsg Hv Hk Hsch Hitem Hd.
    destruct (Hparts msg v Hmsg Hv) as [k' [Hk' Hin]].
    assert (k' = k) as -> by congruence.
    unfold top_schemas in Hsch. apply in_flat_map in Hsch.
    destruct Hsch as [t [Ht' Hsch]].
    destruct (declaration_left root service_name keep_ops policy_tree service
                port0 tb tp km kk root4 service5 out Hn Hs Hb Ht H4 H5 Hout
                b' strip Hres t sch item k Ht' Hsch Hitem Hd Hin)
      as [H1 H2].
    eexists. eexists. split; [exact H1|]. split; [apply update_eid|].
    split; [exact H2 | apply update_eid].
  - intros pt op q pre local m Hpt' Hop Hq' Hsp Hm' Hname.
    rewrite Hpt in Hpt'. destruct Hpt' as [<-|[]].
    destruct (Hops q) as [local' [Hl Hleft]].
    { unfold collect_messages_from_porttype. apply in_flat_map.
      exists op. split; [assumption | exact Hq']. }
    unfold local_of in Hl. rewrite Hsp in Hl. injection Hl as <-.
    eexists. split; [apply (Hleft m Hm' Hname) | apply update_eid].
  - intros bop tp' op Hbop Htp' He Hop Hname.
    assert (tp' = tp) as ->.
    { apply resolve_qname_in_Ok in Ht. destruct Ht as [Htin _].
      apply findall_In in Htin, Htp'.
      apply (NoDup_eid_inj (children root)); try tauto.
      - now apply NoDup_ids_top.
      - rewrite He, update_eid. reflexivity. }
    eexists. split; [apply (Hbops bop op Hbop Hop Hname) | apply update_eid].
  - intros p Hin. rewrite Hps in Hin.
    apply filter_In in Hin. destruct Hin as [_ Hk].
    apply port_kept_spec in Hk.
    destruct Hk as [bq [pre [local [H1 [H2 H3]]]]].
    exists bq, pre, local. repeat split; auto.
    unfold get in *. now rewrite Hattr.
Qed.

(** C9, amended.  After a run that completes, the operations left in
    the binding are those of the target binding of the input whose name
    is in the keep set, and likewise for the interface; the two name
    sets agree whenever the input binding and interface offer the same
    kept names. *)
Theorem C9_surviving_operations_are_the_kept_ones
  (root : Element) (service_name : string) (keep_ops : list string)
  (policy_tree : option Element) (out : Element)
  (service port0 target_binding target_porttype : Element)
  (ports : list Element) :
  NoDup (ids root) ->
  find_service root service_name = Ok service ->
  findall service wsdl_port = port0 :: ports ->
  binding_for_port root port0 = Ok (Some target_binding) ->
  porttype_for_binding root target_binding = Ok (Some target_porttype) ->
  prune_wsdl QName nsmap root service_name keep_ops policy_tree
  = Some (Completed out) ->
  exists b pt,
    findall out wsdl_binding = [b]
    /\ findall out wsdl_portType = [pt]
    /\ op_names b
       = filter (fun n => mem_str n keep_ops) (op_names target_binding)
    /\ op_names pt
       = filter (fun n => mem_str n keep_ops) (op_names target_porttype)
    /\ ((forall n, In n keep_ops ->
           (In (Some n) (op_names target_binding)
            <-> In (Some n) (op_names target_porttype))) ->
        forall n, In n (op_names b) <-> In n (op_names pt)).
Proof.
  intros Hn Hs0 Hp0 Hb0 Ht0 Hrun. apply prune_wsdl_Completed in Hrun.
  destruct Hrun as [service' port0' tb tp ports' km seeds kk root4 service5
                      Hs Hp Hb Ht root1 Hm root2 Hq Hr H4 H5 Hout].
  assert (service' = service) as -> by congruence.
  assert (port0' = port0) as -> by congruence.
  assert (tb = target_binding) as -> by congruence.
  assert (tp = target_porttype) as -> by congruence.
  destruct (root4_closed root keep_ops policy_tree port0 target_binding
              target_porttype km kk root4 Hn Hb Ht H4)
    as [b' [strip [Hres _]]].
  destruct (run_summary QName nsmap root service_name keep_ops policy_tree
              service port0 target_binding target_porttype ports' km seeds kk
              root4 service5 out Hn Hs Hp Hb Ht Hm H4 H5 Hout b' strip Hres
              Hq Hr)
    as [_ [Hpt [Hbd [_ [_ [_ [_ [_ [Hob [Hop _]]]]]]]]]].
  eexists b', _.
  split; [exact Hbd|]. split; [exact Hpt|]. split; [exact Hob|].
  split; [exact Hop|].
  intros Hsame n. rewrite Hob, Hop, !filter_In.
  split; intros [Hin Hk]; (split; [|exact Hk]);
    apply mem_str_In in Hk; destruct Hk as [m [-> Hm']];
    now apply (Hsame m Hm').
Qed.

(** With a policy fragment supplied, [prune_bindings] splices it
    exactly when the target binding, its operations pruned, passes
    [is_soap12_binding]; when it does not, the outcome is the one of a
    run without a fragment: only the other bindings and the unkept
    operations go. *)
Lemma prune_bindings_follows_is_soap12_binding
  (root b target : Element) (keep_ops : list string) (policy_root : Element) :
  NoDup (top_ids root) ->
  In b (findall root wsdl_binding) -> eid b = eid target ->
  let b1 := prune_binding_operations keep_ops b in
  is_soap12_binding b1 = is_soap12_binding b
  /\ (is_soap12_binding b = false ->
      prune_bindings root target keep_ops (Some policy_root)
      = Completed (per_child (bindings_stage (eid target) b1 false) root)
      /\ prune_bindings root target keep_ops (Some policy_root)
         = prune_bindings root target keep_ops None)
  /\ (is_soap12_binding b = true ->
      match attach_policy_to_binding b1 policy_root with
      | Completed b2 =>
          prune_bindings root target keep_ops (Some policy_root)
          = Completed (per_child (bindings_stage (eid target) b2 true) root)
      | Aborted e _ =>
          exists t, prune_bindings root target keep_ops (Some policy_root)
                    = Aborted e t
      end).
Proof.
  intros Hn Hb He b1.
  assert (is_soap12_binding b1 = is_soap12_binding b) as Hsoap.
  { unfold is_soap12_binding, find, b1, prune_binding_operations.
    rewrite findall_remove_children.
    assert (filter (fun c => negb (is_tag wsdl_operation c
                                   && negb (mem_str (get c "name") keep_ops)))
              (findall b soapbind_binding) = findall b soapbind_binding) as ->;
      [|reflexivity].
    rewrite <- (filter_true (findall b soapbind_binding)) at 2.
    apply filter_ext_in. intros c Hc. apply findall_In in Hc.
    unfold is_tag. rewrite (proj2 Hc). reflexivity. }
  pose proof (prune_bindings_closed root b target keep_ops (Some policy_root)
                Hn Hb He) as Hp.
  pose proof (prune_bindings_closed root b target keep_ops None Hn Hb He)
    as Hnone.
  unfold target_binding_result in Hp, Hnone. fold b1 in Hp, Hnone.
  rewrite Hsoap in Hp.
  split; [exact Hsoap|]. split; intro Hs; rewrite Hs in Hp.
  - split; [exact Hp | congruence].
  - destruct (attach_policy_to_binding b1 policy_root); exact Hp.
Qed.

(** C4, amended.  On a document whose [wsdl:types] elements are all
    children of the root, with the splice in place when a fragment is
    spliced (the first child kept in the target binding is no policy
    node, and the two nodes of the fragment are nodes of their own
    without a [wsdl:types] element): when the run completes with the
    tree [out], the run on [out] with the same service name, the same
    operations to keep and the same fragment completes as well, and its
    tree is [out] again.  The fragment of the second run is the same
    file read again: its nodes carry the identities they had in the
    first run.  Without a fragment, and with a binding that has no
    [soapbind:binding] child, the condition on the splice holds of
    itself. *)
Theorem C4_second_run_changes_nothing
  (root : Element) (service_name : string) (keep_ops : list string)
  (policy_tree : option Element)
  (service port0 target_binding : Element) (ports : list Element)
  (out : Element) :
  NoDup (ids root) ->
  types_at_top root ->
  find_service root service_name = Ok service ->
  findall service wsdl_port = port0 :: ports ->
  binding_for_port root port0 = Ok (Some target_binding) ->
  splice_in_place keep_ops policy_tree root target_binding ->
  prune_wsdl QName nsmap root service_name keep_ops policy_tree
  = Some (Completed out) ->
  prune_wsdl QName nsmap out service_name keep_ops policy_tree
  = Some (Completed out).
Proof.
  intros Hn Hflat Hs0 Hp0 Hb0 Hsplice Hrun.
  apply prune_wsdl_Completed in Hrun.
  destruct Hrun as [service' port0' tb tp ports' km seeds kk root4 service5
                      Hs Hp Hb Ht root1 Hm root2 Hq Hr H4 H5 Hout].
  assert (service' = service) as -> by congruence.
  assert (port0' = port0) as -> by congruence.
  assert (tb = target_binding) as -> by congruence.
  destruct (root4_closed root keep_ops policy_tree port0 target_binding tp km
              kk root4 Hn Hb Ht H4) as [b' [strip [Hres _]]].
  assert (target_binding_result keep_ops policy_tree b' = inl (b', strip))
    as Hfix by (eapply binding'_again; eassumption).
  assert (forall d, In d (descendants b') -> tag d <> wsdl_types) as Hbflat
    by (intro d; eapply binding'_flat; eassumption).
  assert (update_nodes (map eid (find_schemas root2)) (prune_schema_node kk) b'
          = b') as Hbpruned
    by (eapply binding'_pruned; eassumption).
  exact (second_run QName nsmap root service_name keep_ops policy_tree
           service port0 target_binding tp ports' km seeds kk root4 service5
           out Hn Hs Hp Hb Ht Hm H4 H5 Hout b' strip Hres Hq Hr Hfix Hbflat
           Hbpruned Hflat).
Qed.

End Run_claims.

(** ** Further properties: names and lookups *)

(** [s.split(':', 1)] cuts at the first colon. *)
Lemma split_colon_app (pre local : string) :
  has_colon pre = false ->
  split_colon (pre ++ ":" ++ local)%string = Some (pre, local).
Proof.
  unfold has_colon. induction pre as [|c r IH]; simpl; intro H.
  - reflexivity.
  - destruct (Ascii.eqb c ":"); [discriminate|].
    destruct (split_colon r) as [[p l]|]; [discriminate|].
    simpl in IH. now rewrite (IH eq_refl).
Qed.

Lemma split_colon_inv (s pre local : string) :
  split_colon s = Some (pre, local) ->
  s = (pre ++ ":" ++ local)%string /\ has_colon pre = false.
Proof.
  unfold has_colon. revert pre. induction s as [|c r IH]; simpl; intros pre H.
  - discriminate.
  - destruct (Ascii.eqb c ":") eqn:Hc.
    + injection H as <- <-. apply Ascii.eqb_eq in Hc. now subst c.
    + destruct (split_colon r) as [[p l]|]; [|discriminate].
      injection H as <- <-. destruct (IH p eq_refl) as [-> Hp].
      simpl. rewrite Hc.
      destruct (split_colon p) as [[p' l']|]; [discriminate|]. auto.
Qed.

Lemma find_first {A} (p : A -> bool) (l : list A) (x : A) :
  List.find p l = Some x ->
  exists before after,
    l = before ++ x :: after /\ p x = true
    /\ forall y, In y before -> p y = false.
Proof.
  induction l as [|a r IH]; simpl; intro H; [discriminate|].
  destruct (p a) eqn:Ha.
  - injection H as <-. exists [], r. repeat split; [assumption|intros y []].
  - destruct (IH H) as [before [after [-> [Hx Hb]]]].
    exists (a :: before), after. repeat split; [assumption|].
    intros y [<-|Hy]; auto.
Qed.

Lemma opt_eqb_neq (a b : option string) : opt_eqb a b = false <-> a <> b.
Proof.
  rewrite <- opt_eqb_eq. destruct (opt_eqb a b); split; intro H;
    try discriminate; try reflexivity; try (intro; discriminate).
  exfalso. now apply H.
Qed.

(** X1.  [resolve_qname] with a tag looks at the local part only: two
    qualified names with the same local part resolve alike, whatever
    their prefixes, and the element returned is the first child of the
    root with that tag whose [name] is the local part ([None] when there
    is none).  The prefix bindings are not consulted. *)
Theorem resolve_qname_in_ignores_the_prefix
  (root : Element) (pre1 pre2 local t : string) :
  has_colon pre1 = false -> has_colon pre2 = false ->
  resolve_qname_in root (Some (pre1 ++ ":" ++ local)%string) t
  = resolve_qname_in root (Some (pre2 ++ ":" ++ local)%string) t
  /\ exists found,
       resolve_qname_in root (Some (pre1 ++ ":" ++ local)%string) t = Ok found
       /\ match found with
          | Some el =>
              exists before after,
                findall root t = before ++ el :: after
                /\ get el "name" = Some local
                /\ forall x, In x before -> get x "name" <> Some local
          | None =>
              forall x, In x (findall root t) -> get x "name" <> Some local
          end.
Proof.
  intros H1 H2. unfold resolve_qname_in.
  rewrite (split_colon_app pre1 local H1), (split_colon_app pre2 local H2).
  split; [reflexivity|]. eexists. split; [reflexivity|].
  destruct (List.find _ _) as [el|] eqn:Hf.
  - apply find_first in Hf. destruct Hf as [before [after [Hl [He Hb]]]].
    exists before, after. split; [assumption|].
    split; [now apply opt_eqb_eq|].
    intros x Hx. apply opt_eqb_neq. now apply Hb.
  - intros x Hx. apply opt_eqb_neq.
    now apply (find_none _ _ Hf).
Qed.

(** *** Messages *)

Lemma mapM_local_of (qs : list string) :
  (exists names, mapM local_of qs = Ok names)
  \/ mapM local_of qs = Raise IndexError.
Proof.
  induction qs as [|q r IH]; simpl; [left; now exists []|].
  unfold local_of at 1 3.
  destruct (split_colon q) as [[p l]|]; simpl; [|now right].
  destruct IH as [[names ->]| ->]; simpl; [left; eauto | now right].
Qed.

Lemma mapM_Raise_In {A B} (f : A -> result B) (l : list A) (e : exn) :
  mapM f l = Raise e -> exists x, In x l /\ f x = Raise e.
Proof.
  induction l as [|x r IH]; simpl; intro H; [discriminate|].
  destruct (f x) as [y|e'] eqn:Hx; simpl in H.
  - destruct (mapM f r) as [ys|e'] eqn:Hr; simpl in H; [discriminate|].
    injection H as ->. destruct (IH eq_refl) as [x' [Hin Hf]].
    exists x'. auto.
  - injection H as ->. exists x. auto.
Qed.

Lemma local_of_Raise (q : string) (e : exn) :
  local_of q = Raise e -> e = IndexError /\ has_colon q = false.
Proof.
  unfold local_of, has_colon.
  destruct (split_colon q) as [[p l]|]; intro H; [discriminate|].
  injection H as <-. auto.
Qed.

(** X2.  [find_messages] raises [IndexError] exactly when one of the
    qualified names has no colon, whatever the document holds; otherwise
    it returns, in document order, the messages under the root whose
    [name] is the local part of one of the names.  Prefixes are not
    compared. *)
Theorem find_messages_by_local_name (root : Element) (qnames : list string) :
  ((exists q, In q qnames /\ has_colon q = false)
   <-> find_messages root qnames = Raise IndexError)
  /\ ((forall q, In q qnames -> has_colon q = true)
      <-> exists keep_messages, find_messages root qnames = Ok keep_messages)
  /\ (forall keep_messages,
        find_messages root qnames = Ok keep_messages ->
        subseq keep_messages (findall root wsdl_message)
        /\ forall m, In m (findall root wsdl_message) ->
             (In m keep_messages
              <-> exists q pre local,
                    In q qnames /\ split_colon q = Some (pre, local)
                    /\ get m "name" = Some local)).
Proof.
  assert (forall q, In q qnames -> has_colon q = false ->
                    find_messages root qnames = Raise IndexError) as Hraise.
  { intros q Hin Hc. unfold find_messages.
    destruct (mapM_local_of qnames) as [[names Hn]| ->]; [|reflexivity].
    destruct (mapM_In_Ok _ _ _ _ Hn Hin) as [l [Hl _]].
    unfold local_of, has_colon in *.
    destruct (split_colon q) as [[p l']|]; discriminate. }
  assert (forall e, find_messages root qnames = Raise e ->
                    exists q, In q qnames /\ has_colon q = false /\ e = IndexError)
    as Hinv.
  { intros e H. unfold find_messages in H.
    destruct (mapM local_of qnames) as [names|e'] eqn:Hn; [discriminate|].
    simpl in H. injection H as <-.
    apply mapM_Raise_In in Hn. destruct Hn as [q [Hin Hq]].
    apply local_of_Raise in Hq. exists q. tauto. }
  split; [|split].
  - split.
    + intros [q [Hin Hc]]. now apply (Hraise q).
    + intro H. destruct (Hinv _ H) as [q [Hin [Hc _]]]. now exists q.
  - split.
    + intro Hall. destruct (find_messages root qnames) as [ms|e] eqn:Hf;
        [now exists ms|].
      destruct (Hinv _ eq_refl) as [q [Hin [Hc _]]].
      rewrite (Hall q Hin) in Hc. discriminate.
    + intros [ms Hf] q Hin. destruct (has_colon q) eqn:Hc; [reflexivity|].
      rewrite (Hraise q Hin Hc) in Hf. discriminate.
  - intros ms Hf. apply find_messages_Ok in Hf.
    destruct Hf as [names [Hn ->]]. split; [apply subseq_filter|].
    intros m Hm. rewrite filter_In, mem_str_In. split.
    + intros [_ [n [Hname Hin]]].
      apply (mapM_Ok_In _ _ _ Hn) in Hin. destruct Hin as [q [Hq Hl]].
      unfold local_of in Hl.
      destruct (split_colon q) as [[pre local]|] eqn:Hs; [|discriminate].
      injection Hl as ->. now exists q, pre, n.
    + intros [q [pre [local [Hq [Hs Hname]]]]]. split; [assumption|].
      exists local. split; [assumption|].
      apply (mapM_Ok_In _ _ _ Hn). exists q. split; [assumption|].
      unfold local_of. now rewrite Hs.
Qed.

(** ** Further properties: where a run can raise *)

Lemma mapM_Raise_first {A B} (f : A -> result B) (l : list A) (x : A)
  (e : exn) :
  (forall y e', In y l -> f y = Raise e' -> e' = e) ->
  In x l -> f x = Raise e -> mapM f l = Raise e.
Proof.
  intros Hall Hin Hx.
  destruct (mapM f l) as [ys|e'] eqn:Hm.
  - destruct (mapM_In_Ok _ _ _ _ Hm Hin) as [y [Hy _]]. congruence.
  - apply mapM_Raise_In in Hm. destruct Hm as [y [Hy Hf]].
    now rewrite (Hall y e' Hy Hf).
Qed.

Lemma porttype_is_child (root binding porttype : Element) :
  porttype_for_binding root binding = Ok (Some porttype) ->
  In porttype (children root).
Proof.
  unfold porttype_for_binding. intro H. apply resolve_qname_in_Ok in H.
  destruct H as [H _]. now apply findall_In in H.
Qed.

Lemma modify_In (h : Element) (f : Element -> Element) (root : Element) :
  In h (children root) -> In (f h) (children (modify h f root)).
Proof.
  intro H. unfold modify. simpl. apply in_map_iff. exists h.
  now rewrite Nat.eqb_refl.
Qed.

Lemma prune_bindings_loop_Aborted (bs : list Element) (target : Element)
  (keep_ops : list string) (policy_tree : option Element) (root t : Element)
  (e : exn) :
  prune_bindings_loop bs target keep_ops policy_tree root = Aborted e t ->
  e = IndexError /\ policy_tree <> None.
Proof.
  revert root. induction bs as [|b rest IH]; simpl; intros root H;
    [discriminate|].
  destruct (Nat.eqb (eid b) (eid target)); [|now apply IH in H].
  destruct policy_tree as [policy_root|]; [|now apply IH in H].
  destruct (is_soap12_binding _); [|now apply IH in H].
  unfold attach_policy_to_binding in H.
  destruct (findall policy_root wsp_UsingPolicy) as [|u us].
  - injection H as <- _. split; [reflexivity|discriminate].
  - destruct (findall policy_root wsp_Policy) as [|p ps].
    + injection H as <- _. split; [reflexivity|discriminate].
    + now apply IH in H.
Qed.

Lemma prune_ports_loop_Aborted (ports : list Element)
  (target_name : option string) (service t : Element) (e : exn) :
  prune_ports_loop ports target_name service = Aborted e t -> e = IndexError.
Proof.
  revert service. induction ports as [|p rest IH]; simpl; intros service H;
    [discriminate|].
  destruct (truthy (get p "binding")) as [bq|]; [|now apply IH in H].
  destruct (split_colon bq) as [[pre local]|].
  - destruct (opt_eqb _ _); now apply IH in H.
  - now injection H as <- _.
Qed.

Section Error_facts.

Variable QName : option string -> string -> option key.
Variable nsmap : list (string * string).

Lemma resolve_qname_Raise (v : string) (e : exn) :
  resolve_qname QName nsmap v = Raise e -> e = ValueError.
Proof.
  unfold resolve_qname. destruct (split_colon v) as [[p l]|].
  - destruct (QName _ _); [discriminate|]. now intros [= <-].
  - now intros [= <-].
Qed.

Lemma resolve_qname_no_colon (v : string) :
  has_colon v = false -> resolve_qname QName nsmap v = Raise ValueError.
Proof.
  unfold has_colon, resolve_qname.
  now destruct (split_colon v) as [[p l]|].
Qed.

Lemma mapM_resolve_Raise (l : list string) (e : exn) :
  mapM (resolve_qname QName nsmap) l = Raise e -> e = ValueError.
Proof.
  intro H. apply mapM_Raise_In in H. destruct H as [v [_ H]].
  now apply resolve_qname_Raise in H.
Qed.

Lemma expand_Raise (k : key) (nodes : list Element) (w : worklist) (e : exn) :
  expand QName nsmap k nodes w = Raise e -> e = ValueError.
Proof.
  revert w. induction nodes as [|n r IH]; simpl; intros w H; [discriminate|].
  destruct (mapM _ (refs_of n)) as [qs|e'] eqn:Hm; simpl in H.
  - now apply IH in H.
  - injection H as <-. now apply mapM_resolve_Raise in Hm.
Qed.

Lemma bfs_Raise (fuel : nat) (by_name : list (index_key * Element))
  (w : worklist) (e : exn) :
  bfs QName nsmap fuel by_name w = Some (Raise e) -> e = ValueError.
Proof.
  revert w. induction fuel as [|fuel IH]; simpl; intros w H; [discriminate|].
  destruct (queue w) as [|qn rest]; [discriminate|].
  destruct (mem_key qn (keep w)); [now apply IH in H|].
  destruct (expand _ _ _ _ _) as [w'|e'] eqn:He; [now apply IH in H|].
  injection H as <-. now apply expand_Raise in He.
Qed.

Lemma reachable_schema_items_Raise (root : Element) (seeds : list key)
  (e : exn) :
  reachable_schema_items QName nsmap root seeds = Some (Raise e) ->
  e = ValueError.
Proof.
  unfold reachable_schema_items, run_worklist.
  destruct (bfs _ _ _ _ _) as [[w|e']|] eqn:Hb; try discriminate.
  intros [= <-]. now apply bfs_Raise in Hb.
Qed.

Lemma reachable_schema_items_returns (root : Element) (seeds : list key) :
  exists r, reachable_schema_items QName nsmap root seeds = Some r.
Proof.
  unfold reachable_schema_items.
  destruct (run_worklist_terminates QName nsmap
              (build_index (find_schemas root)) seeds) as [[w|e] ->];
    eexists; reflexivity.
Qed.


(** X4.  An [element] or [type] attribute without a colon on a part of
    a kept message makes the run raise [ValueError] in
    [collect_schema_qnames_from_messages]: by then the port type and the
    messages have been pruned, the schemas, bindings and ports have not. *)
Theorem unprefixed_part_reference_aborts_after_message_pruning
  (root : Element) (service_name : string) (keep_ops : list string)
  (policy_tree : option Element)
  (service port0 target_binding target_porttype : Element)
  (ports keep_messages : list Element) (m : Element) (v : string) :
  find_service root service_name = Ok service ->
  findall service wsdl_port = port0 :: ports ->
  binding_for_port root port0 = Ok (Some target_binding) ->
  porttype_for_binding root target_binding = Ok (Some target_porttype) ->
  let root1 :=
    modify target_porttype (prune_porttype_operations keep_ops) root in
  find_messages root1
    (collect_messages_from_porttype
       (prune_porttype_operations keep_ops target_porttype))
  = Ok keep_messages ->
  In m keep_messages -> In v (message_refs m) -> has_colon v = false ->
  prune_wsdl QName nsmap root service_name keep_ops policy_tree
  = Some (Aborted ValueError (prune_messages keep_messages root1)).
Proof.
  intros Hs Hp Hb Ht root1 Hm Hin Hv Hc.
  unfold prune_wsdl. rewrite Hs, Hp, Hb, Ht. fold root1. rewrite Hm.
  unfold collect_schema_qnames_from_messages.
  rewrite (mapM_Raise_first (resolve_qname QName nsmap) _ v ValueError).
  - reflexivity.
  - intros y e' _ Hy. now apply resolve_qname_Raise in Hy.
  - apply in_flat_map. now exists m.
  - now apply resolve_qname_no_colon.
Qed.

(** X5.  The run always ends, and it raises [AttributeError] exactly
    when the first port of the service has no [binding] attribute or the
    binding found for it has no [type] attribute; the tree is then the
    input tree.  No later stage raises [AttributeError]. *)
Theorem attribute_error_is_a_missing_binding_or_type
  (root : Element) (service_name : string) (keep_ops : list string)
  (policy_tree : option Element) :
  (exists o, prune_wsdl QName nsmap root service_name keep_ops policy_tree
             = Some o)
  /\ (forall t,
        prune_wsdl QName nsmap root service_name keep_ops policy_tree
        = Some (Aborted AttributeError t) -> t = root)
  /\ (prune_wsdl QName nsmap root service_name keep_ops policy_tree
      = Some (Aborted AttributeError root)
      <-> exists service port0 ports,
            find_service root service_name = Ok service
            /\ findall service wsdl_port = port0 :: ports
            /\ (get port0 "binding" = None
                \/ exists target_binding,
                     binding_for_port root port0 = Ok (Some target_binding)
                     /\ get target_binding "type" = None)).
Proof.
  assert (forall r q t e,
            resolve_qname_in r q t = Raise e ->
            (e = AttributeError <-> q = None)) as Hres.
  { intros r q t e H. unfold resolve_qname_in in H.
    destruct q as [s|].
    - destruct (split_colon s) as [[p l]|]; [discriminate|].
      injection H as <-. split; discriminate.
    - injection H as <-. split; reflexivity. }
  assert (forall t,
            prune_wsdl QName nsmap root service_name keep_ops policy_tree
            = Some (Aborted AttributeError t) ->
            t = root
            /\ exists service port0 ports,
                 find_service root service_name = Ok service
                 /\ findall service wsdl_port = port0 :: ports
                 /\ (get port0 "binding" = None
                     \/ exists target_binding,
                          binding_for_port root port0
                          = Ok (Some target_binding)
                          /\ get target_binding "type" = None)) as Hinv.
  { intros t H. unfold prune_wsdl in H.
    destruct (find_service root service_name) as [service|e] eqn:Hs.
    2:{ injection H as -> _. unfold find_service in Hs.
        destruct (List.find _ _); discriminate. }
    destruct (findall service wsdl_port) as [|port0 ports] eqn:Hp;
      [discriminate|].
    destruct (binding_for_port root port0) as [[tb|]|e] eqn:Hb;
      [|discriminate|].
    2:{ injection H as -> <-. split; [reflexivity|].
        exists service, port0, ports. repeat split; try assumption.
        left. now apply (Hres root _ _ _ Hb). }
    destruct (porttype_for_binding root tb) as [[tp|]|e] eqn:Ht;
      [|discriminate|].
    2:{ injection H as -> <-. split; [reflexivity|].
        exists service, port0, ports. repeat split; try assumption.
        right. exists tb. split; [exact Hb|].
        now apply (Hres root _ _ _ Ht). }
    exfalso.
    destruct (find_messages _ _) as [km|e] eqn:Hm.
    2:{ injection H as -> _. unfold find_messages in Hm.
        destruct (mapM local_of _) as [names|e'] eqn:Hn; [discriminate|].
        injection Hm as ->. apply mapM_Raise_In in Hn.
        destruct Hn as [q [_ Hq]]. apply local_of_Raise in Hq.
        destruct Hq; discriminate. }
    destruct (collect_schema_qnames_from_messages _ _ _) as [seeds|e] eqn:Hq.
    2:{ injection H as -> _. apply mapM_resolve_Raise in Hq. discriminate. }
    destruct (reachable_schema_items _ _ _ _) as [[[[kk schemas] bn]|e]|]
      eqn:Hr; [| |discriminate].
    2:{ injection H as -> _. apply reachable_schema_items_Raise in Hr.
        discriminate. }
    destruct (prune_bindings _ _ _ _) as [root4|e root4] eqn:H4.
    2:{ injection H as -> _. apply prune_bindings_loop_Aborted in H4.
        destruct H4; discriminate. }
    destruct (prune_service_ports _ _) as [s5|e s5] eqn:H5; [discriminate|].
    injection H as -> _. apply prune_ports_loop_Aborted in H5. discriminate. }
  split; [|split].
  - unfold prune_wsdl.
    destruct (find_service root service_name) as [service|e];
      [|eexists; reflexivity].
    destruct (findall service wsdl_port) as [|port0 ports];
      [eexists; reflexivity|].
    destruct (binding_for_port root port0) as [[tb|]|e];
      [|eexists; reflexivity|eexists; reflexivity].
    destruct (porttype_for_binding root tb) as [[tp|]|e];
      [|eexists; reflexivity|eexists; reflexivity].
    destruct (find_messages _ _) as [km|e]; [|eexists; reflexivity].
    destruct (collect_schema_qnames_from_messages _ _ _) as [seeds|e];
      [|eexists; reflexivity].
    destruct (reachable_schema_items_returns
                (prune_unreferenced_messages km
                   (modify tp (prune_porttype_operations keep_ops) root))
                seeds) as [[[[kk schemas] bn]|e] ->];
      [|eexists; reflexivity].
    destruct (prune_bindings _ _ _ _); [|eexists; reflexivity].
    destruct (prune_service_ports _ _); eexists; reflexivity.
  - intros t H. now apply Hinv in H.
  - split.
    + intro H. now apply Hinv in H.
    + intros [service [port0 [ports [Hs [Hp Hor]]]]].
      unfold prune_wsdl. rewrite Hs, Hp.
      destruct Hor as [Hn|[tb [Hb Hn]]].
      * unfold binding_for_port. now rewrite Hn.
      * rewrite Hb. unfold porttype_for_binding. now rewrite Hn.
Qed.

(** X20.  A run raises in exactly the ways [raised_run] lists, each
    with the values of that very run.  The lookups raise [ValueError]
    or [AttributeError] and leave the input tree; [find_messages] raises
    [IndexError] with only the port type pruned; resolving the
    references of the parts or of the schemas raises [ValueError] with
    the port type and the messages pruned; the policy step, which needs
    a fragment, and [prune_service_ports] raise [IndexError], the latter
    after the bindings have been pruned. *)
Theorem where_a_run_raises
  (root : Element) (service_name : string) (keep_ops : list string)
  (policy_tree : option Element) (e : exn) (t : Element) :
  prune_wsdl QName nsmap root service_name keep_ops policy_tree
  = Some (Aborted e t)
  <-> raised_run QName nsmap root service_name keep_ops policy_tree e t.
Proof.
  assert (forall r q tg e', resolve_qname_in r q tg = Raise e' ->
                            e' = ValueError \/ e' = AttributeError) as Hres.
  { intros r q tg e' Hr. unfold resolve_qname_in in Hr.
    destruct q as [s|]; [|injection Hr as <-; now right].
    destruct (split_colon s) as [[p l]|]; [discriminate|].
    injection Hr as <-. now left. }
  split.
  - intro H. unfold prune_wsdl in H.
    destruct (find_service root service_name) as [service|e0] eqn:Hs.
    2:{ injection H as <- <-. unfold find_service in Hs.
        destruct (List.find _ _) eqn:Hf; [discriminate|].
        injection Hs as <-. apply raised_no_service; auto.
        unfold find_service. now rewrite Hf. }
    destruct (findall service wsdl_port) as [|port0 ports] eqn:Hp.
    { injection H as <- <-. now apply (raised_no_port _ _ _ _ _ _ _ _ service). }
    destruct (binding_for_port root port0) as [[tb|]|e0] eqn:Hb.
    3:{ injection H as <- <-.
        apply (raised_binding_lookup _ _ _ _ _ _ _ _ service port0 ports);
          auto. now apply (Hres _ _ _ _ Hb). }
    2:{ injection H as <- <-.
        now apply (raised_no_binding _ _ _ _ _ _ _ _ service port0 ports). }
    destruct (porttype_for_binding root tb) as [[tp|]|e0] eqn:Ht.
    3:{ injection H as <- <-.
        apply (raised_porttype_lookup _ _ _ _ _ _ _ _ service port0 tb ports);
          auto. now apply (Hres _ _ _ _ Ht). }
    2:{ injection H as <- <-.
        now apply (raised_no_porttype _ _ _ _ _ _ _ _ service port0 tb ports). }
    destruct (find_messages _ _) as [km|e0] eqn:Hm.
    2:{ injection H as <- <-.
        assert (e0 = IndexError) as ->.
        { unfold find_messages in Hm.
          destruct (mapM local_of _) as [names|e'] eqn:Hn; [discriminate|].
          injection Hm as ->. apply mapM_Raise_In in Hn.
          destruct Hn as [q [_ Hq]]. now apply local_of_Raise in Hq. }
        now apply (raised_in_find_messages _ _ _ _ _ _ _ _ service port0 tb tp
                     ports). }
    destruct (collect_schema_qnames_from_messages _ _ _) as [seeds|e0] eqn:Hq.
    2:{ injection H as <- <-. pose proof Hq as Hq'.
        apply mapM_resolve_Raise in Hq'. subst e0.
        now apply (raised_in_part_references _ _ _ _ _ _ _ _ service port0 tb
                     tp ports km). }
    unfold prune_unreferenced_messages in *.
    destruct (reachable_schema_items _ _ _ _) as [[[[kk schemas] bn]|e0]|]
      eqn:Hr; [| |discriminate].
    2:{ injection H as <- <-. pose proof Hr as Hr'.
        apply reachable_schema_items_Raise in Hr'. subst e0.
        now apply (raised_in_schema_references _ _ _ _ _ _ _ _ service port0
                     tb tp ports km seeds). }
    destruct (reachable_schema_items_Ok _ _ _ _ _ _ _ Hr) as [-> [-> _]].
    destruct (prune_bindings _ _ _ _) as [root4|e0 root4] eqn:H4.
    2:{ injection H as <- <-. pose proof H4 as H4'.
        apply prune_bindings_loop_Aborted in H4'. destruct H4' as [-> Hpol].
        now apply (raised_in_policy _ _ _ _ _ _ _ _ service port0 tb tp ports
                     km seeds kk). }
    destruct (prune_service_ports _ _) as [s5|e0 s5] eqn:H5; [discriminate|].
    injection H as <- <-. pose proof H5 as H5'.
    apply prune_ports_loop_Aborted in H5'. subst e0.
    now apply (raised_in_ports _ _ _ _ _ _ _ _ service port0 tb tp ports km
                 seeds kk root4 s5).
  - intro H. unfold prune_wsdl.
    destruct H as [Hs -> ->
                  |service Hs Hp -> ->
                  |service port0 ports Hs Hp Hb _ ->
                  |service port0 ports Hs Hp Hb -> ->
                  |service port0 tb ports Hs Hp Hb Ht _ ->
                  |service port0 tb ports Hs Hp Hb Ht -> ->
                  |service port0 tb tp ports Hs Hp Hb Ht root1 Hm -> ->
                  |service port0 tb tp ports km Hs Hp Hb Ht root1 Hm Hq -> ->
                  |service port0 tb tp ports km seeds Hs Hp Hb Ht root1 Hm
                     root2 Hq Hr -> ->
                  |service port0 tb tp ports km seeds kk Hs Hp Hb Ht root1 Hm
                     root2 Hq Hr Hpol H4 ->
                  |service port0 tb tp ports km seeds kk root4 s5 Hs Hp Hb Ht
                     root1 Hm root2 Hq Hr H4 H5 -> ->];
      rewrite ?Hs, ?Hp, ?Hb, ?Ht; try reflexivity;
      fold root1; rewrite Hm; try reflexivity;
      rewrite Hq; try reflexivity;
      unfold prune_unreferenced_messages; fold root2; rewrite Hr;
      try reflexivity; rewrite H4; try reflexivity.
    now rewrite H5.
Qed.

End Error_facts.

(** ** Further properties: the configuration *)

Section Config_extras.

Variable number : Type.
Variable nonzero : number -> bool.

Local Abbreviation json := (Config.json number).

Lemma existsb_is_string (k : string) (items : list json) :
  existsb (Config.is_string number k) items = true
  <-> In (Config.JString number k) items.
Proof.
  rewrite existsb_exists. split.
  - intros [x [Hx Hs]]. destruct x; try discriminate.
    simpl in Hs. apply String.eqb_eq in Hs. now subst.
  - intro H. exists (Config.JString number k). split; [assumption|].
    simpl. apply String.eqb_refl.
Qed.

(** X17.  [load_config] returns the entry of the service exactly when
    the configuration is an object whose ["wss"] member is an object
    with the service name as a key.  It raises [ValueError] exactly when
    ["wss"] is there and is an object, array or string that does not
    hold the name, and [KeyError] when the configuration is an object
    without ["wss"].  A ["wss"] array that lists the name passes the
    test and then raises [TypeError]. *)
Theorem load_config_returns_the_service_entry
  (cfg : json) (service_name : string) :
  (forall v,
     Config.load_config number cfg service_name = Config.Ok v
     <-> exists top wss,
           cfg = Config.JObject number top
           /\ Config.assoc number "wss" top = Some (Config.JObject number wss)
           /\ Config.assoc number service_name wss = Some v)
  /\ (Config.load_config number cfg service_name
      = Config.Raise Config.ValueError
      <-> exists top wss,
            cfg = Config.JObject number top
            /\ Config.assoc number "wss" top = Some wss
            /\ Config.contains number service_name wss = Config.Ok false)
  /\ (Config.load_config number cfg service_name
      = Config.Raise Config.KeyError
      <-> exists top,
            cfg = Config.JObject number top
            /\ Config.assoc number "wss" top = None)
  /\ (forall top items,
        cfg = Config.JObject number top ->
        Config.assoc number "wss" top = Some (Config.JArray number items) ->
        In (Config.JString number service_name) items ->
        Config.load_config number cfg service_name
        = Config.Raise Config.TypeError).
Proof.
  unfold Config.load_config.
  destruct cfg as [| b | n | s | items | top]; simpl.
  1-5: (split; [|split; [|split]];
        [ intro v; split; [discriminate | intros [t [w [H _]]]; discriminate]
        | split; [discriminate | intros [t [w [H _]]]; discriminate]
        | split; [discriminate | intros [t [H _]]; discriminate]
        | intros t its H; discriminate ]).
  destruct (Config.assoc number "wss" top) as [wss|] eqn:Hw; simpl.
  2:{ split; [|split; [|split]].
      - intro v. split; [discriminate|].
        intros [t [w [H [H' _]]]]. injection H as <-. congruence.
      - split; [discriminate|].
        intros [t [w [H [H' _]]]]. injection H as <-. congruence.
      - split; [|reflexivity]. intros _. now exists top.
      - intros t its H H'. injection H as <-. congruence. }
  destruct wss as [| b | n | s | items | members]; simpl.
  1-3: (split; [|split; [|split]];
        [ intro v; split; [discriminate|];
          intros [t [w [H [H' _]]]]; injection H as <-; congruence
        | split; [discriminate|];
          intros [t [w [H [H' H'']]]]; injection H as <-;
          rewrite Hw in H'; injection H' as <-; discriminate
        | split; [discriminate|];
          intros [t [H H']]; injection H as <-; congruence
        | intros t its H H'; injection H as <-; congruence ]).
  - (* a string *)
    destruct (String.index 0 service_name s) eqn:Hi; simpl;
      (split; [|split; [|split]]).
    + intro v. split; [discriminate|].
      intros [t [w [H [H' _]]]]. injection H as <-. congruence.
    + split; [discriminate|].
      intros [t [w [H [H' H'']]]]. injection H as <-.
      rewrite Hw in H'. injection H' as <-. simpl in H''.
      rewrite Hi in H''. discriminate.
    + split; [discriminate|]. intros [t [H H']]. injection H as <-.
      congruence.
    + intros t its H H'. injection H as <-. congruence.
    + intro v. split; [discriminate|].
      intros [t [w [H [H' _]]]]. injection H as <-. congruence.
    + split; [|reflexivity]. intros _. exists top, (Config.JString number s).
      repeat split; [assumption|]. simpl. now rewrite Hi.
    + split; [discriminate|]. intros [t [H H']]. injection H as <-.
      congruence.
    + intros t its H H'. injection H as <-. congruence.
  - (* an array *)
    destruct (existsb (Config.is_string number service_name) items) eqn:He;
      simpl; rewrite ?Hw; simpl; (split; [|split; [|split]]).
    + intro v. split; [discriminate|].
      intros [t [w [H [H' _]]]]. injection H as <-. congruence.
    + split; [discriminate|].
      intros [t [w [H [H' H'']]]]. injection H as <-.
      rewrite Hw in H'. injection H' as <-. simpl in H''.
      rewrite He in H''. discriminate.
    + split; [discriminate|]. intros [t [H H']]. injection H as <-.
      congruence.
    + reflexivity.
    + intro v. split; [discriminate|].
      intros [t [w [H [H' _]]]]. injection H as <-. congruence.
    + split; [|reflexivity]. intros _.
      exists top, (Config.JArray number items).
      repeat split; [assumption|]. simpl. now rewrite He.
    + split; [discriminate|]. intros [t [H H']]. injection H as <-.
      congruence.
    + intros t its H H' Hin. injection H as <-. rewrite Hw in H'.
      injection H' as <-. apply existsb_is_string in Hin. congruence.
  - (* an object *)
    destruct (Config.assoc number service_name members) as [entry|] eqn:Hs;
      simpl; rewrite ?Hw; simpl; rewrite ?Hs; (split; [|split; [|split]]).
    + intro v. split.
      * intros [= <-]. now exists top, members.
      * intros [t [w [H [H' H'']]]]. injection H as <-. rewrite Hw in H'.
        injection H' as <-. congruence.
    + split; [discriminate|].
      intros [t [w [H [H' H'']]]]. injection H as <-.
      rewrite Hw in H'. injection H' as <-. simpl in H''.
      rewrite Hs in H''. discriminate.
    + split; [discriminate|]. intros [t [H H']]. injection H as <-.
      congruence.
    + intros t its H H'. injection H as <-. congruence.
    + intro v. split; [discriminate|].
      intros [t [w [H [H' H'']]]]. injection H as <-. rewrite Hw in H'.
      injection H' as <-. congruence.
    + split; [|reflexivity]. intros _.
      exists top, (Config.JObject number members).
      repeat split; [assumption|]. simpl. now rewrite Hs.
    + split; [discriminate|]. intros [t [H H']]. injection H as <-.
      congruence.
    + intros t its H H'. injection H as <-. congruence.
Qed.

(** X18.  Reading the service entry, [prune_wsdl] takes
    ["keep_operations"] first: an entry that is an object without it
    raises [KeyError] whatever its ["policy_file"] says.  When the
    reading returns, the entry is an object, the keep set is the set of
    its ["keep_operations"], and a policy file is read exactly when the
    entry has a ["policy_file"] member that is true as Python sees it;
    the member is then what [build_policy_tree] is given. *)
Theorem settings_read_keep_operations_then_policy_file (entry : json) :
  (forall keep file,
     Config.settings number nonzero entry = Config.Ok (keep, file)
     <-> exists members ko,
           entry = Config.JObject number members
           /\ Config.assoc number "keep_operations" members = Some ko
           /\ Config.set_of number ko = Config.Ok keep
           /\ match file with
              | None =>
                  Config.assoc number "policy_file" members = None
                  \/ exists v,
                       Config.assoc number "policy_file" members = Some v
                       /\ Config.truth number nonzero v = false
              | Some v =>
                  Config.assoc number "policy_file" members = Some v
                  /\ Config.truth number nonzero v = true
              end)
  /\ (forall members,
        entry = Config.JObject number members ->
        Config.assoc number "keep_operations" members = None ->
        Config.settings number nonzero entry = Config.Raise Config.KeyError)
  /\ (forall names : list string,
        Config.set_of number
          (Config.JArray number (map (Config.JString number) names))
        = Config.Ok (map (Config.JString number) names)).
Proof.
  split; [|split].
  - intros keep file. unfold Config.settings, Config.policy_file.
    destruct entry as [| b | n | s | items | members]; simpl;
      try (split; [discriminate | intros [m [k [H _]]]; discriminate]).
    destruct (Config.assoc number "keep_operations" members) as [ko|] eqn:Hk;
      simpl.
    2:{ split; [discriminate|].
        intros [m [k [H [H' _]]]]. injection H as <-. congruence. }
    destruct (Config.set_of number ko) as [ks|e] eqn:Hset; simpl.
    2:{ split; [discriminate|].
        intros [m [k [H [H' [H'' _]]]]]. injection H as <-.
        rewrite Hk in H'. injection H' as <-. congruence. }
    destruct (Config.assoc number "policy_file" members) as [v|] eqn:Hp; simpl;
      rewrite ?Hp; simpl.
    + destruct (Config.truth number nonzero v) eqn:Ht; split.
      * intros [= <- <-]. exists members, ko. auto.
      * intros [m [k [H [H' [H'' Hf]]]]]. injection H as <-.
        rewrite Hk in H'. injection H' as <-. rewrite Hset in H''.
        injection H'' as <-. rewrite Hp in Hf.
        destruct file as [v'|].
        -- destruct Hf as [[= <-] _]. reflexivity.
        -- destruct Hf as [Hf|[v' [[= <-] Hf]]]; [discriminate|congruence].
      * intros [= <- <-]. exists members, ko. repeat split; auto.
        right. now exists v.
      * intros [m [k [H [H' [H'' Hf]]]]]. injection H as <-.
        rewrite Hk in H'. injection H' as <-. rewrite Hset in H''.
        injection H'' as <-. rewrite Hp in Hf.
        destruct file as [v'|]; [|reflexivity].
        destruct Hf as [[= <-] Hf]. congruence.
    + split.
      * intros [= <- <-]. exists members, ko. repeat split; auto.
      * intros [m [k [H [H' [H'' Hf]]]]]. injection H as <-.
        rewrite Hk in H'. injection H' as <-. rewrite Hset in H''.
        injection H'' as <-. rewrite Hp in Hf.
        destruct file as [v'|]; [|reflexivity].
        destruct Hf as [Hf _]. discriminate.
  - intros members -> Hk. unfold Config.settings. simpl. now rewrite Hk.
  - intro names. simpl.
    assert (forallb (Config.hashable number)
              (map (Config.JString number) names) = true) as ->;
      [|reflexivity].
    induction names as [|x r IH]; simpl; auto.
Qed.

End Config_extras.

(** ** Further properties: the ports of the service *)

Lemma ports_loop_Completed_colon (ports : list Element)
  (target_name : option string) (service service' : Element) :
  prune_ports_loop ports target_name service = Completed service' ->
  forall p bq, In p ports -> truthy (get p "binding") = Some bq ->
               has_colon bq = true.
Proof.
  revert service. induction ports as [|port rest IH]; simpl;
    intros service H p bq Hin Hb; [destruct Hin|].
  destruct Hin as [<-|Hin].
  - rewrite Hb in H. unfold has_colon.
    now destruct (split_colon bq) as [[pre local]|].
  - destruct (truthy (get port "binding")) as [bq'|];
      [|now apply (IH _ H p bq)].
    destruct (split_colon bq') as [[pre local]|]; [|discriminate].
    destruct (opt_eqb _ _); now apply (IH _ H p bq).
Qed.

Lemma ports_loop_app (before after : list Element)
  (target_name : option string) (service : Element) :
  (forall x bq, In x before -> truthy (get x "binding") = Some bq ->
                has_colon bq = true) ->
  prune_ports_loop (before ++ after) target_name service
  = prune_ports_loop after target_name
      (remove_nodes
         (filter (fun x => negb (port_kept target_name x)) before) service).
Proof.
  revert service. induction before as [|x r IH]; simpl; intros service H;
    [reflexivity|].
  assert (forall y bq, In y r -> truthy (get y "binding") = Some bq ->
                       has_colon bq = true) as Hr
    by (intros; eapply H; eauto).
  unfold port_kept at 1.
  destruct (truthy (get x "binding")) as [bq|] eqn:Hb; simpl.
  - pose proof (H x bq (or_introl eq_refl) Hb) as Hc. unfold has_colon in Hc.
    destruct (split_colon bq) as [[pre local]|]; [|discriminate].
    destruct (opt_eqb (Some local) target_name); simpl; now rewrite IH.
  - now rewrite IH.
Qed.

(** X6.  [prune_service_ports] completes exactly when every port with a
    non-empty [binding] attribute has a colon in it.  Otherwise it raises
    [IndexError] at the first port without one, and the service is left
    half pruned: of the ports before that one, those that do not name
    the target binding are gone; that port and the ports after it are
    all still there. *)
Theorem prune_service_ports_stops_at_a_binding_without_colon
  (service target_binding : Element) :
  ((forall p bq, In p (findall service wsdl_port) ->
                 truthy (get p "binding") = Some bq -> has_colon bq = true)
   <-> exists service',
         prune_service_ports service target_binding = Completed service')
  /\ (forall before p after bq,
        findall service wsdl_port = before ++ p :: after ->
        (forall x bq', In x before -> truthy (get x "binding") = Some bq' ->
                       has_colon bq' = true) ->
        truthy (get p "binding") = Some bq -> has_colon bq = false ->
        prune_service_ports service target_binding
        = Aborted IndexError
            (remove_nodes
               (filter
                  (fun x => negb (port_kept (get target_binding "name") x))
                  before) service)).
Proof.
  split.
  - split.
    + apply ports_loop_no_abort.
    + intros [service' H] p bq.
      exact (ports_loop_Completed_colon _ _ _ _ H p bq).
  - intros before p after bq Hl Hb Hp Hc. unfold prune_service_ports.
    rewrite Hl, (ports_loop_app _ _ _ _ Hb). simpl. rewrite Hp.
    unfold has_colon in Hc. now destruct (split_colon bq) as [[pre local]|].
Qed.

(** ** Further properties: pruning the messages *)

(** X15.  [prune_messages] goes by name, not by node: it leaves the
    messages whose [name] is the [name] of one of the messages to keep,
    and every child of the root that is no message.  Called with the
    result of [find_messages], it leaves exactly that list, and
    [find_messages] on the pruned tree returns the list again. *)
Theorem prune_messages_keeps_by_name
  (root : Element) (keep_messages : list Element) :
  (forall m, In m (findall (prune_messages keep_messages root) wsdl_message)
             <-> In m (findall root wsdl_message)
                 /\ exists k, In k keep_messages
                              /\ get k "name" = get m "name")
  /\ (forall t, t <> wsdl_message ->
        findall (prune_messages keep_messages root) t = findall root t)
  /\ (forall qnames,
        find_messages root qnames = Ok keep_messages ->
        findall (prune_messages keep_messages root) wsdl_message
        = keep_messages
        /\ find_messages (prune_messages keep_messages root) qnames
           = Ok keep_messages).
Proof.
  assert (forall m, In m (findall (prune_messages keep_messages root)
                            wsdl_message)
                    <-> In m (findall root wsdl_message)
                        /\ exists k, In k keep_messages
                                     /\ get k "name" = get m "name") as H1.
  { intro m. unfold prune_messages. rewrite findall_remove_children, filter_In.
    split.
    - intros [Hm Hk]. split; [assumption|].
      apply findall_In in Hm. destruct Hm as [_ Ht].
      unfold is_tag in Hk. rewrite Ht, String.eqb_refl in Hk. simpl in Hk.
      apply negb_true_iff, negb_false_iff, mem_opt_In, in_map_iff in Hk.
      destruct Hk as [k [Hk Hin]]. now exists k.
    - intros [Hm [k [Hin Hk]]]. split; [assumption|].
      apply negb_true_iff, andb_false_iff. right.
      apply negb_false_iff, mem_opt_In, in_map_iff. now exists k. }
  split; [exact H1|]. split.
  - intros t Ht. unfold prune_messages. rewrite findall_remove_children.
    rewrite <- (filter_true (findall root t)) at 2.
    apply filter_ext_in. intros c Hc. apply findall_In in Hc.
    unfold is_tag. rewrite (proj2 Hc).
    apply String.eqb_neq in Ht. now rewrite Ht.
  - intros qnames Hf. apply find_messages_Ok in Hf.
    destruct Hf as [names [Hn Hkm]].
    assert (findall (prune_messages keep_messages root) wsdl_message
            = keep_messages) as Hleft.
    { unfold prune_messages. rewrite findall_remove_children.
      etransitivity; [|symmetry; exact Hkm].
      apply filter_ext_in. intros m Hm.
      apply findall_In in Hm. unfold is_tag.
      rewrite (proj2 Hm), String.eqb_refl. simpl. rewrite negb_involutive.
      apply Bool.eq_iff_eq_true. rewrite mem_opt_In, in_map_iff. split.
      - intros [k [Hk Hin]]. rewrite Hkm in Hin. apply filter_In in Hin.
        rewrite <- Hk. apply Hin.
      - intro Hmem. exists m. split; [reflexivity|].
        rewrite Hkm. apply filter_In. split; [|assumption].
        now apply findall_In. }
    split; [exact Hleft|].
    unfold find_messages. rewrite Hn. simpl. rewrite Hleft. f_equal.
    rewrite <- (filter_true keep_messages) at 2.
    apply filter_ext_in. intros m Hm. rewrite Hkm in Hm.
    now apply filter_In in Hm.
Qed.

(** ** Further properties: the resolver computes reachability *)

Section Resolver_exact.

Variable QName : option string -> string -> option key.
Variable nsmap : list (string * string).
Variable by_name : list (index_key * Element).
Variable seeds : list key.

Local Abbreviation reach := (reachable_key QName nsmap by_name seeds).
Local Abbreviation all_reachable :=
  (worklist_reachable QName nsmap by_name seeds).
Local Abbreviation expanded := (worklist_expanded QName nsmap by_name).

Lemma all_reachable_expand (qn : key) (rest kp : list key) (tr : list event)
  (w' : worklist) :
  all_reachable (Worklist (qn :: rest) kp tr) ->
  expand QName nsmap qn (by_name_get by_name qn)
    (Worklist rest (qn :: kp) (Marked qn :: tr)) = Ok w' ->
  all_reachable w'.
Proof.
  intros Hw He k Hk.
  apply expand_Ok in He. destruct He as [qs [Hmap [Hqu [Hkp _]]]].
  simpl in *. rewrite Hqu, Hkp, in_app_iff in Hk. simpl in Hk.
  destruct Hk as [[Hin|Hin]|[<-|Hin]].
  - apply in_rev in Hin.
    apply (mapM_Ok_In _ _ _ Hmap) in Hin. destruct Hin as [v [Hv Hr]].
    apply in_flat_map in Hv. destruct Hv as [node [Hn Hv]].
    apply (reach_ref _ _ _ _ qn node v); auto. apply Hw. simpl. auto.
  - apply Hw. simpl. auto.
  - apply Hw. simpl. auto.
  - apply Hw. simpl. auto.
Qed.

Lemma run_all_reachable (w : worklist) :
  run_worklist QName nsmap seeds by_name = Some (Ok w) -> all_reachable w.
Proof.
  intro H. refine (proj1 (bfs_invariant _ _ _ all_reachable _ _ _ _ _ _ H)).
  - intros qn rest kp tr Hw Hq k Hk. simpl in *. apply Hw. simpl. tauto.
  - intros qn rest kp tr w' Hw _ He. now apply all_reachable_expand in He.
  - intros k [Hin|[]]. apply reach_seed. simpl in Hin. now apply in_rev.
Qed.

Lemma run_expanded (w : worklist) :
  run_worklist QName nsmap seeds by_name = Some (Ok w) -> expanded w.
Proof.
  intro H. refine (proj1 (bfs_invariant _ _ _ expanded _ _ _ _ _ _ H)).
  - intros qn rest kp tr Hw Hq src node v Hs Hn Hv. simpl in *.
    destruct (Hw src node v Hs Hn Hv) as [k [Hk Hor]].
    exists k. split; [assumption|].
    destruct Hor as [[<-|Hin]|Hin]; auto.
    right. now apply mem_key_In.
  - intros qn rest kp tr w' Hw Hq He src node v Hs Hn Hv.
    apply expand_Ok in He. destruct He as [qs [Hmap [Hqu [Hkp _]]]].
    simpl in *. rewrite Hkp in Hs. rewrite Hqu, Hkp.
    destruct Hs as [<-|Hs].
    + assert (In v (flat_map refs_of (by_name_get by_name qn))) as Hin
        by (apply in_flat_map; now exists node).
      destruct (mapM_In_Ok _ _ _ _ Hmap Hin) as [k [Hk Hkq]].
      exists k. split; [assumption|]. left. apply in_or_app. left.
      now apply in_rev in Hkq.
    + destruct (Hw src node v Hs Hn Hv) as [k [Hk Hor]].
      exists k. split; [assumption|]. rewrite in_app_iff. simpl in *. tauto.
  - intros src node v [].
Qed.

Lemma reach_retained (w : worklist) (k : key) :
  run_worklist QName nsmap seeds by_name = Some (Ok w) ->
  reach k -> In k (keep w).
Proof.
  intro H. destruct (run_nothing_lost _ _ _ _ _ H) as [Hl Hq].
  pose proof (run_expanded w H) as He.
  intro Hk. induction Hk as [k0 Hs|src node v k0 _ IH Hn Hv Hr].
  - destruct (Hl k0 (or_introl Hs)) as [Hin|Hin]; [|assumption].
    rewrite Hq in Hin. destruct Hin.
  - destruct (He src node v IH Hn Hv) as [k' [Hk' Hor]].
    assert (k' = k0) as -> by congruence.
    rewrite Hq in Hor. now destruct Hor as [[]|Hin].
Qed.

Lemma expand_Raise_In (k : key) (nodes : list Element) (w : worklist)
  (e : exn) :
  expand QName nsmap k nodes w = Raise e ->
  exists node v, In node nodes /\ In v (refs_of node)
                 /\ resolve_qname QName nsmap v = Raise ValueError.
Proof.
  revert w. induction nodes as [|n r IH]; simpl; intros w H; [discriminate|].
  destruct (mapM _ (refs_of n)) as [qs|e'] eqn:Hm; simpl in H.
  - destruct (IH _ H) as [node [v [Hin Hv]]]. exists node, v. auto.
  - apply mapM_Raise_In in Hm. destruct Hm as [v [Hv Hr]].
    pose proof (resolve_qname_Raise _ _ _ _ Hr) as ->.
    exists n, v. auto.
Qed.

Lemma bfs_Raise_reachable (fuel : nat) (w : worklist) (e : exn) :
  all_reachable w ->
  bfs QName nsmap fuel by_name w = Some (Raise e) ->
  unresolvable_reference QName nsmap by_name seeds.
Proof.
  revert w. induction fuel as [|fuel IH]; simpl; intros w Hw H;
    [discriminate|].
  destruct w as [q kp tr]. simpl in H. destruct q as [|qn rest];
    [discriminate|].
  destruct (mem_key qn kp) eqn:Hq.
  - apply (IH (Worklist rest kp tr)); [|assumption].
    intros k Hk. apply Hw. simpl in *. tauto.
  - destruct (expand _ _ _ _ _) as [w'|e'] eqn:He.
    + apply (IH w'); [|assumption]. now apply all_reachable_expand in He.
    + apply expand_Raise_In in He. destruct He as [node [v [Hn [Hv Hr]]]].
      exists qn, node, v. repeat split; auto. apply Hw. simpl. auto.
Qed.

End Resolver_exact.

Section Resolver_extras.

Variable QName : option string -> string -> option key.
Variable nsmap : list (string * string).

(** X7.  When [reachable_schema_items] returns, the retained set is
    exactly the set of keys that can be reached from the seeds through
    the followed attributes ([type], [ref], [base] values with a colon)
    of the nodes indexed under retained keys: nothing that can be
    reached is missing and nothing else is retained. *)
Theorem reachable_schema_items_is_the_reachable_set
  (root : Element) (seeds keep_keys : list key) (schemas : list Element)
  (by_name : list (index_key * Element)) :
  reachable_schema_items QName nsmap root seeds
  = Some (Ok (keep_keys, schemas, by_name)) ->
  by_name = build_index (find_schemas root)
  /\ forall k, In k keep_keys
               <-> reachable_key QName nsmap by_name seeds k.
Proof.
  intro H. apply reachable_schema_items_Ok in H.
  destruct H as [_ [Hb [w [Hw <-]]]]. split; [assumption|].
  intro k. split.
  - intro Hk. apply (run_all_reachable _ _ _ _ w Hw). now right.
  - now apply reach_retained.
Qed.

(** X8.  [reachable_schema_items] raises, with [ValueError], exactly
    when a followed attribute value of a node indexed under a key that
    can be reached does not resolve; a value that does not resolve under
    a key that cannot be reached does no harm. *)
Theorem reachable_schema_items_raises_on_a_reachable_bad_reference
  (root : Element) (seeds : list key) :
  (unresolvable_reference QName nsmap (build_index (find_schemas root)) seeds
   <-> reachable_schema_items QName nsmap root seeds
       = Some (Raise ValueError))
  /\ (forall e, reachable_schema_items QName nsmap root seeds
                = Some (Raise e) -> e = ValueError).
Proof.
  split; [|intros e H; now apply reachable_schema_items_Raise in H].
  unfold reachable_schema_items. split.
  - intros [src [node [v [Hs [Hn [Hv Hr]]]]]].
    destruct (run_worklist_terminates QName nsmap
                (build_index (find_schemas root)) seeds) as [[w|e] Hw];
      rewrite Hw.
    + exfalso. pose proof (reach_retained _ _ _ _ w src Hw Hs) as Hin.
      destruct (run_expanded _ _ _ _ w Hw src node v Hin Hn Hv) as [k [Hk _]].
      congruence.
    + unfold run_worklist in Hw. now rewrite (bfs_Raise _ _ _ _ _ _ Hw).
  - intro H.
    destruct (run_worklist _ _ _ _) as [[w|e]|] eqn:Hw; try discriminate.
    unfold run_worklist in Hw.
    apply (bfs_Raise_reachable QName nsmap _ seeds) in Hw; [assumption|].
    intros k [Hin|[]]. apply reach_seed. simpl in Hin. now apply in_rev.
Qed.

End Resolver_extras.

(** ** Further properties: what a run leaves *)

Section Run_extras.

Variable QName : option string -> string -> option key.
Variable nsmap : list (string * string).

(** X9.  Without a policy fragment a run that completes only deletes:
    the tree it leaves is the input tree with some subtrees taken out.
    No node is added, moved or renamed, and no attribute is changed. *)
Theorem run_without_policy_only_deletes
  (root : Element) (service_name : string) (keep_ops : list string)
  (out : Element) :
  NoDup (ids root) ->
  prune_wsdl QName nsmap root service_name keep_ops None
  = Some (Completed out) ->
  pruned_from out root
  /\ subseq (ids out) (ids root)
  /\ forall n', In n' (iter out) ->
       exists n, In n (iter root) /\ eid n' = eid n /\ tag n' = tag n
                 /\ attrib n' = attrib n.
Proof.
  intros Hn Hrun. apply prune_wsdl_Completed in Hrun.
  destruct Hrun as [service port0 tb tp ports km seeds kk root4 service5
                      Hs Hp Hb Ht root1 Hm root2 Hq Hr H4 H5 Hout].
  destruct (root4_closed root keep_ops None port0 tb tp km kk root4
              Hn Hb Ht H4) as [b' [strip [Hres _]]].
  assert (pruned_from out root) as Hpf.
  { pose proof Hres as Hres'. unfold target_binding_result in Hres'.
    injection Hres' as Hb' Hst.
    eapply out_pruned_from; try eassumption; symmetry; assumption. }
  split; [assumption|]. split.
  - clear - Hpf. revert out Hpf.
    induction root as [i t a cs IH] using Element_ind'. intros out Hpf.
    inversion Hpf as [i1 t1 a1 cs' cs1 Hcs]; subst.
    rewrite !ids_Elem. apply subseq_keep.
    rewrite Forall_forall in IH. clear Hpf.
    induction Hcs as [|x l' l _ IHl|x' x l' l Hx _ IHl]; simpl.
    + apply subseq_nil.
    + apply subseq_trans with (flat_map ids l).
      * apply IHl. intros y Hy. apply IH. now right.
      * rewrite <- (app_nil_l (flat_map ids l)) at 1.
        apply subseq_app; [apply subseq_nil_l | apply subseq_refl].
    + apply subseq_app.
      * apply IH; [now left | assumption].
      * apply IHl. intros y Hy. apply IH. now right.
  - intros n' Hin. destruct (pruned_from_iter _ _ _ Hpf Hin) as [n [Hi Hp']].
    exists n. split; [assumption|]. now apply pruned_from_tag.
Qed.

(** X10.  After a run that completes, the messages left are exactly the
    messages of the input that an [input], [output] or [fault] of an
    operation left in the port type names by local part: each message
    left is such a message, and each such message is left. *)
Theorem messages_left_are_the_ones_named
  (root : Element) (service_name : string) (keep_ops : list string)
  (policy_tree : option Element) (out : Element) :
  NoDup (ids root) ->
  prune_wsdl QName nsmap root service_name keep_ops policy_tree
  = Some (Completed out) ->
  exists pt,
    findall out wsdl_portType = [pt]
    /\ (forall m', In m' (findall out wsdl_message) ->
          exists m, In m (findall root wsdl_message) /\ eid m' = eid m)
    /\ forall m, In m (findall root wsdl_message) ->
         ((exists m', In m' (findall out wsdl_message) /\ eid m' = eid m)
          <-> exists q pre local,
                In q (collect_messages_from_porttype pt)
                /\ split_colon q = Some (pre, local)
                /\ get m "name" = Some local).
Proof.
  intros Hn Hrun. apply prune_wsdl_Completed in Hrun.
  destruct Hrun as [service port0 tb tp ports km seeds kk root4 service5
                      Hs Hp Hb Ht root1 Hm root2 Hq Hr H4 H5 Hout].
  destruct (root4_closed root keep_ops policy_tree port0 tb tp km kk root4
              Hn Hb Ht H4) as [b' [strip [Hres _]]].
  eexists. split; [eapply findall_out_porttype; eauto|]. split.
  - intros m' Hm'. eapply message_origin; eauto.
  - intros m Hin. eapply message_survivors; eauto.
Qed.

Lemma mem_str_ext (k1 k2 : list string) (o : option string) :
  (forall n, In n k1 <-> In n k2) -> mem_str o k1 = mem_str o k2.
Proof.
  intro H. apply Bool.eq_iff_eq_true. rewrite !mem_str_In.
  split; intros [n [Ho Hn]]; exists n; split; auto; now apply H.
Qed.

Lemma prune_bindings_loop_ext (k1 k2 : list string) (bs : list Element)
  (target : Element) (policy_tree : option Element) (root : Element) :
  (forall n, In n k1 <-> In n k2) ->
  prune_bindings_loop bs target k1 policy_tree root
  = prune_bindings_loop bs target k2 policy_tree root.
Proof.
  intro H. revert root. induction bs as [|b rest IH]; simpl; intro root;
    [reflexivity|].
  assert (prune_binding_operations k1 b = prune_binding_operations k2 b)
    as ->.
  { unfold prune_binding_operations, remove_children. f_equal.
    apply filter_ext. intro c. now rewrite (mem_str_ext k1 k2 _ H). }
  destruct (Nat.eqb _ _); [|apply IH].
  destruct policy_tree as [policy_root|]; [|apply IH].
  destruct (is_soap12_binding _); [|apply IH].
  destruct (attach_policy_to_binding _ _); [apply IH|reflexivity].
Qed.

(** X11.  The operations to keep act as a set: two lists with the same
    members, in whatever order and with whatever repetitions, give the
    same outcome. *)
Theorem keep_operations_acts_as_a_set
  (root : Element) (service_name : string) (k1 k2 : list string)
  (policy_tree : option Element) :
  (forall n, In n k1 <-> In n k2) ->
  prune_wsdl QName nsmap root service_name k1 policy_tree
  = prune_wsdl QName nsmap root service_name k2 policy_tree.
Proof.
  intro H.
  assert (forall x, prune_porttype_operations k1 x
                    = prune_porttype_operations k2 x) as E2.
  { intro x. unfold prune_porttype_operations, remove_children. f_equal.
    apply filter_ext. intro c. now rewrite (mem_str_ext k1 k2 _ H). }
  assert (forall tp, modify tp (prune_porttype_operations k1) root
                     = modify tp (prune_porttype_operations k2) root) as E1.
  { intro tp. unfold modify. f_equal. apply map_ext. intro c.
    now rewrite E2. }
  unfold prune_wsdl.
  destruct (find_service root service_name) as [service|e]; [|reflexivity].
  destruct (findall service wsdl_port) as [|port0 ports]; [reflexivity|].
  destruct (binding_for_port root port0) as [[tb|]|e]; try reflexivity.
  destruct (porttype_for_binding root tb) as [[tp|]|e]; try reflexivity.
  rewrite (E1 tp), (E2 tp).
  destruct (find_messages _ _) as [km|e]; [|reflexivity].
  destruct (collect_schema_qnames_from_messages _ _ _) as [seeds|e];
    [|reflexivity].
  destruct (reachable_schema_items _ _ _ _) as [[[[kk schemas] bn]|e]|];
    try reflexivity.
  unfold prune_bindings. now rewrite (prune_bindings_loop_ext k1 k2 _ _ _ _ H).
Qed.

(** X12.  A policy fragment is used only on a binding with a
    [soapbind:binding] child (the SOAP 1.1 binding namespace).  When the
    target binding has none, as when its only transport child is a
    [soap12:binding], the run with the fragment has the outcome of the
    run without it. *)
Theorem fragment_is_ignored_without_a_soapbind_child
  (root : Element) (service_name : string) (keep_ops : list string)
  (policy_root : Element) (service port0 target_binding : Element)
  (ports : list Element) :
  NoDup (ids root) ->
  find_service root service_name = Ok service ->
  findall service wsdl_port = port0 :: ports ->
  binding_for_port root port0 = Ok (Some target_binding) ->
  findall target_binding soapbind_binding = [] ->
  prune_wsdl QName nsmap root service_name keep_ops (Some policy_root)
  = prune_wsdl QName nsmap root service_name keep_ops None.
Proof.
  intros Hn Hs Hp Hb Hsoap. unfold prune_wsdl. rewrite Hs, Hp, Hb.
  destruct (porttype_for_binding root target_binding) as [[tp|]|e] eqn:Ht;
    try reflexivity.
  destruct (find_messages _ _) as [km|e]; [|reflexivity].
  destruct (collect_schema_qnames_from_messages _ _ _) as [seeds|e];
    [|reflexivity].
  destruct (reachable_schema_items _ _ _ _) as [[[[kk schemas] bn]|e]|]
    eqn:Hr; try reflexivity.
  destruct (reachable_schema_items_Ok _ _ _ _ _ _ _ Hr) as [-> _].
  unfold prune_unreferenced_messages.
  pose proof (distinct_top_root3 root keep_ops tp km kk Hn) as Hd.
  pose proof (binding_in_root3 root keep_ops port0 target_binding tp km kk
                Hn Hb Ht) as Hin.
  pose proof (prune_bindings_closed _ _ target_binding keep_ops
                (Some policy_root) Hd Hin (update_eid _ _ _)) as H1.
  pose proof (prune_bindings_closed _ _ target_binding keep_ops
                None Hd Hin (update_eid _ _ _)) as H2.
  unfold target_binding_result in H1, H2.
  assert (is_soap12_binding
            (prune_binding_operations keep_ops
               (update_nodes
                  (map eid
                     (find_schemas
                        (prune_messages km
                           (modify tp (prune_porttype_operations keep_ops)
                              root))))
                  (prune_schema_node kk) target_binding)) = false) as Hf.
  { unfold is_soap12_binding, find, prune_binding_operations.
    rewrite findall_remove_children, update_findall by tag_facts.
    now rewrite Hsoap. }
  rewrite Hf in H1. now rewrite H1, H2.
Qed.

(** X16.  What the run has no business with passes through as it is:
    a child of the root that is no message, binding, port type or
    root-level policy element, is not the service the run works on, and
    holds no [xsd:schema], is a child of the output, unchanged.  This
    covers the other services with all their ports, documentation and
    imports. *)
Theorem other_children_pass_through
  (root : Element) (service_name : string) (keep_ops : list string)
  (policy_tree : option Element) (out c : Element) :
  NoDup (ids root) ->
  prune_wsdl QName nsmap root service_name keep_ops policy_tree
  = Some (Completed out) ->
  In c (children root) ->
  tag c <> wsdl_message -> tag c <> wsdl_binding -> tag c <> wsdl_portType ->
  tag c <> wsp_Policy -> tag c <> wsp_UsingPolicy ->
  find_service root service_name <> Ok c ->
  (forall y, In y (iter c) -> tag y <> xsd_schema) ->
  In c (children out).
Proof.
  intros Hn Hrun Hc Hm Hb Hp Hpol Hup Hsv Hsch.
  apply prune_wsdl_Completed in Hrun.
  destruct Hrun as [service port0 tb tp ports km seeds kk root4 service5
                      Hs Hp0 Hb0 Ht root1 Hm0 root2 Hq Hr H4 H5 Hout].
  destruct (root4_closed root keep_ops policy_tree port0 tb tp km kk root4
              Hn Hb0 Ht H4) as [b' [strip [Hres _]]].
  apply String.eqb_neq in Hm, Hb, Hp, Hpol, Hup.
  eapply passes_through; eauto.
  intros ->. now apply Hsv.
Qed.

(** X19.  With nothing to keep, a run that completes leaves the port
    type and the binding without operations and the document without
    messages. *)
Theorem empty_keep_set_leaves_no_operation_and_no_message
  (root : Element) (service_name : string) (policy_tree : option Element)
  (out : Element) :
  NoDup (ids root) ->
  prune_wsdl QName nsmap root service_name [] policy_tree
  = Some (Completed out) ->
  findall out wsdl_message = []
  /\ exists pt b,
       findall out wsdl_portType = [pt] /\ findall pt wsdl_operation = []
       /\ findall out wsdl_binding = [b] /\ findall b wsdl_operation = [].
Proof.
  intros Hn Hrun. apply prune_wsdl_Completed in Hrun.
  destruct Hrun as [service port0 tb tp ports km seeds kk root4 service5
                      Hs Hp Hb Ht root1 Hm root2 Hq Hr H4 H5 Hout].
  destruct (root4_closed root [] policy_tree port0 tb tp km kk root4
              Hn Hb Ht H4) as [b' [strip [Hres _]]].
  destruct (run_summary QName nsmap root service_name [] policy_tree
              service port0 tb tp ports km seeds kk root4 service5 out
              Hn Hs Hp Hb Ht Hm H4 H5 Hout b' strip Hres Hq Hr)
    as [_ [Hpt [Hbd [_ [_ [_ [_ [_ [Hob [Hop _]]]]]]]]]].
  assert (forall l : list (option string),
            filter (fun n => mem_str n []) l = []) as Hnil
    by (intro l; apply filter_none; reflexivity).
  rewrite Hnil in Hob, Hop. unfold op_names in Hob, Hop.
  apply map_eq_nil in Hob, Hop.
  split.
  - destruct (findall out wsdl_message) as [|m' rest] eqn:Hms; [reflexivity|].
    exfalso.
    assert (In m' (findall out wsdl_message)) as Hin by (rewrite Hms; now left).
    assert (exists m, In m (findall root wsdl_message) /\ eid m' = eid m)
      as [m [Hmr He]] by (eapply message_origin; eauto).
    assert (exists q pre local,
              In q (collect_messages_from_porttype
                      (update_nodes
                         (map eid
                            (find_schemas
                               (prune_messages km
                                  (modify tp (prune_porttype_operations [])
                                     root))))
                         (prune_schema_node kk)
                         (prune_porttype_operations [] tp)))
              /\ split_colon q = Some (pre, local)
              /\ get m "name" = Some local) as [q [pre [local [Hq' _]]]].
    { eapply message_survivors; eauto. }
    unfold collect_messages_from_porttype in Hq'. rewrite Hop in Hq'.
    destruct Hq'.
  - eexists. exists b'. repeat split; eassumption.
Qed.

(** X22.  When a run with a policy fragment completes on a target
    binding that has a [soapbind:binding] child, the output has no
    [wsp:Policy] and no [wsp:UsingPolicy] child under the root any more,
    and its one binding holds the first [Policy] node of the fragment. *)
Theorem splice_strips_the_root_level_policy
  (root : Element) (service_name : string) (keep_ops : list string)
  (policy_root : Element) (service port0 target_binding : Element)
  (ports : list Element) (out : Element) :
  NoDup (ids root) ->
  find_service root service_name = Ok service ->
  findall service wsdl_port = port0 :: ports ->
  binding_for_port root port0 = Ok (Some target_binding) ->
  findall target_binding soapbind_binding <> [] ->
  prune_wsdl QName nsmap root service_name keep_ops (Some policy_root)
  = Some (Completed out) ->
  findall out wsp_Policy = []
  /\ findall out wsp_UsingPolicy = []
  /\ exists b p ps,
       findall out wsdl_binding = [b]
       /\ findall policy_root wsp_Policy = p :: ps
       /\ In p (children b).
Proof.
  intros Hn Hs0 Hp0 Hb0 Hsoap Hrun. apply prune_wsdl_Completed in Hrun.
  destruct Hrun as [service' port0' tb tp ports' km seeds kk root4 service5
                      Hs Hp Hb Ht root1 Hm root2 Hq Hr H4 H5 Hout].
  assert (service' = service) as -> by congruence.
  assert (port0' = port0) as -> by congruence.
  assert (tb = target_binding) as -> by congruence.
  destruct (root4_closed root keep_ops (Some policy_root) port0 target_binding
              tp km kk root4 Hn Hb Ht H4) as [b' [strip [Hres _]]].
  destruct (run_summary QName nsmap root service_name keep_ops
              (Some policy_root) service port0 target_binding tp ports' km
              seeds kk root4 service5 out Hn Hs Hp Hb Ht Hm H4 H5 Hout b'
              strip Hres Hq Hr)
    as [_ [_ [Hbd _]]].
  pose proof Hres as Hres'. unfold target_binding_result in Hres'.
  assert (is_soap12_binding
            (prune_binding_operations keep_ops
               (update_nodes
                  (map eid
                     (find_schemas
                        (prune_messages km
                           (modify tp (prune_porttype_operations keep_ops)
                              root))))
                  (prune_schema_node kk) target_binding)) = true) as Hsb.
  { unfold is_soap12_binding, find, prune_binding_operations.
    rewrite findall_remove_children, update_findall by tag_facts.
    destruct (findall target_binding soapbind_binding) as [|x r] eqn:Hx;
      [now elim Hsoap|].
    assert (is_tag wsdl_operation x = false) as Hop.
    { assert (In x (findall target_binding soapbind_binding)) as Hin
        by (rewrite Hx; now left).
      apply findall_In in Hin. unfold is_tag. now rewrite (proj2 Hin). }
    simpl. rewrite is_tag_pruned_gen, Hop. reflexivity. }
  rewrite Hsb in Hres'.
  unfold attach_policy_to_binding in Hres'.
  destruct (findall policy_root wsp_UsingPolicy) as [|u us]; [discriminate|].
  destruct (findall policy_root wsp_Policy) as [|p ps] eqn:Hpol;
    [discriminate|].
  injection Hres' as Hb' Hst.
  split; [|split].
  - eapply root_policy_stripped; eauto.
  - eapply root_policy_stripped; eauto.
  - exists b', p, ps. split; [assumption|]. split; [reflexivity|].
    rewrite <- Hb'. unfold insert. simpl. apply in_insert_at. now left.
Qed.

End Run_extras.

(** ** Further properties: what schema pruning leaves *)

Section Schema_extras.

Variable handles : list nat.
Variable keep_keys : list key.

Local Abbreviation PS := (update_nodes handles (prune_schema_node keep_keys)).

Lemma update_child_In (x c' : Element) :
  In c' (children (PS x)) -> exists c, In c (children x) /\ c' = PS c.
Proof.
  intro H.
  pose proof (subseq_In _ _ c' (update_children_subseq _ _ x) H) as Hin.
  apply in_map_iff in Hin. destruct Hin as [c [<- Hc]]. now exists c.
Qed.

Lemma update_iter_In (x d' : Element) :
  In d' (iter (PS x)) -> exists d, In d (iter x) /\ d' = PS d.
Proof.
  induction x as [i t a cs IH] using Element_ind'. intro H.
  rewrite iter_unfold in H. destruct H as [<-|H].
  - exists (Elem i t a cs). split; [apply iter_self | reflexivity].
  - unfold descendants in H. apply in_flat_map in H.
    destruct H as [c' [Hc' Hd']].
    destruct (update_child_In _ _ Hc') as [c [Hc ->]]. simpl in Hc.
    rewrite Forall_forall in IH. destruct (IH c Hc Hd') as [d [Hd ->]].
    exists d. split; [|reflexivity]. simpl. right.
    apply in_flat_map. now exists c.
Qed.

Lemma find_schemas_update (root sch' : Element) :
  In sch' (find_schemas (PS root)) ->
  exists sch, In sch (find_schemas root) /\ sch' = PS sch.
Proof.
  unfold find_schemas. intro H. apply in_flat_map in H.
  destruct H as [t' [Ht' Hs']]. apply filter_In in Ht'.
  destruct Ht' as [Ht' Htag]. unfold descendants in Ht'.
  apply in_flat_map in Ht'. destruct Ht' as [c' [Hc' Ht']].
  destruct (update_child_In _ _ Hc') as [c [Hc ->]].
  destruct (update_iter_In _ _ Ht') as [t [Ht ->]].
  apply findall_In in Hs'. destruct Hs' as [Hs' Hstag].
  destruct (update_child_In _ _ Hs') as [sch [Hsch ->]].
  exists sch. split; [|reflexivity].
  apply in_flat_map. exists t. split.
  - apply filter_In. split.
    + unfold descendants. apply in_flat_map. now exists c.
    + unfold is_tag in *. now rewrite update_tag in Htag.
  - apply findall_In. split; [assumption|]. now rewrite update_tag in Hstag.
Qed.

End Schema_extras.

(** X13.  After [prune_schemas], every schema that
    [.//wsdl:types/xsd:schema] finds in the tree is one of the schemas
    pruned; it has no [xsd:import] and no [xsd:include] child left, and
    every named [xsd:element], [xsd:complexType] or [xsd:simpleType]
    child left in it has its key, the schema's [targetNamespace] with
    the name, in the retained set. *)
Theorem prune_schemas_leaves_retained_items_only
  (root : Element) (keep_keys : list key) (sch : Element) :
  In sch (find_schemas (prune_schemas keep_keys (find_schemas root) root)) ->
  In (eid sch) (map eid (find_schemas root))
  /\ findall sch xsd_import = []
  /\ findall sch xsd_include = []
  /\ forall item name,
       In item (children sch) ->
       tag item = xsd_element \/ tag item = xsd_complexType
       \/ tag item = xsd_simpleType ->
       get item "name" = Some name ->
       In (get sch "targetNamespace", name) keep_keys.
Proof.
  unfold prune_schemas. intro H.
  destruct (find_schemas_update _ _ _ _ H) as [sch0 [H0 ->]].
  assert (In (eid sch0) (map eid (find_schemas root))) as Hid
    by now apply in_map.
  assert (forall item,
            In item (children
                      (update_nodes (map eid (find_schemas root))
                         (prune_schema_node keep_keys) sch0)) ->
            schema_drops keep_keys (get sch0 "targetNamespace") item = false)
    as Hdrop.
  { intros item Hi. rewrite update_children in Hi.
    apply mem_nat_In in Hid. rewrite Hid in Hi. apply filter_In in Hi.
    now apply negb_true_iff. }
  rewrite update_eid, update_get. split; [assumption|].
  assert (forall t, (forall item, schema_drops keep_keys
                                    (get sch0 "targetNamespace") item = false ->
                                  is_tag t item = false) ->
                    findall (update_nodes (map eid (find_schemas root))
                               (prune_schema_node keep_keys) sch0) t = [])
    as Hnone.
  { intros t Ht. unfold findall.
    apply filter_none. intros item Hi. apply Ht. now apply Hdrop. }
  unfold schema_drops in *.
  split; [|split].
  - apply Hnone. intros item Hd. apply orb_false_iff in Hd.
    destruct Hd as [Hd _]. apply orb_false_iff in Hd. tauto.
  - apply Hnone. intros item Hd. apply orb_false_iff in Hd. tauto.
  - intros item name Hi Htag Hname. apply Hdrop in Hi.
    repeat (apply orb_false_iff in Hi; destruct Hi as [Hi ?]).
    unfold child_unkept, is_tag in *. rewrite Hname in *.
    apply mem_key_In.
    destruct Htag as [Ht|[Ht|Ht]]; rewrite Ht in *;
      rewrite String.eqb_refl in *; simpl in *;
      match goal with
      | H : negb (mem_key ?k ?s) = false |- mem_key ?k ?s = true =>
          now apply negb_false_iff in H
      end.
Qed.


(** ** Further properties: where the policy nodes land *)

(** X14.  When [attach_policy_to_binding] completes, the binding holds
    the [UsingPolicy] node of the fragment at index 0 or 1 and the
    [Policy] node of the fragment behind it, at index 2 at most.  Its
    other children are the children it had, in their order, without the
    first [UsingPolicy] and the first [Policy] child it had; further
    [UsingPolicy] or [Policy] children stay. *)
Theorem attach_policy_positions
  (binding policy_root u p : Element) (us ps : list Element) :
  findall policy_root wsp_UsingPolicy = u :: us ->
  findall policy_root wsp_Policy = p :: ps ->
  ~ In (eid u) (top_ids binding) ->
  exists b' l1 l2 l3,
    attach_policy_to_binding binding policy_root = Completed b'
    /\ children b' = l1 ++ u :: l2 ++ p :: l3
    /\ List.length l1 <= 1
    /\ List.length l1 + List.length l2 <= 1
    /\ l1 ++ l2 ++ l3
       = children (remove_first wsp_Policy
                     (remove_first wsp_UsingPolicy binding)).
Proof.
  intros Hu Hp Hfresh. unfold attach_policy_to_binding. rewrite Hu, Hp.
  assert (is_tag wsp_Policy u = false) as Htu.
  { assert (In u (findall policy_root wsp_UsingPolicy)) as Hin
      by (rewrite Hu; now left).
    apply findall_In in Hin. unfold is_tag. rewrite (proj2 Hin).
    reflexivity. }
  assert (forall c, In c (children (remove_first wsp_UsingPolicy binding)) ->
                    Nat.eqb (eid u) (eid c) = false) as Hne.
  { intros c Hc. apply Nat.eqb_neq. intro He. apply Hfresh. rewrite He.
    apply in_map.
    exact (subseq_In _ _ c (remove_first_children binding wsp_UsingPolicy) Hc). }
  destruct (remove_first wsp_UsingPolicy binding) as [i t a cs1].
  simpl in Hne. destruct cs1 as [|x r].
  - eexists. exists [], [], [].
    unfold insert, insert_at, remove_first, find, findall.
    simpl. rewrite Htu. simpl. repeat split; lia.
  - unfold insert at 2. unfold insert_at. simpl.
    unfold remove_first, find, findall, remove_node. simpl. rewrite Htu.
    destruct (is_tag wsp_Policy x) eqn:Hx; simpl.
    + rewrite Nat.eqb_refl, (Hne x (or_introl eq_refl)). simpl.
      set (r' := filter (fun c => negb (Nat.eqb (eid c) (eid x))) r).
      eexists. exists [], (firstn 1 r'), (skipn 1 r').
      unfold insert, insert_at. simpl.
      split; [reflexivity|]. split; [reflexivity|]. split; [lia|].
      split; [clearbody r'; destruct r'; simpl; lia
             | clearbody r'; now destruct r'].
    + destruct (filter (is_tag wsp_Policy) r) as [|n rest] eqn:Hf; simpl.
      * eexists. exists [x], [], r. unfold insert, insert_at. simpl.
        repeat split; lia.
      * assert (In n r) as Hn.
        { assert (In n (filter (is_tag wsp_Policy) r)) as H
            by (rewrite Hf; now left).
          now apply filter_In in H. }
        rewrite (Hne n (or_intror Hn)). simpl.
        set (r' := filter (fun c => negb (Nat.eqb (eid c) (eid n))) r).
        destruct (Nat.eqb (eid x) (eid n)); simpl.
        -- eexists. exists [], (firstn 1 r'), (skipn 1 r').
           unfold insert, insert_at. simpl.
           split; [reflexivity|]. split; [reflexivity|]. split; [lia|].
           split; [clearbody r'; destruct r'; simpl; lia
             | clearbody r'; now destruct r'].
        -- eexists. exists [x], [], r'. unfold insert, insert_at. simpl.
           repeat split; lia.
Qed.

(** ** The claims at concrete documents *)

Lemma C2_witness :
  exists r,
    run_worklist qname_of tns_map [key_Node] recursive_index = Some r /\
    forall w, r = Ok w ->
      queue w = [] /\
      NoDup (keep w) /\
      marks (trace w) = keep w /\
      well_logged (trace w) /\
      (forall later earlier src k,
         trace w = later ++ Pushed src k :: earlier ->
         exists ps tr0, earlier = map (Pushed src) ps ++ Marked src :: tr0).
Proof.
  exact (C2_worklist_terminates_and_marks_once qname_of tns_map
           [key_Node] recursive_index).
Defined.

(** C2 as worded fails on a self-referential item: [Node] is marked,
    then expanding it pushes [Node] again. *)
Lemma C2_marked_key_is_pushed_again :
  exists w,
    run_worklist qname_of tns_map [key_Node] recursive_index = Some (Ok w) /\
    ~ never_pushed_once_marked (trace w).
Proof.
  eexists. split; [vm_compute; reflexivity|].
  intro H. apply (H [] [Marked key_Node] key_Node key_Node).
  - reflexivity.
  - left. reflexivity.
Qed.

Lemma C8_witness :
  by_name_get recursive_index key_string = [] /\
  forall seeds w,
    run_worklist qname_of tns_map seeds recursive_index = Some (Ok w) ->
    In key_string seeds \/ (exists src, In (Pushed src key_string) (trace w)) ->
    In key_string (keep w) /\ forall x, ~ In (Pushed key_string x) (trace w).
Proof.
  split; [reflexivity|].
  apply (C8_undeclared_key_is_retained_leaf qname_of tns_map
           recursive_index key_string).
  reflexivity.
Defined.


Lemma C3_witness :
  exists pt b svc,
    findall scenario_a_out wsdl_portType = [pt]
    /\ findall scenario_a_out wsdl_binding = [b]
    /\ eid b = eid binding_B
    /\ get b "name" = get binding_B "name"
    /\ In svc (findall scenario_a_out wsdl_service)
    /\ eid svc = eid service_S
    /\ get svc "name" = Some "S"
    /\ map eid (findall svc wsdl_port)
       = eid port_P :: map eid (filter (port_kept (get b "name")) [])
    /\ (forall p,
          port_kept (get b "name") p = true
          <-> exists bq pre local,
                get p "binding" = Some bq
                /\ split_colon bq = Some (pre, local)
                /\ get b "name" = Some local)
    /\ (forall p', In p' (findall svc wsdl_port) ->
          exists p, In p (port_P :: []) /\ eid p' = eid p
                    /\ attrib p' = attrib p
                    /\ port_kept (get b "name") p = true).
Proof.
  apply (C3_one_interface_one_binding_ports_of_the_binding qname_of tns_map
           scenario_a "S" ["Get"] None service_S port_P binding_B []
           scenario_a_out).
  - apply distinctb_NoDup. vm_compute. reflexivity.
  - vm_compute. reflexivity.
  - vm_compute. reflexivity.
  - vm_compute. reflexivity.
  - vm_compute. reflexivity.
Defined.

(** C3 as worded fails when two ports of the service name the target
    binding: both are left. *)
Lemma C3_two_ports_survive :
  exists out,
    prune_wsdl qname_of tns_map two_ports_doc "S" ["Get"] None
    = Some (Completed out)
    /\ List.length (all_ports out) = 2.
Proof. eexists. split; vm_compute; reflexivity. Qed.

Lemma C5_witness :
  lookup_fails scenario_a "Nope"
  /\ exists e,
       prune_wsdl qname_of tns_map scenario_a "Nope" ["Get"] None
       = Some (Aborted e scenario_a).
Proof.
  assert (lookup_fails scenario_a "Nope") as H.
  { apply service_not_found. simpl. intros svc [<-|[]]. discriminate. }
  split; [exact H|].
  exact (C5_lookup_failure_aborts_before_mutation qname_of tns_map
           scenario_a "Nope" ["Get"] None H).
Defined.

(** C6.  The test before the policy step at two documents that differ in
    the transport element of the binding only.  On the SOAP 1.2 binding
    ([soap12:binding]) [is_soap12_binding] is false and the run with a
    fragment prunes the operations and splices nothing; on the SOAP 1.1
    binding ([soapbind:binding]) it is true and the fragment is
    spliced. *)
Theorem C6_soap12_binding_is_left_without_the_policy :
  is_soap12_binding binding_soap12_two = false
  /\ prune_wsdl qname_of tns_map soap12_service_doc "S" ["Get"]
       (Some policy_fragment)
     = Some (Completed soap12_service_out)
  /\ is_soap12_binding binding_soap11_two = true
  /\ prune_wsdl qname_of tns_map soap11_service_doc "S" ["Get"]
       (Some policy_fragment)
     = Some (Completed soap11_service_out)
  /\ findall binding_soap12_two soap12_binding <> []
  /\ findall binding_soap11_two soap12_binding = [].
Proof.
  repeat split; try (vm_compute; reflexivity).
  vm_compute. discriminate.
Qed.

Lemma scenario_a_reaches_bindings :
  reaches_bindings qname_of tns_map scenario_a "S" ["Get"] service_S
    binding_B porttype_PT scenario_a_before_bindings.
Proof.
  eapply (Reaches qname_of tns_map scenario_a "S" ["Get"] service_S binding_B
            porttype_PT scenario_a_before_bindings port_P []);
    vm_compute; reflexivity.
Defined.

Lemma C7_witness :
  exists bs1 b bs2,
    findall scenario_a_before_bindings wsdl_binding = bs1 ++ b :: bs2
    /\ eid b = eid binding_B
    /\ let b1 := prune_binding_operations ["Get"] b in
       let stripped :=
         prune_existing_policy
           (store b1 (remove_nodes bs1 scenario_a_before_bindings)) in
       (findall policy_without_policy wsp_UsingPolicy = [] ->
        prune_wsdl qname_of tns_map scenario_a "S" ["Get"]
          (Some policy_without_policy)
        = Some (Aborted IndexError
                  (store (remove_first wsp_UsingPolicy b1) stripped)))
       /\ (forall u us,
             findall policy_without_policy wsp_UsingPolicy = u :: us ->
             findall policy_without_policy wsp_Policy = [] ->
             prune_wsdl qname_of tns_map scenario_a "S" ["Get"]
               (Some policy_without_policy)
             = Some (Aborted IndexError
                       (store
                          (remove_first wsp_Policy
                             (insert 1 u (remove_first wsp_UsingPolicy b1)))
                          stripped)))
       /\ (forall u us p ps,
             findall policy_without_policy wsp_UsingPolicy = u :: us ->
             findall policy_without_policy wsp_Policy = p :: ps ->
             let root4 :=
               remove_nodes bs2
                 (store
                    (insert 2 p
                       (remove_first wsp_Policy
                          (insert 1 u (remove_first wsp_UsingPolicy b1))))
                    stripped) in
             prune_bindings scenario_a_before_bindings binding_B ["Get"]
               (Some policy_without_policy)
             = Completed root4
             /\ prune_wsdl qname_of tns_map scenario_a "S" ["Get"]
                  (Some policy_without_policy)
                = match prune_service_ports (deref root4 service_S)
                          binding_B with
                  | Aborted e service5 =>
                      Some (Aborted e (store service5 root4))
                  | Completed service5 =>
                      Some (Completed
                              (clean_unused_namespaces
                                 (prune_unused_porttypes porttype_PT
                                    (store service5 root4))))
                  end).
Proof.
  apply (C7_run_raises_in_the_policy_step_iff_a_node_is_missing qname_of
           tns_map scenario_a "S" ["Get"] policy_without_policy service_S
           binding_B porttype_PT scenario_a_before_bindings).
  - apply distinctb_NoDup. vm_compute. reflexivity.
  - exact scenario_a_reaches_bindings.
  - vm_compute. discriminate.
Defined.

(** The trees the two kinds of lacking fragment leave on [scenario_a]:
    the messages, the schema items and the operations that are not kept
    are gone when the policy step raises. *)
Lemma scenario_a_raises_in_the_policy_step :
  prune_wsdl qname_of tns_map scenario_a "S" ["Get"]
    (Some policy_without_using)
  = Some (Aborted IndexError scenario_a_raised_without_using)
  /\ prune_wsdl qname_of tns_map scenario_a "S" ["Get"]
       (Some policy_without_policy)
     = Some (Aborted IndexError scenario_a_raised_without_policy)
  /\ scenario_a_raised_without_using <> scenario_a
  /\ scenario_a_raised_without_policy <> scenario_a.
Proof.
  repeat split; try (vm_compute; reflexivity); vm_compute; discriminate.
Qed.

(** C7 as worded fails on a fragment with two [UsingPolicy] nodes: the
    first is spliced and the run completes. *)
Lemma C7_two_using_policy_nodes_attach :
  ~ exactly_one wsp_UsingPolicy policy_two_using
  /\ exists out,
       prune_wsdl qname_of tns_map scenario_a "S" ["Get"]
         (Some policy_two_using) = Some (Completed out).
Proof.
  split.
  - intros [n H]. vm_compute in H. discriminate.
  - eexists. vm_compute. reflexivity.
Qed.

Lemma C9_witness :
  exists b pt,
    findall scenario_a_out wsdl_binding = [b]
    /\ findall scenario_a_out wsdl_portType = [pt]
    /\ op_names b = filter (fun n => mem_str n ["Get"]) (op_names binding_B)
    /\ op_names pt = filter (fun n => mem_str n ["Get"]) (op_names porttype_PT)
    /\ ((forall n, In n ["Get"] ->
           (In (Some n) (op_names binding_B)
            <-> In (Some n) (op_names porttype_PT))) ->
        forall n, In n (op_names b) <-> In n (op_names pt)).
Proof.
  apply (C9_surviving_operations_are_the_kept_ones qname_of tns_map
           scenario_a "S" ["Get"] None scenario_a_out service_S port_P
           binding_B porttype_PT []).
  - apply distinctb_NoDup. vm_compute. reflexivity.
  - reflexivity.
  - reflexivity.
  - reflexivity.
  - reflexivity.
  - vm_compute. reflexivity.
Defined.

(** C9 as worded fails when the binding of the input lacks a kept
    operation of the interface. *)
Lemma C9_binding_without_the_operation :
  exists out b pt,
    prune_wsdl qname_of tns_map unbound_operation_doc "S" ["Get"] None
    = Some (Completed out)
    /\ findall out wsdl_binding = [b]
    /\ findall out wsdl_portType = [pt]
    /\ In (Some "Get") (op_names pt)
    /\ ~ In (Some "Get") (op_names b).
Proof.
  do 3 eexists. split; [vm_compute; reflexivity|].
  split; [reflexivity|]. split; [reflexivity|].
  split; [left; reflexivity | intros []].
Qed.

Lemma C1_witness :
  exists keep_keys b pt svc,
    retained_by_run qname_of tns_map scenario_a "S" ["Get"] keep_keys
    /\ findall scenario_a_out wsdl_binding = [b]
    /\ findall scenario_a_out wsdl_portType = [pt]
    /\ In svc (findall scenario_a_out wsdl_service)
    /\ get svc "name" = Some "S"
    /\ (forall msg v,
          In msg (findall scenario_a_out wsdl_message) ->
          In v (message_refs msg) ->
          exists k, resolve_qname qname_of tns_map v = Ok k /\ In k keep_keys)
    /\ parts_name_surviving_declarations qname_of tns_map top_schemas
         scenario_a scenario_a_out
    /\ operations_name_surviving_messages collected_message_refs
         scenario_a scenario_a_out
    /\ (forall bop tp op,
          In bop (findall b wsdl_operation) ->
          In tp (findall scenario_a wsdl_portType) -> eid tp = eid pt ->
          In op (findall tp wsdl_operation) ->
          get op "name" = get bop "name" ->
          exists op', In op' (findall pt wsdl_operation) /\ eid op' = eid op)
    /\ (forall p, In p (findall svc wsdl_port) ->
          exists bq pre local,
            get p "binding" = Some bq /\ split_colon bq = Some (pre, local)
            /\ get b "name" = Some local).
Proof.
  apply (C1_references_of_the_target_are_closed qname_of tns_map
           scenario_a "S" ["Get"] None scenario_a_out).
  - apply distinctb_NoDup. vm_compute. reflexivity.
  - vm_compute. reflexivity.
Defined.

(** C1 as worded fails in four ways.  On a document with a second
    service, the port of that service is left and names a binding that
    the run has removed.  On an operation with two inputs, the message
    of the second input is removed while the operation that names it is
    left.  A message that only a [soap:header] of the binding names is
    removed while the binding operation is left.  And a declaration in
    a schema that lies below another declaration goes with that
    declaration, though its key is retained and a part names it. *)
Lemma C1_references_left_dangling :
  (prune_wsdl qname_of tns_map two_services_doc "S" ["Get"] None
   = Some (Completed two_services_out)
   /\ ~ ports_name_surviving_bindings two_services_doc two_services_out)
  /\ (prune_wsdl qname_of tns_map two_inputs_doc "S" ["Get"] None
      = Some (Completed two_inputs_out)
      /\ ~ operations_name_surviving_messages operation_message_refs
             two_inputs_doc two_inputs_out)
  /\ (prune_wsdl qname_of tns_map header_doc "S" ["Get"] None
      = Some (Completed header_out)
      /\ ~ binding_operations_name_surviving_messages header_doc header_out)
  /\ (prune_wsdl qname_of tns_map buried_doc "S" ["Get"] None
      = Some (Completed buried_out)
      /\ ~ parts_name_surviving_declarations qname_of tns_map find_schemas
             buried_doc buried_out).
Proof.
  split; [|split; [|split]]; (split; [vm_compute; reflexivity|]); intro H.
  - destruct (H (Elem 29 wsdl_port [("name", "P2"); ("binding", "tns:B2")] [])
                "tns:B2" "tns" "B2"
                (Elem 26 wsdl_binding [("name", "B2"); ("type", "tns:PT")]
                   [Elem 27 wsdl_operation [("name", "Get")] []]))
      as [b' [Hin Hname]].
    + simpl. auto.
    + reflexivity.
    + reflexivity.
    + simpl. auto.
    + reflexivity.
    + simpl in Hin. destruct Hin as [<-|[]]. discriminate.
  - destruct (H (Elem 14 wsdl_portType [("name", "PT")] [operation_two_inputs])
                operation_two_inputs "tns:M2" "tns" "M2" message_M2)
      as [m' [Hin He]].
    + simpl. auto.
    + simpl. auto.
    + simpl. auto.
    + reflexivity.
    + simpl. auto.
    + reflexivity.
    + simpl in Hin. destruct Hin as [<-|[]]. discriminate.
  - destruct (H binding_with_header operation_with_header "tns:H" "tns" "H"
                message_H) as [m' [Hin He]].
    + simpl. auto.
    + simpl. auto.
    + simpl. auto.
    + reflexivity.
    + simpl. auto.
    + reflexivity.
    + simpl in Hin. destruct Hin as [<-|[]]. discriminate.
  - destruct (H message_with_part_A "tns:A" (Some "urn:t", "A") schema_buried
                element_A) as [sch' [item' [Hin [_ [Hitem _]]]]].
    + simpl. auto.
    + simpl. auto.
    + vm_compute. reflexivity.
    + vm_compute. auto.
    + simpl. auto.
    + reflexivity.
    + vm_compute in Hin. destruct Hin as [<-|[]]. destruct Hitem.
Qed.

Lemma scenario_a_types_at_top : types_at_top scenario_a.
Proof.
  intros c d Hc Hd. simpl in Hc.
  repeat (destruct Hc as [<-|Hc]; [vm_compute in Hd;
    repeat (destruct Hd as [<-|Hd]; [discriminate|]); destruct Hd|]).
  destruct Hc.
Qed.

Lemma C4_witness :
  prune_wsdl qname_of tns_map scenario_a_spliced "S" ["Get"]
    (Some policy_fragment)
  = Some (Completed scenario_a_spliced).
Proof.
  apply (C4_second_run_changes_nothing qname_of tns_map scenario_a "S"
           ["Get"] (Some policy_fragment) service_S port_P binding_B []
           scenario_a_spliced).
  - apply distinctb_NoDup. vm_compute. reflexivity.
  - exact scenario_a_types_at_top.
  - vm_compute. reflexivity.
  - vm_compute. reflexivity.
  - vm_compute. reflexivity.
  - intros pr u us p ps Hpol _ Hu Hp. injection Hpol as <-.
    vm_compute in Hu. injection Hu as <- <-.
    vm_compute in Hp. injection Hp as <- <-.
    split; [|split].
    + exists (Elem 20 soapbind_binding [] []),
        [Elem 21 wsdl_operation [("name", "Get")] []].
      split; [reflexivity|]. split; vm_compute; discriminate.
    + apply distinctb_NoDup. vm_compute. reflexivity.
    + intros d Hd. vm_compute in Hd.
      destruct Hd as [<-|[<-|[]]]; discriminate.
  - vm_compute. reflexivity.
Defined.

(** The same without a fragment: the condition on the splice holds of
    itself. *)
Lemma scenario_a_out_is_a_fixed_point :
  prune_wsdl qname_of tns_map scenario_a_out "S" ["Get"] None
  = Some (Completed scenario_a_out).
Proof.
  apply (C4_second_run_changes_nothing qname_of tns_map scenario_a "S"
           ["Get"] None service_S port_P binding_B [] scenario_a_out).
  - apply distinctb_NoDup. vm_compute. reflexivity.
  - exact scenario_a_types_at_top.
  - vm_compute. reflexivity.
  - vm_compute. reflexivity.
  - vm_compute. reflexivity.
  - intros pr u us p ps Hpol. discriminate.
  - vm_compute. reflexivity.
Qed.

(** C4 as worded fails in three ways.  With a fragment, on a binding
    whose old policy comes before its transport element, the first run
    leaves the new [UsingPolicy] node before the transport element and
    the second run moves it behind.  Without a fragment, a [wsdl:types]
    element inside a schema item breaks the fixed point: the first run
    follows the reference of [X] to [C] and then deletes [X]; the second
    run deletes [C].  And with a fragment that carries a schema in its
    [Policy] node, the second run reads that schema, which the first
    run never saw, and raises on a reference in it. *)
Lemma C4_second_run_differs :
  (prune_wsdl qname_of tns_map policy_first_doc "S" ["Get"]
     (Some policy_fragment) = Some (Completed policy_first_out)
   /\ prune_wsdl qname_of tns_map policy_first_out "S" ["Get"]
        (Some policy_fragment) = Some (Completed policy_first_out2)
   /\ policy_first_out2 <> policy_first_out
   /\ (forall b, In b (findall policy_first_out wsdl_binding) ->
         map tag (children b)
         = [wsp_UsingPolicy; soapbind_binding; wsp_Policy])
   /\ (forall b, In b (findall policy_first_out2 wsdl_binding) ->
         map tag (children b)
         = [soapbind_binding; wsp_UsingPolicy; wsp_Policy]))
  /\ (~ types_at_top nested_types_doc
      /\ prune_wsdl qname_of tns_map nested_types_doc "S" ["Get"] None
         = Some (Completed nested_types_out)
      /\ prune_wsdl qname_of tns_map nested_types_out "S" ["Get"] None
         = Some (Completed nested_types_out2)
      /\ nested_types_out2 <> nested_types_out)
  /\ (prune_wsdl qname_of tns_map scenario_a "S" ["Get"]
        (Some policy_with_schema)
      = Some (Completed scenario_a_schema_spliced)
      /\ prune_wsdl qname_of tns_map scenario_a_schema_spliced "S" ["Get"]
           (Some policy_with_schema)
         = Some (Aborted ValueError scenario_a_schema_spliced)).
Proof.
  split; [|split].
  - split; [vm_compute; reflexivity|].
    split; [vm_compute; reflexivity|].
    split; [vm_compute; discriminate|].
    split; intros b Hb; vm_compute in Hb; destruct Hb as [<-|[]];
      reflexivity.
  - split.
    { intro H.
      apply (H (Elem 1 wsdl_types [] [
                  Elem 2 xsd_schema [("targetNamespace", "urn:t")] [
                    Elem 3 xsd_element [("name", "A")] [
                      Elem 40 wsdl_types [] [
                        Elem 41 xsd_schema [("targetNamespace", "urn:t")] [
                          Elem 42 xsd_element
                            [("name", "X"); ("type", "tns:C")] []]]];
                    Elem 9 xsd_complexType [("name", "C")] []]])
               (Elem 40 wsdl_types [] [
                  Elem 41 xsd_schema [("targetNamespace", "urn:t")] [
                    Elem 42 xsd_element
                      [("name", "X"); ("type", "tns:C")] []]])).
      - simpl. auto.
      - vm_compute. auto.
      - reflexivity. }
    split; [vm_compute; reflexivity|].
    split; [vm_compute; reflexivity|].
    vm_compute. discriminate.
  - split; vm_compute; reflexivity.
Qed.

(** ** The further properties at concrete documents *)

Lemma resolve_qname_in_ignores_the_prefix_witness :
  resolve_qname_in scenario_a (Some ("tns" ++ ":" ++ "B")%string) wsdl_binding
  = resolve_qname_in scenario_a (Some ("other" ++ ":" ++ "B")%string)
      wsdl_binding
  /\ exists found,
       resolve_qname_in scenario_a (Some ("tns" ++ ":" ++ "B")%string)
         wsdl_binding = Ok found
       /\ match found with
          | Some el =>
              exists before after,
                findall scenario_a wsdl_binding = before ++ el :: after
                /\ get el "name" = Some "B"
                /\ forall x, In x before -> get x "name" <> Some "B"
          | None =>
              forall x, In x (findall scenario_a wsdl_binding) ->
                        get x "name" <> Some "B"
          end.
Proof.
  apply (resolve_qname_in_ignores_the_prefix scenario_a "tns" "other" "B"
           wsdl_binding); reflexivity.
Defined.


Lemma unprefixed_part_reference_witness :
  prune_wsdl qname_of tns_map unprefixed_part_doc "S" ["Get"] None
  = Some (Aborted ValueError
            (prune_messages [message_unprefixed]
               (modify porttype_PT (prune_porttype_operations ["Get"])
                  unprefixed_part_doc))).
Proof.
  apply (unprefixed_part_reference_aborts_after_message_pruning
           qname_of tns_map unprefixed_part_doc "S" ["Get"] None
           service_S port_P binding_B porttype_PT [] [message_unprefixed]
           message_unprefixed "GetRequestElt").
  - reflexivity.
  - reflexivity.
  - reflexivity.
  - reflexivity.
  - vm_compute. reflexivity.
  - left. reflexivity.
  - vm_compute. left. reflexivity.
  - reflexivity.
Defined.

Lemma reachable_set_witness :
  snd scenario_a_reached = build_index (find_schemas scenario_a)
  /\ forall k, In k (fst (fst scenario_a_reached))
               <-> reachable_key qname_of tns_map (snd scenario_a_reached)
                     [key_GetRequestElt] k.
Proof.
  apply (reachable_schema_items_is_the_reachable_set qname_of tns_map
           scenario_a [key_GetRequestElt] (fst (fst scenario_a_reached))
           (snd (fst scenario_a_reached)) (snd scenario_a_reached)).
  vm_compute. reflexivity.
Defined.

Lemma only_deletes_witness :
  pruned_from scenario_a_out scenario_a
  /\ subseq (ids scenario_a_out) (ids scenario_a)
  /\ forall n', In n' (iter scenario_a_out) ->
       exists n, In n (iter scenario_a) /\ eid n' = eid n /\ tag n' = tag n
                 /\ attrib n' = attrib n.
Proof.
  apply (run_without_policy_only_deletes qname_of tns_map scenario_a "S"
           ["Get"] scenario_a_out).
  - apply distinctb_NoDup. vm_compute. reflexivity.
  - vm_compute. reflexivity.
Defined.

Lemma messages_left_witness :
  exists pt,
    findall scenario_a_out wsdl_portType = [pt]
    /\ (forall m', In m' (findall scenario_a_out wsdl_message) ->
          exists m, In m (findall scenario_a wsdl_message) /\ eid m' = eid m)
    /\ forall m, In m (findall scenario_a wsdl_message) ->
         ((exists m', In m' (findall scenario_a_out wsdl_message)
                      /\ eid m' = eid m)
          <-> exists q pre local,
                In q (collect_messages_from_porttype pt)
                /\ split_colon q = Some (pre, local)
                /\ get m "name" = Some local).
Proof.
  apply (messages_left_are_the_ones_named qname_of tns_map scenario_a "S"
           ["Get"] None scenario_a_out).
  - apply distinctb_NoDup. vm_compute. reflexivity.
  - vm_compute. reflexivity.
Defined.

Lemma keep_operations_set_witness :
  prune_wsdl qname_of tns_map scenario_a "S" ["List"; "Get"; "Get"] None
  = prune_wsdl qname_of tns_map scenario_a "S" ["Get"; "List"] None.
Proof.
  apply (keep_operations_acts_as_a_set qname_of tns_map scenario_a "S"
           ["List"; "Get"; "Get"] ["Get"; "List"] None).
  intro n. simpl. tauto.
Defined.

Lemma fragment_ignored_witness :
  prune_wsdl qname_of tns_map soap12_doc "S" ["Get"] (Some policy_fragment)
  = prune_wsdl qname_of tns_map soap12_doc "S" ["Get"] None.
Proof.
  apply (fragment_is_ignored_without_a_soapbind_child qname_of tns_map
           soap12_doc "S" ["Get"] policy_fragment service_S port_P
           binding_soap12 []).
  - apply distinctb_NoDup. vm_compute. reflexivity.
  - reflexivity.
  - reflexivity.
  - reflexivity.
  - reflexivity.
Defined.

Lemma schemas_left_witness :
  In (eid scenario_a_schema_left) (map eid (find_schemas scenario_a))
  /\ findall scenario_a_schema_left xsd_import = []
  /\ findall scenario_a_schema_left xsd_include = []
  /\ forall item name,
       In item (children scenario_a_schema_left) ->
       tag item = xsd_element \/ tag item = xsd_complexType
       \/ tag item = xsd_simpleType ->
       get item "name" = Some name ->
       In (get scenario_a_schema_left "targetNamespace", name)
          (fst (fst scenario_a_reached)).
Proof.
  apply (prune_schemas_leaves_retained_items_only scenario_a
           (fst (fst scenario_a_reached)) scenario_a_schema_left).
  vm_compute. left. reflexivity.
Defined.

Lemma attach_policy_positions_witness :
  exists b' l1 l2 l3,
    attach_policy_to_binding binding_B policy_fragment = Completed b'
    /\ children b' = l1 ++ using_node_101 :: l2 ++ policy_node_102 :: l3
    /\ List.length l1 <= 1
    /\ List.length l1 + List.length l2 <= 1
    /\ l1 ++ l2 ++ l3
       = children (remove_first wsp_Policy
                     (remove_first wsp_UsingPolicy binding_B)).
Proof.
  apply (attach_policy_positions binding_B policy_fragment using_node_101
           policy_node_102 [] []).
  - reflexivity.
  - reflexivity.
  - vm_compute. intuition discriminate.
Defined.

Lemma other_service_passes_through_witness :
  In service_S2 (children two_services_out).
Proof.
  apply (other_children_pass_through qname_of tns_map two_services_doc "S"
           ["Get"] None two_services_out service_S2).
  - apply distinctb_NoDup. vm_compute. reflexivity.
  - vm_compute. reflexivity.
  - vm_compute. auto 10.
  - intro H. vm_compute in H. discriminate.
  - intro H. vm_compute in H. discriminate.
  - intro H. vm_compute in H. discriminate.
  - intro H. vm_compute in H. discriminate.
  - intro H. vm_compute in H. discriminate.
  - intro H. vm_compute in H. discriminate.
  - intros y Hy H. vm_compute in Hy.
    destruct Hy as [<-|[<-|[]]]; vm_compute in H; discriminate.
Defined.

Lemma empty_keep_set_witness :
  findall scenario_a_nothing wsdl_message = []
  /\ exists pt b,
       findall scenario_a_nothing wsdl_portType = [pt]
       /\ findall pt wsdl_operation = []
       /\ findall scenario_a_nothing wsdl_binding = [b]
       /\ findall b wsdl_operation = [].
Proof.
  apply (empty_keep_set_leaves_no_operation_and_no_message qname_of tns_map
           scenario_a "S" None scenario_a_nothing).
  - apply distinctb_NoDup. vm_compute. reflexivity.
  - vm_compute. reflexivity.
Defined.


Lemma splice_strips_witness :
  findall root_policy_out wsp_Policy = []
  /\ findall root_policy_out wsp_UsingPolicy = []
  /\ exists b p ps,
       findall root_policy_out wsdl_binding = [b]
       /\ findall policy_fragment wsp_Policy = p :: ps
       /\ In p (children b).
Proof.
  apply (splice_strips_the_root_level_policy qname_of tns_map
           root_policy_doc "S" ["Get"] policy_fragment service_S port_P
           binding_soap11 [] root_policy_out).
  - apply distinctb_NoDup. vm_compute. reflexivity.
  - reflexivity.
  - reflexivity.
  - reflexivity.
  - vm_compute. discriminate.
  - vm_compute. reflexivity.
Defined.
